(* ===== verification/_CoqProject ===== *)
-Q . S2P
Prelude.v
GoErrors.v
Contextx.v
GoStrings.v
Json.v
JsonRead.v
JsonTrip.v
Http.v
Response.v
Gcra.v
Binary64.v
GcraFacts.v
GcraFloat.v
RateLimit.v
RateWindow.v
RateLimitFacts.v
Idempotency.v
Middleware.v
Grpc.v
GrpcRate.v
RateSim.v
Auth.v
AuthRate.v
Base64.v
Jwks.v
JwksFacts.v
JwksFlight.v
JwksFlightFacts.v
JwksFlightLive.v
WebSim.v
ChainSim.v
FlightSim.v
Otel.v
Database.v
RedisCache.v
Logging.v
Server.v
Health.v
Hash.v
Config.v
Settings.v
DataSim.v
Kafka.v
Producer.v
Consumer.v
ConsumerFacts.v
ConsumerOrder.v
GroupDelivery.v
Manager.v
Sim.v
AsyncAudit.v
AuditFacts.v
AuditLines.v
AuditSim.v
KafkaLog.v
