(* ===== verification/Prelude.v ===== *)
(** * helix-fnd: a verification of the service foundation library

    helix-fnd is a Go library with the parts every service of a fleet needs:
    HTTP and gRPC servers with their middleware, a Kafka consumer and producer,
    audit logs, JWT verification, database and cache clients, logging and
    configuration. This development translates the library's code into
    executable definitions and proves what makes each part correct. Paths are
    relative to [src/].

    ** How Go is modelled

    - A call that has effects is a value of the monad [Go World Event A]
      (this file): a function from the state [World] of what is outside the
      component to a [run], which holds the state afterwards, the trace of the
      events it made (log lines, spans, handler calls, commits, pauses), and an
      [exit]: [Ret], [Panic], or [Running] for a loop whose fuel is used up.
      A deferred [recover] is [recovering] and an unbounded [for] is [for_loop].
    - [int], [int64] and [time.Duration] are integers of [Z]; every operation
      that can leave 64 bits is written with its wrap-around ([wrap64]).
    - A string is the sequence of its bytes. Maps are [gmap]s, except where the
      order or duplicates are visible (headers of a record, attributes of a log
      line), which are lists.
    - An error is a tree of wrapped errors with the standard [errors.Is] and
      [errors.As] ([GoErrors.v]); a context is the chain of its values
      ([Contextx.v], for [pkg/contextx/context.go]); strings, JSON encoding
      and the [ResponseWriter] with its wrappers are in [GoStrings.v], [Json.v]
      and [Http.v]. [JsonRead.v] is a reader of JSON, the specification of the
      encoder, and [JsonTrip.v] proves that an encoding is one line of text that
      reads back as the value.
    - Goroutines are the threads of a step relation; a step is one channel or
      atomic operation, one call of a library, or one round of a loop, and
      theorems are about every interleaving.
    - A library (franz-go, Redis, pgx, bcrypt, the JWT parser, OpenTelemetry)
      is a class of operations, an argument of the definitions that call it.
      Where a theorem relies on what the library documents, that is a class of
      laws and a hypothesis of the theorem; [Sim.v], [RateSim.v], [WebSim.v],
      [ChainSim.v], [FlightSim.v], [DataSim.v] and [AuditSim.v] have concrete instances of all of
      them, and run the theorems there.

    ** The files

    Messaging, [messaging/]:
    - [Kafka.v]: the interface of the client, of contexts and timers.
    - [Producer.v] ([producer.go]): [NewProducer], [Publish], [Close], and the
      class [DLQProducer], which the consumer's theorems are proved against.
    - [Consumer.v] ([consumer.go]): [processWithRetry], [move_to_dlq],
      [process_records], [poll_body], [Start]. [ConsumerFacts.v]: a record is
      acknowledged in strict mode only when handled or quarantined; retries end
      and back off as configured. [ConsumerOrder.v]: the delivery contract as
      an abstract machine, and that every run of [Start] follows it.
      [GroupDelivery.v]: sessions of a consumer group that are cut off anywhere and
      resume from the committed offsets; every record that is passed was settled, or
      came in a poll with an error, whose records [Start] skips.
    - [Manager.v] ([manager.go]): consumer goroutines and wait group.

    Audit, [audit/]:
    - [AsyncAudit.v] ([async_writer.go]): [Log], the worker and [Close] as
      [audit_step]. [AuditFacts.v]: no event is lost, duplicated or reordered
      between the channel and the writer, drops are counted, and [Close] drains.
      [AuditLines.v]: the lines written read back as the events, and the writer's
      first error is the worker's last.
      [KafkaLog.v]: the Kafka and the no-op logger.

    Web, [server/], [http/response/] and [crypto/]:
    - [Gcra.v], [RateLimit.v] ([middleware/ratelimit.go]): the Lua script, the
      handler and the fallback limiter. [GcraFacts.v]: the script with exact
      arithmetic refines a token bucket, and refused clients wait at most one
      emission interval. [Binary64.v], [GcraFloat.v]: binary64 numbers as
      rationals with the error of each operation, and what follows for the script
      as Redis computes it: the rate in a window and the time after which a refused
      client is admitted, with a margin for the rounding. [RateWindow.v]: what a
      limiter that asks the script for every request lets through in a window, for
      any kind of request; [RateLimitFacts.v] and [GrpcRate.v] apply it to HTTP
      requests and gRPC calls.
    - [Idempotency.v] ([middleware/idempotency.go]): the gate, and concurrent
      requests as [idem_step]; mutual exclusion up to the expiry of the lock.
    - [Middleware.v], [Grpc.v], [Auth.v]: the other HTTP middleware and gRPC
      interceptors of [middleware/], and the authentication over any strategy.
      [AuthRate.v]: the authentication in front of the rate limiter bounds the
      requests of a principal, whatever addresses they come from.
    - [Base64.v], [Jwks.v] ([crypto/jwks_client.go]); [JwksFacts.v]: what a key
      cache holds, which tokens are accepted, and the authentication theorem
      end to end, from the request's header to the key that signed its token.
      [JwksFlight.v]: the same client with any number of concurrent calls, its
      refresher, the read-write lock and [singleflight]; a step accesses one shared
      variable. [JwksFlightFacts.v]: no data race, one fetch at a time, the cache
      never goes back to an older key set, accepted tokens are authentic.
      [JwksFlightLive.v]: calls can always return, and a call that runs alone does
      what the sequential definition does.
    - [Response.v], [Health.v], [Server.v]: error codes and JSON envelope,
      health handlers, and the servers' life with its graceful shutdown.

    Data and operation:
    - [Otel.v], [Database.v] ([database/]), [RedisCache.v] ([cache/redis.go]):
      error mapping, pool and client construction, balanced spans.
    - [Logging.v] ([log/logger.go], [pkg/telemetry/otel_handler.go]): redaction
      of the attributes at every depth (groups themselves are not redacted), the
      enrichment of spans, and loggers derived with attributes and groups.
    - [Hash.v] ([crypto/hash.go]), [Config.v] ([config/loader.go], [app/]),
      [Settings.v] (the tags of the configuration structs, [audit/config.go] among
      them).

    ** Fuel

    Only loops that Go does not bound have fuel: [for_loop n] runs at most [n]
    rounds. [Start rfuel fuel] gives [fuel] to the poll loop, which runs until
    the context is cancelled, and [rfuel] to each retry loop. Safety theorems
    hold for all fuel, so for every prefix of an endless run. That a loop ends is
    proved separately: [retries_terminate] shows that [MaxRetries] rounds are enough
    for the retry loop, and [cancel_lets_close_return] that the poll loops end
    once they are cancelled. Functions that go through a string by more than one
    byte at a time ([escape_bytes], [trim_left], the reader of [JsonRead.v]) have its
    length as their fuel, and the round trips show that this is enough; [Itoa] has the
    20 digits of a 64-bit number. All the other definitions are structural.

    ** What is not modelled

    - What rounding does to the token bucket. The bounds on a window and the
      retry of a refused client are about the script in binary64, which is what
      Redis computes with; the equivalence with a token bucket and the bound on the
      wait in [GcraFacts.v] are about exact rationals, and with rounding Redis can
      admit a request a little early ([rounding_admits_early]).
    - The rendering of log lines, stack traces, durations in log lines and the
      attributes of most of them.
    - What a writer leaves behind of a line it fails to write: the output of the
      audit logger has the lines written in full.
    - Imports and package clauses apart, the lines without a definition are
      constructors that only fill a struct ([NewChecker], [NewJWTStrategy],
      [newRedisTracingHook]) and the declarations of the two metrics.
    - The decoders of JSON, YAML and tokens, HTTP and TLS below the
      [ResponseWriter], and the servers' sockets: they are parameters.

    ** What comes next

    A token bucket with slack that the binary64 script refines; rebalances that take
    a partition away while its records are being processed; longer chains of middleware, as a service
    would build them from the parts. *)

From Stdlib Require Export ZArith Lia Ascii.
From stdpp Require Export prelude strings gmap list.

(** ** Go integers *)

(** Go's [int], [int64] and [time.Duration] are 64-bit two's complement
    numbers: they are integers of [Z] together with an explicit wrap-around. *)
Definition wrap64 (z : Z) : Z := ((z + 2 ^ 63) mod 2 ^ 64 - 2 ^ 63)%Z.

(** Go's [uint64]. *)
Definition wrapu64 (z : Z) : Z := (z mod 2 ^ 64)%Z.

Definition max_int64 : Z := (2 ^ 63 - 1)%Z.
Definition min_int64 : Z := (- 2 ^ 63)%Z.

Definition is_int64 (z : Z) : Prop := (min_int64 ≤ z ≤ max_int64)%Z.

#[export] Instance is_int64_dec z : Decision (is_int64 z).
Proof. unfold is_int64. apply _. Defined.

(** [time.Time.Sub] and [time.Since] saturate instead of wrapping. *)
Definition sat64 (z : Z) : Z := (Z.max min_int64 (Z.min max_int64 z))%Z.

Lemma wrap64_id z : is_int64 z → wrap64 z = z.
Proof.
  unfold is_int64, wrap64, min_int64, max_int64; intros [??].
  rewrite Z.mod_small; lia.
Qed.

Lemma wrap64_range z : is_int64 (wrap64 z).
Proof.
  unfold is_int64, wrap64, min_int64, max_int64.
  pose proof (Z.mod_pos_bound (z + 2 ^ 63) (2 ^ 64)); lia.
Qed.

Lemma wrapu64_id z : (0 ≤ z < 2 ^ 64)%Z → wrapu64 z = z.
Proof. intros; unfold wrapu64; rewrite Z.mod_small; lia. Qed.

Lemma wrapu64_range z : (0 ≤ wrapu64 z < 2 ^ 64)%Z.
Proof. unfold wrapu64; apply Z.mod_pos_bound; lia. Qed.

Lemma sat64_id z : is_int64 z → sat64 z = z.
Proof. unfold is_int64, sat64, min_int64, max_int64; lia. Qed.

(** Durations, in nanoseconds. *)
Definition Nanosecond : Z := 1%Z.
Definition Microsecond : Z := (1000 * Nanosecond)%Z.
Definition Millisecond : Z := (1000 * Microsecond)%Z.
Definition Second : Z := (1000 * Millisecond)%Z.
Definition Minute : Z := (60 * Second)%Z.
Definition Hour : Z := (60 * Minute)%Z.

(** ** Results: the [(value, error)] pairs of Go *)

Inductive result (A E : Type) : Type :=
| Ok (a : A)
| Err (e : E).
Arguments Ok {A E} a.
Arguments Err {A E} e.

#[export] Instance result_eq_dec `{EqDecision A, EqDecision E} : EqDecision (result A E).
Proof. solve_decision. Defined.

Definition is_ok {A E} (r : result A E) : bool :=
  match r with Ok _ => true | Err _ => false end.

(** ** The effect monad

    A call [m : Go S E A] started in the state [s] (the heap, the services and
    the environment the call can see) gives the state it leaves, the list of
    the observable effects in the order they happen, and the way it exits:
    with a value, with a panic, or not at all within the fuel given
    to its loops. *)

Inductive exit (A : Type) : Type :=
| Ret (a : A)
| Panic (v : string)
| Running.
Arguments Ret {A} a.
Arguments Panic {A} v.
Arguments Running {A}.

#[export] Instance exit_eq_dec `{EqDecision A} : EqDecision (exit A).
Proof. solve_decision. Defined.

Record run (S E A : Type) : Type := mkRun {
  post : S;
  trace : list E;
  out : exit A;
}.
Arguments mkRun {S E A}.
Arguments post {S E A}.
Arguments trace {S E A}.
Arguments out {S E A}.

Definition Go (S E A : Type) : Type := S → run S E A.

Section monad.
Context {S E : Type}.

#[export] Instance go_ret : MRet (Go S E) :=
  λ A a s, mkRun s [] (Ret a).

#[export] Instance go_bind : MBind (Go S E) :=
  λ A B k m s,
    match m s with
    | mkRun s1 t1 (Ret a) => let r := k a s1 in mkRun (post r) (t1 ++ trace r) (out r)
    | mkRun s1 t1 (Panic v) => mkRun s1 t1 (Panic v)
    | mkRun s1 t1 Running => mkRun s1 t1 Running
    end.

(** Emit one observable effect. *)
Definition emit (e : E) : Go S E unit := λ s, mkRun s [e] (Ret tt).

(** Several effects in a row. *)
Definition emit_all (l : list E) : Go S E unit := λ s, mkRun s l (Ret tt).

(** Go's [panic]. *)
Definition gopanic {A} (v : string) : Go S E A := λ s, mkRun s [] (Panic v).

(** The exit of a loop whose fuel is used up. *)
Definition running {A} : Go S E A := λ s, mkRun s [] Running.

(** Read and transform the state. *)
Definition gets {A} (f : S → A) : Go S E A := λ s, mkRun s [] (Ret (f s)).
Definition modify (f : S → S) : Go S E unit := λ s, mkRun (f s) [] (Ret tt).

(** A state transformer with a result: a call to the environment. *)
Definition lift {A} (f : S → S * A) : Go S E A :=
  λ s, let '(s', a) := f s in mkRun s' [] (Ret a).

(** [defer func() { if rec := recover(); rec != nil { h rec } }()]: a panic of
    [m] is handled by [h], whose value is what the call returns. *)
Definition recovering {A} (m : Go S E A) (h : string → Go S E A) : Go S E A :=
  λ s,
    match m s with
    | mkRun s1 t1 (Panic v) => let r := h v s1 in mkRun (post r) (t1 ++ trace r) (out r)
    | r => r
    end.

(** Two calls are equivalent when every run of them is the same. *)
Definition go_equiv {A} (m1 m2 : Go S E A) : Prop := ∀ s, m1 s = m2 s.

#[export] Instance go_equiv_equivalence A : Equivalence (@go_equiv A).
Proof.
  split; unfold go_equiv.
  - done.
  - by intros m1 m2 H s.
  - intros m1 m2 m3 H1 H2 s. by rewrite H1.
Qed.

#[export] Instance go_bind_proper A B :
  Proper (pointwise_relation A go_equiv ==> go_equiv ==> go_equiv)
    (mbind (M := Go S E) (A := A) (B := B)).
Proof.
  intros k1 k2 Hk m1 m2 Hm s. unfold mbind, go_bind. rewrite (Hm s).
  destruct (m2 s) as [s1 t1 [a| |]]; [|done..]. by rewrite (Hk a s1).
Qed.

Lemma go_bind_ret_l {A B} (a : A) (k : A → Go S E B) :
  go_equiv (mret a ≫= k) (k a).
Proof. intros s. unfold mbind, mret, go_bind, go_ret. cbn. by destruct (k a s). Qed.

Lemma go_bind_ret_r {A} (m : Go S E A) : go_equiv (m ≫= mret) m.
Proof.
  intros s. unfold mbind, go_bind. destruct (m s) as [s1 t1 [a| |]]; [|done..].
  unfold mret, go_ret. cbn. by rewrite app_nil_r.
Qed.

Lemma go_bind_assoc {A B C} (m : Go S E A) (k1 : A → Go S E B) (k2 : B → Go S E C) :
  go_equiv ((m ≫= k1) ≫= k2) (m ≫= λ a, k1 a ≫= k2).
Proof.
  intros s. unfold mbind, go_bind. destruct (m s) as [s1 t1 [a| |]]; [|done..].
  destruct (k1 a s1) as [s2 t2 [b| |]]; cbn; [|done..].
  by rewrite app_assoc.
Qed.

(** The run of a sequence, from the run of its first call. *)
Lemma run_bind_ret {A B} (m : Go S E A) (k : A → Go S E B) s s1 t1 a :
  m s = mkRun s1 t1 (Ret a) →
  (m ≫= k) s = mkRun (post (k a s1)) (t1 ++ trace (k a s1)) (out (k a s1)).
Proof. intros H. unfold mbind, go_bind. by rewrite H. Qed.

(** A run with effects before it. *)
Definition after {A} (t : list E) (ρ : run S E A) : run S E A :=
  mkRun (post ρ) (t ++ trace ρ) (out ρ).

Lemma after_nil {A} (ρ : run S E A) : after [] ρ = ρ.
Proof. by destruct ρ. Qed.
Lemma after_after {A} t1 t2 (ρ : run S E A) : after t1 (after t2 ρ) = after (t1 ++ t2) ρ.
Proof. unfold after. cbn. by rewrite app_assoc. Qed.

(** The runs of a sequence that starts with a basic call. *)
Lemma run_ret {A B} (a : A) (k : A → Go S E B) s : (mret a ≫= k) s = k a s.
Proof. apply go_bind_ret_l. Qed.
Lemma run_emit {B} e (k : unit → Go S E B) s : (emit e ≫= k) s = after [e] (k () s).
Proof. done. Qed.
Lemma run_emit_all {B} l (k : unit → Go S E B) s : (emit_all l ≫= k) s = after l (k () s).
Proof. done. Qed.
Lemma run_gets {A B} (f : S → A) (k : A → Go S E B) s : (gets f ≫= k) s = k (f s) s.
Proof. apply (after_nil (k (f s) s)). Qed.
Lemma run_modify {B} f (k : unit → Go S E B) s : (modify f ≫= k) s = k () (f s).
Proof. apply (after_nil (k () (f s))). Qed.
Lemma run_lift {A B} (f : S → S * A) (k : A → Go S E B) s s' a :
  f s = (s', a) → (lift f ≫= k) s = k a s'.
Proof. intros H. unfold mbind, go_bind, lift. rewrite H. apply after_nil. Qed.
Lemma run_bind {A B} (m : Go S E A) (k : A → Go S E B) s s1 t1 a :
  m s = mkRun s1 t1 (Ret a) → (m ≫= k) s = after t1 (k a s1).
Proof. apply run_bind_ret. Qed.
Lemma run_assoc {A B C} (m : Go S E A) (k1 : A → Go S E B) (k2 : B → Go S E C) s :
  ((m ≫= k1) ≫= k2) s = (m ≫= λ a, k1 a ≫= k2) s.
Proof. apply go_bind_assoc. Qed.

Lemma bind_after {A B} (m m' : Go S E A) (k : A → Go S E B) s s' t :
  m s = after t (m' s') → (m ≫= k) s = after t ((m' ≫= k) s').
Proof.
  intros H. unfold mbind, go_bind, after in *. rewrite H.
  destruct (m' s') as [s1 t1 [a|v|]]; cbn; by rewrite ?app_assoc.
Qed.

(** ** State invariants of a call *)

Definition preserves (I : S → Prop) {A} (m : Go S E A) : Prop :=
  ∀ s, I s → I (post (m s)).

Lemma preserves_ret I {A} (a : A) : preserves I (mret a : Go S E A).
Proof. by intros s. Qed.
Lemma preserves_emit I e : preserves I (emit e).
Proof. by intros s. Qed.
Lemma preserves_gets I {A} (f : S → A) : preserves I (gets f).
Proof. by intros s. Qed.
Lemma preserves_panic I {A} v : preserves I (gopanic v : Go S E A).
Proof. by intros s. Qed.
Lemma preserves_running I {A} : preserves I (running : Go S E A).
Proof. by intros s. Qed.
Lemma preserves_modify I f : (∀ s, I s → I (f s)) → preserves I (modify f).
Proof. intros H s. apply H. Qed.
Lemma preserves_lift I {A} (f : S → S * A) :
  (∀ s, I s → I (f s).1) → preserves I (lift f : Go S E A).
Proof. intros H s Hs. unfold lift. specialize (H s Hs). by destruct (f s). Qed.
Lemma preserves_bind I {A B} (m : Go S E A) (k : A → Go S E B) :
  preserves I m → (∀ a, preserves I (k a)) → preserves I (m ≫= k).
Proof.
  intros Hm Hk s Hs. specialize (Hm s Hs). unfold mbind, go_bind.
  destruct (m s) as [s1 t1 [a| |]]; cbn in *; [by apply Hk|done..].
Qed.

End monad.

(** ** Loops

    Go's [for { body }]: the body either goes round again with new values of
    the loop's variables or leaves the loop with a value. The fuel bounds the
    number of rounds; a loop that has used it up is [Running]. *)

Inductive control (St A : Type) : Type :=
| Continue (st : St)
| Return (a : A).
Arguments Continue {St A} st.
Arguments Return {St A} a.

Section loops.
Context {S E St A : Type}.
Implicit Types (body : St → Go S E (control St A)) (st : St) (s : S) (t : list E).

Fixpoint for_loop (fuel : nat) body st : Go S E A :=
  match fuel with
  | O => running
  | Datatypes.S fuel =>
      x ← body st;
      match x with
      | Continue st' => for_loop fuel body st'
      | Return a => mret a
      end
  end.

(** [rounds body n st s t st' s']: [n] rounds of the body lead from the loop
    variables [st] and the state [s] to [st'] and [s'] with the effects [t]. *)
Inductive rounds body : nat → St → S → list E → St → S → Prop :=
| rounds_O st s : rounds body 0 st s [] st s
| rounds_S n st s st1 s1 t1 t st' s' :
    body st s = mkRun s1 t1 (Ret (Continue st1)) →
    rounds body n st1 s1 t st' s' →
    rounds body (Datatypes.S n) st s (t1 ++ t) st' s'.

(** The exit of a round that does not go round again. *)
Definition leaves (o : exit (control St A)) : option (exit A) :=
  match o with
  | Ret (Continue _) => None
  | Ret (Return a) => Some (Ret a)
  | Panic v => Some (Panic v)
  | Running => Some Running
  end.

Lemma rounds_snoc body n st s t st1 s1 t1 st2 s2 :
  rounds body n st s t st1 s1 →
  body st1 s1 = mkRun s2 t1 (Ret (Continue st2)) →
  rounds body (Datatypes.S n) st s (t ++ t1) st2 s2.
Proof.
  induction 1 as [st s|n st s sta sa ta t st' s' Hb Hr IH]; intros H.
  - cbn. rewrite <- (app_nil_r t1). eapply rounds_S; [exact H|constructor].
  - rewrite <- app_assoc. eapply rounds_S; [exact Hb|]. by apply IH.
Qed.

(** The last round before the end of [n + 1] rounds. *)
Lemma rounds_snoc_inv body n st s t st2 s2 :
  rounds body (Datatypes.S n) st s t st2 s2 →
  ∃ t' t1 st1 s1, t = t' ++ t1 ∧ rounds body n st s t' st1 s1
    ∧ body st1 s1 = mkRun s2 t1 (Ret (Continue st2)).
Proof.
  revert st s t. induction n as [|n IH]; intros st s t H;
    inversion H as [|n' sta sa stb sb ta tb stc sc Hb Hr]; subst.
  - inversion Hr; subst. exists [], ta, st, s. rewrite app_nil_r.
    repeat split; [constructor|done].
  - apply IH in Hr as (t' & t1 & st1 & s1 & -> & Hr & Hb1).
    exists (ta ++ t'), t1, st1, s1. rewrite app_assoc.
    repeat split; [by eapply rounds_S|done].
Qed.

(** After some rounds the loop goes on with the fuel that is left. *)
Lemma for_loop_rounds body n m st s t st' s' :
  rounds body n st s t st' s' →
  for_loop (n + m) body st s =
    mkRun (post (for_loop m body st' s')) (t ++ trace (for_loop m body st' s'))
      (out (for_loop m body st' s')).
Proof.
  induction 1 as [st s|n st s st1 s1 t1 t st' s' Hb Hr IH]; cbn.
  - by destruct (for_loop m body st s).
  - rewrite (run_bind_ret _ _ _ _ _ _ Hb). rewrite IH. cbn. by rewrite app_assoc.
Qed.

(** Every run of a loop is some rounds, then either the end of the fuel or a
    round that leaves the loop. *)
Lemma for_loop_inv body fuel st s :
  (∃ t st' s', rounds body fuel st s t st' s' ∧ for_loop fuel body st s = mkRun s' t Running)
  ∨ ∃ n t st' s' o,
      (n < fuel)%nat ∧ rounds body n st s t st' s'
      ∧ leaves (out (body st' s')) = Some o
      ∧ for_loop fuel body st s =
          mkRun (post (body st' s')) (t ++ trace (body st' s')) o.
Proof.
  revert st s. induction fuel as [|fuel IH]; intros st s; cbn.
  { left. exists [], st, s. split; [constructor|done]. }
  destruct (body st s) as [s1 t1 o1] eqn:Hb.
  destruct (leaves o1) as [o|] eqn:Hl.
  - right. exists 0, [], st, s, o. rewrite Hb. split; [lia|].
    split; [constructor|]. split; [done|].
    unfold mbind, go_bind. rewrite Hb. destruct o1 as [[st1|a]| |]; simplify_eq/=; [|done..].
    unfold mret, go_ret. cbn. by rewrite app_nil_r.
  - destruct o1 as [[st1|a]| |]; simplify_eq/=.
    rewrite (run_bind_ret _ _ _ _ _ _ Hb).
    destruct (IH st1 s1) as [(t & st' & s' & Hr & ->)|(n & t & st' & s' & o & Hn & Hr & Ho & ->)];
      cbn.
    + left. exists (t1 ++ t), st', s'. split; [by eapply rounds_S|done].
    + right. exists (Datatypes.S n), (t1 ++ t), st', s', o.
      split; [lia|]. split; [by eapply rounds_S|]. split; [done|]. by rewrite app_assoc.
Qed.

(** A round that leaves ends the loop, with any fuel that reaches it. *)
Lemma for_loop_leaves body n fuel st s t st' s' o :
  rounds body n st s t st' s' → (n < fuel)%nat →
  leaves (out (body st' s')) = Some o →
  for_loop fuel body st s = mkRun (post (body st' s')) (t ++ trace (body st' s')) o.
Proof.
  intros Hr Hn Ho. replace fuel with (n + Datatypes.S (fuel - n - 1))%nat by lia.
  rewrite (for_loop_rounds _ _ _ _ _ _ _ _ Hr). cbn.
  destruct (body st' s') as [s1 t1 o1] eqn:Hb. unfold mbind, go_bind. rewrite Hb.
  destruct o1 as [[st1|a]| |]; simplify_eq/=; [|done..].
  unfold mret, go_ret. cbn. by rewrite app_nil_r.
Qed.

(** More fuel does not change a run that has ended. *)
Lemma for_loop_mono body n m st s :
  (n ≤ m)%nat → out (for_loop n body st s) ≠ Running →
  for_loop m body st s = for_loop n body st s.
Proof.
  intros Hle Hne.
  destruct (for_loop_inv body n st s) as
    [(t & st' & s' & _ & H)|(k & t & st' & s' & o & Hk & Hr & Ho & H)].
  - by rewrite H in Hne.
  - rewrite H. eapply for_loop_leaves; [exact Hr|lia|exact Ho].
Qed.

Lemma preserves_for_loop (I : S → Prop) body fuel st :
  (∀ st, preserves I (body st)) → preserves I (for_loop fuel body st).
Proof.
  intros Hb. revert st. induction fuel as [|fuel IH]; intros st; cbn.
  - apply preserves_running.
  - apply preserves_bind; [apply Hb|]. intros [st'|a]; [apply IH|apply preserves_ret].
Qed.

End loops.

(** ** Counting the elements of a list that pass a test *)

Definition countb {A} (f : A → bool) (l : list A) : nat := length (List.filter f l).

Lemma countb_cons {A} (f : A → bool) x l : countb f (x :: l) = ((if f x then 1 else 0) + countb f l)%nat.
Proof. unfold countb. cbn. by destruct (f x). Qed.

Lemma countb_app {A} (f : A → bool) l1 l2 : countb f (l1 ++ l2) = (countb f l1 + countb f l2)%nat.
Proof. unfold countb. by rewrite List.filter_app, length_app. Qed.

Lemma countb_snoc {A} (f : A → bool) l x : countb f (l ++ [x]) = (countb f l + if f x then 1 else 0)%nat.
Proof. by rewrite countb_app, countb_cons, Nat.add_0_r. Qed.

Lemma countb_insert {A} (f : A → bool) l i x y :
  l !! i = Some x →
  (countb f (<[i := y]> l) + (if f x then 1 else 0) = countb f l + (if f y then 1 else 0))%nat.
Proof.
  revert i. induction l as [|z l IH]; intros [|i] Hi; simplify_eq/=; rewrite !countb_cons; [lia|].
  specialize (IH _ Hi). lia.
Qed.

Lemma countb_elem {A} (f : A → bool) l : (0 < countb f l)%nat ↔ ∃ i x, l !! i = Some x ∧ f x = true.
Proof.
  induction l as [|z l IH]; [split; [cbn; lia|by intros (i & x & ? & _)]|]. rewrite countb_cons. split.
  - destruct (f z) eqn:E; [by exists 0, z|]. intros H. destruct IH as [(i & x & Hx & Hf) _]; [lia|].
    by exists (S i), x.
  - intros ([|i] & x & Hx & Hf); simplify_eq/=; [rewrite Hf; lia|].
    assert (0 < countb f l)%nat; [apply IH; by exists i, x|lia].
Qed.

Lemma countb_two {A} (f : A → bool) l i j x y :
  (countb f l ≤ 1)%nat → l !! i = Some x → l !! j = Some y → f x = true → f y = true → i = j.
Proof.
  revert i j. induction l as [|z l IH]; intros [|i] [|j] Hc Hi Hj Hx Hy; simplify_eq/=; [done|..];
    rewrite countb_cons in Hc.
  - rewrite Hx in Hc. assert (0 < countb f l)%nat; [apply countb_elem; by exists j, y|lia].
  - rewrite Hy in Hc. assert (0 < countb f l)%nat; [apply countb_elem; by exists i, x|lia].
  - f_equal. apply IH; [|done..]. destruct (f z); lia.
Qed.

#[global] Arguments countb : simpl never.

(** ** Automation *)

(** Unfold the monad's operations. *)
Ltac go_unfold :=
  unfold mbind, mret, go_bind, go_ret, emit, gets, modify, lift, gopanic, running; cbn.
Ltac go_unfold_in H :=
  unfold mbind, mret, go_bind, go_ret, emit, gets, modify, lift, gopanic, running in H; cbn in H.

(** Rewrite a run call by call. *)
Create Rewrite HintDb go_run.
#[export] Hint Rewrite @run_ret @run_emit @run_gets @run_modify @run_assoc @after_nil @after_after : go_run.

Create HintDb golib discriminated.
#[export] Hint Resolve wrap64_range wrapu64_range : golib.
#[export] Hint Resolve preserves_ret preserves_emit preserves_gets preserves_panic
  preserves_running preserves_modify preserves_lift preserves_bind preserves_for_loop : golib.
#[export] Hint Resolve wrap64_id wrapu64_id sat64_id : golib.

(** Split every boolean test of the goal or of an assumption into the
    comparison it decides. *)
Ltac destruct_tests :=
  repeat match goal with
  | |- context [if ?b then _ else _] => destruct b eqn:?
  | H : context [if ?b then _ else _] |- _ => destruct b eqn:?
  end.

Ltac bool_to_prop :=
  repeat match goal with
  | H : _ && _ = true |- _ => apply andb_true_iff in H as [? ?]
  | H : _ && _ = false |- _ => apply andb_false_iff in H
  | H : negb _ = true |- _ => apply negb_true_iff in H
  | H : negb _ = false |- _ => apply negb_false_iff in H
  | H : (_ <? _)%Z = true |- _ => apply Z.ltb_lt in H
  | H : (_ <? _)%Z = false |- _ => apply Z.ltb_ge in H
  | H : (_ <=? _)%Z = true |- _ => apply Z.leb_le in H
  | H : (_ <=? _)%Z = false |- _ => apply Z.leb_gt in H
  | H : (_ =? _)%Z = true |- _ => apply Z.eqb_eq in H
  | H : (_ =? _)%Z = false |- _ => apply Z.eqb_neq in H
  | H : bool_decide _ = true |- _ => apply bool_decide_eq_true in H
  | H : bool_decide _ = false |- _ => apply bool_decide_eq_false in H
  end.

(** Decide a closed proposition. *)
Ltac by_compute := refine (bool_decide_unpack _ _); vm_compute; exact I.

(** Unfold the int64 bounds and finish with [lia]. *)
Ltac int64_lia := unfold is_int64, min_int64, max_int64 in *; lia.
Ltac dur_lia := unfold Hour, Minute, Second, Millisecond, Microsecond, Nanosecond in *; lia.
