(* ===== verification/GoErrors.v ===== *)
(** Go error values as the code uses them: package-level sentinels, errors
    made by [errors.New] and [fmt.Errorf], wrapping with [%w], joined errors and
    the typed [*pgconn.PgError]; with the standard library's [errors.Is] and
    [errors.As] as walks over the tree of wrapped errors. *)

From S2P Require Import Prelude.

Open Scope string_scope.
Open Scope list_scope.

(** The fields of [*pgconn.PgError] the code reads, and the text its [Error]
    method renders. *)
Record pg_error : Type := mkPgError {
  Code : string;
  Detail : string;
  Message : string;
  pg_text : string;
}.

#[export] Instance pg_error_eq_dec : EqDecision pg_error.
Proof. solve_decision. Defined.

#[warnings="-register-all"]
Inductive error : Type :=
| Sentinel (name msg : string)
| NewError (msg : string)
| WrapError (pre : string) (e : error) (suffix : string)
| PgError (pe : pg_error)
| JoinError (es : list error).

(** The induction principle that reaches the members of a joined error. *)
Lemma error_ind' (P : error → Prop) :
  (∀ name msg, P (Sentinel name msg)) →
  (∀ msg, P (NewError msg)) →
  (∀ pre e suffix, P e → P (WrapError pre e suffix)) →
  (∀ pe, P (PgError pe)) →
  (∀ es, Forall P es → P (JoinError es)) →
  ∀ e, P e.
Proof.
  intros HS HN HW HP HJ. fix IH 1. intros [name msg|msg|pre e suffix|pe|es].
  - apply HS.
  - apply HN.
  - apply HW, IH.
  - apply HP.
  - apply HJ. induction es as [|e es IHes]; constructor; [apply IH|apply IHes].
Qed.

(** The text of an error: the [Error] method. *)
Fixpoint error_text (e : error) : string :=
  match e with
  | Sentinel _ msg => msg
  | NewError msg => msg
  | WrapError pre e suffix => pre +:+ error_text e +:+ suffix
  | PgError pe => pg_text pe
  | JoinError es => String.concat (String "010"%char "") (map error_text es)
  end.

(** [errors.Is(err, target)] for a sentinel [target]: the error itself or one
    it wraps is the variable named [target]. *)
Fixpoint errors_Is (e : error) (target : string) : bool :=
  match e with
  | Sentinel name _ => bool_decide (name = target)
  | NewError _ => false
  | WrapError _ e _ => errors_Is e target
  | PgError _ => false
  | JoinError es => existsb (λ e, errors_Is e target) es
  end.

(** [errors.As(err, &pgErr)]: the first [*pgconn.PgError] of the tree, in
    depth-first order. *)
Fixpoint errors_As_Pg (e : error) : option pg_error :=
  match e with
  | Sentinel _ _ => None
  | NewError _ => None
  | WrapError _ e _ => errors_As_Pg e
  | PgError pe => Some pe
  | JoinError es =>
      (fix first (l : list error) : option pg_error :=
         match l with
         | [] => None
         | e :: l => match errors_As_Pg e with Some pe => Some pe | None => first l end
         end) es
  end.

(** The standard library's context errors. *)
Definition context_Canceled : error := Sentinel "context.Canceled" "context canceled".
Definition context_DeadlineExceeded : error :=
  Sentinel "context.DeadlineExceeded" "context deadline exceeded".

(** [errors.New(msg)] and [fmt.Errorf("pre%wpost", e)]. *)
Abbreviation errors_New := NewError.
Abbreviation Errorf_w := WrapError.

Lemma errors_Is_wrap pre e suffix target :
  errors_Is (WrapError pre e suffix) target = errors_Is e target.
Proof. done. Qed.

(** [WrapsSentinel t e]: the error tree of [e] contains the sentinel [t]; the
    relational reading of [errors_Is]. *)
Inductive WrapsSentinel (target : string) : error → Prop :=
| wraps_here msg : WrapsSentinel target (Sentinel target msg)
| wraps_wrap pre e suffix :
    WrapsSentinel target e → WrapsSentinel target (WrapError pre e suffix)
| wraps_join es e :
    e ∈ es → WrapsSentinel target e → WrapsSentinel target (JoinError es).

Lemma errors_Is_spec target e :
  errors_Is e target = true ↔ WrapsSentinel target e.
Proof.
  split.
  - induction e as [name msg|msg|pre e suffix IH|pe|es IH] using error_ind'; cbn; try done.
    + intros H%bool_decide_eq_true; subst. constructor.
    + intros H. constructor; auto.
    + intros [x [Hin Hx]]%existsb_exists.
      rewrite Forall_forall in IH.
      apply wraps_join with x; [|apply IH]; rewrite ?list_elem_of_In; auto.
  - induction 1 as [msg|pre e suffix _ IH|es e Hin _ IH]; cbn.
    + by apply bool_decide_eq_true.
    + done.
    + apply existsb_exists. exists e. by rewrite <- list_elem_of_In.
Qed.
