(* ===== verification/Contextx.v ===== *)
(** [pkg/contextx/context.go]: the request-scoped values every layer reads
    and writes. A [context.Context] is the chain of its [WithValue] layers. *)

From S2P Require Import Prelude.

Open Scope string_scope.
Open Scope list_scope.

(** Dynamic values ([interface{}]) the code stores in a context. *)
Inductive any : Type :=
| AString (s : string)
| AInt (z : Z)
| AStrings (l : list string)
| AOther (tag : string).

(** Context keys. Go compares the dynamic type too, so a [contextKey] never
    equals the key of another package. *)
Inductive ctx_key : Type :=
| contextKey (name : string)
| ForeignKey (package name : string).

#[export] Instance ctx_key_eq_dec : EqDecision ctx_key.
Proof. solve_decision. Defined.

#[export] Instance any_eq_dec : EqDecision any.
Proof. solve_decision. Defined.

Inductive context : Type :=
| Background
| WithValue (parent : context) (key : ctx_key) (val : any).

#[export] Instance context_eq_dec : EqDecision context.
Proof. solve_decision. Defined.

(** [ctx.Value(key)]: the innermost layer that holds the key. *)
Fixpoint Value (ctx : context) (key : ctx_key) : option any :=
  match ctx with
  | Background => None
  | WithValue parent k v => if decide (k = key) then Some v else Value parent key
  end.

Definition AuthPrincipalIDKey : ctx_key := contextKey "helix.auth_principal_id".
Definition AuthSessionIDKey : ctx_key := contextKey "helix.auth_session_id".
Definition AuthDecisionIDKey : ctx_key := contextKey "helix.auth_decision_id".
Definition TraceIDKey : ctx_key := contextKey "helix.trace_id".
Definition ParentTraceIDKey : ctx_key := contextKey "helix.parent_trace_id".
Definition SpanIDKey : ctx_key := contextKey "helix.span_id".
Definition RequestIDKey : ctx_key := contextKey "helix.request_id".
Definition SourceServiceKey : ctx_key := contextKey "helix.source_service".
Definition EntryPointKey : ctx_key := contextKey "helix.entry_point".
Definition IdempotencyKey : ctx_key := contextKey "helix.idempotency_key".
Definition RetryAttemptKey : ctx_key := contextKey "helix.retry_attempt".
Definition AuditReasonKey : ctx_key := contextKey "helix.audit_reason".
Definition ChangeTicketKey : ctx_key := contextKey "helix.change_ticket".

(** A nil context is [None]. *)
Definition getString (ctx : option context) (key : ctx_key) (fallback : string) : string :=
  match ctx with
  | None => fallback
  | Some c => match Value c key with Some (AString val) => val | _ => fallback end
  end.

Definition getInt (ctx : option context) (key : ctx_key) (fallback : Z) : Z :=
  match ctx with
  | None => fallback
  | Some c => match Value c key with Some (AInt val) => val | _ => fallback end
  end.

Definition getStringSlice (ctx : option context) (key : ctx_key) : list string :=
  match ctx with
  | None => []
  | Some c => match Value c key with Some (AStrings val) => val | _ => [] end
  end.

Definition GetTraceID ctx := getString ctx TraceIDKey "untriaged".
Definition WithTraceID ctx v := WithValue ctx TraceIDKey (AString v).
Definition GetParentTraceID ctx := getString ctx ParentTraceIDKey "".
Definition WithParentTraceID ctx v := WithValue ctx ParentTraceIDKey (AString v).
Definition GetSpanID ctx := getString ctx SpanIDKey "".
Definition WithSpanID ctx v := WithValue ctx SpanIDKey (AString v).
Definition GetRequestID ctx := getString ctx RequestIDKey "".
Definition WithRequestID ctx v := WithValue ctx RequestIDKey (AString v).
Definition GetSourceService ctx := getString ctx SourceServiceKey "unknown".
Definition WithSourceService ctx v := WithValue ctx SourceServiceKey (AString v).
Definition GetEntryPoint ctx := getString ctx EntryPointKey "unknown".
Definition WithEntryPoint ctx v := WithValue ctx EntryPointKey (AString v).
Definition GetAuthPrincipalID ctx := getString ctx AuthPrincipalIDKey "".
Definition WithAuthPrincipalID ctx v := WithValue ctx AuthPrincipalIDKey (AString v).
Definition GetAuthSessionID ctx := getString ctx AuthSessionIDKey "".
Definition WithAuthSessionID ctx v := WithValue ctx AuthSessionIDKey (AString v).
Definition GetAuthDecisionID ctx := getString ctx AuthDecisionIDKey "".
Definition WithAuthDecisionID ctx v := WithValue ctx AuthDecisionIDKey (AString v).
Definition GetIdempotencyKey ctx := getString ctx IdempotencyKey "".
Definition WithIdempotencyKey ctx v := WithValue ctx IdempotencyKey (AString v).
Definition GetRetryAttempt ctx := getInt ctx RetryAttemptKey 0.
Definition WithRetryAttempt ctx v := WithValue ctx RetryAttemptKey (AInt v).
Definition GetAuditReason ctx := getString ctx AuditReasonKey "".
Definition WithAuditReason ctx v := WithValue ctx AuditReasonKey (AString v).
Definition GetChangeTicket ctx := getString ctx ChangeTicketKey "".
Definition WithChangeTicket ctx v := WithValue ctx ChangeTicketKey (AString v).

(** The string-valued accessors of the package, one [With]/[Get] pair per
    key. *)
Definition string_accessors :
    list ((context → string → context) * (option context → string)) :=
  [(WithTraceID, GetTraceID);
   (WithParentTraceID, GetParentTraceID);
   (WithSpanID, GetSpanID);
   (WithRequestID, GetRequestID);
   (WithSourceService, GetSourceService);
   (WithEntryPoint, GetEntryPoint);
   (WithAuthPrincipalID, GetAuthPrincipalID);
   (WithAuthSessionID, GetAuthSessionID);
   (WithAuthDecisionID, GetAuthDecisionID);
   (WithIdempotencyKey, GetIdempotencyKey);
   (WithAuditReason, GetAuditReason);
   (WithChangeTicket, GetChangeTicket)].

Lemma Value_WithValue ctx k v key :
  Value (WithValue ctx k v) key = if decide (k = key) then Some v else Value ctx key.
Proof. done. Qed.

Lemma Value_other ctx k v key : k ≠ key → Value (WithValue ctx k v) key = Value ctx key.
Proof. intros. cbn. by rewrite decide_False. Qed.

Lemma getString_other ctx k v key fb :
  k ≠ key → getString (Some (WithValue ctx k v)) key fb = getString (Some ctx) key fb.
Proof. intros. cbn. by rewrite decide_False. Qed.

Create Rewrite HintDb contextx.
#[export] Hint Rewrite Value_other getString_other using discriminate : contextx.

(** Setting a value changes what its own accessor returns and no other one. *)
Theorem accessors_independent i j set_i get_i set_j get_j ctx v :
  string_accessors !! i = Some (set_i, get_i) →
  string_accessors !! j = Some (set_j, get_j) →
  get_j (Some (set_i ctx v)) = (if decide (i = j) then v else get_j (Some ctx))
  ∧ GetRetryAttempt (Some (set_i ctx v)) = GetRetryAttempt (Some ctx).
Proof.
  intros Hi Hj. unfold string_accessors in Hi, Hj.
  do 12 (destruct i as [|i]; [cbn in Hi; simplify_eq;
    do 12 (destruct j as [|j]; [cbn in Hj; simplify_eq; done|]); done|]). done.
Qed.
