(* ===== verification/GoStrings.v ===== *)
(** The parts of Go's [strings], [net/textproto], [net], [encoding/hex] and
    [encoding/base64] packages the code calls. A Go string is the sequence of
    its bytes. *)

From S2P Require Import Prelude.

Open Scope string_scope.
Open Scope list_scope.

Abbreviation bytes_of := String.list_ascii_of_string.
Abbreviation of_bytes := String.string_of_list_ascii.

Lemma of_bytes_of s : of_bytes (bytes_of s) = s.
Proof. induction s as [|c s IH]; cbn; [done|]. by rewrite IH. Qed.

Lemma bytes_of_of l : bytes_of (of_bytes l) = l.
Proof. induction l as [|c l IH]; cbn; [done|]. by rewrite IH. Qed.

Lemma str_app_assoc s1 s2 s3 : (s1 +:+ s2) +:+ s3 = s1 +:+ s2 +:+ s3.
Proof.
  induction s1 as [|c s1 IH]; [done|].
  change (String c ((s1 +:+ s2) +:+ s3) = String c (s1 +:+ s2 +:+ s3)). by f_equal.
Qed.

Lemma str_app_nil_r s : s +:+ "" = s.
Proof.
  induction s as [|c s IH]; [done|].
  change (String c (s +:+ "") = String c s). by f_equal.
Qed.

Definition code (c : ascii) : Z := Z.of_N (N_of_ascii c).
Definition chr (z : Z) : ascii := ascii_of_N (Z.to_N z).

Lemma code_range c : (0 ≤ code c < 256)%Z.
Proof. unfold code. pose proof (N_ascii_bounded c). lia. Qed.

Lemma chr_code c : chr (code c) = c.
Proof. unfold chr, code. rewrite N2Z.id. apply ascii_N_embedding. Qed.

Lemma code_chr z : (0 ≤ z < 256)%Z → code (chr z) = z.
Proof. intros. unfold chr, code. rewrite N_ascii_embedding; lia. Qed.

Definition between (lo hi : Z) (c : ascii) : bool := (lo <=? code c)%Z && (code c <=? hi)%Z.
Definition is_lower : ascii → bool := between 97 122.
Definition is_upper : ascii → bool := between 65 90.
Definition is_digit : ascii → bool := between 48 57.
Definition lower_ascii (c : ascii) : ascii := if is_upper c then chr (code c + 32) else c.
Definition upper_ascii (c : ascii) : ascii := if is_lower c then chr (code c - 32) else c.
Definition is_ascii (s : string) : bool := forallb (λ c, (code c <? 128)%Z) (bytes_of s).

(** ** [strings.ToLower]

    ASCII strings are mapped byte by byte; a string with other bytes goes
    through the Unicode tables, which are given. *)
Class Unicode : Type := { unicode_ToLower : string → string }.

Definition map_bytes (f : ascii → ascii) (s : string) : string := of_bytes (map f (bytes_of s)).

Definition ToLower `{!Unicode} (s : string) : string :=
  if is_ascii s then map_bytes lower_ascii s else unicode_ToLower s.

(** ** [http.CanonicalHeaderKey] *)

Definition valid_header_byte (c : ascii) : bool :=
  is_lower c || is_upper c || is_digit c
  || existsb (Ascii.eqb c) (bytes_of "!#$%&'*+-.^_`|~").

Fixpoint canonical_bytes (upper : bool) (l : list ascii) : list ascii :=
  match l with
  | [] => []
  | c :: l =>
      let c := if upper then upper_ascii c else lower_ascii c in
      c :: canonical_bytes (Ascii.eqb c "-"%char) l
  end.

(** A key with a byte that is not a token character stays as it is. *)
Definition CanonicalHeaderKey (s : string) : string :=
  if forallb valid_header_byte (bytes_of s)
  then of_bytes (canonical_bytes true (bytes_of s)) else s.

(** ** [strings.Split] with a one-byte separator *)

Fixpoint split_bytes (sep : ascii) (l : list ascii) : list (list ascii) :=
  match l with
  | [] => [[]]
  | c :: l =>
      if Ascii.eqb c sep then [] :: split_bytes sep l
      else match split_bytes sep l with
      | [] => [[c]]
      | p :: ps => (c :: p) :: ps
      end
  end.

Definition Split (s : string) (sep : ascii) : list string := map of_bytes (split_bytes sep (bytes_of s)).

(** ** [strings.TrimSpace]

    The UTF-8 encodings of the characters [unicode.IsSpace] accepts. *)
Definition space_codes : list (list Z) :=
  [[9]; [10]; [11]; [12]; [13]; [32]; [194; 133]; [194; 160]; [225; 154; 128];
   [226; 128; 128]; [226; 128; 129]; [226; 128; 130]; [226; 128; 131]; [226; 128; 132];
   [226; 128; 133]; [226; 128; 134]; [226; 128; 135]; [226; 128; 136]; [226; 128; 137];
   [226; 128; 138]; [226; 128; 168]; [226; 128; 169]; [226; 128; 175]; [226; 129; 159];
   [227; 128; 128]]%Z.
Definition spaces : list (list ascii) := map (map chr) space_codes.

Fixpoint strip_prefix (p l : list ascii) : option (list ascii) :=
  match p, l with
  | [], _ => Some l
  | c :: p, d :: l => if Ascii.eqb c d then strip_prefix p l else None
  | _ :: _, [] => None
  end.

Fixpoint first_strip (ps : list (list ascii)) (l : list ascii) : option (list ascii) :=
  match ps with
  | [] => None
  | p :: ps => match strip_prefix p l with Some l' => Some l' | None => first_strip ps l end
  end.

Fixpoint trim_left (ps : list (list ascii)) (fuel : nat) (l : list ascii) : list ascii :=
  match fuel with
  | O => l
  | S fuel => match first_strip ps l with Some l' => trim_left ps fuel l' | None => l end
  end.

Definition trim_bytes (l : list ascii) : list ascii :=
  let l := trim_left spaces (length l) l in
  rev (trim_left (map (@rev ascii) spaces) (length l) (rev l)).

Definition TrimSpace (s : string) : string := of_bytes (trim_bytes (bytes_of s)).

(** ** [net.SplitHostPort] *)

Fixpoint index_byte (c : ascii) (l : list ascii) : option nat :=
  match l with
  | [] => None
  | d :: l => if Ascii.eqb c d then Some 0 else S <$> index_byte c l
  end.

Definition last_index_byte (c : ascii) (l : list ascii) : option nat :=
  (λ i, length l - 1 - i) <$> index_byte c (rev l).

Definition colon : ascii := ":"%char.
Definition lbracket : ascii := "["%char.
Definition rbracket : ascii := "]"%char.

(** The host and the port, or [None] for the errors (missing port, too many
    colons, brackets in the wrong place). *)
Definition split_host_port (l : list ascii) : option (list ascii * list ascii) :=
  match last_index_byte colon l with
  | None => None
  | Some i =>
      let check (j k : nat) (host : list ascii) :=
        match index_byte lbracket (drop j l), index_byte rbracket (drop k l) with
        | None, None => Some (host, drop (S i) l)
        | _, _ => None
        end in
      if decide (head l = Some lbracket) then
        match index_byte rbracket l with
        | None => None
        | Some e => if decide (S e = i) then check 1 (S e) (take (e - 1) (drop 1 l)) else None
        end
      else
        match index_byte colon (take i l) with
        | Some _ => None
        | None => check 0 0 (take i l)
        end
  end.

Definition SplitHostPort (s : string) : option (string * string) :=
  prod_map of_bytes of_bytes <$> split_host_port (bytes_of s).

Example strings_examples :
  CanonicalHeaderKey "x-request-id" = "X-Request-Id"
  ∧ Split "Bearer a b" " "%char = ["Bearer"; "a"; "b"]
  ∧ Split "" ","%char = [""]
  ∧ TrimSpace "  10.0.0.1 " = "10.0.0.1"
  ∧ SplitHostPort "10.0.0.1:8080" = Some ("10.0.0.1", "8080")
  ∧ SplitHostPort "[::1]:8080" = Some ("::1", "8080")
  ∧ SplitHostPort "::1:8080" = None.
Proof. vm_compute. done. Qed.

(** ** Facts *)

(** Joining the parts of a split with the separator gives the string back. *)
Fixpoint join_bytes (sep : ascii) (ps : list (list ascii)) : list ascii :=
  match ps with
  | [] => []
  | [p] => p
  | p :: ps => p ++ sep :: join_bytes sep ps
  end.

Lemma split_bytes_nonempty sep l : split_bytes sep l ≠ [].
Proof.
  destruct l as [|c l]; cbn; [done|]. destruct (Ascii.eqb c sep); [done|].
  by destruct (split_bytes sep l).
Qed.

Lemma join_split sep l : join_bytes sep (split_bytes sep l) = l.
Proof.
  induction l as [|c l IH]; [done|]. cbn [split_bytes].
  pose proof (split_bytes_nonempty sep l) as Hne.
  destruct (Ascii.eqb_spec c sep) as [->|].
  - cbn [join_bytes]. destruct (split_bytes sep l); [done|]. by rewrite IH.
  - destruct (split_bytes sep l) as [|p [|q ps]]; [done|..]; cbn in *; by rewrite IH.
Qed.

Lemma split_no_sep sep l : Forall (λ p, sep ∉ p) (split_bytes sep l).
Proof.
  induction l as [|c l IH]; cbn; [repeat constructor; apply not_elem_of_nil|].
  destruct (Ascii.eqb_spec c sep) as [->|Hne].
  - constructor; [apply not_elem_of_nil|done].
  - destruct (split_bytes sep l) as [|p ps]; inversion IH; subst; constructor; auto.
    + apply not_elem_of_cons. split; [done|apply not_elem_of_nil].
    + apply not_elem_of_cons. by split.
Qed.
