(* ===== verification/Json.v ===== *)
(** The part of [encoding/json] the code uses: [json.Marshal] and
    [Encoder.Encode] of a dynamic value, with struct tags, sorted map keys and
    the escaping of strings (HTML escaping on, as the default is). *)

From S2P Require Import Prelude GoErrors.

Open Scope string_scope.
Open Scope list_scope.

(** When a struct field is left out: never, when its value is empty
    ([omitempty] on a field of a concrete type), or when it is nil ([omitempty]
    on an interface or pointer). *)
Inductive omit : Type := Keep | OmitEmpty | OmitNil.

(** Dynamic values as the encoder sees them. A struct field has its JSON name
    and its [omit] flag. [GOpaque] stands for a value that brings its own
    encoding (a [json.Marshaler], a float, or a value of an unsupported type, whose
    encoding is an error). *)
#[warnings="-register-all"]
Inductive gval : Type :=
| GNil
| GBool (b : bool)
| GInt (z : Z)
| GStr (s : string)
| GSlice (l : list gval)
| GMap (m : list (string * gval))
| GStruct (fields : list (string * omit * gval))
| GOpaque (enc : result string error).

(** The empty values of the concrete types. *)
Definition is_empty_value (v : gval) : bool :=
  match v with
  | GNil => true
  | GBool b => negb b
  | GInt z => (z =? 0)%Z
  | GStr s => bool_decide (s = "")
  | GSlice l => bool_decide (length l = 0)
  | GMap m => bool_decide (length m = 0)
  | GStruct _ | GOpaque _ => false
  end.

Definition omitted (o : omit) (v : gval) : bool :=
  match o with
  | Keep => false
  | OmitEmpty => is_empty_value v
  | OmitNil => match v with GNil => true | _ => false end
  end.

(** ** UTF-8 *)

Definition byte_of (c : ascii) : Z := Z.of_N (N_of_ascii c).
Definition in_range (lo hi : Z) (c : ascii) : bool :=
  (lo <=? byte_of c)%Z && (byte_of c <=? hi)%Z.
Definition is_cont (c : ascii) : bool := in_range 128 191 c.

(** The length of the well-formed UTF-8 sequence at the front of the list, 0
    when there is none ([utf8.DecodeRune] giving [RuneError] with width 1). *)
Definition rune_len (l : list ascii) : nat :=
  match l with
  | [] => 0
  | c0 :: l =>
      let b := byte_of c0 in
      if (b <? 128)%Z then 1 else
      match l with
      | [] => 0
      | c1 :: l =>
          if in_range 194 223 c0 && is_cont c1 then 2 else
          match l with
          | [] => 0
          | c2 :: l =>
              if is_cont c2 &&
                 ((b =? 224)%Z && in_range 160 191 c1
                  || (in_range 225 236 c0 || in_range 238 239 c0) && is_cont c1
                  || (b =? 237)%Z && in_range 128 159 c1)
              then 3 else
              match l with
              | [] => 0
              | c3 :: _ =>
                  if is_cont c2 && is_cont c3 &&
                     ((b =? 240)%Z && in_range 144 191 c1
                      || in_range 241 243 c0 && is_cont c1
                      || (b =? 244)%Z && in_range 128 143 c1)
                  then 4 else 0
              end
          end
      end
  end.

(** ** Strings *)

Definition hex_digit (z : Z) : ascii :=
  ascii_of_N (Z.to_N (if (z <? 10)%Z then 48 + z else 87 + z)).

Definition quote_char : ascii := "034"%char.
Definition backslash : ascii := "092"%char.

(** One ASCII character inside a JSON string. *)
Definition escape_ascii (c : ascii) : list ascii :=
  let b := byte_of c in
  if bool_decide (c = quote_char) || bool_decide (c = backslash) then [backslash; c]
  else if (b =? 8)%Z then [backslash; "b"%char]
  else if (b =? 12)%Z then [backslash; "f"%char]
  else if (b =? 10)%Z then [backslash; "n"%char]
  else if (b =? 13)%Z then [backslash; "r"%char]
  else if (b =? 9)%Z then [backslash; "t"%char]
  else if (b <? 32)%Z || bool_decide (c = "<"%char) || bool_decide (c = ">"%char)
          || bool_decide (c = "&"%char)
  then [backslash; "u"%char; "0"%char; "0"%char; hex_digit (b / 16); hex_digit (b mod 16)]
  else [c].

(** Line and paragraph separators (U+2028, U+2029) are escaped too. *)
Definition is_line_sep (l : list ascii) : option ascii :=
  match l with
  | c0 :: c1 :: c2 :: _ =>
      if (byte_of c0 =? 226)%Z && (byte_of c1 =? 128)%Z then
        if (byte_of c2 =? 168)%Z then Some "8"%char
        else if (byte_of c2 =? 169)%Z then Some "9"%char else None
      else None
  | _ => None
  end.

Fixpoint escape_bytes (fuel : nat) (l : list ascii) : list ascii :=
  match fuel, l with
  | O, _ | _, [] => []
  | S fuel, c :: rest =>
      match is_line_sep l with
      | Some d =>
          [backslash; "u"%char; "2"%char; "0"%char; "2"%char; d] ++ escape_bytes fuel (drop 3 l)
      | None =>
          match rune_len l with
          | 0 => [backslash; "u"%char; "f"%char; "f"%char; "f"%char; "d"%char] ++ escape_bytes fuel rest
          | 1 => escape_ascii c ++ escape_bytes fuel rest
          | n => take n l ++ escape_bytes fuel (drop n l)
          end
      end
  end.

Definition json_string (s : string) : string :=
  let l := String.list_ascii_of_string s in
  String.string_of_list_ascii ([quote_char] ++ escape_bytes (length l) l ++ [quote_char]).

(** ** Numbers: [strconv.AppendInt] *)

Definition digit (z : Z) : ascii := ascii_of_N (Z.to_N (48 + z)).

Fixpoint digits (fuel : nat) (z : Z) (acc : list ascii) : list ascii :=
  match fuel with
  | O => acc
  | S fuel =>
      let acc := digit (z mod 10) :: acc in
      if (z / 10 =? 0)%Z then acc else digits fuel (z / 10) acc
  end.

(** [strconv.Itoa]; 20 digits are enough for every int64. *)
Definition Itoa (z : Z) : string :=
  String.string_of_list_ascii
    (if (z <? 0)%Z then "-"%char :: digits 20 (- z) [] else digits 20 z []).

(** ** Values *)

(** Maps are written in the order of their keys. *)
Fixpoint insert_key {A} (k : string) (v : A) (l : list (string * A)) : list (string * A) :=
  match l with
  | [] => [(k, v)]
  | (k', v') :: l' => if String.leb k k' then (k, v) :: l else (k', v') :: insert_key k v l'
  end.

Definition sort_keys {A} (l : list (string * A)) : list (string * A) :=
  foldr (λ kv acc, insert_key kv.1 kv.2 acc) [] l.

Fixpoint sequence_results {A} (l : list (result A error)) : result (list A) error :=
  match l with
  | [] => Ok []
  | Ok a :: l =>
      match sequence_results l with Ok xs => Ok (a :: xs) | Err e => Err e end
  | Err e :: _ => Err e
  end.

Definition brackets (o c : string) (items : list string) : string :=
  o +:+ String.concat "," items +:+ c.

Definition json_member (k : string) (enc : result string error) : result string error :=
  match enc with Ok s => Ok (json_string k +:+ ":" +:+ s) | Err e => Err e end.

Definition json_list (o c : string) (items : list (result string error)) : result string error :=
  match sequence_results items with Ok l => Ok (brackets o c l) | Err e => Err e end.

Fixpoint json_Marshal (v : gval) : result string error :=
  match v with
  | GNil => Ok "null"
  | GBool b => Ok (if b then "true" else "false")
  | GInt z => Ok (Itoa z)
  | GStr s => Ok (json_string s)
  | GSlice l => json_list "[" "]" (map json_Marshal l)
  | GMap m =>
      json_list "{" "}"
        (map (λ kv, json_member kv.1 kv.2)
           (sort_keys (map (λ kv, (kv.1, json_Marshal kv.2)) m)))
  | GStruct fields =>
      json_list "{" "}"
        ((fix members (fs : list (string * omit * gval)) : list (result string error) :=
            match fs with
            | [] => []
            | (name, o, v) :: fs =>
                if omitted o v then members fs
                else json_member name (json_Marshal v) :: members fs
            end) fields)
  | GOpaque enc => enc
  end.

(** [Encoder.Encode] writes the encoding and a newline, or nothing. *)
Definition json_line (v : gval) : result string error :=
  match json_Marshal v with
  | Ok s => Ok (s +:+ String "010"%char "")
  | Err e => Err e
  end.

(** Double quotes as single ones, to write the expected text of an example. *)
Definition single_quotes (s : string) : string :=
  String.string_of_list_ascii
    (map (λ c, if bool_decide (c = quote_char) then "'"%char else c)
       (String.list_ascii_of_string s)).

Example json_example :
  match json_Marshal (GStruct [("code", Keep, GStr "a<b"); ("n", OmitEmpty, GInt 0);
      ("details", OmitNil, GMap [("z", GInt (-12)); ("a", GSlice [GNil; GBool true])])]) with
  | Ok s => single_quotes s | Err _ => "" end
  = "{'code':'a\u003cb','details':{'a':[null,true],'z':-12}}".
Proof. vm_compute. reflexivity. Qed.
