(* ===== verification/JsonRead.v ===== *)
(** A reader of compact JSON, as the specification of the encoder of [Json.v]:
    reading back an encoding gives the value, with the struct fields that were not
    omitted, the maps in the order of their keys, and U+FFFD for the bytes that
    are not UTF-8. *)

From S2P Require Import Prelude GoErrors Json.

Open Scope string_scope.
Open Scope list_scope.
Open Scope nat_scope.

Abbreviation chars := String.list_ascii_of_string.

(** ** The reader *)

#[warnings="-register-all"]
Inductive jval : Type :=
| JNull
| JBool (b : bool)
| JInt (z : Z)
| JFloat (text : list ascii)
| JStr (s : list ascii)
| JArr (l : list jval)
| JObj (m : list (list ascii * jval)).

Definition numeral (c : ascii) : bool := in_range 48 57 c.
Definition digit_value (c : ascii) : Z := (byte_of c - 48)%Z.

Definition unhex (c : ascii) : option Z :=
  let b := byte_of c in
  if in_range 48 57 c then Some (b - 48)%Z
  else if in_range 97 102 c then Some (b - 87)%Z
  else if in_range 65 70 c then Some (b - 55)%Z else None.

(** The UTF-8 encoding of a code point of the basic plane. *)
Definition byte_chr (z : Z) : ascii := ascii_of_N (Z.to_N z).
Definition utf8 (u : Z) : list ascii :=
  if (u <? 128)%Z then [byte_chr u]
  else if (u <? 2048)%Z then [byte_chr (192 + u / 64); byte_chr (128 + u mod 64)]
  else [byte_chr (224 + u / 4096); byte_chr (128 + (u / 64) mod 64); byte_chr (128 + u mod 64)].

Definition prepend (l : list ascii) (r : option (list ascii * list ascii)) : option (list ascii * list ascii) :=
  match r with Some (s, rest) => Some (l ++ s, rest) | None => None end.

(** The escape sequences of one letter. *)
Definition simple_escape (c : ascii) : option ascii :=
  if bool_decide (c = quote_char) || bool_decide (c = backslash) || bool_decide (c = "/"%char) then Some c
  else if bool_decide (c = "b"%char) then Some "008"%char
  else if bool_decide (c = "f"%char) then Some "012"%char
  else if bool_decide (c = "n"%char) then Some "010"%char
  else if bool_decide (c = "r"%char) then Some "013"%char
  else if bool_decide (c = "t"%char) then Some "009"%char else None.

(** The rest of a string after its opening quote; a control character ends the
    reading with an error. *)
Fixpoint read_chars (fuel : nat) (l : list ascii) : option (list ascii * list ascii) :=
  match fuel with
  | O => None
  | S fuel =>
      match l with
      | [] => None
      | c :: l =>
          if bool_decide (c = quote_char) then Some ([], l)
          else if bool_decide (c = backslash) then
            match l with
            | [] => None
            | e :: l =>
                match simple_escape e with
                | Some d => prepend [d] (read_chars fuel l)
                | None =>
                    if bool_decide (e = "u"%char) then
                      match l with
                      | h1 :: h2 :: h3 :: h4 :: l =>
                          match unhex h1, unhex h2, unhex h3, unhex h4 with
                          | Some a, Some b, Some c, Some d =>
                              prepend (utf8 (((a * 16 + b) * 16 + c) * 16 + d)) (read_chars fuel l)
                          | _, _, _, _ => None
                          end
                      | _ => None
                      end
                    else None
                end
            end
          else if (byte_of c <? 32)%Z then None
          else prepend [c] (read_chars fuel l)
      end
  end.

Fixpoint read_digits (l : list ascii) (acc : Z) : Z * list ascii :=
  match l with
  | c :: l' => if numeral c then read_digits l' (10 * acc + digit_value c) else (acc, l)
  | [] => (acc, [])
  end.

Definition read_int (l : list ascii) : option (Z * list ascii) :=
  match l with
  | c :: l' =>
      if bool_decide (c = "-"%char) then
        match l' with
        | d :: _ => if numeral d then let '(z, r) := read_digits l' 0 in Some ((- z)%Z, r) else None
        | [] => None
        end
      else if numeral c then Some (read_digits l 0) else None
  | [] => None
  end.

(** A fraction and an exponent, each with at least one digit. *)
Definition skip_digits (l : list ascii) : option (list ascii) :=
  match l with c :: _ => if numeral c then Some (read_digits l 0).2 else None | [] => None end.

Definition read_fraction (l : list ascii) : option (list ascii) :=
  match l with c :: r => if bool_decide (c = "."%char) then skip_digits r else Some l | [] => Some l end.

Definition read_exponent (l : list ascii) : option (list ascii) :=
  match l with
  | c :: r =>
      if bool_decide (c = "e"%char) || bool_decide (c = "E"%char) then
        match r with
        | s :: r' => if bool_decide (s = "+"%char) || bool_decide (s = "-"%char) then skip_digits r' else skip_digits r
        | [] => None
        end
      else Some l
  | [] => Some l
  end.

Definition read_suffix (l : list ascii) : option (list ascii) :=
  match read_fraction l with Some r => read_exponent r | None => None end.

(** An integer by its value, another number by its text. *)
Definition read_number (l : list ascii) : option (jval * list ascii) :=
  match read_int l with
  | Some (z, r) =>
      match read_suffix r with
      | Some r' =>
          if bool_decide (length r' = length r) then Some (JInt z, r)
          else Some (JFloat (take (length l - length r') l), r')
      | None => None
      end
  | None => None
  end.

(** The rest of a list after a prefix. *)
Fixpoint strip (p l : list ascii) : option (list ascii) :=
  match p, l with
  | [], _ => Some l
  | a :: p, b :: l => if bool_decide (a = b) then strip p l else None
  | _, _ => None
  end.

Definition read_word (w : string) (v : jval) (l : list ascii) : option (jval * list ascii) :=
  match strip (chars w) l with Some r => Some (v, r) | None => None end.

Fixpoint read_value (fuel : nat) (l : list ascii) : option (jval * list ascii) :=
  match fuel with
  | O => None
  | S fuel =>
      match l with
      | [] => None
      | c :: r =>
          if bool_decide (c = "n"%char) then read_word "null" JNull l
          else if bool_decide (c = "t"%char) then read_word "true" (JBool true) l
          else if bool_decide (c = "f"%char) then read_word "false" (JBool false) l
          else if bool_decide (c = quote_char) then
            match read_chars (length r) r with Some (s, r) => Some (JStr s, r) | None => None end
          else if bool_decide (c = "["%char) then
            match strip (chars "]") r with
            | Some r => Some (JArr [], r)
            | None => match read_elems fuel r with Some (l, r) => Some (JArr l, r) | None => None end
            end
          else if bool_decide (c = "{"%char) then
            match strip (chars "}") r with
            | Some r => Some (JObj [], r)
            | None => match read_members fuel r with Some (m, r) => Some (JObj m, r) | None => None end
            end
          else read_number l
      end
  end
with read_elems (fuel : nat) (l : list ascii) : option (list jval * list ascii) :=
  match fuel with
  | O => None
  | S fuel =>
      match read_value fuel l with
      | Some (v, c :: r) =>
          if bool_decide (c = ","%char) then
            match read_elems fuel r with Some (vs, r) => Some (v :: vs, r) | None => None end
          else if bool_decide (c = "]"%char) then Some ([v], r) else None
      | _ => None
      end
  end
with read_members (fuel : nat) (l : list ascii) : option (list (list ascii * jval) * list ascii) :=
  match fuel with
  | O => None
  | S fuel =>
      match l with
      | q :: l =>
          if bool_decide (q = quote_char) then
            match read_chars (length l) l with
            | Some (k, colon :: r) =>
                if bool_decide (colon = ":"%char) then
                  match read_value fuel r with
                  | Some (v, c :: r) =>
                      if bool_decide (c = ","%char) then
                        match read_members fuel r with Some (m, r) => Some ((k, v) :: m, r) | None => None end
                      else if bool_decide (c = "}"%char) then Some ([(k, v)], r) else None
                  | _ => None
                  end
                else None
            | _ => None
            end
          else None
      | [] => None
      end
  end.

(** The whole text is one value. *)
Definition json_read (s : string) : option jval :=
  match read_value (String.length s) (chars s) with Some (v, []) => Some v | _ => None end.

Example read_example :
  option_map (λ v, match v with JObj [(k, JArr [JInt z; JNull]); (_, JStr s)] => (String.string_of_list_ascii k, z, length s) | _ => ("", 0%Z, 0) end)
    (json_read (String.string_of_list_ascii (map (λ c, if bool_decide (c = "'"%char) then quote_char else c)
       (chars "{'a':[-12,null],'b':'x\u003cy\n'}"))))
  = Some ("a", (-12)%Z, 4).
Proof. vm_compute. reflexivity. Qed.

(** ** Strings *)

(** What the encoder keeps of a string. *)
Fixpoint sanitize (fuel : nat) (l : list ascii) : list ascii :=
  match fuel, l with
  | O, _ | _, [] => []
  | S fuel, c :: rest =>
      match rune_len l with
      | 0 => utf8 65533 ++ sanitize fuel rest
      | n => take n l ++ sanitize fuel (drop n l)
      end
  end.
Definition valid_text (s : string) : list ascii := sanitize (String.length s) (chars s).

Lemma byte_chr_of c : byte_chr (byte_of c) = c.
Proof. unfold byte_chr, byte_of. by rewrite N2Z.id, ascii_N_embedding. Qed.

Lemma prepend_prepend p q r : prepend p (prepend q r) = prepend (p ++ q) r.
Proof. destruct r as [[s rest]|]; [|done]. cbn. by rewrite app_assoc. Qed.

(** One ASCII character, escaped. *)
Lemma read_escape_ascii c fuel l :
  (byte_of c < 128)%Z → read_chars (S fuel) (escape_ascii c ++ l) = prepend [c] (read_chars fuel l).
Proof. destruct c as [[] [] [] [] [] [] [] []]; intros H; try reflexivity; by exfalso. Qed.

Lemma escape_ascii_length c : 1 ≤ length (escape_ascii c).
Proof. destruct c as [[] [] [] [] [] [] [] []]; vm_compute; lia. Qed.

(** Bytes outside ASCII are copied. *)
Lemma read_high_bytes p fuel l :
  Forall (λ c, (128 ≤ byte_of c)%Z) p →
  read_chars (length p + fuel) (p ++ l) = prepend p (read_chars fuel l).
Proof.
  induction 1 as [|c p Hc _ IH]; cbn; [by destruct (read_chars fuel l) as [[]|]|].
  rewrite !bool_decide_eq_false_2 by (intros ->; by apply Hc).
  destruct (Z.ltb_spec (byte_of c) 32); [lia|]. by rewrite IH, prepend_prepend.
Qed.

Lemma rune_len_ascii c l : rune_len (c :: l) = 1 → (byte_of c < 128)%Z.
Proof.
  cbn. destruct (Z.ltb_spec (byte_of c) 128); [done|]. destruct l as [|c1 [|c2 [|c3 l]]]; intros Hl;
    repeat (match type of Hl with context [if ?b then _ else _] => destruct b end); done.
Qed.

(** A sequence of several bytes has no ASCII byte. *)
Lemma rune_len_high l n :
  rune_len l = S (S n) → S (S n) ≤ length l ∧ Forall (λ c, (128 ≤ byte_of c)%Z) (take (S (S n)) l).
Proof.
  destruct l as [|c0 l]; [done|]. cbn -[take]. destruct (Z.ltb_spec (byte_of c0) 128); [done|].
  destruct l as [|c1 l]; [done|].
  assert (∀ lo hi c, in_range lo hi c = true → (lo ≤ byte_of c ≤ hi)%Z) as Hin
    by (intros lo hi c [?%Z.leb_le ?%Z.leb_le]%andb_true_iff; lia).
  destruct (in_range 194 223 c0 && is_cont c1) eqn:E2.
  { intros [= <-]. apply andb_true_iff in E2 as [_ H1%Hin]. cbn. split; [lia|]. repeat constructor; lia. }
  destruct l as [|c2 l]; [done|].
  match goal with |- (if ?b then _ else _) = _ → _ => destruct b eqn:E3 end.
  { intros [= <-]. apply andb_true_iff in E3 as [H2%Hin Hc]. cbn. split; [lia|].
    assert (128 ≤ byte_of c1)%Z; [|repeat constructor; lia].
    repeat match goal with
    | H : _ || _ = true |- _ => apply orb_true_iff in H as [H|H]
    | H : _ && _ = true |- _ => apply andb_true_iff in H as [? H]
    end; unfold is_cont in *; match goal with H : in_range _ _ c1 = true |- _ => apply Hin in H; lia end. }
  destruct l as [|c3 l]; [done|].
  match goal with |- (if ?b then _ else _) = _ → _ => destruct b eqn:E4 end; [|done].
  intros [= <-]. apply andb_true_iff in E4 as [[H2%Hin H3%Hin]%andb_true_iff Hc]. cbn. split; [lia|].
  assert (128 ≤ byte_of c1)%Z; [|repeat constructor; lia].
  repeat match goal with
  | H : _ || _ = true |- _ => apply orb_true_iff in H as [H|H]
  | H : _ && _ = true |- _ => apply andb_true_iff in H as [? H]
  end; unfold is_cont in *; match goal with H : in_range _ _ c1 = true |- _ => apply Hin in H; lia end.
Qed.

(** The two separators that are escaped. *)
Lemma line_sep_rune l d :
  is_line_sep l = Some d →
  rune_len l = 3 ∧ length (take 3 l) = 3
  ∧ ∀ fuel r, read_chars (S fuel) ([backslash; "u"%char; "2"%char; "0"%char; "2"%char; d] ++ r)
              = prepend (take 3 l) (read_chars fuel r).
Proof.
  destruct l as [|c0 [|c1 [|c2 l]]]; try done. cbn -[rune_len read_chars].
  destruct (Z.eqb_spec (byte_of c0) 226) as [H0|]; [|done].
  destruct (Z.eqb_spec (byte_of c1) 128) as [H1|]; [|done]. cbn -[rune_len read_chars].
  rewrite <- (byte_chr_of c0), <- (byte_chr_of c1), H0, H1.
  destruct (Z.eqb_spec (byte_of c2) 168) as [H2|_].
  { intros [= <-]. rewrite <- (byte_chr_of c2), H2. by destruct l. }
  destruct (Z.eqb_spec (byte_of c2) 169) as [H2|_]; [|done].
  intros [= <-]. rewrite <- (byte_chr_of c2), H2. by destruct l.
Qed.

(** A whole string body. *)
Lemma read_escaped n l fuel rest :
  length l ≤ n → length (escape_bytes n l) < fuel →
  read_chars fuel (escape_bytes n l ++ quote_char :: rest) = Some (sanitize n l, rest).
Proof.
  revert l fuel. induction n as [|n IH]; intros l fuel Hn Hf.
  { destruct l; [|cbn in Hn; lia]. by destruct fuel; [cbn [length] in Hf; lia|]. }
  destruct l as [|c l]; [by destruct fuel; [cbn [length] in Hf; lia|]|].
  cbn [escape_bytes sanitize] in *. cbn [length] in Hn.
  destruct (is_line_sep (c :: l)) as [d|] eqn:Els.
  { destruct (line_sep_rune _ _ Els) as (Hr & H3 & Hrd). rewrite Hr. rewrite length_app in Hf.
    destruct fuel as [|fuel]; [cbn [length] in Hf; lia|]. rewrite <- app_assoc, Hrd, IH; [done| |cbn [length] in Hf; lia].
    rewrite length_drop. cbn [length]. lia. }
  destruct (rune_len (c :: l)) as [|[|k]] eqn:Er.
  - rewrite length_app in Hf. destruct fuel as [|fuel]; [cbn [length] in Hf; lia|].
    assert (∀ r, read_chars (S fuel) ([backslash; "u"%char; "f"%char; "f"%char; "f"%char; "d"%char] ++ r)
                 = prepend (utf8 65533) (read_chars fuel r)) as Hrd by done.
    rewrite <- app_assoc, Hrd, IH; [done|lia|cbn [length] in Hf; lia].
  - apply rune_len_ascii in Er as Hc. rewrite length_app in Hf. destruct fuel as [|fuel]; [cbn [length] in Hf; lia|].
    pose proof (escape_ascii_length c) as H1.
    rewrite <- app_assoc, read_escape_ascii, IH by (done || lia). done.
  - destruct (rune_len_high _ _ Er) as [Hl Hb]. rewrite length_app, length_take in Hf.
    replace fuel with (length (take (S (S k)) (c :: l)) + (fuel - S (S k))).
    2: { rewrite length_take. lia. }
    rewrite <- app_assoc, read_high_bytes by done. rewrite IH; [done| |lia].
    rewrite length_drop. cbn [length]. lia.
Qed.

(** ** Numbers *)

(** What may follow a value: nothing, or a character that does not extend a
    number. *)
Definition number_char (c : ascii) : bool :=
  numeral c || bool_decide (c = "."%char) || bool_decide (c = "e"%char) || bool_decide (c = "E"%char).
Definition delimited (rest : list ascii) : Prop :=
  match rest with [] => True | c :: _ => number_char c = false end.

(** The text is read as the value, with as much fuel as it is long. *)
Definition reads (t : list ascii) (j : jval) : Prop :=
  ∀ fuel rest, length t ≤ fuel → delimited rest → read_value fuel (t ++ rest) = Some (j, rest).

Lemma digit_code z : (0 ≤ z < 10)%Z → byte_of (digit z) = (48 + z)%Z.
Proof. intros. unfold byte_of, digit. rewrite N_ascii_embedding; lia. Qed.

Lemma digit_numeral z : (0 ≤ z < 10)%Z → numeral (digit z) = true ∧ digit_value (digit z) = z.
Proof.
  intros H. unfold numeral, in_range, digit_value. rewrite (digit_code z H).
  split; [apply andb_true_iff; split; apply Z.leb_le|]; lia.
Qed.

Lemma digits_S f z acc :
  digits (S f) z acc
  = if (z / 10 =? 0)%Z then digit (z mod 10) :: acc else digits f (z / 10) (digit (z mod 10) :: acc).
Proof. done. Qed.

Lemma digits_app f z acc rest : digits f z acc ++ rest = digits f z (acc ++ rest).
Proof.
  revert z acc. induction f as [|f IH]; intros z acc; cbn; [done|].
  destruct (z / 10 =? 0)%Z; [done|]. by rewrite IH.
Qed.

Lemma digits_head f z acc : (0 ≤ z)%Z → ∃ c l, digits (S f) z acc = c :: l ∧ numeral c = true.
Proof.
  revert z acc. induction f as [|f IH]; intros z acc Hz.
  - assert (numeral (digit (z mod 10)) = true) by (apply digit_numeral, Z.mod_pos_bound; lia).
    cbn. destruct (z / 10 =? 0)%Z; eauto.
  - rewrite digits_S. destruct (z / 10 =? 0)%Z.
    + do 2 eexists. split; [done|]. apply digit_numeral, Z.mod_pos_bound. lia.
    + apply IH. apply Z.div_pos; lia.
Qed.

Lemma read_digits_of f z acc :
  (0 ≤ z < 10 ^ Z.of_nat (S f))%Z → read_digits (digits (S f) z acc) 0 = read_digits acc z.
Proof.
  revert z acc. induction f as [|f IH]; intros z acc Hz; rewrite digits_S.
  all: pose proof (Z.mod_pos_bound z 10 ltac:(lia)) as Hm.
  all: pose proof (Z.div_mod z 10 ltac:(lia)) as Hdm.
  all: destruct (digit_numeral _ Hm) as [Hd Hv].
  all: assert (∀ a, read_digits (digit (z mod 10) :: acc) a = read_digits acc (10 * a + z mod 10)) as Hr
    by (intros a; cbn [read_digits]; by rewrite Hd, Hv).
  - change (10 ^ Z.of_nat 1)%Z with 10%Z in Hz. rewrite (Z.div_small z 10) by lia.
    cbn [Z.eqb]. rewrite Hr. f_equal. rewrite Z.mod_small; lia.
  - destruct (Z.eqb_spec (z / 10) 0) as [E|_]; [rewrite Hr; f_equal; lia|].
    rewrite IH, Hr; [f_equal; lia|]. rewrite (Nat2Z.inj_succ (S f)), Z.pow_succ_r in Hz by lia.
    split; [apply Z.div_pos; lia|]. apply Z.div_lt_upper_bound; lia.
Qed.

Lemma read_digits_stop z rest : delimited rest → read_digits rest z = (z, rest).
Proof.
  destruct rest as [|c r]; [done|]. cbn. unfold number_char. destruct (numeral c); [done|]. done.
Qed.

Lemma read_suffix_stop rest : delimited rest → read_suffix rest = Some rest.
Proof.
  destruct rest as [|c r]; [done|]. cbn. unfold number_char, read_suffix, read_fraction, read_exponent.
  rewrite !orb_false_iff. intros [[[_ ->] He] HE]. by rewrite He, HE.
Qed.

(** A number is read by [read_number]. *)
Lemma read_value_number c r fuel :
  numeral c = true ∨ c = "-"%char → read_value (S fuel) (c :: r) = read_number (c :: r).
Proof. intros [H| ->]; [|done]. revert H. by destruct c as [[] [] [] [] [] [] [] []]. Qed.

Lemma numeral_not_minus c : numeral c = true → bool_decide (c = "-"%char) = false.
Proof. intros H. apply bool_decide_eq_false_2. by intros ->. Qed.

(** The integers of 64 bits, signed or not. *)
Definition machine_int (z : Z) : Prop := (Z.abs z < 10 ^ 20)%Z.

Lemma read_number_int l z r : read_int l = Some (z, r) → delimited r → read_number l = Some (JInt z, r).
Proof. intros H Hr. unfold read_number. rewrite H, read_suffix_stop by done. by rewrite bool_decide_eq_true_2. Qed.

Lemma reads_Itoa z : machine_int z → reads (chars (Itoa z)) (JInt z).
Proof.
  unfold machine_int. intros Hz fuel rest Hf Hrest. unfold Itoa in *.
  rewrite String.list_ascii_of_string_of_list_ascii in *.
  destruct (Z.ltb_spec z 0).
  - destruct (digits_head 19 (- z) rest) as (c & l & Hl & Hc); [lia|].
    destruct fuel as [|fuel]; [cbn [length] in Hf; lia|]. cbn [app]. rewrite digits_app.
    rewrite read_value_number by auto. cbn [app]. apply read_number_int; [|done].
    unfold read_int. rewrite bool_decide_eq_true_2 by done.
    pose proof (read_digits_of 19 (- z) rest) as Hrd. rewrite Hl in *. rewrite Hc.
    rewrite Hrd by lia. rewrite read_digits_stop by done. do 2 f_equal. lia.
  - destruct (digits_head 19 z rest) as (c & l & Hl & Hc); [lia|].
    destruct fuel as [|fuel].
    { destruct (digits_head 19 z []) as (c' & l' & Hl' & _); [lia|]. rewrite Hl' in Hf. cbn [length] in Hf. lia. }
    rewrite digits_app. cbn [app].
    pose proof (read_digits_of 19 z rest) as Hrd. rewrite Hl in *.
    rewrite read_value_number by auto. apply read_number_int; [|done]. unfold read_int.
    rewrite numeral_not_minus, Hc by done. rewrite Hrd by lia. by rewrite read_digits_stop.
Qed.

(** *** Numbers that are not integers *)

(** The text of a number: a sign, digits, a fraction and an exponent. *)
Definition digit_text (l : list ascii) : Prop := l ≠ [] ∧ Forall (λ c, numeral c = true) l.
Definition fraction_text (l : list ascii) : Prop := l = [] ∨ ∃ ds, l = "."%char :: ds ∧ digit_text ds.
Definition exponent_text (l : list ascii) : Prop :=
  l = [] ∨ ∃ c sign ds, l = c :: sign ++ ds ∧ (c = "e"%char ∨ c = "E"%char)
             ∧ (sign = [] ∨ sign = ["+"%char] ∨ sign = ["-"%char]) ∧ digit_text ds.
Definition number_text (t : list ascii) : Prop :=
  ∃ sign ds fr ex, t = sign ++ ds ++ fr ++ ex ∧ (sign = [] ∨ sign = ["-"%char])
    ∧ digit_text ds ∧ fraction_text fr ∧ exponent_text ex.

Lemma read_digits_text ds rest : ∀ z, Forall (λ c, numeral c = true) ds →
  match rest with c :: _ => numeral c = false | [] => True end →
  ∃ z', read_digits (ds ++ rest) z = (z', rest).
Proof.
  induction ds as [|c ds IH]; intros z Hds Hrest; cbn.
  - exists z. destruct rest as [|c r]; [done|]. cbn. by rewrite Hrest.
  - apply Forall_cons in Hds as [-> Hds]. by apply IH.
Qed.

Lemma skip_digits_text ds rest :
  digit_text ds → match rest with c :: _ => numeral c = false | [] => True end →
  skip_digits (ds ++ rest) = Some rest.
Proof.
  intros [Hne Hds] Hrest. destruct (read_digits_text ds rest 0 Hds Hrest) as [z' Hz].
  destruct ds as [|c ds]; [done|]. apply Forall_cons in Hds as [Hc _].
  cbn [app skip_digits] in *. rewrite Hc. by rewrite Hz.
Qed.

Lemma delimited_not_digit rest : delimited rest → match rest with c :: _ => numeral c = false | [] => True end.
Proof. destruct rest as [|c r]; [done|]. cbn. unfold number_char. by destruct (numeral c). Qed.

Lemma read_exponent_text ex rest : exponent_text ex → delimited rest → read_exponent (ex ++ rest) = Some rest.
Proof.
  intros [->|(c & sign & ds & -> & Hc & Hs & Hds)] Hrest.
  { destruct rest as [|c r]; [done|]. cbn in *. unfold number_char in Hrest.
    rewrite !orb_false_iff in Hrest. destruct Hrest as [[_ ->] ->]. done. }
  cbn [app read_exponent].
  assert (bool_decide (c = "e"%char) || bool_decide (c = "E"%char) = true) as -> by (destruct Hc as [->| ->]; done).
  pose proof (skip_digits_text ds rest Hds (delimited_not_digit _ Hrest)) as Hskip.
  destruct Hs as [->|[->| ->]]; cbn [app]; [|exact Hskip..].
  destruct ds as [|d ds]; [by destruct Hds|]. cbn [app] in *.
  destruct Hds as [_ [Hd _]%Forall_cons].
  assert (bool_decide (d = "+"%char) || bool_decide (d = "-"%char) = false) as ->; [|exact Hskip].
  apply orb_false_iff. split; apply bool_decide_eq_false_2; by intros ->.
Qed.

Lemma exponent_not_digit ex rest :
  exponent_text ex → delimited rest → match ex ++ rest with c :: _ => numeral c = false | [] => True end.
Proof.
  intros [->|(c & sign & ds & -> & [->| ->] & _)] Hrest; [by apply delimited_not_digit|done..].
Qed.

Lemma read_suffix_text fr ex rest :
  fraction_text fr → exponent_text ex → delimited rest → read_suffix (fr ++ ex ++ rest) = Some rest.
Proof.
  intros Hfr Hex Hrest. unfold read_suffix.
  assert (read_fraction (fr ++ ex ++ rest) = Some (ex ++ rest)) as ->; [|by apply read_exponent_text].
  destruct Hfr as [->|(ds & -> & Hds)]; cbn [app].
  - destruct (ex ++ rest) as [|c r] eqn:E; [done|]. cbn. rewrite bool_decide_eq_false_2; [done|].
    intros ->. destruct Hex as [->|(c & sign & ds & -> & [->| ->] & _)]; cbn in E; simplify_eq.
    by cbn in Hrest.
  - cbn [read_fraction]. rewrite bool_decide_eq_true_2 by done.
    by apply skip_digits_text, exponent_not_digit.
Qed.

(** Every such text is read as one value. *)
Lemma reads_number_text t : number_text t → ∃ j, reads t j.
Proof.
  intros (sign & ds & fr & ex & -> & Hsign & [Hne Hds] & Hfr & Hex).
  assert (∀ rest, delimited rest → match fr ++ ex ++ rest with c :: _ => numeral c = false | [] => True end) as Hnd.
  { intros rest Hrest. destruct Hfr as [->|(d & -> & _)]; cbn [app]; [by apply exponent_not_digit|done]. }
  assert (∃ z, ∀ rest, delimited rest → read_int ((sign ++ ds ++ fr ++ ex) ++ rest) = Some (z, fr ++ ex ++ rest)) as [z Hz].
  { destruct (read_digits_text ds [] 0 Hds I) as [z0 Hz0]. rewrite app_nil_r in Hz0.
    assert (∀ rest acc, match rest with c :: _ => numeral c = false | [] => True end →
      read_digits (ds ++ rest) acc = ((read_digits ds acc).1, rest)) as Hrd.
    { clear -Hds. induction Hds as [|c ds Hc _ IH]; intros rest acc Hrest; cbn.
      - destruct rest as [|c r]; [done|]. cbn. by rewrite Hrest.
      - rewrite Hc. by apply IH. }
    destruct ds as [|d ds]; [done|]. pose proof Hds as [Hd _]%Forall_cons.
    destruct Hsign as [->| ->].
    - exists (read_digits (d :: ds) 0).1. intros rest Hrest. cbn [app]. rewrite <- !app_assoc.
      unfold read_int. rewrite numeral_not_minus, Hd by done. f_equal. apply (Hrd (fr ++ ex ++ rest)). by apply Hnd.
    - exists (- (read_digits (d :: ds) 0).1)%Z. intros rest Hrest. cbn [app]. rewrite <- !app_assoc.
      unfold read_int. rewrite bool_decide_eq_true_2, Hd by done.
      rewrite (Hrd (fr ++ ex ++ rest) 0%Z (Hnd rest Hrest) : read_digits (d :: ds ++ fr ++ ex ++ rest) 0 = _). done. }
  exists (if bool_decide (fr ++ ex = []) then JInt z else JFloat (sign ++ ds ++ fr ++ ex)).
  intros fuel rest Hf Hrest.
  assert (∃ c r, (sign ++ ds ++ fr ++ ex) ++ rest = c :: r ∧ (numeral c = true ∨ c = "-"%char)) as (c & r & Hcr & Hc).
  { destruct Hsign as [->| ->]; [|by do 2 eexists; split; [|right]].
    destruct ds as [|d ds]; [done|]. apply Forall_cons in Hds as [Hd _]. do 2 eexists. by split; [|left]. }
  destruct fuel as [|fuel].
  { rewrite !length_app in Hf. destruct ds; cbn [length] in Hf; [done|lia]. }
  rewrite Hcr, read_value_number, <- Hcr by done. unfold read_number. rewrite Hz, read_suffix_text by done.
  destruct (bool_decide (fr ++ ex = [])) eqn:E; bool_to_prop.
  - rewrite app_assoc, E. cbn [app]. by rewrite bool_decide_eq_true_2.
  - rewrite bool_decide_eq_false_2.
    + do 3 f_equal. rewrite (length_app _ rest). rewrite Nat.add_sub, take_app_length. done.
    + rewrite app_assoc, length_app. destruct (fr ++ ex); [done|]. cbn [length]. lia.
Qed.

(** ** Lists and objects *)

Lemma chars_app s t : chars (s +:+ t) = chars s ++ chars t.
Proof.
  induction s as [|c s IH]; [done|].
  change (c :: chars (s +:+ t) = c :: chars s ++ chars t). by rewrite IH.
Qed.

Lemma chars_length s : length (chars s) = String.length s.
Proof. induction s as [|c s IH]; [done|]. cbn. by f_equal. Qed.

Lemma chars_json_string s :
  chars (json_string s) = quote_char :: escape_bytes (String.length s) (chars s) ++ [quote_char].
Proof. unfold json_string. by rewrite String.list_ascii_of_string_of_list_ascii, chars_length. Qed.

Lemma read_chars_json_string s rest fuel :
  String.length (json_string s) ≤ S fuel →
  read_chars fuel (escape_bytes (String.length s) (chars s) ++ quote_char :: rest) = Some (valid_text s, rest).
Proof.
  intros Hf. rewrite <- chars_length, chars_json_string in Hf. cbn [length] in Hf. rewrite length_app in Hf.
  apply read_escaped; [by rewrite chars_length|]. cbn [length] in Hf. lia.
Qed.

Lemma reads_json_string s : reads (chars (json_string s)) (JStr (valid_text s)).
Proof.
  intros fuel rest Hf _. rewrite chars_json_string in *. cbn [length] in Hf.
  destruct fuel as [|fuel]; [lia|]. cbn [app]. rewrite <- app_assoc. cbn [app]. cbn -[read_chars length].
  rewrite read_chars_json_string; [done|].
  rewrite <- chars_length, chars_json_string. cbn [length]. rewrite !length_app. cbn [length]. lia.
Qed.

(** The text of a value is not empty and does not close a list. *)
Lemma reads_head t j : reads t j → ∃ c t', t = c :: t' ∧ c ≠ "]"%char.
Proof.
  intros H. specialize (H (S (length t)) [] ltac:(lia) I). rewrite app_nil_r in H.
  destruct t as [|c t]; [done|]. exists c, t. split; [done|]. by intros ->.
Qed.

Lemma chars_concat t ts :
  chars (String.concat "," (t :: ts))
  = chars t ++ match ts with [] => [] | _ => ","%char :: chars (String.concat "," ts) end.
Proof.
  destruct ts as [|t' ts]; [by rewrite app_nil_r|].
  change (String.concat "," (t :: t' :: ts)) with (t +:+ "," +:+ String.concat "," (t' :: ts)).
  by rewrite !chars_app.
Qed.

Lemma read_elems_of ts js fuel rest :
  ts ≠ [] → Forall2 (λ t, reads (chars t)) ts js →
  String.length (String.concat "," ts) < fuel →
  read_elems fuel (chars (String.concat "," ts) ++ "]"%char :: rest) = Some (js, rest).
Proof.
  intros Hne H. revert fuel. induction H as [|t j ts js Ht Hts IH]; [done|]. clear Hne.
  intros fuel. rewrite <- chars_length. destruct fuel as [|fuel]; [lia|].
  rewrite chars_concat, <- app_assoc, length_app. intros Hf. cbn [read_elems].
  rewrite (Ht fuel) by (lia || by destruct ts).
  destruct ts as [|t' ts]; cbn [app]; [by inversion Hts|]. rewrite bool_decide_eq_true_2 by done.
  rewrite IH; [done|done|]. rewrite <- chars_length. cbn [length] in Hf. lia.
Qed.

(** The text of a member. *)
Definition reads_member (t : string) (m : list ascii * jval) : Prop :=
  ∃ k s, t = json_string k +:+ ":" +:+ s ∧ m.1 = valid_text k ∧ reads (chars s) m.2.

Lemma read_members_of ts ms fuel rest :
  ts ≠ [] → Forall2 reads_member ts ms →
  String.length (String.concat "," ts) < fuel →
  read_members fuel (chars (String.concat "," ts) ++ "}"%char :: rest) = Some (ms, rest).
Proof.
  intros Hne H. revert fuel. induction H as [|t m ts ms (k & s & -> & Hk & Hs) Hts IH]; [done|]. clear Hne.
  intros fuel. rewrite <- chars_length. destruct fuel as [|fuel]; [lia|]. destruct m as [mk mv]. cbn in Hk, Hs. subst mk.
  rewrite chars_concat, !chars_app, chars_json_string, !length_app. cbn [app chars length]. rewrite !length_app.
  cbn [length]. intros Hf. cbn [read_members]. rewrite bool_decide_eq_true_2 by done. rewrite <- !app_assoc. cbn [app chars].
  rewrite read_chars_json_string.
  2: { rewrite <- chars_length, chars_json_string. cbn [length]. rewrite !length_app. cbn [length]. lia. }
  rewrite bool_decide_eq_true_2 by done. rewrite (Hs fuel) by (lia || by destruct ts).
  destruct ts as [|t' ts]; cbn [app]; [by inversion Hts|]. rewrite bool_decide_eq_true_2 by done.
  rewrite IH; [done|done|]. rewrite <- chars_length. cbn [length] in Hf. lia.
Qed.

Lemma chars_brackets o c items :
  chars (brackets o c items) = chars o ++ chars (String.concat "," items) ++ chars c.
Proof. unfold brackets. by rewrite !chars_app. Qed.

Lemma reads_array ts js :
  Forall2 (λ t, reads (chars t)) ts js → reads (chars (brackets "[" "]" ts)) (JArr js).
Proof.
  intros H fuel rest Hf _. rewrite chars_brackets in *. rewrite !length_app in Hf. cbn [chars length app] in *.
  destruct fuel as [|fuel]; [lia|]. rewrite <- app_assoc. cbn [app].
  destruct H as [|t j ts js Ht Hts]; [done|].
  assert (strip (chars "]") (chars (String.concat "," (t :: ts)) ++ "]"%char :: rest) = None) as Hs.
  { destruct (reads_head _ _ Ht) as (c & t' & Hc & Hne).
    rewrite chars_concat, Hc. cbn. by rewrite bool_decide_eq_false_2. }
  cbn -[String.concat strip chars]. rewrite Hs.
  rewrite (read_elems_of (t :: ts) (j :: js)); [done|done|by constructor|rewrite <- chars_length; lia].
Qed.

Lemma reads_object ts ms :
  Forall2 reads_member ts ms → reads (chars (brackets "{" "}" ts)) (JObj ms).
Proof.
  intros H fuel rest Hf _. rewrite chars_brackets in *. rewrite !length_app in Hf. cbn [chars length app] in *.
  destruct fuel as [|fuel]; [lia|]. rewrite <- app_assoc. cbn [app].
  destruct H as [|t m ts ms Ht Hts]; [done|].
  assert (strip (chars "}") (chars (String.concat "," (t :: ts)) ++ "}"%char :: rest) = None) as Hs.
  { destruct Ht as (k & s & -> & _).
    by rewrite chars_concat, chars_app, chars_json_string. }
  cbn -[String.concat strip chars]. rewrite Hs.
  rewrite (read_members_of (t :: ts) (m :: ms)); [done|done|by constructor|rewrite <- chars_length; lia].
Qed.
