(* ===== verification/JsonTrip.v ===== *)
(** The encoder of [Json.v] against the reader of [JsonRead.v]: an encoding is
    one line of text, and reading it back gives the value. *)

From S2P Require Import Prelude GoErrors Json JsonRead.

Open Scope string_scope.
Open Scope list_scope.
Open Scope nat_scope.

(** ** Induction on dynamic values *)

Section induction.
Variable P : gval → Prop.
Hypothesis P_nil : P GNil.
Hypothesis P_bool : ∀ b, P (GBool b).
Hypothesis P_int : ∀ z, P (GInt z).
Hypothesis P_str : ∀ s, P (GStr s).
Hypothesis P_slice : ∀ l, Forall P l → P (GSlice l).
Hypothesis P_map : ∀ m, Forall (λ kv, P kv.2) m → P (GMap m).
Hypothesis P_struct : ∀ fs, Forall (λ f, P f.2) fs → P (GStruct fs).
Hypothesis P_opaque : ∀ enc, P (GOpaque enc).

Fixpoint gval_nested (v : gval) : P v :=
  match v with
  | GNil => P_nil
  | GBool b => P_bool b
  | GInt z => P_int z
  | GStr s => P_str s
  | GSlice l => P_slice l ((fix go l : Forall P l :=
      match l with [] => Forall_nil_2 _ | x :: l => Forall_cons_2 _ _ _ (gval_nested x) (go l) end) l)
  | GMap m => P_map m ((fix go m : Forall (λ kv, P kv.2) m :=
      match m with [] => Forall_nil_2 _ | kv :: m => Forall_cons_2 (λ kv, P kv.2) _ _ (gval_nested kv.2) (go m) end) m)
  | GStruct fs => P_struct fs ((fix go fs : Forall (λ f, P f.2) fs :=
      match fs with [] => Forall_nil_2 _ | f :: fs => Forall_cons_2 (λ f, P f.2) _ _ (gval_nested f.2) (go fs) end) fs)
  | GOpaque enc => P_opaque enc
  end.
End induction.

(** ** Objects as lists of members *)

(** The fields of a struct that are written. *)
Fixpoint kept (fs : list (string * omit * gval)) : list (string * gval) :=
  match fs with
  | [] => []
  | (name, o, v) :: fs => if omitted o v then kept fs else (name, v) :: kept fs
  end.

(** Sorting by the keys commutes with a function of the values. *)
Lemma sort_keys_map {A B} (f : A → B) l :
  sort_keys (map (λ kv, (kv.1, f kv.2)) l) = map (λ kv, (kv.1, f kv.2)) (sort_keys l).
Proof.
  assert (∀ k v l, insert_key k (f v) (map (λ kv : string * A, (kv.1, f kv.2)) l)
                   = map (λ kv, (kv.1, f kv.2)) (insert_key k v l)) as Hins.
  { intros k v l'. induction l' as [|[k' v'] l' IH]; cbn; [done|].
    destruct (String.leb k k'); cbn; [done|]. by rewrite IH. }
  unfold sort_keys. induction l as [|[k v] l IH]; cbn [map foldr]; [done|]. rewrite IH. apply Hins.
Qed.

Lemma insert_key_perm {A} k (v : A) l : insert_key k v l ≡ₚ (k, v) :: l.
Proof.
  induction l as [|[k' v'] l IH]; cbn; [done|]. destruct (String.leb k k'); [done|].
  rewrite IH. apply perm_swap.
Qed.

Lemma sort_keys_perm {A} (l : list (string * A)) : sort_keys l ≡ₚ l.
Proof. unfold sort_keys. induction l as [|[k v] l IH]; cbn; [done|]. by rewrite insert_key_perm, IH. Qed.

Definition members_of (kvs : list (string * gval)) : list (result string error) :=
  map (λ kv, json_member kv.1 (json_Marshal kv.2)) kvs.

Lemma json_Marshal_map m : json_Marshal (GMap m) = json_list "{" "}" (members_of (sort_keys m)).
Proof.
  cbn. f_equal. unfold members_of.
  by rewrite sort_keys_map, map_map.
Qed.

Lemma json_Marshal_struct fs : json_Marshal (GStruct fs) = json_list "{" "}" (members_of (kept fs)).
Proof.
  cbn. f_equal. induction fs as [|[[n o] v] fs IH]; cbn; [done|]. destruct (omitted o v); [done|]. cbn. by f_equal.
Qed.

(** ** What is read back *)

(** The value of a text. *)
Definition parsed (s : string) : jval := default JNull (json_read s).

Fixpoint view (v : gval) : jval :=
  match v with
  | GNil => JNull
  | GBool b => JBool b
  | GInt z => JInt z
  | GStr s => JStr (valid_text s)
  | GSlice l => JArr (map view l)
  | GMap m => JObj (map (λ kv, (valid_text kv.1, kv.2)) (sort_keys (map (λ kv, (kv.1, view kv.2)) m)))
  | GStruct fs =>
      JObj ((fix members (fs : list (string * omit * gval)) : list (list ascii * jval) :=
          match fs with
          | [] => []
          | (name, o, v) :: fs => if omitted o v then members fs else (valid_text name, view v) :: members fs
          end) fs)
  | GOpaque (Ok s) => parsed s
  | GOpaque (Err _) => JNull
  end.

(** The text has no control character: no line break in particular. *)
Definition one_line (l : list ascii) : Prop := Forall (λ c, (32 ≤ byte_of c)%Z) l.

(** The text is one value on one line. *)
Definition well_formed (s : string) : Prop := (∃ j, reads (chars s) j) ∧ one_line (chars s).

(** The integers fit a machine word, and a value with its own encoding writes a
    value on one line. *)
Fixpoint readable (v : gval) : Prop :=
  match v with
  | GNil | GBool _ | GStr _ => True
  | GInt z => machine_int z
  | GSlice l => foldr (λ x P, readable x ∧ P) True l
  | GMap m => foldr (λ kv P, readable kv.2 ∧ P) True m
  | GStruct fs => foldr (λ f P, readable f.2 ∧ P) True fs
  | GOpaque (Ok s) => well_formed s
  | GOpaque (Err _) => True
  end.

Lemma foldr_Forall {A} (P : A → Prop) l : foldr (λ x Q, P x ∧ Q) True l ↔ Forall P l.
Proof. induction l as [|x l IH]; cbn; [by split|]. by rewrite Forall_cons, IH. Qed.

Definition view_members (kvs : list (string * gval)) : list (list ascii * jval) :=
  map (λ kv, (valid_text kv.1, view kv.2)) kvs.

Lemma view_map m : view (GMap m) = JObj (view_members (sort_keys m)).
Proof.
  cbn. f_equal. unfold view_members.
  by rewrite sort_keys_map, map_map.
Qed.

Lemma view_struct fs : view (GStruct fs) = JObj (view_members (kept fs)).
Proof.
  cbn. f_equal. induction fs as [|[[n o] v] fs IH]; cbn; [done|]. destruct (omitted o v); [done|]. cbn. by f_equal.
Qed.

(** ** One line *)

Lemma one_line_app l k : one_line (l ++ k) ↔ one_line l ∧ one_line k.
Proof. apply Forall_app. Qed.

Lemma one_line_escape_ascii c : (byte_of c < 128)%Z → one_line (escape_ascii c).
Proof.
  intros _. destruct c as [[] [] [] [] [] [] [] []]; repeat constructor; vm_compute; discriminate.
Qed.

Lemma one_line_escaped n l : one_line (escape_bytes n l).
Proof.
  revert l. induction n as [|n IH]; intros l; [constructor|].
  destruct l as [|c l]; [constructor|]. cbn [escape_bytes].
  destruct (is_line_sep (c :: l)) as [d|] eqn:E.
  - apply one_line_app. split; [|apply IH].
    assert (d = "8"%char ∨ d = "9"%char) as [-> | ->]; [|repeat constructor; vm_compute; discriminate ..].
    destruct l as [|c1 [|c2 l]]; try done. cbn in E.
    repeat match type of E with context [if ?b then _ else _] => destruct b end; try done; injection E as <-; auto.
  - destruct (rune_len (c :: l)) as [|[|k]] eqn:Er; apply one_line_app; (split; [|apply IH]).
    + repeat constructor; vm_compute; discriminate.
    + by apply one_line_escape_ascii, (rune_len_ascii c l).
    + destruct (rune_len_high _ _ Er) as [_ H]. eapply Forall_impl; [exact H|]. cbn. intros. lia.
Qed.

Lemma one_line_json_string s : one_line (chars (json_string s)).
Proof.
  rewrite chars_json_string. constructor; [done|]. apply one_line_app. split; [apply one_line_escaped|by repeat constructor].
Qed.

Lemma one_line_digits f z acc : one_line acc → one_line (digits f z acc).
Proof.
  revert z acc. induction f as [|f IH]; intros z acc Ha; [done|]. rewrite digits_S.
  assert (one_line (digit (z mod 10) :: acc)).
  { constructor; [|done]. pose proof (Z.mod_pos_bound z 10 ltac:(lia)). rewrite digit_code; lia. }
  destruct (z / 10 =? 0)%Z; [done|]. by apply IH.
Qed.

Lemma one_line_Itoa z : one_line (chars (Itoa z)).
Proof.
  unfold Itoa. rewrite String.list_ascii_of_string_of_list_ascii.
  destruct (z <? 0)%Z; [constructor; [done|]|]; apply one_line_digits; constructor.
Qed.

Lemma one_line_brackets o c ts :
  one_line (chars o) → one_line (chars c) → Forall (λ t, one_line (chars t)) ts →
  one_line (chars (brackets o c ts)).
Proof.
  intros Ho Hc Hts. rewrite chars_brackets, !one_line_app. split_and!; [done| |done].
  induction Hts as [|t ts Ht Hts IH]; [constructor|]. rewrite chars_concat. apply one_line_app. split; [done|].
  destruct ts; [constructor|]. by constructor.
Qed.

(** ** Round trip *)

(** What the encoding of a value is. *)
Definition encodes (v : gval) (s : string) : Prop := reads (chars s) (view v) ∧ one_line (chars s).

Lemma sequence_ok {A B} (f : A → result B error) l bs :
  sequence_results (map f l) = Ok bs → Forall2 (λ a b, f a = Ok b) l bs.
Proof.
  revert bs. induction l as [|a l IH]; cbn; intros bs H; [by injection H as <-|].
  destruct (f a) as [b|] eqn:Ea; [|done]. destruct (sequence_results (map f l)) as [xs|]; [|done].
  injection H as <-. constructor; [done|]. by apply IH.
Qed.

Lemma json_list_ok o c items s :
  json_list o c items = Ok s → ∃ l, sequence_results items = Ok l ∧ s = brackets o c l.
Proof. unfold json_list. destruct (sequence_results items) as [l|]; [|done]. intros [= <-]. eauto. Qed.

Lemma members_encode kvs s :
  Forall (λ kv, ∀ s, json_Marshal kv.2 = Ok s → encodes kv.2 s) kvs →
  json_list "{" "}" (members_of kvs) = Ok s →
  reads (chars s) (JObj (view_members kvs)) ∧ one_line (chars s).
Proof.
  intros Hall (l & Hl%sequence_ok & ->)%json_list_ok.
  assert (Forall2 reads_member l (view_members kvs) ∧ Forall (λ t, one_line (chars t)) l) as [H1 H2].
  { induction Hl as [|[k v] t kvs l Hkv Hl IH]; [by repeat constructor|].
    apply Forall_cons in Hall as [Hv Hall]. destruct (IH Hall) as [IH1 IH2].
    cbn in Hkv, Hv. destruct (json_Marshal v) as [sv|]; [|done]. injection Hkv as <-.
    destruct (Hv _ eq_refl) as [Hr Ho]. split; (constructor; [|done]).
    - by exists k, sv.
    - rewrite !chars_app, !one_line_app. split_and!; [apply one_line_json_string|by repeat constructor|done]. }
  split; [by apply reads_object|]. by apply one_line_brackets; [repeat constructor ..|].
Qed.

Lemma kept_incl (P : gval → Prop) fs : Forall (λ f, P f.2) fs → Forall (λ kv, P kv.2) (kept fs).
Proof.
  induction 1 as [|[[n o] v] fs Hv _ IH]; cbn; [constructor|]. destruct (omitted o v); [done|]. by constructor.
Qed.

(** The whole text is the value, nothing more. *)
Lemma reads_json_read s j : reads (chars s) j → json_read s = Some j.
Proof.
  intros H. unfold json_read. specialize (H (String.length s) []).
  rewrite app_nil_r, chars_length in H. by rewrite H by (done || lia).
Qed.

(** An encoding is read back as the value, and is one line. *)
Lemma marshal_encodes v : ∀ s, readable v → json_Marshal v = Ok s → encodes v s.
Proof.
  induction v as [|b|z|t|l IH|m IH|fs IH|[t|e]] using gval_nested; intros s Hv Hs.
  - injection Hs as <-. split; [by intros [|fuel] rest Hf; [cbn in Hf; lia|]|by repeat constructor].
  - injection Hs as <-. split; [|by destruct b; repeat constructor].
    intros [|fuel] rest Hf; [by destruct b; cbn in Hf; lia|]. by destruct b.
  - injection Hs as <-. split; [by apply reads_Itoa|apply one_line_Itoa].
  - injection Hs as <-. split; [apply reads_json_string|apply one_line_json_string].
  - apply foldr_Forall in Hv. apply json_list_ok in Hs as (ts & Hts%sequence_ok & ->).
    assert (Forall2 (λ t, reads (chars t)) ts (map view l) ∧ Forall (λ t, one_line (chars t)) ts) as [H1 H2].
    { clear -IH Hv Hts. induction Hts as [|v t l ts Ht Hts IHt]; [by repeat constructor|].
      apply Forall_cons in IH as [IHv IH], Hv as [Hv Hvs]. destruct (IHv _ Hv Ht), (IHt IH Hvs).
      by repeat constructor. }
    split; [by apply reads_array|]. by apply one_line_brackets; [repeat constructor ..|].
  - apply (foldr_Forall (λ kv, readable kv.2)) in Hv. rewrite json_Marshal_map in Hs. unfold encodes. rewrite view_map.
    apply members_encode; [|done]. rewrite sort_keys_perm.
    rewrite Forall_forall in *. eauto.
  - apply (foldr_Forall (λ f, readable f.2)) in Hv. rewrite json_Marshal_struct in Hs. unfold encodes. rewrite view_struct.
    apply members_encode; [|done].
    apply (kept_incl (λ v, ∀ s, json_Marshal v = Ok s → encodes v s)).
    rewrite Forall_forall in *. eauto.
  - injection Hs as <-. destruct Hv as [[j Hj] Ho]. split; [|done]. cbn. unfold parsed.
    by rewrite (reads_json_read _ _ Hj).
  - done.
Qed.

Lemma marshal_read_back v s :
  readable v → json_Marshal v = Ok s → json_read s = Some (view v) ∧ one_line (chars s).
Proof. intros Hv Hs. destruct (marshal_encodes v s Hv Hs). split; [by apply reads_json_read|done]. Qed.

(** The line is one line of text, with its line break, and reads back as the value. *)
Definition reads_as (line : string) (j : jval) : Prop :=
  ∃ text, line = text +:+ String "010"%char "" ∧ one_line (chars text) ∧ json_read text = Some j.
Definition is_line (line : string) (v : gval) : Prop := reads_as line (view v).

Lemma json_line_reads_back v line : readable v → json_line v = Ok line → is_line line v.
Proof.
  unfold json_line. intros Hv. destruct (json_Marshal v) as [s|] eqn:Em; [|done].
  intros [= <-]. exists s. split; [done|]. by apply and_comm, marshal_read_back.
Qed.

(** The text of any number, a float's too, is a value on one line. *)
Lemma one_line_digit_text l : digit_text l → one_line l.
Proof.
  intros [_ H]. eapply Forall_impl; [exact H|]. cbn. unfold numeral, in_range. intros c Hc.
  apply andb_true_iff in Hc as [Hc%Z.leb_le _]. lia.
Qed.

Lemma number_well_formed s : number_text (chars s) → well_formed s.
Proof.
  intros H. split; [by apply reads_number_text|].
  destruct H as (sign & ds & fr & ex & -> & Hs & Hd & Hf & He). rewrite !one_line_app. split_and!.
  - destruct Hs as [->| ->]; repeat constructor; vm_compute; discriminate.
  - by apply one_line_digit_text.
  - destruct Hf as [->|(d & -> & Hd')]; [constructor|]. constructor; [vm_compute; discriminate|by apply one_line_digit_text].
  - destruct He as [->|(c & sg & d & -> & Hc & Hsg & Hd')]; [constructor|].
    constructor; [destruct Hc as [->| ->]; vm_compute; discriminate|]. apply one_line_app.
    split; [|by apply one_line_digit_text].
    destruct Hsg as [->|[->| ->]]; repeat constructor; vm_compute; discriminate.
Qed.
