(* ===== verification/Http.v ===== *)
(** The part of [net/http] the middleware and the response helpers use:
    requests, header maps, and the server's [ResponseWriter], with the writer
    wrappers a middleware puts in front of it for the handlers below it. *)

From S2P Require Import Prelude GoErrors Contextx GoStrings Json.

Open Scope string_scope.
Open Scope list_scope.

(** ** Headers and requests *)

(** [http.Header]: canonical keys to lists of values. *)
Abbreviation Header := (gmap string (list string)).

Definition Header_Get (h : Header) (k : string) : string :=
  match h !! CanonicalHeaderKey k with Some (v :: _) => v | _ => "" end.
Definition Header_Set (k v : string) (h : Header) : Header := <[CanonicalHeaderKey k := [v]]> h.
Definition Header_Del (k : string) (h : Header) : Header := delete (CanonicalHeaderKey k) h.

Record Request : Type := mkRequest {
  req_method : string;
  req_path : string;
  req_header : Header;
  req_remoteAddr : string;
  req_ctx : context;
}.

Definition WithContext (r : Request) (ctx : context) : Request :=
  mkRequest (req_method r) (req_path r) (req_header r) (req_remoteAddr r) ctx.

(** ** The response writer *)

(** The header map the handler works on, the status line and the headers once
    they are sent, and the body. *)
Record response : Type := mkResponse {
  resp_header : Header;
  resp_sent : option (Z * Header);
  resp_body : string;
}.

Definition fresh_response : response := mkResponse ∅ None "".

(** The status and headers the client has received. *)
Definition resp_status (r : response) : option Z := fst <$> resp_sent r.

(** The first final [WriteHeader] sends the headers; later ones are
    superfluous, informational ones send nothing final. *)
Definition is_informational (c : Z) : bool := (100 <=? c)%Z && (c <=? 199)%Z && negb (c =? 101)%Z.

Definition raw_WriteHeader (c : Z) (r : response) : response :=
  match resp_sent r with
  | Some _ => r
  | None =>
      if is_informational c then r
      else mkResponse (resp_header r) (Some (c, resp_header r)) (resp_body r)
  end.

Definition http_ErrBodyNotAllowed : error :=
  Sentinel "http.ErrBodyNotAllowed" "http: request method or response status code does not allow body".

Definition body_allowed (c : Z) : bool := negb ((c =? 204)%Z || (c =? 304)%Z).

(** [Write] sends status 200 when no status has been sent, and refuses a body
    for a status that allows none. *)
Definition raw_Write (s : string) (r : response) : response * option error :=
  let r := raw_WriteHeader 200 r in
  match resp_sent r with
  | Some (c, _) =>
      if body_allowed c then (mkResponse (resp_header r) (resp_sent r) (resp_body r +:+ s), None)
      else (r, Some http_ErrBodyNotAllowed)
  | None => (r, None)
  end.

(** ** Handlers *)

(** The state a handler runs in: the connection's response, the [status]
    variables of the wrappers between the connection and the handler (innermost
    first), and the rest of the world. *)
Record hstate (World : Type) : Type := mkH {
  h_resp : response;
  h_recorders : list Z;
  h_world : World;
}.
Arguments mkH {World}.
Arguments h_resp {World}.
Arguments h_recorders {World}.
Arguments h_world {World}.

(** Effects outside the response: log records, metrics. *)
Inductive hevent : Type :=
| HLog (level msg : string) (attrs : list (string * any))
| HCount (labels : list string)
| HObserve (labels : list string) (d : Z).

#[export] Instance hevent_eq_dec : EqDecision hevent.
Proof. solve_decision. Defined.

Abbreviation HandlerM World := (Go (hstate World) hevent).
Definition Handler (World : Type) : Type := Request → HandlerM World unit.
Definition Middleware (World : Type) : Type := Handler World → Handler World.

Section writer.
Context {World : Type}.

Definition on_resp (f : response → response) (h : hstate World) : hstate World :=
  mkH (f (h_resp h)) (h_recorders h) (h_world h).

(** [w.Header().Set(k, v)] and [w.Header().Del(k)] *)
Definition header_Set (k v : string) : HandlerM World unit :=
  modify (on_resp (λ r, mkResponse (Header_Set k v (resp_header r)) (resp_sent r) (resp_body r))).
Definition header_Del (k : string) : HandlerM World unit :=
  modify (on_resp (λ r, mkResponse (Header_Del k (resp_header r)) (resp_sent r) (resp_body r))).

(** [w.WriteHeader(c)]: every wrapper notes the code and passes the call on. *)
Definition WriteHeader (c : Z) : HandlerM World unit :=
  modify (λ h, mkH (raw_WriteHeader c (h_resp h)) ((λ _, c) <$> h_recorders h) (h_world h)).

(** [w.Write]: the wrappers embed the writer and do not see it. *)
Definition Write (s : string) : HandlerM World (option error) :=
  lift (λ h, let '(r, e) := raw_Write s (h_resp h) in (mkH r (h_recorders h) (h_world h), e)).

(** An operation on the world: a call to a service. *)
Definition on_world {A} (f : World → World * A) : HandlerM World A :=
  lift (λ h, let '(w, a) := f (h_world h) in (mkH (h_resp h) (h_recorders h) w, a)).

Definition newline : string := String "010"%char "".

(** [http.Error(w, error, code)] *)
Definition http_Error (msg : string) (c : Z) : HandlerM World unit :=
  header_Del "Content-Length";;
  header_Set "Content-Type" "text/plain; charset=utf-8";;
  header_Set "X-Content-Type-Options" "nosniff";;
  WriteHeader c;;
  _ ← Write (msg +:+ newline);
  mret ().

(** [json.NewEncoder(w).Encode(v)]: the encoding is complete before the first
    byte is written. *)
Definition encode_to (v : gval) : HandlerM World (option error) :=
  match json_line v with
  | Err e => mret (Some e)
  | Ok line => Write line
  end.

End writer.

(** ** What the client receives *)

(** The response at the end of the request: a handler that has sent nothing
    gets status 200 with the headers it has set. *)
Definition finish (r : response) : Z * Header * string :=
  let r := raw_WriteHeader 200 r in
  match resp_sent r with
  | Some (c, h) => (c, h, resp_body r)
  | None => (200%Z, resp_header r, resp_body r)
  end.

(** Once sent, the status and the headers do not change. *)
Lemma raw_WriteHeader_sent c r s : resp_sent r = Some s → raw_WriteHeader c r = r.
Proof. intros H. unfold raw_WriteHeader. by rewrite H. Qed.

Lemma raw_WriteHeader_fresh c r :
  resp_sent r = None → is_informational c = false →
  resp_sent (raw_WriteHeader c r) = Some (c, resp_header r).
Proof. intros H Hc. unfold raw_WriteHeader. by rewrite H, Hc. Qed.

Lemma raw_Write_sent s r c h :
  resp_sent r = Some (c, h) → resp_sent (raw_Write s r).1 = Some (c, h).
Proof.
  intros H. unfold raw_Write. rewrite (raw_WriteHeader_sent _ _ _ H), H.
  by destruct (body_allowed c).
Qed.

(** A call to a service. *)
Lemma on_world_run {World A B} (f : World → World * A) (k : A → HandlerM World B) h w a :
  f (h_world h) = (w, a) →
  (on_world f ≫= k) h = k a (mkH (h_resp h) (h_recorders h) w).
Proof. intros H. apply run_lift. by rewrite H. Qed.

Lemma header_Set_run {World B} k v (m : unit → HandlerM World B) h :
  (header_Set k v ≫= m) h
  = m () (on_resp (λ r, mkResponse (Header_Set k v (resp_header r)) (resp_sent r) (resp_body r)) h).
Proof. apply run_modify. Qed.

#[export] Hint Rewrite @header_Set_run : go_run.

(** The answer [http.Error] gives on a response that is not sent yet. *)
Definition error_response (msg : string) (c : Z) (r : response) : response :=
  let h := Header_Set "X-Content-Type-Options" "nosniff"
             (Header_Set "Content-Type" "text/plain; charset=utf-8"
                (Header_Del "Content-Length" (resp_header r))) in
  mkResponse h (Some (c, h)) (resp_body r +:+ msg +:+ newline).

Lemma Header_Get_Set k v h : Header_Get (Header_Set k v h) k = v.
Proof. unfold Header_Get, Header_Set. by rewrite lookup_insert, decide_True. Qed.

Lemma Header_Get_Set_ne k k' v h :
  CanonicalHeaderKey k' ≠ CanonicalHeaderKey k → Header_Get (Header_Set k' v h) k = Header_Get h k.
Proof. intros. unfold Header_Get, Header_Set. by rewrite lookup_insert_ne. Qed.

Lemma Header_Get_Del_ne k k' h :
  CanonicalHeaderKey k' ≠ CanonicalHeaderKey k → Header_Get (Header_Del k' h) k = Header_Get h k.
Proof. intros. unfold Header_Get, Header_Del. by rewrite lookup_delete_ne. Qed.

(** [http.Error] keeps the other headers. *)
Lemma error_response_header k msg c r :
  CanonicalHeaderKey k ∉ ["Content-Type"; "Content-Length"; "X-Content-Type-Options"] →
  Header_Get (resp_header (error_response msg c r)) k = Header_Get (resp_header r) k.
Proof.
  intros Hk. rewrite !not_elem_of_cons in Hk. destruct Hk as (Ht & Hl & Ho & _).
  unfold error_response. cbn zeta. cbn [resp_header].
  assert (CanonicalHeaderKey "Content-Type" = "Content-Type") by reflexivity.
  assert (CanonicalHeaderKey "Content-Length" = "Content-Length") by reflexivity.
  assert (CanonicalHeaderKey "X-Content-Type-Options" = "X-Content-Type-Options") by reflexivity.
  rewrite !Header_Get_Set_ne, Header_Get_Del_ne by congruence. done.
Qed.

Lemma http_Error_run {World} msg c (h : hstate World) :
  resp_sent (h_resp h) = None → is_informational c = false → body_allowed c = true →
  http_Error msg c h =
    mkRun (mkH (error_response msg c (h_resp h)) ((λ _, c) <$> h_recorders h) (h_world h)) [] (Ret ()).
Proof.
  intros Hs Hi Hb. unfold http_Error, header_Del, header_Set, WriteHeader, Write.
  autorewrite with go_run.
  erewrite run_lift; [reflexivity|].
  unfold raw_Write, raw_WriteHeader, on_resp. cbn [h_resp resp_sent resp_header resp_body].
  rewrite Hs, Hi. cbn [h_resp resp_sent resp_header resp_body]. by rewrite Hb.
Qed.
