(* ===== verification/Response.v ===== *)
(** [http/response/codes.go] and [http/response/response.go]: the error codes
    with their HTTP statuses, and the JSON envelope. *)

From S2P Require Import Prelude GoErrors Contextx GoStrings Json JsonRead JsonTrip Http.

Open Scope string_scope.
Open Scope list_scope.

(** ** Codes *)

Definition ErrSystem : string := "SYS_INTERNAL_ERROR".
Definition ErrBadRequest : string := "SYS_BAD_REQUEST".
Definition ErrServiceUnavail : string := "SYS_SERVICE_UNAVAILABLE".
Definition ErrGatewayTimeout : string := "SYS_GATEWAY_TIMEOUT".
Definition ErrValidation : string := "VAL_INVALID_INPUT".
Definition ErrMissingField : string := "VAL_MISSING_FIELD".
Definition ErrInvalidFormat : string := "VAL_INVALID_FORMAT".
Definition ErrMissingToken : string := "AUTH_MISSING_TOKEN".
Definition ErrInvalidToken : string := "AUTH_INVALID_TOKEN".
Definition ErrForbidden : string := "AUTH_FORBIDDEN".
Definition ErrAccountLocked : string := "AUTH_ACCOUNT_LOCKED".
Definition ErrNotFound : string := "RES_NOT_FOUND".
Definition ErrAlreadyExists : string := "RES_ALREADY_EXISTS".
Definition ErrConflict : string := "RES_CONFLICT".
Definition ErrVersionMismatch : string := "RES_VERSION_MISMATCH".
Definition ErrRuleViolation : string := "BIZ_RULE_VIOLATION".
Definition ErrRateLimit : string := "BIZ_RATE_LIMIT_EXCEEDED".

Definition StatusOK : Z := 200.
Definition StatusNoContent : Z := 204.
Definition StatusBadRequest : Z := 400.
Definition StatusUnauthorized : Z := 401.
Definition StatusForbidden : Z := 403.
Definition StatusNotFound : Z := 404.
Definition StatusConflict : Z := 409.
Definition StatusUnprocessableEntity : Z := 422.
Definition StatusTooManyRequests : Z := 429.
Definition StatusInternalServerError : Z := 500.
Definition StatusServiceUnavailable : Z := 503.

Definition one_of (c : string) (l : list string) : bool := bool_decide (c ∈ l).

Definition MapStatus (c : string) : Z :=
  if one_of c [ErrBadRequest; ErrValidation; ErrMissingField; ErrInvalidFormat] then StatusBadRequest
  else if one_of c [ErrMissingToken; ErrInvalidToken] then StatusUnauthorized
  else if one_of c [ErrForbidden; ErrAccountLocked] then StatusForbidden
  else if one_of c [ErrNotFound] then StatusNotFound
  else if one_of c [ErrAlreadyExists; ErrConflict; ErrVersionMismatch] then StatusConflict
  else if one_of c [ErrRateLimit] then StatusTooManyRequests
  else if one_of c [ErrRuleViolation] then StatusUnprocessableEntity
  else if one_of c [ErrServiceUnavail; ErrGatewayTimeout] then StatusServiceUnavailable
  else StatusInternalServerError.

(** ** The envelope *)

Record ErrorResponse : Type := mkErrorResponse {
  er_Code : string;
  er_Message : string;
  er_DocURL : string;
  er_RequestID : string;
  er_Details : gval;
}.

Record Envelope : Type := mkEnvelope {
  env_Data : gval;
  env_Meta : gval;
  env_Error : option ErrorResponse;
}.

Definition error_gval (e : ErrorResponse) : gval :=
  GStruct
    [("code", Keep, GStr (er_Code e));
     ("message", Keep, GStr (er_Message e));
     ("doc_url", OmitEmpty, GStr (er_DocURL e));
     ("request_id", OmitEmpty, GStr (er_RequestID e));
     ("details", OmitNil, er_Details e)].

Definition envelope_gval (e : Envelope) : gval :=
  GStruct
    [("data", OmitNil, env_Data e);
     ("meta", OmitNil, env_Meta e);
     ("error", OmitNil, match env_Error e with Some er => error_gval er | None => GNil end)].

(** [Meta], the pagination block a caller may pass to [JSONWithMeta]. *)
Record Meta : Type := mkMeta {
  Page : Z; PageSize : Z; TotalItems : Z; HasNext : bool; NextCursor : string; MetaTraceID : string;
}.

Definition meta_gval (m : Meta) : gval :=
  GStruct
    [("page", OmitEmpty, GInt (Page m));
     ("page_size", OmitEmpty, GInt (PageSize m));
     ("total_items", OmitEmpty, GInt (TotalItems m));
     ("has_next", OmitEmpty, GBool (HasNext m));
     ("next_cursor", OmitEmpty, GStr (NextCursor m));
     ("trace_id", OmitEmpty, GStr (MetaTraceID m))].

Section response.
Context {World : Type}.
Implicit Types (r : Request).

Definition write r (status : Z) (payload : gval) : HandlerM World unit :=
  header_Set "Content-Type" "application/json";;
  WriteHeader status;;
  err ← encode_to payload;
  match err with
  | Some e =>
      emit (HLog "ERROR" "http_response_write_failed"
              [("status", AInt status); ("error", AOther (error_text e))])
  | None => mret ()
  end.

Definition JSON r (status : Z) (data : gval) : HandlerM World unit :=
  let is_nil := match data with GNil => true | _ => false end in
  let env := mkEnvelope data GNil None in
  let env :=
    if is_nil && negb (status =? StatusNoContent)%Z then mkEnvelope (GMap []) GNil None else env in
  write r status (envelope_gval env).

Definition JSONWithMeta r (status : Z) (data meta : gval) : HandlerM World unit :=
  write r status (envelope_gval (mkEnvelope data meta None)).

Definition ErrorJSONWithDetails r (status : Z) (c message : string) (details : gval) :
    HandlerM World unit :=
  let reqID := GetRequestID (Some (req_ctx r)) in
  let env := mkEnvelope GNil GNil (Some (mkErrorResponse c message "" reqID details)) in
  write r status (envelope_gval env).

Definition ErrorJSON r (status : Z) (c message : string) : HandlerM World unit :=
  ErrorJSONWithDetails r status c message GNil.

(** The response [write] leaves on a response not sent yet. *)
Definition json_response (status : Z) (line : string) (rs : response) : response :=
  let h := Header_Set "Content-Type" "application/json" (resp_header rs) in
  mkResponse h (Some (status, h)) (resp_body rs +:+ line).

Lemma write_run r status payload line (h : hstate World) :
  json_line payload = Ok line →
  resp_sent (h_resp h) = None → is_informational status = false → body_allowed status = true →
  write r status payload h =
    mkRun (mkH (json_response status line (h_resp h)) ((λ _, status) <$> h_recorders h) (h_world h))
      [] (Ret ()).
Proof.
  intros Hj Hs Hi Hb. unfold write, WriteHeader, encode_to, Write. rewrite Hj.
  autorewrite with go_run. erewrite run_lift; cycle 1.
  { unfold raw_Write, raw_WriteHeader, on_resp. cbn [h_resp resp_sent resp_header resp_body].
    rewrite Hs, Hi. cbn [h_resp resp_sent resp_header resp_body]. rewrite Hb. reflexivity. }
  reflexivity.
Qed.

(** The error envelope always has an encoding: all its fields are strings. *)
Definition error_line (c message reqID : string) : string :=
  "{" +:+ json_string "error" +:+ ":{" +:+ json_string "code" +:+ ":" +:+ json_string c +:+ "," +:+
  json_string "message" +:+ ":" +:+ json_string message +:+
  (if bool_decide (reqID = "") then "" else "," +:+ json_string "request_id" +:+ ":" +:+ json_string reqID) +:+
  "}}" +:+ newline.

Lemma error_envelope_line c message reqID :
  json_line (envelope_gval (mkEnvelope GNil GNil (Some (mkErrorResponse c message "" reqID GNil))))
  = Ok (error_line c message reqID).
Proof.
  unfold json_line, error_line. cbn -[json_string String.append].
  rewrite (bool_decide_true ("" = "")) by done.
  unfold json_member. generalize json_string as js. intros js.
  destruct (bool_decide (reqID = "")); cbn; unfold brackets; cbn; by rewrite ?str_app_assoc.
Qed.

(** The error envelope, byte by byte. *)
Theorem error_json_response r status c message (h : hstate World) :
  resp_sent (h_resp h) = None → is_informational status = false → body_allowed status = true →
  ErrorJSON r status c message h =
    mkRun
      (mkH (json_response status (error_line c message (GetRequestID (Some (req_ctx r)))) (h_resp h))
         ((λ _, status) <$> h_recorders h) (h_world h))
      [] (Ret ()).
Proof. intros. apply write_run; auto using error_envelope_line. Qed.

(** The error envelope as a client's parser sees it. *)
Definition error_view (c message reqID : string) : jval :=
  JObj [(chars "error",
    JObj ([(chars "code", JStr (valid_text c)); (chars "message", JStr (valid_text message))]
          ++ if bool_decide (reqID = "") then [] else [(chars "request_id", JStr (valid_text reqID))]))].

(** C39: ErrorJSON on a response not sent yet sends the status with the JSON content
    type and a body that is one line, which a JSON parser reads back as the envelope
    with exactly the code, the message and the request id, whatever characters they
    contain. *)
Theorem error_body_reads_back r status c message (h : hstate World) :
  resp_sent (h_resp h) = None → is_informational status = false → body_allowed status = true →
  let ρ := ErrorJSON r status c message h in
  out ρ = Ret () ∧ trace ρ = []
  ∧ resp_status (h_resp (post ρ)) = Some status
  ∧ Header_Get (resp_header (h_resp (post ρ))) "Content-Type" = "application/json"
  ∧ ∃ text, resp_body (h_resp (post ρ)) = resp_body (h_resp h) +:+ text +:+ newline
      ∧ one_line (chars text)
      ∧ json_read text = Some (error_view c message (GetRequestID (Some (req_ctx r)))).
Proof.
  intros Hs Hi Hb ρ. subst ρ. unfold ErrorJSON, ErrorJSONWithDetails. generalize (GetRequestID (Some (req_ctx r))) as reqID. intros reqID.
  pose proof (error_envelope_line c message reqID) as Hl.
  eapply json_line_reads_back in Hl as Hrb; [|by repeat split].
  destruct Hrb as (text & Ht & Ho & Hr).
  rewrite (write_run r status _ _ h Hl) by done. cbn -[error_line]. split_and!; [done..| |].
  - apply Header_Get_Set.
  - exists text. rewrite Ht. split_and!; [done..|].
    rewrite Hr. cbn. rewrite (bool_decide_true ("" = "")) by done. unfold error_view.
    by destruct (bool_decide (reqID = "")).
Qed.

(** JSON with status 204 tries to write a body, which fails and is logged. *)
Theorem no_content_write_fails r data line (h : hstate World) :
  resp_sent (h_resp h) = None →
  json_line (envelope_gval (mkEnvelope data GNil None)) = Ok line →
  let ρ := JSON r StatusNoContent data h in
  resp_status (h_resp (post ρ)) = Some StatusNoContent
  ∧ resp_body (h_resp (post ρ)) = resp_body (h_resp h)
  ∧ trace ρ = [HLog "ERROR" "http_response_write_failed"
                 [("status", AInt 204); ("error", AOther (error_text http_ErrBodyNotAllowed))]].
Proof.
  intros Hs Hj ρ. subst ρ. unfold JSON. cbn -[write]. rewrite andb_false_r.
  unfold write, WriteHeader, encode_to, Write. rewrite Hj.
  autorewrite with go_run. erewrite run_lift; cycle 1.
  { unfold raw_Write, raw_WriteHeader, on_resp. cbn [h_resp resp_sent resp_header resp_body].
    rewrite Hs. reflexivity. }
  done.
Qed.

End response.

Lemma error_json_response_witness :
  let r := mkRequest "GET" "/" ∅ "10.0.0.1:1" (WithRequestID Background "req-1") in
  let h := mkH fresh_response [200%Z] () in
  single_quotes (resp_body (h_resp (post (ErrorJSON r 404 ErrNotFound "no such order" h))))
  = "{'error':{'code':'RES_NOT_FOUND','message':'no such order','request_id':'req-1'}}" +:+ newline.
Proof.
  cbn zeta.
  rewrite (error_json_response (World := unit)
    (mkRequest "GET" "/" ∅ "10.0.0.1:1" (WithRequestID Background "req-1")) 404 ErrNotFound
    "no such order" (mkH fresh_response [200%Z] ())); [vm_compute; reflexivity|reflexivity..].
Defined.

Lemma no_content_write_fails_witness :
  let h := mkH fresh_response [] () in
  resp_status (h_resp (post (JSON (mkRequest "DELETE" "/" ∅ "" Background) 204 GNil h))) = Some 204%Z.
Proof.
  apply (no_content_write_fails (World := unit) (mkRequest "DELETE" "/" ∅ "" Background) GNil
           ("{}" +:+ newline) (mkH fresh_response [] ())); vm_compute; reflexivity.
Defined.

Lemma error_body_reads_back_witness :
  let r := mkRequest "GET" "/" ∅ "10.0.0.1:1" (WithRequestID Background "req-1") in
  let h := mkH fresh_response [200%Z] () in
  ∃ text, resp_body (h_resp (post (ErrorJSON r 404 ErrNotFound (String quote_char newline) h))) = text +:+ newline
    ∧ json_read text = Some (error_view ErrNotFound (String quote_char newline) "req-1").
Proof.
  destruct (error_body_reads_back (World := unit)
    (mkRequest "GET" "/" ∅ "10.0.0.1:1" (WithRequestID Background "req-1")) 404 ErrNotFound
    (String quote_char newline) (mkH fresh_response [200%Z] ())) as (_ & _ & _ & _ & text & Ht & _ & Hr);
    [reflexivity..|].
  exists text. split; [exact Ht|exact Hr].
Defined.
