(* ===== verification/Gcra.v ===== *)
(** The Lua script [luaGCRA] of [server/middleware/ratelimit.go]: the Generic
    Cell Rate Algorithm that Redis runs for the HTTP and the gRPC limiter. The
    script is translated over an interface of Lua numbers with two instances:
    IEEE binary64, which is what Redis computes with, and the exact rationals,
    in which the algorithm itself is stated. *)

From Stdlib Require Import QArith Qminmax Qround Lqa SpecFloat.
From S2P Require Import Prelude.

Open Scope list_scope.

(** ** Lua numbers *)

Class LuaNumber (num : Type) : Type := {
  lua_Z : Z → num;
  lua_add : num → num → num;
  lua_sub : num → num → num;
  lua_mul : num → num → num;
  lua_div : num → num → num;
  lua_max : num → num → num;
  lua_le : num → num → bool;
  lua_ceil : num → Z;
}.

#[export] Instance lua_Q : LuaNumber Q := {
  lua_Z z := inject_Z z;
  lua_add x y := Qred (x + y);
  lua_sub x y := Qred (x - y);
  lua_mul x y := Qred (x * y);
  lua_div x y := Qred (x / y);
  lua_max x y := if Qle_bool x y then y else x;
  lua_le x y := Qle_bool x y;
  lua_ceil x := Qceiling x;
}.

(** binary64, with the rounding of the standard's operations. *)
Definition prec64 : Z := 53.
Definition emax64 : Z := 1024.

Definition float_of_Z (z : Z) : spec_float :=
  match z with
  | Z0 => S754_zero false
  | Zpos p => binary_normalize prec64 emax64 (Zpos p) 0 false
  | Zneg p => binary_normalize prec64 emax64 (Zneg p) 0 false
  end.

Definition float_ceil (x : spec_float) : Z :=
  match x with
  | S754_finite s m e =>
      let v := if s then Zneg m else Zpos m in
      if (0 <=? e)%Z then (v * 2 ^ e)%Z else (- (- v / 2 ^ (- e)))%Z
  | _ => 0%Z
  end.

#[export] Instance lua_float : LuaNumber spec_float := {
  lua_Z := float_of_Z;
  lua_add := SFadd prec64 emax64;
  lua_sub := SFsub prec64 emax64;
  lua_mul := SFmul prec64 emax64;
  lua_div := SFdiv prec64 emax64;
  lua_max x y := if SFltb x y then y else x;
  lua_le := SFleb;
  lua_ceil := float_ceil;
}.

(** ** The script *)

Section script.
Context {num : Type} {LN : LuaNumber num}.

(** One run of the script: the answers of [TIME] and [GET] are its inputs;
    the result is the number returned and the [SET key value EX seconds] it issues,
    if any. *)
Definition luaGCRA (now : Z * Z) (stored : option num) (rate : Z) (period : num) (burst : Z) :
    Z * option (num * Z) :=
  let emission_interval := lua_div period (lua_Z rate) in
  let now_ts := lua_add (lua_Z now.1) (lua_div (lua_Z now.2) (lua_Z 1000000)) in
  let tat := match stored with None => now_ts | Some tat => tat end in
  let tat := lua_max now_ts tat in
  let new_tat := lua_add tat emission_interval in
  let allow_at := lua_sub new_tat (lua_mul (lua_Z burst) emission_interval) in
  if lua_le allow_at now_ts
  then ((-1)%Z, Some (new_tat, lua_ceil (lua_mul period (lua_Z 2))))
  else (lua_ceil (lua_sub allow_at now_ts), None).

End script.

(** ** The key in Redis *)

(** Redis keeps one key of the limiter: [GET] at a time in microseconds, and
    [SET ... EX]. *)
Class RedisKey (num cell : Type) : Type := {
  cell_empty : cell;
  cell_GET : Z → cell → option num;
  cell_SET_EX : Z → num → Z → cell → cell;
}.

(** Redis's documentation of [SET] with [EX]: the value is there until the
    given number of seconds has passed, and then the key does not exist; a key
    that nobody writes only ever disappears. *)
Class RedisKeyLaws (num cell : Type) `{!RedisKey num cell} : Prop := {
  get_empty t : cell_GET t (cell_empty : cell) = None;
  get_live t t' v ex (c : cell) :
    (t ≤ t' < t + ex * 1000000)%Z → cell_GET t' (cell_SET_EX t v ex c) = Some v;
  get_expired t t' v ex (c : cell) :
    (t + ex * 1000000 ≤ t')%Z → cell_GET t' (cell_SET_EX t v ex c) = None;
  get_later t t' (c : cell) :
    (t ≤ t')%Z → cell_GET t' c = cell_GET t c ∨ cell_GET t' c = None;
}.

(** A cell as the value and its expiry. *)
#[export] Instance plain_cell {num} : RedisKey num (option (num * Z)) := {
  cell_empty := None;
  cell_GET t c :=
    match c with Some (v, expiry) => if (t <? expiry)%Z then Some v else None | None => None end;
  cell_SET_EX t v ex _ := Some (v, (t + ex * 1000000)%Z);
}.

#[export] Instance plain_cell_laws {num} : RedisKeyLaws num (option (num * Z)).
Proof.
  split; cbn; try done.
  - intros t t' v ex _ H. destruct (Z.ltb_spec t' (t + ex * 1000000)); [done|lia].
  - intros t t' v ex _ H. destruct (Z.ltb_spec t' (t + ex * 1000000)); [lia|done].
  - intros t t' [[v expiry]|] H; [|by left].
    destruct (Z.ltb_spec t' expiry), (Z.ltb_spec t expiry); auto; lia.
Qed.

(** ** Runs on one key *)

Section runs.
Context {num cell : Type} {LN : LuaNumber num} {RK : RedisKey num cell}.

(** One request at time [t] (in microseconds) on the key: the script runs
    atomically. The request is admitted when the script returns [-1]. *)
Definition gcra_request (rate : Z) (period : num) (burst : Z) (t : Z) (c : cell) : Z * cell :=
  let '(reply, cmd) :=
    luaGCRA (t / 1000000, t mod 1000000)%Z (cell_GET t c) rate period burst in
  (reply, match cmd with Some (v, ex) => cell_SET_EX t v ex c | None => c end).

(** The replies to a list of requests. *)
Fixpoint gcra_replies (rate : Z) (period : num) (burst : Z) (ts : list Z) (c : cell) : list Z :=
  match ts with
  | [] => []
  | t :: ts =>
      let '(reply, c') := gcra_request rate period burst t c in
      reply :: gcra_replies rate period burst ts c'
  end.

Definition admitted (replies : list Z) : nat := length (List.filter (Z.eqb (-1)) replies).

End runs.

(** The two number systems agree on a burst of requests followed by denials:
    3 requests per second, a burst of 2. *)
Example gcra_float_matches :
  let ts := [1700000000000000; 1700000000000000; 1700000000000000; 1700000000100000;
             1700000000400000; 1700000000500000; 1700000002000000]%Z in
  gcra_replies (num := spec_float) (cell := option (spec_float * Z)) 3 (lua_Z 1) 2 ts cell_empty
  = [-1; -1; 1; 1; -1; 1; -1]%Z
  ∧ gcra_replies (num := Q) (cell := option (Q * Z)) 3 (lua_Z 1) 2 ts cell_empty
  = [-1; -1; 1; 1; -1; 1; -1]%Z.
Proof. vm_compute. done. Qed.
