(* ===== verification/Binary64.v ===== *)
(** binary64 numbers as the rationals they stand for, and the rounding error of the
    operations of [SpecFloat]. *)

From Stdlib Require Import QArith Qpower Qabs Qround Lqa SpecFloat.
From S2P Require Import Prelude Gcra.

Open Scope Z_scope.

(** ** Powers of two *)

Definition pow2 (e : Z) : Q := Qpower (inject_Z 2) e.

Lemma pow2_pos e : (0 < pow2 e)%Q.
Proof. by apply Qpower_0_lt. Qed.

Lemma pow2_add a b : (pow2 (a + b) == pow2 a * pow2 b)%Q.
Proof. by apply Qpower_plus. Qed.

Lemma pow2_Z e : 0 ≤ e → (pow2 e == inject_Z (2 ^ e))%Q.
Proof. intros. unfold pow2. by rewrite Zpower_Qpower. Qed.

Lemma pow2_le a b : a ≤ b → (pow2 a <= pow2 b)%Q.
Proof. intros. apply Qpower_le_compat_l; done. Qed.

Lemma pow2_lt_inv a b : (pow2 a < pow2 b)%Q → a < b.
Proof. intros H. destruct (Z.lt_ge_cases a b); [done|]. by apply Qlt_not_le in H; destruct H; apply pow2_le. Qed.

Lemma pow2_le_inv a b : (pow2 a <= pow2 b)%Q → a ≤ b.
Proof.
  intros H. destruct (Z.lt_ge_cases b a) as [Hlt|]; [|done].
  assert (pow2 (b + 1) <= pow2 a)%Q as H1 by (apply pow2_le; lia).
  rewrite pow2_add in H1. pose proof (pow2_pos b). change (pow2 1) with (2 # 1)%Q in H1. exfalso. lra.
Qed.

(** ** The number of digits *)

Lemma digits2_size p : digits2_pos p = Pos.size p.
Proof. induction p as [p IH|p IH|]; cbn; by rewrite ?IH. Qed.

Lemma digits_spec m :
  0 ≤ m → (m = 0 ∧ Zdigits2 m = 0) ∨ (1 ≤ Zdigits2 m ∧ 2 ^ (Zdigits2 m - 1) ≤ m < 2 ^ Zdigits2 m).
Proof.
  destruct m as [|p|p]; [by left|right|lia]. unfold Zdigits2. rewrite digits2_size.
  assert (Z.log2 (Z.pos p) + 1 = Z.pos (Pos.size p)) as <-.
  { destruct p; cbn; lia. }
  pose proof (Z.log2_spec (Z.pos p) ltac:(lia)) as Hl. pose proof (Z.log2_nonneg (Z.pos p)).
  rewrite Z.add_simpl_r. rewrite Z.add_1_r. split; [lia|done].
Qed.

Lemma digits_le m n : 0 ≤ m < 2 ^ n → 0 ≤ n → Zdigits2 m ≤ n.
Proof.
  intros [Hm Hlt] Hn. destruct (digits_spec m Hm) as [[_ ->]|(H1 & H2 & _)]; [done|].
  assert (Zdigits2 m - 1 < n); [|lia]. apply (Z.pow_lt_mono_r_iff 2); lia.
Qed.

Lemma digits_ge m n : 0 ≤ n → 2 ^ n ≤ m → n + 1 ≤ Zdigits2 m.
Proof.
  intros Hn Hm. pose proof (Z.pow_pos_nonneg 2 n ltac:(lia) Hn).
  destruct (digits_spec m) as [[-> _]|(H1 & _ & H2)]; [lia..|].
  assert (n < Zdigits2 m); [|lia]. apply (Z.pow_lt_mono_r_iff 2); lia.
Qed.

(** ** Locations *)

(** Where [y] is relative to the integer below it. *)
Definition located (y : Q) (m : Z) (l : location) : Prop :=
  match l with
  | loc_Exact => y == inject_Z m
  | loc_Inexact Lt => inject_Z m < y /\ y < inject_Z m + (1 # 2)
  | loc_Inexact Eq => y == inject_Z m + (1 # 2)
  | loc_Inexact Gt => inject_Z m + (1 # 2) < y /\ y < inject_Z m + 1
  end%Q.

#[export] Instance located_proper : Proper (Qeq ==> eq ==> eq ==> iff) located.
Proof. intros y y' E m _ <- l _ <-. unfold located. destruct l as [|[]]; by rewrite E. Qed.

Abbreviation located_rec y r := (located y (shr_m r) (loc_of_shr_record r)).

Lemma located_bounds y m l : located y m l → (inject_Z m <= y /\ y < inject_Z m + 1)%Q.
Proof. destruct l as [|[]]; cbn; lra. Qed.

Lemma inject_xO p : (inject_Z (Zpos p~0) == 2 * inject_Z (Zpos p))%Q.
Proof. unfold Qeq. cbn. lia. Qed.
Lemma inject_xI p : (inject_Z (Zpos p~1) == 2 * inject_Z (Zpos p) + 1)%Q.
Proof. unfold Qeq. cbn. lia. Qed.

Lemma shr_1_located y r :
  0 ≤ shr_m r → located_rec y r → located_rec (y / 2)%Q (shr_1 r) ∧ shr_m (shr_1 r) = shr_m r / 2.
Proof.
  assert (∀ x : Q, x / 2 == x * (1 # 2))%Q as Hdiv by (intros; reflexivity).
  destruct r as [[|[p|p|]|p] rr ss]; cbn [shr_m]; try lia; intros _ H; split.
  2,4,6,8: rewrite <- Z.div2_div; by destruct rr, ss.
  all: destruct rr, ss; cbn in *; rewrite ?inject_xO, ?inject_xI in *; change (inject_Z 1) with 1%Q in *;
    change (inject_Z 0) with 0%Q in *; rewrite ?Hdiv; try lra.
Qed.

Lemma iter_pos_nat {A} (f : A → A) p x : SpecFloat.iter_pos f p x = Nat.iter (Pos.to_nat p) f x.
Proof.
  revert x. induction p as [p IH|p IH|]; intros x; cbn [SpecFloat.iter_pos]; [| |done].
  - rewrite !IH, Pos2Nat.inj_xI, Nat.iter_succ_r. replace (2 * Pos.to_nat p)%nat with (Pos.to_nat p + Pos.to_nat p)%nat by lia.
    by rewrite Nat.iter_add.
  - rewrite !IH, Pos2Nat.inj_xO. replace (2 * Pos.to_nat p)%nat with (Pos.to_nat p + Pos.to_nat p)%nat by lia.
    by rewrite Nat.iter_add.
Qed.

Lemma shr_n_located y r n :
  0 ≤ shr_m r → located_rec y r →
  let r' := Nat.iter n shr_1 r in
  located_rec (y * pow2 (- Z.of_nat n))%Q r' ∧ shr_m r' = shr_m r / 2 ^ Z.of_nat n ∧ 0 ≤ shr_m r'.
Proof.
  intros Hm Hy. cbn zeta. induction n as [|n (IH1 & IH2 & IH3)].
  { cbn [Nat.iter]. change (2 ^ Z.of_nat 0) with 1. rewrite Z.div_1_r. split_and!; [|done..].
    assert (y * pow2 (- Z.of_nat 0) == y)%Q as E by (change (pow2 _) with 1%Q; ring).
    by rewrite E. }
  destruct (shr_1_located _ _ IH3 IH1) as [H1 H2].
  change (Nat.iter (S n) shr_1 r) with (shr_1 (Nat.iter n shr_1 r)).
  assert (2 ^ Z.of_nat (S n) = 2 ^ Z.of_nat n * 2) as E2 by (rewrite Nat2Z.inj_succ, Z.pow_succ_r; lia).
  split_and!.
  - assert (y * pow2 (- Z.of_nat (S n)) == y * pow2 (- Z.of_nat n) / 2)%Q as E.
    { replace (- Z.of_nat (S n)) with (- Z.of_nat n + -1) by lia. rewrite pow2_add.
      change (pow2 (-1)) with (1 # 2)%Q. unfold Qdiv. change (/ 2)%Q with (1 # 2)%Q. ring. }
    by rewrite E.
  - rewrite H2, IH2, E2, Z.div_div; [done|lia..].
  - rewrite H2. apply Z.div_pos; lia.
Qed.

Lemma located_record y m l : located y m l → located_rec y (shr_record_of_loc m l) ∧ shr_m (shr_record_of_loc m l) = m.
Proof. by destruct l as [|[]]. Qed.

(** Shifting [n] digits out. *)
Lemma shr_located y m l e n :
  0 ≤ m → 0 ≤ n → located y m l →
  ∃ r, shr (shr_record_of_loc m l) e n = (r, e + n)
    ∧ located_rec (y * pow2 (- n))%Q r ∧ shr_m r = m / 2 ^ n ∧ 0 ≤ shr_m r.
Proof.
  intros Hm Hn Hy. destruct (located_record _ _ _ Hy) as [Hr Hrm].
  assert (0 ≤ shr_m (shr_record_of_loc m l)) as H0 by (by rewrite Hrm).
  pose proof (shr_n_located y _ (Z.to_nat n) H0 Hr) as H. cbn zeta in H. rewrite Hrm, Z2Nat.id in H by done.
  eexists. split; [|exact H]. unfold shr. destruct n as [|p|p]; [by rewrite Z.add_0_r| |lia].
  by rewrite iter_pos_nat.
Qed.

(** Rounding moves by at most one half. *)
Lemma round_half y m l :
  located y m l →
  (Qabs (inject_Z (round_nearest_even m l) - y) <= 1 # 2)%Q
  ∧ m ≤ round_nearest_even m l ≤ m + 1 ∧ (l = loc_Exact → round_nearest_even m l = m).
Proof.
  intros H. split; [|by split; [destruct l as [|[]]; cbn; destruct (Z.even m); lia|intros ->]].
  apply Qabs_Qle_condition.
  destruct l as [|[]]; cbn in *; [| |lra|]; try (destruct (Z.even m)); rewrite ?inject_Z_plus;
    change (inject_Z 1) with 1%Q; lra.
Qed.

(** ** Rounding *)

Abbreviation fexp64 := (SpecFloat.fexp prec64 emax64).

Lemma fexp64_max e : fexp64 e = Z.max (e - 53) (-1074).
Proof. reflexivity. Qed.

(** The relative error of a rounding, and the absolute one next to zero. *)
Definition ulp : Q := pow2 (-53).
Definition tiny : Q := pow2 (-1075).

(** The rational that a number stands for. *)
Definition val (x : spec_float) : Q :=
  match x with
  | S754_finite s m e => (inject_Z (SpecFloat.cond_Zopp s (Zpos m)) * pow2 e)%Q
  | _ => 0%Q
  end.

(** A finite number in its canonical form. *)
Definition canonical (m e : Z) : Prop := fexp64 (Zdigits2 m + e) = e ∧ e ≤ 971.
Definition sane (x : spec_float) : Prop :=
  match x with
  | S754_zero _ => True
  | S754_finite _ m e => canonical (Zpos m) e
  | _ => False
  end.

(** The first shift of a rounding leaves [m1] with 53 digits, or fewer at the
    smallest exponent. *)
Lemma shift_digits m e :
  0 ≤ m → e ≤ fexp64 (Zdigits2 m + e) →
  let e1 := fexp64 (Zdigits2 m + e) in
  let m1 := m / 2 ^ (e1 - e) in
  (2 ^ 52 ≤ m1 < 2 ^ 53 ∧ -1074 ≤ e1) ∨ (0 ≤ m1 < 2 ^ 52 ∧ e1 = -1074).
Proof.
  intros Hm He. rewrite fexp64_max in *. cbn zeta.
  destruct (digits_spec m Hm) as [[-> Hd]|(Hd & Hlo & Hhi)].
  { rewrite Hd in *. rewrite Z.div_0_l by (apply Z.pow_nonzero; lia). right. lia. }
  set (d := Zdigits2 m) in *. destruct (Z.le_gt_cases (-1074) (d + e - 53)) as [Hn|Hn].
  - left. rewrite Z.max_l in * by lia. split; [|lia].
    replace (d + e - 53 - e) with (d - 53) by lia.
    assert (0 < 2 ^ (d - 53)) by (apply Z.pow_pos_nonneg; lia).
    split; [apply Z.div_le_lower_bound|apply Z.div_lt_upper_bound]; [done| |done|].
    + rewrite <- Z.pow_add_r by lia. by replace (d - 53 + 52) with (d - 1) by lia.
    + rewrite <- Z.pow_add_r by lia. by replace (d - 53 + 53) with d by lia.
  - right. rewrite Z.max_r in * by lia. split; [|done].
    assert (0 < 2 ^ (-1074 - e)) by (apply Z.pow_pos_nonneg; lia).
    split; [apply Z.div_pos; lia|]. apply Z.div_lt_upper_bound; [done|].
    rewrite <- Z.pow_add_r by lia. eapply Z.lt_le_trans; [exact Hhi|]. apply Z.pow_le_mono_r; lia.
Qed.

(** What a rounding makes of a positive number [y * 2 ^ e]. *)
Definition rounded (s : bool) (y : Q) (x : spec_float) : Prop :=
  sane x ∧ ∃ v, (val x == inject_Z (SpecFloat.cond_Zopp s 1) * v)%Q
              ∧ (Qabs (v - y) <= ulp * y + tiny)%Q ∧ (0 <= v)%Q.

Lemma cond_Zopp_mul s m : SpecFloat.cond_Zopp s m = SpecFloat.cond_Zopp s 1 * m.
Proof. destruct s; cbn; lia. Qed.

Lemma val_finite s m e :
  (val (S754_finite s m e) == inject_Z (SpecFloat.cond_Zopp s 1) * (inject_Z (Zpos m) * pow2 e))%Q.
Proof. cbn [val]. rewrite cond_Zopp_mul, inject_Z_mult. ring. Qed.

(** The second half of a rounding: the mantissa fits, or it is one too large. *)
Lemma round_fits s m2 e1 :
  (2 ^ 52 ≤ m2 ≤ 2 ^ 53 ∧ -1074 ≤ e1 ≤ 970) ∨ (0 ≤ m2 ≤ 2 ^ 52 ∧ e1 = -1074) →
  let '(r, e2) := shr (shr_record_of_loc m2 loc_Exact) e1 (fexp64 (Zdigits2 m2 + e1) - e1) in
  let x := match shr_m r with
           | Z0 => S754_zero s
           | Zpos m => if Z.leb e2 (emax64 - prec64) then S754_finite s m e2 else S754_infinity s
           | Zneg _ => S754_nan
           end in
  sane x ∧ (val x == inject_Z (SpecFloat.cond_Zopp s 1) * (inject_Z m2 * pow2 e1))%Q.
Proof.
  intros H. assert (0 ≤ m2 ∧ e1 ≤ 970) as [Hm2 He970] by lia. rewrite fexp64_max. change (emax64 - prec64) with 971.
  assert (Z.max (Zdigits2 m2 + e1 - 53) (-1074) = e1 ∨ (m2 = 2 ^ 53 ∧ -1074 ≤ e1 ≤ 970)) as [Hfe|[-> He1]].
  { destruct H as [[[H1 H2] H3]|[[H1 H2] ->]].
    - destruct (Z.eq_dec m2 (2 ^ 53)) as [|Hne]; [by right|left].
      assert (Zdigits2 m2 = 53) as ->; [|lia].
      apply Z.le_antisymm; [apply digits_le; lia|apply (digits_ge m2 52); lia].
    - left. assert (Zdigits2 m2 ≤ 53); [|lia]. apply digits_le; lia. }
  - rewrite Hfe, Z.sub_diag. cbn [shr shr_record_of_loc shr_m].
    destruct m2 as [|p|]; [split; [done|]; cbn [val]; rewrite (Qmult_comm _ (pow2 _)); cbn; ring| |lia].
    assert ((e1 <=? 971) = true) as -> by (apply Z.leb_le; lia).
    split; [split; [by rewrite fexp64_max, Hfe|lia]|apply val_finite].
  - change (Zdigits2 (2 ^ 53)) with 54. rewrite Z.max_l by lia.
    replace (54 + e1 - 53 - e1) with 1 by lia.
    destruct (shr_located (inject_Z (2 ^ 53)) (2 ^ 53) loc_Exact e1 1) as (r & -> & _ & Hr & _); [lia..|done|].
    rewrite Hr. change (2 ^ 53 / 2 ^ 1) with 4503599627370496. cbn match.
    assert ((e1 + 1 <=? 971) = true) as -> by (apply Z.leb_le; lia).
    split; [split; [rewrite fexp64_max; change (Zdigits2 4503599627370496) with 53; lia|lia]|].
    rewrite val_finite, pow2_add. change (pow2 1) with (inject_Z 2).
    rewrite (Qmult_comm (pow2 e1)), (Qmult_assoc _ (inject_Z 2)), <- inject_Z_mult.
    by change (4503599627370496 * 2) with (2 ^ 53).
Qed.

Lemma inject_Z_le a b : a ≤ b → (inject_Z a <= inject_Z b)%Q.
Proof. by rewrite <- Zle_Qle. Qed.
Lemma inject_Z_lt a b : a < b → (inject_Z a < inject_Z b)%Q.
Proof. by rewrite <- Zlt_Qlt. Qed.

Lemma pow2_mul_inv n e : (pow2 (- n) * pow2 (e + n) == pow2 e)%Q.
Proof. rewrite <- pow2_add. by replace (- n + (e + n)) with e by lia. Qed.

(** Half a unit of the last place is small: relative to the number, or at all. *)
Lemma half_unit y m1 e1 :
  (inject_Z m1 <= y)%Q → (2 ^ 52 ≤ m1 ∨ (0 ≤ m1 ∧ e1 = -1074)) →
  ((1 # 2) * pow2 e1 <= ulp * (y * pow2 e1) + tiny)%Q.
Proof.
  intros Hy H. pose proof (pow2_pos e1) as He.
  assert (0 < tiny)%Q as Ht by apply pow2_pos. assert (0 < ulp)%Q as Hu by apply pow2_pos.
  destruct H as [H|[H ->]].
  - apply inject_Z_le in H. change (inject_Z (2 ^ 52)) with (4503599627370496 # 1)%Q in H.
    change ulp with (1 # 9007199254740992)%Q.
    assert (4503599627370496 * pow2 e1 <= y * pow2 e1)%Q; [|lra].
    apply Qmult_le_r; [done|lra].
  - change (-1074) with (-1075 + 1) at 1. rewrite pow2_add. change (pow2 1) with (2 # 1)%Q.
    fold tiny. assert (0 <= ulp * (y * pow2 (-1074)))%Q; [|lra].
    apply inject_Z_le in H. change (inject_Z 0) with 0%Q in H.
    repeat (apply Qmult_le_0_compat); lra.
Qed.

Lemma Qabs_scale x p : (0 <= p)%Q → (Qabs (x * p) == Qabs x * p)%Q.
Proof. intros. by rewrite Qabs_Qmult, (Qabs_pos p). Qed.

(** ** Rounding a located number *)
Lemma round_aux_spec s y m e l :
  0 ≤ m → located y m l → e ≤ fexp64 (Zdigits2 m + e) → (y * pow2 e <= pow2 1000)%Q →
  let x := binary_round_aux prec64 emax64 s m e l in
  sane x ∧ ∃ v, (val x == inject_Z (SpecFloat.cond_Zopp s 1) * v)%Q
     ∧ (Qabs (v - y * pow2 e) <= ulp * (y * pow2 e) + tiny)%Q
     ∧ (0 <= v)%Q ∧ (1 ≤ m ∧ -1074 ≤ e → 0 < v)%Q
     ∧ (l = loc_Exact → fexp64 (Zdigits2 m + e) = e → v == inject_Z m * pow2 e)%Q.
Proof.
  intros Hm Hy He Hmax. cbn zeta. unfold binary_round_aux, shr_fexp.
  set (e1 := fexp64 (Zdigits2 m + e)) in *. set (n := e1 - e).
  destruct (shr_located y m l e n) as (r & -> & Hr & Hrm & _); [lia| |done|]; [lia|].
  set (m1 := shr_m r) in *. set (l1 := loc_of_shr_record r) in *. set (y1 := (y * pow2 (- n))%Q) in *.
  assert (y1 * pow2 (e + n) == y * pow2 e)%Q as Ey.
  { unfold y1. by rewrite <- Qmult_assoc, pow2_mul_inv. }
  replace (e + n) with e1 in * by lia.
  destruct (round_half _ _ _ Hr) as (Hhalf & Hm2 & Hex). destruct (located_bounds _ _ _ Hr) as [Hlo _].
  pose proof (pow2_pos e1) as Hp.
  assert ((2 ^ 52 ≤ m1 < 2 ^ 53 ∧ -1074 ≤ e1 ≤ 970) ∨ (0 ≤ m1 < 2 ^ 52 ∧ e1 = -1074)) as Hd.
  { destruct (shift_digits m e Hm He) as [[H1 H2]|[H1 H2]]; fold e1 n in H1, H2; rewrite <- Hrm in H1; [left|by right].
    split; [done|]. split; [done|]. assert (e1 ≤ 948); [|lia]. apply pow2_le_inv.
    destruct H1 as [H1 _]. apply inject_Z_le in H1.
    rewrite <- Ey in Hmax. change 1000 with (52 + 948) in Hmax. rewrite pow2_add in Hmax.
    assert (pow2 52 * pow2 e1 <= y1 * pow2 e1)%Q as Hle.
    { apply Qmult_le_r; [done|]. rewrite pow2_Z by done. by eapply Qle_trans. }
    assert (pow2 52 * pow2 e1 <= pow2 52 * pow2 948)%Q as Hle2 by (by eapply Qle_trans).
    by apply Qmult_le_l in Hle2. }
  set (m2 := round_nearest_even m1 l1) in *.
  pose proof (round_fits s m2 e1) as Hfit.
  destruct (shr _ e1 _) as [r2 e2]. destruct Hfit as [Hs Hv]; [lia|].
  split; [exact Hs|]. eexists. split; [exact Hv|]. split_and!.
  - rewrite <- Ey. assert (inject_Z m2 * pow2 e1 - y1 * pow2 e1 == (inject_Z m2 - y1) * pow2 e1)%Q as -> by ring.
    rewrite Qabs_scale by lra. eapply Qle_trans; [|apply (half_unit y1 m1); [done|lia]].
    apply Qmult_le_r; done.
  - apply Qmult_le_0_compat; [apply (inject_Z_le 0); lia|lra].
  - intros [H1 H2]. apply Qmult_lt_0_compat; [|done]. apply (inject_Z_lt 0).
    destruct Hd as [|[_ Hd]]; [lia|]. assert (n = 0) as Hn by lia. rewrite Hn in Hrm.
    change (2 ^ 0) with 1 in Hrm. rewrite Z.div_1_r in Hrm. lia.
  - intros -> Hn. assert (n = 0) as Hn0 by lia.
    assert (m1 = m) as Hm1. { rewrite Hrm, Hn0. change (2 ^ 0) with 1. apply Z.div_1_r. }
    rewrite Hn. assert (inject_Z m2 == inject_Z m)%Q as ->; [|reflexivity].
    assert (y1 == inject_Z m)%Q as Ey1.
    { unfold y1. rewrite Hn0. cbn in Hy. rewrite Hy. change (pow2 (- 0)) with 1%Q. ring. }
    rewrite Ey1 in Hhalf. rewrite Hm1 in Hm2. apply Qabs_Qle_condition in Hhalf.
    assert (m2 < m + 1); [|by replace m2 with m by lia].
    rewrite Zlt_Qlt, inject_Z_plus. change (inject_Z 1) with 1%Q. lra.
Qed.

(** ** A result near the exact one *)

Definition near (x : spec_float) (z : Q) : Prop :=
  sane x ∧ (Qabs (val x - z) <= ulp * Qabs z + tiny)%Q.

#[export] Instance near_proper : Proper (eq ==> Qeq ==> iff) near.
Proof. intros x _ <- z z' E. unfold near. by rewrite E. Qed.

Lemma sign_abs s z : (Qabs (inject_Z (SpecFloat.cond_Zopp s 1) * z) == Qabs z)%Q.
Proof. rewrite Qabs_Qmult. destruct s; change (Qabs _) with 1%Q at 1; ring. Qed.

Lemma near_refl x : sane x → near x (val x).
Proof.
  intros. split; [done|]. assert (0 < tiny)%Q by apply pow2_pos. assert (0 < ulp)%Q by apply pow2_pos.
  assert (val x - val x == 0)%Q as -> by ring. change (Qabs 0) with 0%Q.
  assert (0 <= ulp * Qabs (val x))%Q; [|lra]. apply Qmult_le_0_compat; [lra|apply Qabs_nonneg].
Qed.

(** [round_aux_spec] with the sign. *)
Lemma round_aux_near s y m e l :
  0 ≤ m → located y m l → e ≤ fexp64 (Zdigits2 m + e) → (y * pow2 e <= pow2 1000)%Q →
  near (binary_round_aux prec64 emax64 s m e l) (inject_Z (SpecFloat.cond_Zopp s 1) * (y * pow2 e)).
Proof.
  intros Hm Hy He Hmax. destruct (round_aux_spec s y m e l Hm Hy He Hmax) as (Hs & v & Hv & Herr & _).
  split; [done|]. rewrite Hv, sign_abs.
  assert (0 <= y * pow2 e)%Q as H0.
  { pose proof (pow2_pos e). apply located_bounds in Hy as [Hy _]. apply inject_Z_le in Hm.
    change (inject_Z 0) with 0%Q in Hm. apply Qmult_le_0_compat; lra. }
  rewrite (Qabs_pos _ H0).
  assert (inject_Z (SpecFloat.cond_Zopp s 1) * v - inject_Z (SpecFloat.cond_Zopp s 1) * (y * pow2 e)
          == inject_Z (SpecFloat.cond_Zopp s 1) * (v - y * pow2 e))%Q as -> by ring.
  by rewrite sign_abs.
Qed.

(** *** Aligning and normalising *)

Lemma nat_iter_xO n p : Zpos (Nat.iter n xO p) = Zpos p * 2 ^ Z.of_nat n.
Proof.
  induction n as [|n IH]; [change (Zpos p = Zpos p * 1); lia|].
  rewrite Nat2Z.inj_succ, Z.pow_succ_r by lia. transitivity (2 * Zpos (Nat.iter n xO p)); [done|]. rewrite IH. ring.
Qed.

Lemma shift_pos_mul d p : Zpos (Pos.iter xO p d) = Zpos p * 2 ^ Zpos d.
Proof. rewrite Pos2Nat.inj_iter. etransitivity; [apply nat_iter_xO|]. by rewrite positive_nat_Z. Qed.

Lemma shl_align_spec m e e' :
  let '(m', e1) := shl_align m e e' in
  e1 = Z.min e e' ∧ Zpos m' = Zpos m * 2 ^ (e - e1).
Proof.
  unfold shl_align. destruct (e' - e) eqn:E.
  1,2: split; [lia|]; rewrite Z.sub_diag; lia.
  split; [lia|]. rewrite shift_pos_mul. by replace (e - e') with (Zpos p) by lia.
Qed.

Lemma digits_shift m n : 0 < m → 0 ≤ n → Zdigits2 (m * 2 ^ n) = Zdigits2 m + n.
Proof.
  intros Hm Hn. destruct (digits_spec m ltac:(lia)) as [[-> _]|(H1 & H2 & H3)]; [lia|].
  pose proof (Z.pow_pos_nonneg 2 n ltac:(lia) Hn) as Hp. apply Z.le_antisymm.
  - apply digits_le; [|lia]. rewrite Z.pow_add_r by lia. nia.
  - replace (Zdigits2 m + n) with (Zdigits2 m - 1 + n + 1) by lia. apply digits_ge; [lia|].
    rewrite Z.pow_add_r by lia. nia.
Qed.

Lemma pow2_scale m n e : 0 ≤ n → (inject_Z (m * 2 ^ n) * pow2 (e - n) == inject_Z m * pow2 e)%Q.
Proof.
  intros. rewrite inject_Z_mult, <- pow2_Z by done.
  replace e with (n + (e - n)) at 2 by lia. rewrite pow2_add. ring.
Qed.

Lemma normalize_spec m e :
  (Qabs (inject_Z m * pow2 e) <= pow2 1000)%Q →
  let x := binary_normalize prec64 emax64 m e false in
  near x (inject_Z m * pow2 e)
  ∧ (0 < m → -1074 ≤ e → (0 < val x)%Q)
  ∧ (Z.abs m < 2 ^ 53 → -1074 ≤ e → (val x == inject_Z m * pow2 e)%Q).
Proof.
  intros Hmax. cbn zeta.
  assert (∀ s p, m = SpecFloat.cond_Zopp s (Zpos p) →
    let x := binary_round prec64 emax64 s p e in
    near x (inject_Z m * pow2 e) ∧ (0 < m → -1074 ≤ e → (0 < val x)%Q)
    ∧ (Z.abs m < 2 ^ 53 → -1074 ≤ e → (val x == inject_Z m * pow2 e)%Q)) as H.
  { intros s p Em. cbn zeta. unfold binary_round.
    pose proof (shl_align_spec p e (fexp64 (Zpos (digits2_pos p) + e))) as Ha.
    change (Zpos (digits2_pos p)) with (Zdigits2 (Zpos p)) in *.
    destruct (shl_align p e _) as [m' e1]. destruct Ha as [He1 Hm'].
    assert (Zdigits2 (Zpos m') + e1 = Zdigits2 (Zpos p) + e) as Hd by (rewrite Hm', digits_shift; lia).
    assert (inject_Z (Zpos m') * pow2 e1 == inject_Z (Zpos p) * pow2 e)%Q as Hv.
    { rewrite Hm'. replace e1 with (e - (e - e1)) at 2 by lia. apply pow2_scale; lia. }
    assert (inject_Z m * pow2 e == inject_Z (SpecFloat.cond_Zopp s 1) * (inject_Z (Zpos m') * pow2 e1))%Q as Hz.
    { rewrite Hv, Em, cond_Zopp_mul, inject_Z_mult. ring. }
    assert (inject_Z (Zpos m') * pow2 e1 <= pow2 1000)%Q as Hmax'.
    { rewrite Hz, sign_abs in Hmax. rewrite Qabs_pos in Hmax; [done|].
      apply Qmult_le_0_compat; [by apply (inject_Z_le 0)|]. apply Qlt_le_weak, pow2_pos. }
    assert (e1 ≤ fexp64 (Zdigits2 (Zpos m') + e1)) as Hpre by (rewrite Hd; lia).
    destruct (round_aux_spec s (inject_Z (Zpos m')) (Zpos m') e1 loc_Exact) as (_ & v & Hx & _ & _ & Hpos & Hex);
      [done..|].
    split_and!.
    - rewrite Hz. by apply round_aux_near.
    - intros Hm He. destruct s; [cbn in Em; lia|]. rewrite Hx. change (inject_Z (SpecFloat.cond_Zopp false 1)) with 1%Q.
      rewrite Qmult_1_l. apply Hpos. rewrite fexp64_max in He1. lia.
    - intros Hm He. rewrite Hx, Hex, Hz; [reflexivity|done|]. rewrite Hd, fexp64_max.
      rewrite fexp64_max in He1. assert (Zdigits2 (Zpos p) ≤ 53); [|lia].
      apply digits_le; [|lia]. destruct s; cbn in Em; lia. }
  destruct m as [|p|p]; [|by apply (H false p)|by apply (H true p)].
  cbn [binary_normalize val]. change (inject_Z 0) with 0%Q. rewrite Qmult_0_l.
  split_and!; [by apply (near_refl (S754_zero false))|lia|done].
Qed.

(** *** Integers *)

Lemma float_of_Z_spec z : (Qabs (inject_Z z) <= pow2 1000)%Q →
  near (float_of_Z z) (inject_Z z) ∧ (Z.abs z < 2 ^ 53 → (val (float_of_Z z) == inject_Z z)%Q).
Proof.
  assert (∀ z, inject_Z z * pow2 0 == inject_Z z)%Q as E0 by (intros; change (pow2 0) with 1%Q; ring).
  intros H. rewrite <- (E0 z) in H. destruct (normalize_spec z 0 H) as (Hn & _ & Hx).
  setoid_rewrite E0 in Hn. setoid_rewrite E0 in Hx.
  assert (float_of_Z z = binary_normalize prec64 emax64 z 0 false) as -> by by destruct z.
  split; [done|]. intros. by apply Hx.
Qed.

(** ** The operations *)

Lemma canonical_digits m e :
  canonical m e → 0 < m → -1074 ≤ e ≤ 971 ∧ Zdigits2 m ≤ 53 ∧ m < 2 ^ 53 ∧ (e = -1074 ∨ 2 ^ 52 ≤ m).
Proof.
  intros [He1 He2] Hm. rewrite fexp64_max in He1.
  destruct (digits_spec m ltac:(lia)) as [[-> _]|(H1 & H2 & H3)]; [lia|].
  assert (Zdigits2 m ≤ 53) as Hd by lia.
  split_and!; [lia..| |].
  - eapply Z.lt_le_trans; [done|]. apply Z.pow_le_mono_r; lia.
  - destruct (Z.eq_dec e (-1074)); [by left|right].
    assert (Zdigits2 m - 1 = 52) as Hx by lia. by rewrite <- Hx.
Qed.

(** Two numbers at the smaller exponent. *)
Lemma shl_align_val s m e ez : ez ≤ e →
  (inject_Z (SpecFloat.cond_Zopp s (Zpos (shl_align m e ez).1)) * pow2 ez == val (S754_finite s m e))%Q.
Proof.
  intros H. pose proof (shl_align_spec m e ez) as Ha. destruct (shl_align m e ez) as [m' e1].
  destruct Ha as [He1 Hm']. replace e1 with ez in * by lia. cbn [fst val].
  rewrite cond_Zopp_mul, Hm', Z.mul_assoc, <- cond_Zopp_mul.
  replace ez with (e - (e - ez)) at 2 by lia. apply pow2_scale. lia.
Qed.

Lemma val_opp s m e : (val (S754_finite (negb s) m e) == - val (S754_finite s m e))%Q.
Proof.
  rewrite !val_finite.
  assert (inject_Z (SpecFloat.cond_Zopp (negb s) 1) == - inject_Z (SpecFloat.cond_Zopp s 1))%Q as -> by by destruct s.
  ring.
Qed.

Lemma sign_mul s t :
  (inject_Z (SpecFloat.cond_Zopp s 1) * inject_Z (SpecFloat.cond_Zopp t 1)
   == inject_Z (SpecFloat.cond_Zopp (xorb s t) 1))%Q.
Proof. by destruct s, t. Qed.

Lemma SFadd_near x y :
  sane x → sane y → (Qabs (val x + val y) <= pow2 1000)%Q →
  near (SFadd prec64 emax64 x y) (val x + val y).
Proof.
  intros Hx Hy Hmax.
  assert (∀ z, sane z → near z (val z + 0)) as Hl by (intros; rewrite Qplus_0_r; by apply near_refl).
  assert (∀ z, sane z → near z (0 + val z)) as Hr by (intros; rewrite Qplus_0_l; by apply near_refl).
  destruct x as [sx| | |sx mx ex], y as [sy| | |sy my ey]; try done.
  - destruct sx, sy; by apply (Hl (S754_zero false)).
  - by apply Hr.
  - by apply Hl.
  - cbn [SFadd]. set (ez := Z.min ex ey).
    rewrite <- (shl_align_val sx mx ex ez), <- (shl_align_val sy my ey ez) in * by lia.
    rewrite <- Qmult_plus_distr_l, <- inject_Z_plus in *. by apply normalize_spec.
Qed.

Lemma SFsub_near x y :
  sane x → sane y → (Qabs (val x - val y) <= pow2 1000)%Q →
  near (SFsub prec64 emax64 x y) (val x - val y)
  ∧ ((val y < val x)%Q → (0 < val (SFsub prec64 emax64 x y))%Q).
Proof.
  intros Hx Hy Hmax.
  destruct x as [sx| | |sx mx ex], y as [sy| | |sy my ey]; try done.
  - split; [|done]. change (val _ - val _)%Q with (val (S754_zero false)).
    destruct sx, sy; by apply (near_refl (S754_zero false)).
  - cbn [SFsub]. change (val (S754_zero sx)) with 0%Q.
    assert (0 - val (S754_finite sy my ey) == val (S754_finite (negb sy) my ey))%Q as E by (rewrite val_opp; ring).
    split; [rewrite E; by apply near_refl|]. rewrite val_opp. lra.
  - cbn [SFsub]. change (val (S754_zero sy)) with 0%Q.
    assert (val (S754_finite sx mx ex) - 0 == val (S754_finite sx mx ex))%Q as E by ring.
    split; [rewrite E; by apply near_refl|done].
  - cbn [SFsub]. set (ez := Z.min ex ey).
    rewrite <- (shl_align_val sx mx ex ez), <- (shl_align_val sy my ey ez) in * by lia.
    set (a := SpecFloat.cond_Zopp sx _) in *. set (b := SpecFloat.cond_Zopp sy _) in *.
    assert (inject_Z a * pow2 ez - inject_Z b * pow2 ez == inject_Z (a - b) * pow2 ez)%Q as E
      by (unfold Z.sub; rewrite inject_Z_plus, inject_Z_opp; ring).
    rewrite E in *. destruct (normalize_spec (a - b) ez Hmax) as (Hn & Hpos & _). split; [done|].
    intros Hlt. apply Qmult_lt_r in Hlt; [|apply pow2_pos]. rewrite <- Zlt_Qlt in Hlt. apply Hpos; [lia|].
    apply canonical_digits in Hx; [|done]. apply canonical_digits in Hy; [|done]. lia.
Qed.

Lemma SFmul_near x y :
  sane x → sane y → (Qabs (val x * val y) <= pow2 1000)%Q →
  near (SFmul prec64 emax64 x y) (val x * val y).
Proof.
  intros Hx Hy Hmax.
  assert (∀ s, near (S754_zero s) 0) as H0 by (intros s; by apply (near_refl (S754_zero s))).
  destruct x as [sx| | |sx mx ex], y as [sy| | |sy my ey]; try done; cbn [SFmul];
    change (val (S754_zero _)) with 0%Q in *; rewrite ?Qmult_0_l, ?Qmult_0_r; try done.
  assert (val (S754_finite sx mx ex) * val (S754_finite sy my ey)
    == inject_Z (SpecFloat.cond_Zopp (xorb sx sy) 1) * (inject_Z (Zpos (mx * my)) * pow2 (ex + ey)))%Q as E.
  { rewrite !val_finite, pow2_add, Pos2Z.inj_mul, inject_Z_mult, <- sign_mul. ring. }
  rewrite E in Hmax |- *. rewrite sign_abs in Hmax. apply round_aux_near; [lia|reflexivity| |].
  - rewrite fexp64_max. apply canonical_digits in Hx as (? & _ & _ & Hx); [|done].
    apply canonical_digits in Hy as (? & _ & _ & Hy); [|done]. rewrite Pos2Z.inj_mul.
    destruct Hx as [->|Hx]; [destruct Hy as [->|Hy]; [lia|]|].
    + assert (53 ≤ Zdigits2 (Zpos mx * Zpos my)); [|lia]. apply (digits_ge _ 52); nia.
    + assert (53 ≤ Zdigits2 (Zpos mx * Zpos my)); [|lia]. apply (digits_ge _ 52); nia.
  - rewrite Qabs_pos in Hmax; [done|].
    apply Qmult_le_0_compat; [by apply (inject_Z_le 0)|apply Qlt_le_weak, pow2_pos].
Qed.

(** *** Division *)

Lemma located_quotient a b :
  0 < b → 0 ≤ a → located (inject_Z a / inject_Z b)%Q (a / b) (new_location b (a mod b)).
Proof.
  intros Hb Ha. pose proof (Z.mod_pos_bound a b Hb) as Hr. pose proof (Z.div_mod a b ltac:(lia)) as Hdm.
  set (q := a / b) in *. set (r := a mod b) in *.
  assert (0 < inject_Z b)%Q as Hbq by by apply (inject_Z_lt 0).
  assert (inject_Z a / inject_Z b == inject_Z q + inject_Z r / inject_Z b)%Q as ->.
  { rewrite Hdm, inject_Z_plus, inject_Z_mult. field. lra. }
  assert (∀ k, 2 * r < k * b ↔ (inject_Z r / inject_Z b < (k # 2))%Q) as Hlt.
  { intros k. rewrite Zlt_Qlt, !inject_Z_mult. assert (inject_Z k == 2 * (k # 2))%Q as -> by (unfold Qeq; cbn; lia).
    change (inject_Z 2) with 2%Q. split; intros H.
    - apply Qlt_shift_div_r; [done|]. lra.
    - assert (inject_Z r / inject_Z b * inject_Z b < (k # 2) * inject_Z b)%Q as H' by by apply Qmult_lt_r.
      assert (inject_Z r / inject_Z b * inject_Z b == inject_Z r)%Q as E by (field; lra). lra. }
  assert (2 * r = b → (inject_Z r / inject_Z b == 1 # 2)%Q) as Heq.
  { intros E2. assert (inject_Z r == (1 # 2) * inject_Z b)%Q as ->; [|field; lra].
    rewrite <- E2, inject_Z_mult. change (inject_Z 2) with 2%Q. ring. }
  assert (0 < r → (0 < inject_Z r / inject_Z b)%Q) as Hpos.
  { intros H. apply Qlt_shift_div_l; [done|]. rewrite Qmult_0_l. by apply (inject_Z_lt 0). }
  unfold new_location, new_location_even, new_location_odd.
  assert (r = 0 → (inject_Z r / inject_Z b == 0)%Q) as H0.
  { intros ->. unfold Qdiv. apply Qmult_0_l. }
  destruct (Z.even b) eqn:Ev; (destruct (Z.eqb_spec r 0) as [Hr0|Hr0]; [cbn [located]; rewrite H0 by done; lra|]).
  all: specialize (Hpos ltac:(lia)); pose proof (Hlt 1) as H1; pose proof (Hlt 2) as H2.
  - destruct (Z.compare_spec (2 * r) b); cbn [located]; [rewrite Heq by done; lra| |].
    + assert (inject_Z r / inject_Z b < 1 # 2)%Q by (apply H1; lia). lra.
    + assert (1 # 2 < inject_Z r / inject_Z b)%Q; [|assert (inject_Z r / inject_Z b < 2 # 2)%Q by (apply H2; lia); lra].
      apply Qlt_shift_div_l; [done|]. rewrite Zlt_Qlt, inject_Z_mult in H. change (inject_Z 2) with 2%Q in H. lra.
  - assert (2 * r ≠ b) as Hne by (intros E2; by rewrite <- E2, Z.even_mul in Ev).
    assert (2 * r < b → (inject_Z r / inject_Z b < 1 # 2)%Q) as H3 by (intros; apply H1; lia).
    destruct (Z.compare_spec (2 * r + 1) b); cbn [located]; [specialize (H3 ltac:(lia)); lra..|].
    assert (1 # 2 < inject_Z r / inject_Z b)%Q; [|assert (inject_Z r / inject_Z b < 2 # 2)%Q by (apply H2; lia); lra].
    apply Qlt_shift_div_l; [done|]. assert (b < 2 * r) as H4 by lia.
    rewrite Zlt_Qlt, inject_Z_mult in H4. change (inject_Z 2) with 2%Q in H4. lra.
Qed.

Lemma div_core m1 e1 m2 e2 :
  0 < m1 → 0 < m2 →
  ∃ m' e', SFdiv_core_binary prec64 emax64 m1 e1 m2 e2 = (m' / m2, e', new_location m2 (m' mod m2))
    ∧ 0 ≤ m' ∧ e' ≤ fexp64 (Zdigits2 (m' / m2) + e')
    ∧ (inject_Z m' / inject_Z m2 * pow2 e' == (inject_Z m1 * pow2 e1) / (inject_Z m2 * pow2 e2))%Q.
Proof.
  intros Hm1 Hm2. unfold SFdiv_core_binary.
  set (D := Zdigits2 m1 + e1 - (Zdigits2 m2 + e2)). set (e' := Z.min (fexp64 D) (e1 - e2)).
  set (s := e1 - e2 - e'). assert (0 ≤ s) as Hs by lia.
  assert (match s with Z0 => m1 | Zpos _ => Z.shiftl m1 s | Zneg _ => 0 end = m1 * 2 ^ s) as ->.
  { destruct s eqn:E; [lia|by rewrite Z.shiftl_mul_pow2|lia]. }
  pose proof (Z.pow_pos_nonneg 2 s ltac:(lia) Hs) as Hps.
  exists (m1 * 2 ^ s), e'. split_and!.
  - unfold Z.div, Z.modulo. by destruct (Z.div_eucl _ _).
  - lia.
  - assert (e' ≤ Z.max (D - 53) (-1074)) as Hle by (rewrite <- fexp64_max; lia).
    rewrite fexp64_max. destruct (Z.le_gt_cases (-1074) (D - 53)) as [HD|HD]; [|lia].
    assert (D ≤ Zdigits2 (m1 * 2 ^ s / m2) + e'); [|lia].
    destruct (digits_spec m1) as [[-> _]|(H1 & H2 & _)]; [lia..|].
    destruct (digits_spec m2) as [[-> _]|(H3 & _ & H4)]; [lia..|].
    assert (53 ≤ D - e') as HDe by lia.
    assert (D - e' - 1 + 1 ≤ Zdigits2 (m1 * 2 ^ s / m2)); [|lia].
    apply digits_ge; [lia|]. apply Z.div_le_lower_bound; [done|].
    transitivity (2 ^ Zdigits2 m2 * 2 ^ (D - e' - 1)).
    { apply Z.mul_le_mono_nonneg_r; [apply Z.pow_nonneg|]; lia. }
    rewrite <- Z.pow_add_r by lia. replace (Zdigits2 m2 + (D - e' - 1)) with (Zdigits2 m1 - 1 + s) by lia.
    rewrite Z.pow_add_r by lia. nia.
  - assert (0 < inject_Z m2)%Q as Hm2q by by apply (inject_Z_lt 0). pose proof (pow2_pos e2).
    rewrite inject_Z_mult, <- pow2_Z by done.
    transitivity (inject_Z m1 * (pow2 s * pow2 e') / inject_Z m2)%Q; [field; lra|].
    rewrite <- pow2_add. replace (s + e') with (e1 - e2) by lia.
    assert (pow2 e1 == pow2 (e1 - e2) * pow2 e2)%Q as -> by (rewrite <- pow2_add; by replace (e1 - e2 + e2) with e1 by lia).
    field. lra.
Qed.

Lemma SFdiv_near x y :
  sane x → sane y → ¬ (val y == 0)%Q → (Qabs (val x / val y) <= pow2 1000)%Q →
  near (SFdiv prec64 emax64 x y) (val x / val y).
Proof.
  intros Hx Hy H0 Hmax.
  destruct y as [sy| | |sy my ey]; [by destruct H0|done|done|].
  destruct x as [sx| | |sx mx ex]; try done; cbn [SFdiv].
  destruct (div_core (Zpos mx) ex (Zpos my) ey) as (m' & e' & -> & Hm' & He' & Hv); [done..|].
  pose proof (located_quotient m' (Zpos my) eq_refl Hm') as Hl.
  assert (0 < inject_Z (Zpos my) * pow2 ey)%Q as Hy0.
  { apply Qmult_lt_0_compat; [by apply (inject_Z_lt 0)|apply pow2_pos]. }
  assert (0 <= inject_Z (Zpos mx) * pow2 ex)%Q as Hx0.
  { apply Qmult_le_0_compat; [by apply (inject_Z_le 0)|apply Qlt_le_weak, pow2_pos]. }
  assert (val (S754_finite sx mx ex) / val (S754_finite sy my ey)
    == inject_Z (SpecFloat.cond_Zopp (xorb sx sy) 1) * (inject_Z m' / inject_Z (Zpos my) * pow2 e'))%Q as E.
  { rewrite Hv, !val_finite, <- sign_mul.
    set (u := inject_Z (SpecFloat.cond_Zopp sy 1)).
    assert (u * u == 1)%Q as Hu by by destruct sy. assert (¬ u == 0)%Q as Hu0 by by destruct sy.
    set (a := (inject_Z (Zpos mx) * pow2 ex)%Q). set (b := (inject_Z (Zpos my) * pow2 ey)%Q) in *.
    assert (¬ b == 0)%Q as Hb0 by lra. clearbody u a b.
    transitivity (inject_Z (SpecFloat.cond_Zopp sx 1) * a * (u * u) / (u * b))%Q; [rewrite Hu|]; by field. }
  rewrite E in Hmax |- *. rewrite sign_abs in Hmax. apply round_aux_near; [by apply Z.div_pos|done..|].
  rewrite Qabs_pos in Hmax; [done|]. rewrite Hv. apply Qle_shift_div_l; [done|]. by rewrite Qmult_0_l.
Qed.

(** *** Comparisons and the ceiling *)

Lemma SFcompare_val x y : sane x → sane y → SFcompare x y = Some (val x ?= val y)%Q.
Proof.
  assert (∀ m e, 0 < val (S754_finite false m e))%Q as Hpos.
  { intros. apply Qmult_lt_0_compat; [by apply (inject_Z_lt 0)|apply pow2_pos]. }
  assert (∀ m e, val (S754_finite true m e) < 0)%Q as Hneg.
  { intros m e. pose proof (val_opp true m e) as E. pose proof (Hpos m e). cbn [negb] in E. lra. }
  assert (∀ m e m' e', canonical (Zpos m) e → canonical (Zpos m') e' →
    (val (S754_finite false m e) ?= val (S754_finite false m' e'))%Q
    = match e ?= e' with Eq => Pos.compare_cont Eq m m' | c => c end) as Hmain.
  { assert (∀ m e m' e', canonical (Zpos m) e → canonical (Zpos m') e' → e < e' →
      (val (S754_finite false m e) < val (S754_finite false m' e'))%Q) as Hlt.
    { intros m e m' e' H1 H2 H. apply canonical_digits in H1 as (? & _ & H1 & _); [|done].
      apply canonical_digits in H2 as (_ & _ & _ & H2); [|done]. destruct H2 as [?|H2]; [lia|].
      cbn [val SpecFloat.cond_Zopp]. replace e' with (e + 1 + (e' - e - 1)) by lia. rewrite !pow2_add, (pow2_Z (_ - _ - _)) by lia.
      change (pow2 1) with (inject_Z 2).
      assert (inject_Z (Zpos m') * (pow2 e * inject_Z 2 * inject_Z (2 ^ (e' - e - 1)))
        == inject_Z (Zpos m' * (2 * 2 ^ (e' - e - 1))) * pow2 e)%Q as -> by (rewrite !inject_Z_mult; ring).
      apply Qmult_lt_r; [apply pow2_pos|]. apply inject_Z_lt.
      pose proof (Z.pow_pos_nonneg 2 (e' - e - 1) ltac:(lia) ltac:(lia)).
      assert (Zpos m' * 2 ≤ Zpos m' * (2 * 2 ^ (e' - e - 1))) by (apply Z.mul_le_mono_nonneg_l; lia). lia. }
    intros m e m' e' H1 H2. destruct (Z.compare_spec e e') as [->|H|H].
    - cbn [val SpecFloat.cond_Zopp]. change (Pos.compare_cont Eq m m') with (Zpos m ?= Zpos m').
      pose proof (pow2_pos e') as Hp. destruct (Z.compare_spec (Zpos m) (Zpos m')) as [->|H|H].
      + by apply Qeq_alt.
      + rewrite <- Qlt_alt; apply Qmult_lt_r; [done|]. by apply inject_Z_lt.
      + rewrite <- Qgt_alt; apply Qmult_lt_r; [done|]. by apply inject_Z_lt.
    - by rewrite <- Qlt_alt; apply Hlt.
    - by rewrite <- Qgt_alt; apply Hlt. }
  assert (∀ a b : Q, (- a ?= - b) = CompOpp (a ?= b))%Q as Hopp.
  { intros. destruct (Qcompare_spec a b); cbn; [rewrite <- Qeq_alt|rewrite <- Qgt_alt|rewrite <- Qlt_alt]; lra. }
  assert (∀ m e, val (S754_finite true m e) == - val (S754_finite false m e))%Q as Ht by (intros; apply (val_opp false)).
  intros Hx Hy. destruct x as [sx| | |sx mx ex], y as [sy| | |sy my ey]; try done; cbn [SFcompare];
    change (val (S754_zero _)) with 0%Q; f_equal; symmetry.
  - destruct sy; [rewrite <- Qgt_alt; apply Hneg|rewrite <- Qlt_alt; apply Hpos].
  - destruct sx; [rewrite <- Qlt_alt; apply Hneg|rewrite <- Qgt_alt; apply Hpos].
  - destruct sx, sy.
    + rewrite !Ht, Hopp, Hmain by done. by destruct (ex ?= ey).
    + rewrite <- Qlt_alt. by eapply Qlt_trans.
    + rewrite <- Qgt_alt. by eapply Qlt_trans.
    + rewrite Hmain by done. by destruct (ex ?= ey).
Qed.

Lemma SFleb_val x y : sane x → sane y → SFleb x y = true ↔ (val x <= val y)%Q.
Proof.
  intros. unfold SFleb. rewrite SFcompare_val by done.
  destruct (Qcompare_spec (val x) (val y)); split; intros; try done; try lra; exfalso; lra.
Qed.

Lemma SFltb_val x y : sane x → sane y → SFltb x y = true ↔ (val x < val y)%Q.
Proof.
  intros. unfold SFltb. rewrite SFcompare_val by done.
  destruct (Qcompare_spec (val x) (val y)); split; intros; try done; try lra; exfalso; lra.
Qed.

Lemma float_ceil_val x : sane x → float_ceil x = Qceiling (val x).
Proof.
  destruct x as [s| | |s m e]; try done. intros _. cbn [float_ceil val].
  assert (∀ v, (if 0 <=? e then v * 2 ^ e else - (- v / 2 ^ (- e))) = Qceiling (inject_Z v * pow2 e)) as H.
  { intros v. destruct (Z.leb_spec 0 e).
    - assert (inject_Z v * pow2 e == inject_Z (v * 2 ^ e))%Q as E by (by rewrite pow2_Z, inject_Z_mult by done).
      rewrite (Qceiling_comp _ _ E). by rewrite Qceiling_Z.
    - assert (0 < 2 ^ (- e)) as Hp by (apply Z.pow_pos_nonneg; lia).
      assert (inject_Z v * pow2 e == v # Z.to_pos (2 ^ (- e)))%Q as E.
      { assert (pow2 e == / inject_Z (2 ^ (- e)))%Q as ->.
        { rewrite <- pow2_Z by lia. replace e with (- (- e)) at 1 by lia. apply Qpower_opp. }
        by rewrite (Qmake_Qdiv v), Z2Pos.id. }
      rewrite (Qceiling_comp _ _ E). unfold Qceiling, Qfloor, Qopp; cbn [Qnum Qden].
      by rewrite Z2Pos.id. }
  destruct s; [apply (H (Zneg m))|apply (H (Zpos m))].
Qed.
