(* ===== verification/GcraFacts.v ===== *)
(** The rate the script of [Gcra.v] enforces, with exact arithmetic. *)

From Stdlib Require Import QArith Qminmax Qround Lqa.
From S2P Require Import Prelude Gcra.

Open Scope list_scope.
Open Scope Q_scope.

(** A time in microseconds, in seconds. *)
Definition secs (t : Z) : Q := t # 1000000.

Lemma secs_le t t' : (t ≤ t')%Z → secs t <= secs t'.
Proof. intros H. unfold secs, Qle. cbn. lia. Qed.

Lemma secs_le_inv t t' : secs t <= secs t' → (t ≤ t')%Z.
Proof. unfold secs, Qle. cbn. lia. Qed.

Lemma secs_add t n : secs (t + n * 1000000) == secs t + inject_Z n.
Proof. unfold secs, Qeq, inject_Z. cbn. lia. Qed.

Lemma secs_parts t :
  inject_Z (t / 1000000) + inject_Z (t mod 1000000) / inject_Z 1000000 == secs t.
Proof.
  rewrite (Z_div_mod_eq_full t 1000000) at 3. unfold secs.
  assert (∀ a b : Z, inject_Z a + inject_Z b / inject_Z 1000000 == (1000000 * a + b) # 1000000) as H.
  { intros a b. unfold Qeq, Qdiv, Qmult, Qplus, Qinv, inject_Z. cbn. lia. }
  apply H.
Qed.

Lemma inject_Z_pos z : (0 < z)%Z → 0 < inject_Z z.
Proof. intros. change 0 with (inject_Z 0). by rewrite <- Zlt_Qlt. Qed.

(** The theoretical arrival time the script starts from. *)
Definition eff (t : Z) (stored : option Q) : Q :=
  match stored with
  | None => secs t
  | Some v => if Qle_bool (secs t) v then v else secs t
  end.

Lemma eff_ge t stored : secs t <= eff t stored.
Proof.
  destruct stored as [v|]; cbn; [|apply Qle_refl].
  destruct (Qle_bool (secs t) v) eqn:E; [by apply Qle_bool_iff|apply Qle_refl].
Qed.

Lemma eff_stored t v : v <= eff t (Some v).
Proof.
  cbn. destruct (Qle_bool (secs t) v) eqn:E; [apply Qle_refl|].
  apply Qnot_lt_le. intros H. apply Qlt_le_weak in H. apply Qle_bool_iff in H. congruence.
Qed.

Section bounds.
Context {cell : Type} {RK : RedisKey Q cell}.
Context (rate burst : Z) (period : Q).
Hypothesis rate_pos : (0 < rate)%Z.
Hypothesis period_pos : 0 < period.

(** The emission interval. *)
Definition T : Q := period / inject_Z rate.

Lemma T_pos : 0 < T.
Proof. unfold T. apply Qlt_shift_div_l; [by apply inject_Z_pos|]. by rewrite Qmult_0_l. Qed.

Lemma T_rate : T * inject_Z rate == period.
Proof.
  unfold T. field. intros H. pose proof (inject_Z_pos rate rate_pos) as Hp. rewrite H in Hp.
  by apply Qlt_irrefl in Hp.
Qed.

(** The two outcomes of a request. *)
Inductive outcome (t : Z) (c : cell) : Z * cell → Prop :=
| request_admitted v ex :
    eff t (cell_GET t c) + T - inject_Z burst * T <= secs t →
    v == eff t (cell_GET t c) + T → ex = Qceiling (period * 2) →
    outcome t c ((-1)%Z, cell_SET_EX t v ex c)
| request_denied reply :
    secs t < eff t (cell_GET t c) + T - inject_Z burst * T →
    reply = Qceiling (eff t (cell_GET t c) + T - inject_Z burst * T - secs t) →
    outcome t c (reply, c).

Lemma gcra_request_outcome t c : outcome t c (gcra_request rate period burst t c).
Proof.
  unfold gcra_request, luaGCRA. cbn [fst snd].
  set (now := lua_add (num := Q) (lua_Z (t / 1000000))
                (lua_div (lua_Z (t mod 1000000)) (lua_Z 1000000))).
  set (tat := lua_max (num := Q) now _).
  set (T' := lua_div (num := Q) period (lua_Z rate)).
  assert (now == secs t) as Hnow.
  { unfold now. cbn -[secs]. rewrite !Qred_correct. apply secs_parts. }
  assert (T' == T) as HT by (unfold T'; cbn; apply Qred_correct).
  assert (tat == eff t (cell_GET t c)) as Htat.
  { unfold tat. cbn -[secs now]. destruct (cell_GET t c) as [v|]; cbn -[secs now].
    - rewrite (Qleb_comp _ _ Hnow v v) by reflexivity. by destruct (Qle_bool (secs t) v).
    - by destruct (Qle_bool now now). }
  set (allow := lua_sub (num := Q) (lua_add tat T') (lua_mul (lua_Z burst) T')).
  assert (allow == eff t (cell_GET t c) + T - inject_Z burst * T) as Ha.
  { unfold allow. cbn -[tat T']. rewrite !Qred_correct, Htat, HT. reflexivity. }
  clearbody now tat T' allow. clear rate_pos period_pos.
  change (lua_le allow now) with (Qle_bool allow now).
  destruct (Qle_bool allow now) eqn:E.
  - apply Qle_bool_iff in E. rewrite Ha, Hnow in E. apply request_admitted; [done|..].
    + cbn. by rewrite Qred_correct, Htat, HT.
    + cbn. apply Qceiling_comp. apply Qred_correct.
  - assert (secs t < eff t (cell_GET t c) + T - inject_Z burst * T) as Hlt.
    { apply Qnot_le_lt. intros H. rewrite <- Ha, <- Hnow in H. apply Qle_bool_iff in H. congruence. }
    apply request_denied; [done|]. cbn. apply Qceiling_comp. by rewrite Qred_correct, Ha, Hnow.
Qed.

Lemma Qceiling_pos x : 0 < x → (1 ≤ Qceiling x)%Z.
Proof.
  intros H. pose proof (Qle_ceiling x) as Hc.
  assert (0 < inject_Z (Qceiling x)) as Hp by (eapply Qlt_le_trans; eauto).
  change 0 with (inject_Z 0) in Hp. rewrite <- Zlt_Qlt in Hp. lia.
Qed.

Lemma gcra_reply_cases t c :
  let '(reply, c') := gcra_request rate period burst t c in
  (reply = (-1)%Z ∧ eff t (cell_GET t c) + T <= secs t + inject_Z burst * T)
  ∨ ((1 ≤ reply)%Z ∧ c' = c ∧ secs t + inject_Z burst * T < eff t (cell_GET t c) + T).
Proof.
  destruct (gcra_request_outcome t c) as [v ex Hle _ _|reply Hlt ->]; [left; split; [done|lra]|].
  right. split_and!; [apply Qceiling_pos; lra|done|lra].
Qed.

(** The request is admitted exactly when the effective arrival time allows it. *)
Lemma admitted_cases t c :
  (eff t (cell_GET t c) + T <= secs t + inject_Z burst * T ∧
   ∃ v, v == eff t (cell_GET t c) + T ∧
     gcra_request rate period burst t c = ((-1)%Z, cell_SET_EX t v (Qceiling (period * 2)) c))
  ∨ (secs t + inject_Z burst * T < eff t (cell_GET t c) + T ∧
     ∃ reply, (1 ≤ reply)%Z ∧ gcra_request rate period burst t c = (reply, c) ∧
       eff t (cell_GET t c) + T - inject_Z burst * T - secs t <= inject_Z reply).
Proof.
  pose proof (gcra_request_outcome t c) as Ho. destruct Ho as [v ex Hle Hv ->|reply Hlt ->].
  - left. split; [lra|]. by exists v.
  - right. split; [lra|]. eexists. split_and!; [|done|apply Qle_ceiling]. apply Qceiling_pos; lra.
Qed.

Context {RL : RedisKeyLaws Q cell}.

Lemma eff_later t t' c :
  (t ≤ t')%Z → eff t' (cell_GET t' c) <= secs t' ∨ eff t' (cell_GET t' c) <= eff t (cell_GET t c).
Proof.
  intros Ht. destruct (get_later t t' c Ht) as [-> | ->]; [|left; apply Qle_refl].
  destruct (cell_GET t c) as [v|]; [|left; apply Qle_refl].
  destruct (Qle_bool (secs t') v) eqn:E; [right|left]; unfold eff at 1; rewrite E;
    [apply eff_stored|apply Qle_refl].
Qed.

(** A refused client that waits the time it is told is admitted. *)
Lemma retry_suffices t t' c reply :
  (1 ≤ burst)%Z → gcra_request rate period burst t c = (reply, c) → reply ≠ (-1)%Z →
  (t + reply * 1000000 ≤ t')%Z →
  (gcra_request rate period burst t' c).1 = (-1)%Z.
Proof.
  intros Hb Hr Hd Ht'. pose proof T_pos as HT.
  assert (T <= inject_Z burst * T) as HbT.
  { rewrite <- (Qmult_1_l T) at 1. apply Qmult_le_compat_r; [|lra].
    change 1 with (inject_Z 1). by rewrite <- Zle_Qle. }
  destruct (admitted_cases t c) as [[_ (v & _ & E)]|[_ (r & Hpos & E & Hwait)]];
    rewrite Hr in E; [injection E as ? _; done|injection E as <-].
  assert (secs t + inject_Z reply <= secs t') as Hs by (rewrite <- secs_add; by apply secs_le).
  destruct (admitted_cases t' c) as [[_ (v & _ & ->)]|[Hlt _]]; [done|exfalso].
  destruct (eff_later t t' c) as [He|He]; [lia|lra..].
Qed.

(** ** The token bucket *)

(** Requests at increasing times, none before [t]. *)
Fixpoint times_from (t : Z) (ts : list Z) : Prop :=
  match ts with [] => True | t' :: ts => (t ≤ t')%Z ∧ times_from t' ts end.

(** A bucket of credit, in seconds: it fills in real time up to [burst * T],
    and a request takes [T] out of it. *)
Record bucket : Type := mkBucket { credit : Q; filled_at : Z }.

Definition refill (t : Z) (b : bucket) : Q :=
  let c := credit b + (secs t - secs (filled_at b)) in
  if Qle_bool c (inject_Z burst * T) then c else inject_Z burst * T.

Definition bucket_request (t : Z) (b : bucket) : bool * bucket :=
  let c := refill t b in
  if Qle_bool T c then (true, mkBucket (c - T) t) else (false, mkBucket c t).

Fixpoint bucket_run (ts : list Z) (b : bucket) : list bool :=
  match ts with
  | [] => []
  | t :: ts => let '(ok, b') := bucket_request t b in ok :: bucket_run ts b'
  end.

(** The arrival time a bucket stands for. *)
Definition arrival (b : bucket) : Q := secs (filled_at b) + inject_Z burst * T - credit b.

Lemma refill_arrival t b :
  (arrival b <= secs t ∧ refill t b == inject_Z burst * T)
  ∨ (secs t <= arrival b ∧ refill t b == secs t + inject_Z burst * T - arrival b).
Proof.
  unfold refill, arrival. destruct (Qle_bool _ _) eqn:E.
  - apply Qle_bool_iff in E. right. split; lra.
  - assert (inject_Z burst * T < credit b + (secs t - secs (filled_at b))) as Hlt.
    { apply Qnot_le_lt. intros H. apply Qle_bool_iff in H. congruence. }
    left. split; lra.
Qed.

(** The key holds the bucket's arrival time from [filled_at] on. *)
Definition holds (b : bucket) (c : cell) : Prop :=
  ∀ t, (filled_at b ≤ t)%Z →
    (arrival b <= secs t ∧ eff t (cell_GET t c) == secs t)
    ∨ (secs t <= arrival b ∧ eff t (cell_GET t c) == arrival b).

Lemma expiry_covers : (burst ≤ 2 * rate)%Z → inject_Z burst * T <= inject_Z (Qceiling (period * 2)).
Proof.
  intros Hb. apply Qle_trans with (period * 2); [|apply Qle_ceiling].
  rewrite <- T_rate.
  apply Qle_trans with (inject_Z (2 * rate) * T).
  - apply Qmult_le_compat_r; [by rewrite <- Zle_Qle|apply Qlt_le_weak, T_pos].
  - rewrite inject_Z_mult. apply Qle_lteq. right. ring.
Qed.

(** What the key holds after the request's [SET]. *)
Lemma set_eff t t' v c :
  (burst ≤ 2 * rate)%Z → v <= secs t + inject_Z burst * T → (t ≤ t')%Z →
  (v <= secs t' ∧ eff t' (cell_GET t' (cell_SET_EX t v (Qceiling (period * 2)) c)) == secs t')
  ∨ (secs t' <= v ∧ eff t' (cell_GET t' (cell_SET_EX t v (Qceiling (period * 2)) c)) == v).
Proof.
  intros Hb Hv Ht. pose proof (expiry_covers Hb) as Hex. set (ex := Qceiling (period * 2)) in *.
  destruct (Z.lt_ge_cases t' (t + ex * 1000000)) as [Hl|Hl].
  - rewrite get_live by lia. cbn. destruct (Qle_bool (secs t') v) eqn:E.
    + right. split; [by apply Qle_bool_iff|reflexivity].
    + left. split; [|reflexivity]. apply Qlt_le_weak, Qnot_le_lt. intros H.
      apply Qle_bool_iff in H. congruence.
  - rewrite get_expired by lia. left. split; [|reflexivity].
    apply secs_le in Hl. rewrite secs_add in Hl. lra.
Qed.

Lemma bucket_simulates t b c :
  (burst ≤ 2 * rate)%Z → holds b c → (filled_at b ≤ t)%Z →
  let '(reply, c') := gcra_request rate period burst t c in
  let '(ok, b') := bucket_request t b in
  ok = (reply =? -1)%Z ∧ filled_at b' = t ∧ holds b' c'.
Proof.
  intros Hb Hh Ht. pose proof (Hh t Ht) as He. pose proof (refill_arrival t b) as Hr.
  unfold bucket_request. destruct (Qle_bool T (refill t b)) eqn:E.
  - apply Qle_bool_iff in E.
    destruct (admitted_cases t c) as [[Hok (v & Hv & ->)]|[Hlt _]]; [|exfalso; lra].
    split_and!; [done..|]. intros t' Ht'. cbn in Ht'.
    assert (v == arrival (mkBucket (refill t b - T) t)) as <- by (unfold arrival at 1; cbn; lra).
    apply set_eff; [done|lra|done].
  - assert (refill t b < T) as Hlt.
    { apply Qnot_le_lt. intros H. apply Qle_bool_iff in H. congruence. }
    destruct (admitted_cases t c) as [[Hok _]|[_ (r & Hr1 & -> & _)]]; [exfalso; lra|].
    split_and!; [destruct (Z.eqb_spec r (-1)); [lia|done]|done|].
    intros t' Ht'. cbn in Ht'. pose proof (secs_le _ _ Ht') as Hs.
    pose proof (Hh t' ltac:(lia)) as He'.
    assert (arrival (mkBucket (refill t b) t) == secs t + inject_Z burst * T - refill t b) as ->
      by (unfold arrival; cbn; reflexivity).
    lra.
Qed.

Lemma bucket_runs ts : ∀ b c,
  (burst ≤ 2 * rate)%Z → holds b c → times_from (filled_at b) ts →
  Z.eqb (-1) <$> gcra_replies rate period burst ts c = bucket_run ts b.
Proof.
  induction ts as [|t ts IH]; intros b c Hb Hh Hts; [done|]. destruct Hts as [Ht Hts]. cbn.
  pose proof (bucket_simulates t b c Hb Hh Ht) as Hs.
  destruct (gcra_request rate period burst t c) as [reply c'], (bucket_request t b) as [ok b'].
  destruct Hs as (-> & Hf & Hh'). cbn. f_equal; [by rewrite Z.eqb_sym|].
  apply IH; [done..|by rewrite Hf].
Qed.

(** C5: Computed with exact rational arithmetic, without the rounding of binary64
    (with which Redis may admit a request a little early, as the example
    rounding_admits_early shows), and for a burst of at most twice the rate, the
    GCRA script on a Redis key with expiry admits exactly the requests a token
    bucket admits: one that starts full, fills in real time up to the burst, and
    gives one emission interval to each admitted request. *)
Theorem gcra_refines_token_bucket t0 ts :
  (burst ≤ 2 * rate)%Z → times_from t0 ts →
  Z.eqb (-1) <$> gcra_replies rate period burst ts (cell_empty : cell)
  = bucket_run ts (mkBucket (inject_Z burst * T) t0).
Proof.
  intros Hb Hts. apply bucket_runs; [done| |done]. intros t Ht. cbn in Ht. left.
  rewrite get_empty. split; [|reflexivity]. unfold arrival. cbn. apply secs_le in Ht. lra.
Qed.

(** ** The rate over a window *)

Lemma admitted_cons r rs :
  admitted (r :: rs) = ((if (-1 =? r)%Z then 1 else 0) + admitted rs)%nat.
Proof. unfold admitted. cbn [List.filter]. by destruct (-1 =? r)%Z. Qed.

Lemma window_step t0 ts : ∀ t t1 k c,
  (burst ≤ 2 * rate)%Z →
  (∀ t', (t ≤ t')%Z → secs t0 + inject_Z k * T <= eff t' (cell_GET t' c)) →
  secs t0 + inject_Z k * T <= secs t1 + inject_Z burst * T →
  times_from t ts → Forall (λ t', t' ≤ t1)%Z ts →
  secs t0 + inject_Z (k + Z.of_nat (admitted (gcra_replies rate period burst ts c))) * T
  <= secs t1 + inject_Z burst * T.
Proof.
  induction ts as [|t' ts IH]; intros t t1 k c Hb Hinv Hk Hts Hf.
  { cbn. by rewrite Z.add_0_r. }
  destruct Hts as [Ht Hts]. apply Forall_cons in Hf as [Ht1 Hf]. cbn [gcra_replies].
  pose proof (Hinv t' Ht) as Ht'. pose proof (secs_le _ _ Ht1) as Hs1.
  destruct (admitted_cases t' c) as [[Hok (v & Hv & ->)]|[_ (r & Hr & -> & _)]];
    cbn iota; rewrite admitted_cons.
  - replace (k + Z.of_nat _)%Z with
      (k + 1 + Z.of_nat (admitted (gcra_replies rate period burst ts
         (cell_SET_EX t' v (Qceiling (period * 2)) c))))%Z by (cbn; lia).
    assert (inject_Z (k + 1) * T == inject_Z k * T + T) as Hk1 by (rewrite inject_Z_plus; ring).
    apply (IH t'); [done| |lra|done..].
    intros t2 Ht2. pose proof (set_eff t' t2 v c Hb ltac:(lra) Ht2). lra.
  - destruct (Z.eqb_spec (-1) r); [lia|]. apply (IH t'); [done| |done..].
    intros t2 Ht2. apply Hinv. lia.
Qed.

(** In any window of any run, at most the window's share of the rate and one
    burst get through. *)
Lemma window_bound t0 t1 ts c :
  (0 ≤ burst ≤ 2 * rate)%Z → (t0 ≤ t1)%Z →
  times_from t0 ts → Forall (λ t, t ≤ t1)%Z ts →
  inject_Z (Z.of_nat (admitted (gcra_replies rate period burst ts c))) * T
  <= (secs t1 - secs t0) + inject_Z burst * T.
Proof.
  intros Hb Ht Hts Hf. pose proof (secs_le _ _ Ht).
  assert (0 <= inject_Z burst * T).
  { apply Qmult_le_0_compat; [|apply Qlt_le_weak, T_pos]. change 0 with (inject_Z 0).
    rewrite <- Zle_Qle. lia. }
  assert (inject_Z 0 * T == 0) as Hzero by (cbn; ring).
  pose proof (window_step t0 ts t0 t1 0 c) as Hw. rewrite Z.add_0_l in Hw.
  enough (secs t0 + inject_Z (Z.of_nat (admitted (gcra_replies rate period burst ts c))) * T
          <= secs t1 + inject_Z burst * T) by lra.
  apply Hw; [lia| |lra|done..].
  intros t' Ht'. pose proof (eff_ge t' (cell_GET t' c)). apply secs_le in Ht'. lra.
Qed.

(** ** Bursts *)

(** [n] requests at one time, on a key that holds nothing or the arrival time
    [k] intervals ahead. *)
Lemma burst_run t n : ∀ k c,
  (Z.of_nat n + k ≤ burst)%Z → eff t (cell_GET t c) == secs t + inject_Z k * T →
  ∀ rest, ∃ c',
    gcra_replies rate period burst (repeat t n ++ rest) c
    = repeat (-1)%Z n ++ gcra_replies rate period burst rest c'
    ∧ (n = 0%nat ∧ c' = c ∨
       ∀ t', (t + Qceiling (period * 2) * 1000000 ≤ t')%Z → cell_GET t' c' = None).
Proof.
  pose proof T_pos as HT.
  assert (1 ≤ Qceiling (period * 2))%Z as Hex by (apply Qceiling_pos; lra).
  induction n as [|n IH]; intros k c Hk He rest; [exists c; auto|].
  assert (inject_Z (k + 1) * T == inject_Z k * T + T) as Hk1 by (rewrite inject_Z_plus; ring).
  assert (inject_Z (k + 1) * T <= inject_Z burst * T) as Hle.
  { apply Qmult_le_compat_r; [rewrite <- Zle_Qle; lia|lra]. }
  cbn. destruct (admitted_cases t c) as [[Hok (v & Hv & ->)]|[Hlt _]]; [|exfalso; lra].
  set (c1 := cell_SET_EX t v _ c).
  assert (cell_GET t c1 = Some v) as Hg by (apply get_live; lia).
  destruct (IH (k + 1)%Z c1 ltac:(lia)) with rest as (c' & -> & Hc').
  { rewrite Hg. pose proof (eff_stored t v). pose proof (eff_ge t (cell_GET t c)).
    unfold eff. assert (Qle_bool (secs t) v = true) as ->; [apply Qle_bool_iff|]; lra. }
  exists c'. split; [done|right]. destruct Hc' as [[-> ->]|Hc']; [|done].
  intros t' Ht'. by apply get_expired.
Qed.

Lemma eff_none t : eff t None == secs t + inject_Z 0 * T.
Proof. change (eff t None) with (secs t). change (inject_Z 0) with 0. lra. Qed.

Lemma admitted_repeat n rs : admitted (repeat (-1)%Z n ++ rs) = (n + admitted rs)%nat.
Proof. induction n as [|n IH]; [done|]. cbn [repeat app]. by rewrite admitted_cons, IH. Qed.

(** For any rate, period and burst a client gets a full burst admitted twice, twice
    the period (rounded up to seconds) apart: the key expires after that time even
    when a burst of more than twice the rate has paid for a longer one. *)
Theorem gcra_expiry_forgets_bursts t n :
  Z.of_nat n = burst →
  admitted (gcra_replies rate period burst
              (repeat t n ++ repeat (t + Qceiling (period * 2) * 1000000)%Z n) (cell_empty : cell))
  = (n + n)%nat.
Proof.
  intros Hn. set (t' := (t + _)%Z).
  destruct (burst_run t n 0 (cell_empty : cell) ltac:(lia)) with (repeat t' n)
    as (c & -> & Hc); [rewrite get_empty; apply eff_none|].
  destruct (burst_run t' n 0 c ltac:(lia)) with (@nil Z) as (c' & Hr & _).
  { replace (cell_GET t' c) with (@None Q); [apply eff_none|]. symmetry.
    destruct Hc as [[-> ->]|Hc]; [apply get_empty|by apply Hc]. }
  rewrite app_nil_r in Hr. by rewrite Hr, !admitted_repeat, Nat.add_0_r.
Qed.

(** ** How long a refused client waits *)

(** From [t] on the key never holds more than a burst ahead of the clock. *)
Definition capped (t : Z) (c : cell) : Prop :=
  ∀ t', (t ≤ t')%Z → eff t' (cell_GET t' c) <= secs t' + inject_Z burst * T.

Lemma burst_nonneg : (0 ≤ burst)%Z → 0 <= inject_Z burst * T.
Proof.
  intros. apply Qmult_le_0_compat; [|apply Qlt_le_weak, T_pos]. change 0 with (inject_Z 0). by rewrite <- Zle_Qle.
Qed.

Lemma capped_none t c : (0 ≤ burst)%Z → (∀ t', (t ≤ t')%Z → cell_GET t' c = None) → capped t c.
Proof.
  intros Hb Hc t' Ht. rewrite Hc by done. pose proof (burst_nonneg Hb). pose proof (eff_none t').
  assert (inject_Z 0 * T == 0) by (cbn; ring). lra.
Qed.

Lemma capped_set t v ex c :
  (0 ≤ burst)%Z → v <= secs t + inject_Z burst * T → capped t (cell_SET_EX t v ex c).
Proof.
  intros Hb Hv t' Ht. pose proof (burst_nonneg Hb). pose proof (secs_le _ _ Ht).
  destruct (Z.lt_ge_cases t' (t + ex * 1000000)).
  - rewrite get_live by lia. cbn. destruct (Qle_bool (secs t') v); lra.
  - rewrite get_expired by lia. cbn. lra.
Qed.

Lemma capped_request t c :
  (0 ≤ burst)%Z → capped t c →
  let '(reply, c') := gcra_request rate period burst t c in
  (reply = (-1)%Z ∨ (1 ≤ reply ≤ Qceiling T)%Z) ∧ capped t c'.
Proof.
  intros Hb Hc. pose proof (Hc t ltac:(lia)) as Ht.
  destruct (gcra_request_outcome t c) as [v ex Hle Hv _|reply Hlt ->].
  - split; [by left|]. apply capped_set; [done|lra].
  - split; [|done]. right. split; [apply Qceiling_pos; lra|]. apply Qceiling_resp_le. lra.
Qed.

Lemma capped_runs t ts : ∀ c,
  (0 ≤ burst)%Z → capped t c → times_from t ts →
  Forall (λ reply, reply = (-1)%Z ∨ (1 ≤ reply ≤ Qceiling T)%Z) (gcra_replies rate period burst ts c).
Proof.
  revert t. induction ts as [|t' ts IH]; intros t c Hb Hc Hts; [constructor|]. destruct Hts as [Ht Hts]. cbn.
  assert (capped t' c) as Hc' by (intros t2 ?; apply Hc; lia).
  pose proof (capped_request t' c Hb Hc') as Hr.
  destruct (gcra_request rate period burst t' c) as [reply c2]. destruct Hr as [Hr Hc2].
  constructor; [done|]. by apply (IH t').
Qed.

(** C40: Computed with exact rational arithmetic, whatever the requests on a key,
    the script admits a request or tells it to wait for at least one second and at
    most one emission interval rounded up to seconds. *)
Theorem gcra_wait_bounded t0 ts :
  (0 ≤ burst)%Z → times_from t0 ts →
  Forall (λ reply, reply = (-1)%Z ∨ (1 ≤ reply ≤ Qceiling T)%Z)
    (gcra_replies rate period burst ts (cell_empty : cell)).
Proof.
  intros Hb Hts. apply (capped_runs t0); [done| |done]. apply capped_none; [done|]. intros. apply get_empty.
Qed.

End bounds.

(** ** Witnesses: 2 requests per second, bursts of 3 *)

Lemma gcra_refines_token_bucket_witness :
  bucket_run 2 3 1 [0; 0; 0; 0; 400000; 500000; 1000000]%Z (mkBucket (inject_Z 3 * T 2 1) 0)
  = [true; true; true; false; false; true; true].
Proof.
  rewrite <- (gcra_refines_token_bucket (cell := option (Q * Z)) 2 3 1 ltac:(lia) ltac:(reflexivity)
                0 [0; 0; 0; 0; 400000; 500000; 1000000]%Z ltac:(lia));
    [vm_compute; reflexivity|cbn; lia].
Defined.

(** One request per second with bursts of 10: 20 requests in 2 seconds, where
    the rate and the burst account for 12. *)
Lemma gcra_expiry_forgets_bursts_witness :
  admitted (gcra_replies (cell := option (Q * Z)) 1 1 10 (repeat 0%Z 10 ++ repeat 2000000%Z 10) cell_empty)
  = 20%nat.
Proof.
  apply (gcra_expiry_forgets_bursts (cell := option (Q * Z)) 1 10 1 ltac:(lia) ltac:(reflexivity) 0 10).
  reflexivity.
Defined.

(** One request in 5 seconds and a burst of one: the second request waits 4 of them. *)
Lemma gcra_wait_bounded_witness :
  Forall (λ reply, reply = (-1)%Z ∨ (1 ≤ reply ≤ 5)%Z)
    (gcra_replies (cell := option (Q * Z)) 1 5 1 [0; 1000000; 5000000]%Z cell_empty)
  ∧ gcra_replies (cell := option (Q * Z)) 1 5 1 [0; 1000000; 5000000]%Z cell_empty = [-1; 4; -1]%Z.
Proof.
  split; [|vm_compute; reflexivity].
  apply (gcra_wait_bounded (cell := option (Q * Z)) 1 1 5 ltac:(lia) ltac:(reflexivity) 0
           [0; 1000000; 5000000]%Z); [lia|cbn; lia].
Defined.
