(* ===== verification/GcraFloat.v ===== *)
(** What the script of [Gcra.v] does with binary64 numbers: every number it computes
    is near the exact one, and from that the rate that Redis enforces and the time
    after which a refused client is admitted. *)

From Stdlib Require Import QArith Qabs Qround Qminmax Lqa SpecFloat.
From S2P Require Import Prelude Gcra GcraFacts Binary64.

Open Scope list_scope.
Open Scope Q_scope.

(** [time.Duration.Seconds]: the whole seconds and the nanoseconds left over. *)
Definition period_seconds (d : Z) : spec_float :=
  lua_add (lua_Z (Z.quot d 1000000000)) (lua_div (lua_Z (Z.rem d 1000000000)) (lua_Z 1000000000)).

(** The same without rounding. *)
Definition period_exact (d : Z) : Q := d # 1000000000.

(** ** Errors *)

(** No number here comes near the overflow, and the absolute error next to zero
    is far below everything else. *)
Definition large : Q := 1267650600228229401496703205376.

Lemma large_bound z : Qabs z <= large → Qabs z <= pow2 1000.
Proof.
  intros H. eapply Qle_trans; [exact H|]. change large with (inject_Z (2 ^ 100)).
  rewrite <- pow2_Z by lia. by apply pow2_le.
Qed.

Lemma tiny_bound : 0 < tiny /\ tiny <= 1 # (2 ^ 160).
Proof.
  split; [apply pow2_pos|]. change (1 # (2 ^ 160)) with (pow2 (-160)). by apply pow2_le.
Qed.

Lemma ulp_literal : ulp = 1 # 9007199254740992.
Proof. reflexivity. Qed.

(** A result near a number that is not negative, in linear terms. *)
Lemma near_pos x z : near x z → 0 <= z → sane x ∧ z - ulp * z - tiny <= val x ∧ val x <= z + ulp * z + tiny.
Proof.
  intros [Hs H] Hz. rewrite (Qabs_pos z Hz) in H. apply Qabs_Qle_condition in H. split; [done|lra].
Qed.

Lemma abs_large_pos z : 0 <= z → z <= large → Qabs z <= pow2 1000.
Proof. intros H1 H2. apply large_bound. by rewrite Qabs_pos. Qed.

Lemma int_exact z : (0 ≤ z < 2 ^ 53)%Z → sane (float_of_Z z) ∧ val (float_of_Z z) == inject_Z z.
Proof.
  intros Hz. destruct (float_of_Z_spec z) as [[Hs _] Hx]; [|split; [done|apply Hx; lia]].
  assert (0 <= inject_Z z) by (apply (inject_Z_le 0); lia).
  apply abs_large_pos; [done|]. change large with (inject_Z (2 ^ 100)). apply inject_Z_le. lia.
Qed.

Lemma int_pos z : (0 < z)%Z → 1 <= inject_Z z.
Proof. intros. apply (inject_Z_le 1). lia. Qed.

(** A whole part and a fraction. *)
Lemma parts_near a b (m : positive) :
  (0 ≤ a < 2 ^ 53)%Z → (0 ≤ b < Zpos m)%Z → (Zpos m < 2 ^ 53)%Z →
  let x := lua_add (num := spec_float) (lua_Z a) (lua_div (lua_Z b) (lua_Z (Zpos m))) in
  let z := inject_Z a + inject_Z b / inject_Z (Zpos m) in
  sane x ∧ 0 <= inject_Z b / inject_Z (Zpos m) ∧ inject_Z b / inject_Z (Zpos m) <= 1
  ∧ Qabs (val x - z) <= ulp * (inject_Z b / inject_Z (Zpos m)) + (1 + ulp) * tiny
                        + ulp * (z + ulp * (inject_Z b / inject_Z (Zpos m)) + tiny) + tiny.
Proof.
  intros Ha Hb Hm. cbn zeta. cbn [lua_add lua_div lua_Z lua_float].
  destruct (int_exact a Ha) as [Sa Va]. destruct (int_exact b ltac:(lia)) as [Sb Vb].
  destruct (int_exact (Zpos m) ltac:(lia)) as [Sm Vm].
  pose proof (int_pos (Zpos m) eq_refl) as Hm1.
  assert (0 <= inject_Z a) as Ha0 by (apply (inject_Z_le 0); lia).
  assert (inject_Z a <= inject_Z (2 ^ 53)) as Ha1 by (apply inject_Z_le; lia).
  assert (0 <= inject_Z b / inject_Z (Zpos m)) as Hq0.
  { apply Qle_shift_div_l; [lra|]. rewrite Qmult_0_l. apply (inject_Z_le 0); lia. }
  assert (inject_Z b / inject_Z (Zpos m) <= 1) as Hq1.
  { apply Qle_shift_div_r; [lra|]. rewrite Qmult_1_l. apply inject_Z_le. lia. }
  set (q := inject_Z b / inject_Z (Zpos m)) in *. change (inject_Z (2 ^ 53)) with (9007199254740992 # 1) in Ha1.
  assert (val (float_of_Z b) / val (float_of_Z (Zpos m)) == q) as Eq by (by rewrite Vb, Vm).
  pose proof (SFdiv_near (float_of_Z b) (float_of_Z (Zpos m)) Sb Sm) as Hd.
  rewrite Eq in Hd.
  destruct (near_pos _ _ (Hd ltac:(rewrite Vm; lra) ltac:(apply abs_large_pos; [done|unfold large; lra])) Hq0) as (Sd & Hd1 & Hd2).
  set (dv := SFdiv _ _ _ _) in *. destruct tiny_bound as [Ht0 Ht1]. rewrite ulp_literal in *.
  assert (1 # 2 ^ 160 <= 1) as Ht2 by (vm_compute; discriminate).
  assert (Qabs (val (float_of_Z a) + val dv) <= pow2 1000) as Hl.
  { apply large_bound. apply Qabs_Qle_condition. rewrite Va. unfold large. lra. }
  destruct (SFadd_near (float_of_Z a) dv Sa Sd Hl) as [Ss Hs].
  split_and!; [done..|].
  rewrite Va, ulp_literal in Hs. set (x := val (SFadd _ _ _ _)) in *. apply Qabs_Qle_condition in Hs. apply Qabs_Qle_condition.
  assert (Qabs (inject_Z a + val dv) <= inject_Z a + q + (1 # 9007199254740992) * q + tiny) as Hab.
  { apply Qabs_Qle_condition. lra. }
  lra.
Qed.

Abbreviation u53 := (1 # 9007199254740992).

Lemma tiny_literal : 0 < tiny /\ tiny <= 1 # 1000000000000000000000000000000000000000000000.
Proof. destruct tiny_bound as [H0 H1]. split; [done|]. eapply Qle_trans; [exact H1|]. vm_compute. discriminate. Qed.

(** The time of day. *)
Definition now_ts (t : Z) : spec_float :=
  lua_add (lua_Z (t / 1000000)) (lua_div (lua_Z (t mod 1000000)) (lua_Z 1000000)).

Lemma now_near t :
  (0 ≤ t < 2 ^ 53 * 1000000)%Z →
  sane (now_ts t) ∧ 0 <= val (now_ts t)
  ∧ secs t - u53 * (secs t + 2) <= val (now_ts t) ∧ val (now_ts t) <= secs t + u53 * (secs t + 2).
Proof.
  intros Ht. pose proof (secs_parts t) as Hp. pose proof (Z.mod_pos_bound t 1000000 ltac:(lia)) as Hm.
  assert (0 ≤ t / 1000000 < 2 ^ 53)%Z as Hd by (split; [apply Z.div_pos|apply Z.div_lt_upper_bound]; lia).
  destruct (parts_near (t / 1000000) (t mod 1000000) 1000000 Hd Hm ltac:(lia)) as (Hs & H0 & H1 & H).
  split; [exact Hs|]. fold (now_ts t) in H. rewrite Hp in H. apply Qabs_Qle_condition in H.
  assert (0 <= inject_Z (t / 1000000)) as Ha by (apply (inject_Z_le 0); lia).
  set (q := inject_Z (t mod 1000000) / inject_Z 1000000) in *. rewrite ulp_literal in H.
  destruct tiny_literal. split; [|lra]. destruct (Z.eq_dec t 0%Z) as [->|]; [vm_compute; discriminate|].
  assert (1 # 1000000 <= secs t) by (unfold secs, Qle; cbn; lia). lra.
Qed.

Lemma period_near d :
  (0 < d < 2 ^ 63)%Z →
  sane (period_seconds d)
  ∧ period_exact d - (21 # 10) * u53 * period_exact d <= val (period_seconds d)
  ∧ val (period_seconds d) <= period_exact d + (21 # 10) * u53 * period_exact d.
Proof.
  intros Hd. unfold period_seconds. rewrite Z.quot_div_nonneg, Z.rem_mod_nonneg by lia.
  pose proof (Z.mod_pos_bound d 1000000000 ltac:(lia)) as Hm.
  assert (0 ≤ d / 1000000000 < 2 ^ 53)%Z as Hq by (split; [apply Z.div_pos|apply Z.div_lt_upper_bound]; lia).
  assert (inject_Z (d / 1000000000) + inject_Z (d mod 1000000000) / inject_Z 1000000000 == period_exact d) as Hp.
  { rewrite (Z_div_mod_eq_full d 1000000000) at 3. unfold period_exact.
    generalize (d / 1000000000)%Z (d mod 1000000000)%Z. intros a b.
    unfold Qeq, Qdiv, Qmult, Qplus, Qinv, inject_Z. cbn. lia. }
  destruct (parts_near _ _ 1000000000 Hq Hm ltac:(lia)) as (Hs & H0 & H1 & H).
  split; [exact Hs|]. rewrite Hp in H. apply Qabs_Qle_condition in H.
  assert (1 # 1000000000 <= period_exact d) as Hlow by (unfold period_exact, Qle; cbn; lia).
  assert (0 <= inject_Z (d / 1000000000)) as Ha by (apply (inject_Z_le 0); lia).
  set (q := inject_Z (d mod 1000000000) / inject_Z 1000000000) in *. rewrite ulp_literal in H.
  destruct tiny_literal. set (x := val _) in *. lra.
Qed.

(** ** The numbers of one run *)

Section script.
Context (rate burst d : Z).
Hypothesis rate_ok : (0 < rate < 2 ^ 52)%Z.
Hypothesis burst_ok : (0 ≤ burst ≤ 2 * rate)%Z.
Hypothesis period_ok : (0 < d < 2 ^ 63)%Z.

(** The emission interval and the burst, exact and as computed. *)
Abbreviation P := (period_exact d).
Abbreviation T := (T rate P).
Abbreviation B := (inject_Z burst * T).
Definition interval : spec_float := lua_div (period_seconds d) (lua_Z rate).
Definition allowance : spec_float := lua_mul (lua_Z burst) interval.

Lemma P_bounds : 1 # 1000000000 <= P ∧ P <= 9223372037.
Proof. unfold period_exact, Qle. cbn. lia. Qed.

Lemma rate_bounds : 1 <= inject_Z rate ∧ inject_Z rate <= 4503599627370496.
Proof. split; [apply int_pos; lia|]. apply (inject_Z_le rate 4503599627370496). lia. Qed.

Lemma T_bounds : (1 # 1000000000) * (1 # 4503599627370496) <= T ∧ T <= P.
Proof.
  destruct P_bounds as [HP _], rate_bounds as [H1 H2]. unfold GcraFacts.T. split.
  - apply Qle_shift_div_l; [lra|].
    assert ((1 # 1000000000) * (1 # 4503599627370496) * inject_Z rate <= (1 # 1000000000) * (1 # 4503599627370496) * 4503599627370496).
    { apply Qmult_le_l; [reflexivity|done]. }
    lra.
  - apply Qle_shift_div_r; [lra|]. assert (P * 1 <= P * inject_Z rate) by (apply Qmult_le_l; lra). lra.
Qed.

Lemma B_bounds : 0 <= B ∧ B <= 2 * P.
Proof.
  pose proof T_bounds as [HT _]. split.
  - apply Qmult_le_0_compat; [apply (inject_Z_le 0); lia|lra].
  - assert (inject_Z burst <= inject_Z (2 * rate)) as Hb by (apply inject_Z_le; lia).
    assert (inject_Z burst * T <= inject_Z (2 * rate) * T) as H by (apply Qmult_le_compat_r; [done|lra]).
    rewrite inject_Z_mult in H. change (inject_Z 2) with 2 in H.
    assert (2 * inject_Z rate * T == 2 * P) as E; [|lra].
    rewrite <- (T_rate rate P ltac:(lia)) at 2. ring.
Qed.

Lemma interval_near :
  sane interval ∧ T - (32 # 10) * u53 * T <= val interval ∧ val interval <= T + (32 # 10) * u53 * T.
Proof.
  destruct (period_near d period_ok) as (Sp & P1 & P2), P_bounds as [HP1 HP2], rate_bounds as [R1 R2], T_bounds as [T1 T2].
  destruct (int_exact rate ltac:(lia)) as [Sr Vr]. destruct tiny_literal as [t0 t1].
  unfold interval. cbn [lua_div lua_Z lua_float].
  pose proof (SFdiv_near (period_seconds d) (float_of_Z rate) Sp Sr) as H. rewrite Vr in H.
  assert (∀ c, c * P <= val (period_seconds d) → c * T <= val (period_seconds d) / inject_Z rate) as Hlo.
  { intros c Hc. apply Qle_shift_div_l; [lra|]. rewrite <- Qmult_assoc. unfold GcraFacts.T.
    assert (P / inject_Z rate * inject_Z rate == P) as -> by (field; lra). done. }
  assert (∀ c, val (period_seconds d) <= c * P → val (period_seconds d) / inject_Z rate <= c * T) as Hhi.
  { intros c Hc. apply Qle_shift_div_r; [lra|]. rewrite <- Qmult_assoc. unfold GcraFacts.T.
    assert (P / inject_Z rate * inject_Z rate == P) as -> by (field; lra). done. }
  specialize (Hlo (1 - (21 # 10) * u53) ltac:(lra)). specialize (Hhi (1 + (21 # 10) * u53) ltac:(lra)).
  set (q := val (period_seconds d) / inject_Z rate) in *.
  destruct (near_pos _ _ (H ltac:(lra) ltac:(apply abs_large_pos; unfold large; lra)) ltac:(lra)) as (Hs & H1 & H2).
  rewrite ulp_literal in *. split; [exact Hs|]. set (x := val _) in *. lra.
Qed.

Lemma allowance_near :
  sane allowance ∧ B - (43 # 10) * u53 * B - tiny <= val allowance ∧ val allowance <= B + (43 # 10) * u53 * B + tiny.
Proof.
  destruct interval_near as (Si & I1 & I2), (int_exact burst ltac:(lia)) as [Sb Vb], B_bounds as [B1 B2], P_bounds as [_ P2].
  destruct T_bounds as [T1 _]. assert (0 <= inject_Z burst) as Hb by (apply (inject_Z_le 0); lia).
  unfold allowance. cbn [lua_mul lua_Z lua_float]. pose proof (SFmul_near (float_of_Z burst) interval Sb Si) as H.
  rewrite Vb in H.
  assert (inject_Z burst * ((1 - (32 # 10) * u53) * T) <= inject_Z burst * val interval) as Hlo
    by (rewrite !(Qmult_comm (inject_Z burst)); apply Qmult_le_compat_r; lra).
  assert (inject_Z burst * val interval <= inject_Z burst * ((1 + (32 # 10) * u53) * T)) as Hhi
    by (rewrite !(Qmult_comm (inject_Z burst)); apply Qmult_le_compat_r; lra).
  assert (∀ c, inject_Z burst * (c * T) == c * B) as E by (intros; ring). rewrite E in Hlo, Hhi.
  set (q := inject_Z burst * val interval) in *. set (b := B) in *. destruct tiny_literal as [t0 t1].
  destruct (near_pos _ _ (H ltac:(apply abs_large_pos; unfold large; lra)) ltac:(lra)) as (Hs & H1 & H2).
  rewrite ulp_literal in *. split; [exact Hs|]. set (x := val _) in *. lra.
Qed.

(** A bound on every number of a run at [t] that admits the request, and the margin:
    about two microseconds at the present time. *)
Definition headroom (t : Z) : Q := secs t + 8 * (B + P) + 8.
Definition margin (t : Z) : Q := headroom t * (1 # 1125899906842624).

Lemma margin_eta t : margin t == 8 * u53 * headroom t.
Proof. unfold margin. lra. Qed.

Lemma headroom_bound t : (0 ≤ t < 2 ^ 70)%Z → 8 <= headroom t ∧ headroom t <= 4503599627370496.
Proof.
  intros Ht. destruct B_bounds, P_bounds. unfold headroom.
  assert (0 <= secs t ∧ secs t <= 1200000000000000) by (unfold secs, Qle; cbn; lia). lra.
Qed.

Lemma margin_nonneg t : (0 ≤ t)%Z → (t < 2 ^ 70)%Z → 0 <= margin t.
Proof. intros H0 H1. destruct (headroom_bound t (conj H0 H1)). unfold margin. lra. Qed.

Lemma margin_le t t' : (t ≤ t')%Z → margin t <= margin t'.
Proof. intros Ht. unfold margin, headroom. apply secs_le in Ht. lra. Qed.

Lemma headroom_le t t' : (t ≤ t')%Z → headroom t <= headroom t'.
Proof. intros H. unfold headroom. apply secs_le in H. lra. Qed.

(** The arrival time the script starts from, and its two sums. *)
Definition start (t : Z) (stored : option spec_float) : spec_float :=
  lua_max (now_ts t) (match stored with None => now_ts t | Some tat => tat end).
Definition new_tat (x : spec_float) : spec_float := lua_add x interval.
Definition allow_at (x : spec_float) : spec_float := lua_sub (new_tat x) allowance.
Definition expiry : Z := lua_ceil (lua_mul (period_seconds d) (lua_Z 2)).

Lemma luaGCRA_run t stored :
  luaGCRA (t / 1000000, t mod 1000000)%Z stored rate (period_seconds d) burst =
  if lua_le (allow_at (start t stored)) (now_ts t) then ((-1)%Z, Some (new_tat (start t stored), expiry))
  else (lua_ceil (lua_sub (allow_at (start t stored)) (now_ts t)), None).
Proof. reflexivity. Qed.

(** What a key may hold: a number that is not absurdly far in the future. *)
Definition reasonable (v : spec_float) : Prop := sane v ∧ val v <= 1152921504606846976.

Lemma now_sane t : (0 ≤ t < 2 ^ 70)%Z → sane (now_ts t).
Proof. intros. apply now_near. lia. Qed.

Lemma start_spec t stored :
  (0 ≤ t < 2 ^ 70)%Z → (∀ v, stored = Some v → reasonable v) →
  reasonable (start t stored) ∧ val (now_ts t) <= val (start t stored)
  ∧ (∀ v, stored = Some v → val v <= val (start t stored))
  ∧ (start t stored = now_ts t ∨ stored = Some (start t stored)).
Proof.
  intros Ht Hv. destruct (now_near t ltac:(lia)) as (Hs & H0 & H1 & H2).
  assert (reasonable (now_ts t)) as Hr.
  { split; [done|]. assert (0 <= secs t ∧ secs t <= 1200000000000000) by (unfold secs, Qle; cbn; lia). lra. }
  unfold start. cbn [lua_max lua_float]. destruct stored as [v|].
  - specialize (Hv v eq_refl) as Hrv. destruct Hrv as [Sv _]. pose proof (SFltb_val _ _ Hs Sv) as Hlt.
    destruct (SFltb (now_ts t) v) eqn:E.
    + assert (val (now_ts t) < val v) by by apply Hlt. split_and!; [by apply Hv|lra| |by right].
      intros ? [= <-]. apply Qle_refl.
    + split_and!; [done|apply Qle_refl| |by left]. intros ? [= <-].
      apply Qnot_lt_le. intros H. apply Hlt in H. congruence.
  - assert ((if SFltb (now_ts t) (now_ts t) then now_ts t else now_ts t) = now_ts t) as -> by by destruct (SFltb _ _).
    split_and!; [done|apply Qle_refl|done|by left].
Qed.

Lemma expiry_bound : 2 * P - 7 * u53 * P <= inject_Z expiry.
Proof.
  destruct (period_near d period_ok) as (Sp & P1 & P2), P_bounds as [HP1 HP2], tiny_literal as [t0 t1].
  destruct (int_exact 2 ltac:(lia)) as [S2 V2]. change (inject_Z 2) with 2 in V2.
  unfold expiry. cbn [lua_mul lua_Z lua_float lua_ceil].
  pose proof (SFmul_near (period_seconds d) (float_of_Z 2) Sp S2) as H. rewrite V2 in H.
  destruct (near_pos _ _ (H ltac:(apply abs_large_pos; unfold large; lra)) ltac:(lra)) as (Hs & H1 & H2).
  rewrite float_ceil_val by done. eapply Qle_trans; [|apply Qle_ceiling]. rewrite ulp_literal in *. lra.
Qed.


(** The sums of a run, for a bound [H] on its numbers. *)
Section sums.
Context (t : Z) (x : spec_float) (H : Q).
Hypothesis t_ok : (0 ≤ t < 2 ^ 70)%Z.
Hypothesis H_ok : headroom t <= H ∧ H <= 4503599627370496.
Hypothesis x_ok : reasonable x ∧ val (now_ts t) <= val x.

Lemma now_error : sane (now_ts t) ∧ secs t - u53 * H <= val (now_ts t) ∧ val (now_ts t) <= secs t + u53 * H ∧ 0 <= val (now_ts t).
Proof.
  destruct (now_near t ltac:(lia)) as (Hs & H0 & H1 & H2). split; [done|].
  destruct B_bounds, P_bounds. unfold headroom in H_ok. lra.
Qed.

(** The sums when they stay below [H]. *)
Lemma sums_near :
  val x + T <= H - 1 →
  sane (new_tat x) ∧ sane (allow_at x)
  ∧ val x + T - (14 # 10) * u53 * H <= val (new_tat x) ∧ val (new_tat x) <= val x + T + (14 # 10) * u53 * H
  ∧ val (allow_at x) - val (new_tat x) + B <= (16 # 10) * u53 * H
  ∧ - ((16 # 10) * u53 * H) <= val (allow_at x) - val (new_tat x) + B.
Proof.
  intros Hx. destruct interval_near as (Si & I1 & I2), allowance_near as (Sa & A1 & A2), now_error as (Sn & N1 & N2 & N3).
  destruct B_bounds as [B1 B2], P_bounds as [P1 P2], T_bounds as [T1 T2], tiny_literal as [t0 t1], x_ok as [[Sx X1] X2].
  unfold headroom in H_ok. set (b := B) in *. set (p := P) in *. set (e := T) in *.
  pose proof (SFadd_near x interval Sx Si) as Hn.
  destruct (near_pos _ _ (Hn ltac:(apply abs_large_pos; unfold large; lra)) ltac:(lra)) as (Sw & W1 & W2).
  change (SFadd prec64 emax64 x interval) with (new_tat x) in *. rewrite ulp_literal in *.
  split; [done|].
  assert (Qabs (val (new_tat x) - val allowance) <= H) as Hl by (apply Qabs_Qle_condition; lra).
  destruct (SFsub_near (new_tat x) allowance Sw Sa) as [[Sl Hs] _].
  { apply large_bound. unfold large. lra. }
  change (SFsub prec64 emax64 (new_tat x) allowance) with (allow_at x) in *. rewrite ulp_literal in Hs.
  split; [done|]. apply Qabs_Qle_condition in Hs. lra.
Qed.

(** The sums when they do not. *)
Lemma sums_far :
  H - 1 < val x + T → sane (new_tat x) ∧ sane (allow_at x) ∧ H - 3 - B <= val (allow_at x) ∧ val (allow_at x) <= 2000000000000000000.
Proof.
  intros Hx. destruct interval_near as (Si & I1 & I2), allowance_near as (Sa & A1 & A2), now_error as (Sn & N1 & N2 & N3).
  destruct B_bounds as [B1 B2], P_bounds as [P1 P2], T_bounds as [T1 T2], tiny_literal as [t0 t1], x_ok as [[Sx X1] X2].
  unfold headroom in H_ok. set (b := B) in *. set (p := P) in *. set (e := T) in *.
  pose proof (SFadd_near x interval Sx Si) as Hn.
  destruct (near_pos _ _ (Hn ltac:(apply abs_large_pos; unfold large; lra)) ltac:(lra)) as (Sw & W1 & W2).
  change (SFadd prec64 emax64 x interval) with (new_tat x) in *. rewrite ulp_literal in *.
  split; [done|].
  pose proof (SFsub_near (new_tat x) allowance Sw Sa) as Hs.
  destruct Hs as [Hs _]; [apply abs_large_pos; unfold large; lra|].
  destruct (near_pos _ _ Hs ltac:(lra)) as (Sl & L1 & L2).
  change (SFsub prec64 emax64 (new_tat x) allowance) with (allow_at x) in *. rewrite ulp_literal in *.
  split; [done|]. lra.
Qed.

Abbreviation admits := (lua_le (allow_at x) (now_ts t)).

Lemma admits_iff : admits = true ↔ val (allow_at x) <= val (now_ts t).
Proof.
  cbn [lua_le lua_float]. apply SFleb_val; [|apply now_error].
  destruct (Qlt_le_dec (H - 1) (val x + T)) as [Hf|Hn]; [by apply sums_far|by apply sums_near].
Qed.

(** A request that is admitted. *)
Lemma admits_near :
  admits = true →
  sane (new_tat x) ∧ val x + T - (14 # 10) * u53 * H <= val (new_tat x)
  ∧ val (new_tat x) <= secs t + B + (26 # 10) * u53 * H.
Proof.
  rewrite admits_iff. intros Ha. destruct now_error as (Sn & N1 & N2 & N3).
  destruct (Qlt_le_dec (H - 1) (val x + T)) as [Hf|Hn].
  - destruct (sums_far Hf) as (_ & _ & L & _). exfalso.
    destruct B_bounds, P_bounds. unfold headroom in H_ok. lra.
  - destruct (sums_near Hn) as (Sw & Sl & W1 & W2 & L1 & L2). split; [done|lra].
Qed.

(** Enough for a request to be admitted. *)
Lemma admits_when : val x + T <= secs t + B - 4 * u53 * H → admits = true.
Proof.
  intros Hx. rewrite admits_iff. destruct now_error as (Sn & N1 & N2 & N3), B_bounds, P_bounds.
  unfold headroom in H_ok. destruct (sums_near ltac:(lra)) as (Sw & Sl & W1 & W2 & L1 & L2). lra.
Qed.

(** A request that is refused, and the time it is told to wait. *)
Lemma refuses_near :
  admits = false →
  let reply := lua_ceil (lua_sub (allow_at x) (now_ts t)) in
  (1 ≤ reply)%Z
  ∧ (val x + T <= H - 1 → val x + T - B - secs t - 6 * u53 * H <= inject_Z reply)
  ∧ (H - 1 < val x + T → H - 5 - B - secs t <= inject_Z reply).
Proof.
  intros Ha. cbn zeta. cbn [lua_ceil lua_sub lua_float].
  assert (val (now_ts t) < val (allow_at x)) as Hlt.
  { apply Qnot_le_lt. intros Hle. apply admits_iff in Hle. congruence. }
  destruct now_error as (Sn & N1 & N2 & N3), B_bounds as [B1 B2], P_bounds as [P1 P2], tiny_literal as [t0 t1].
  assert (sane (allow_at x) ∧ val (allow_at x) <= 2000000000000000000) as [Sl Hl].
  { destruct (Qlt_le_dec (H - 1) (val x + T)) as [Hf|Hn]; [by split; apply sums_far|].
    destruct (sums_near Hn) as (Sw & Sl & W1 & W2 & L1 & L2). split; [done|lra]. }
  destruct (SFsub_near (allow_at x) (now_ts t) Sl Sn) as [Hn Hpos].
  { apply abs_large_pos; unfold large; lra. }
  specialize (Hpos Hlt). destruct (near_pos _ _ Hn ltac:(lra)) as (Ss & S1 & S2). rewrite ulp_literal in *.
  rewrite float_ceil_val by done. pose proof (Qle_ceiling (val (SFsub prec64 emax64 (allow_at x) (now_ts t)))) as Hc.
  split_and!; [by apply Qceiling_pos|intros Hx..].
  - destruct (sums_near Hx) as (Sw & _ & W1 & W2 & L1 & L2). unfold headroom in H_ok. lra.
  - destruct (sums_far Hx) as (_ & _ & L & _). unfold headroom in H_ok. lra.
Qed.

End sums.

(** ** Requests on a key *)

Context {cell : Type} {RK : RedisKey spec_float cell} {RL : RedisKeyLaws spec_float cell}.

(** What the key holds at a time, and so from then on. *)
Definition reasonable_key (t : Z) (c : cell) : Prop := ∀ v, cell_GET t c = Some v → reasonable v.

Abbreviation started t c := (start t (cell_GET t c)).
Abbreviation request := (gcra_request rate (period_seconds d) burst).

Lemma reasonable_empty t : reasonable_key t (cell_empty : cell).
Proof. intros v. by rewrite get_empty. Qed.

Lemma reasonable_later t t' c : (t ≤ t')%Z → reasonable_key t c → reasonable_key t' c.
Proof. intros Ht Hc v. destruct (get_later t t' c Ht) as [-> | ->]; [apply Hc|done]. Qed.

Lemma started_ok t c :
  (0 ≤ t < 2 ^ 70)%Z → reasonable_key t c → reasonable (started t c) ∧ val (now_ts t) <= val (started t c).
Proof. intros Ht Hc. destruct (start_spec t (cell_GET t c) Ht Hc) as (? & ? & _). done. Qed.

Lemma request_run t c :
  request t c =
  if lua_le (allow_at (started t c)) (now_ts t)
  then ((-1)%Z, cell_SET_EX t (new_tat (started t c)) expiry c)
  else (lua_ceil (lua_sub (allow_at (started t c)) (now_ts t)), c).
Proof. unfold gcra_request. rewrite luaGCRA_run. by destruct (lua_le _ _). Qed.

Lemma refused_unchanged t c reply c' : request t c = (reply, c') → (0 ≤ reply)%Z → c' = c.
Proof. rewrite request_run. destruct (lua_le _ _); intros [= <- <-]; [lia|done]. Qed.

Lemma refused_reply t c reply :
  (0 ≤ t < 2 ^ 70)%Z → reasonable_key t c → request t c = (reply, c) → (0 ≤ reply)%Z → (1 ≤ reply)%Z.
Proof.
  intros Ht Hc. rewrite request_run. pose proof (headroom_bound t Ht) as [_ Hh].
  destruct (lua_le _ _) eqn:E; [intros [= <- _]; lia|intros [= <-] _].
  by apply (refuses_near t _ (headroom t) Ht (conj (Qle_refl _) Hh) (started_ok t c Ht Hc) E).
Qed.

(** A reply says whether the request is admitted. *)
Lemma reply_spec t c :
  (0 ≤ t < 2 ^ 70)%Z → reasonable_key t c →
  negb (0 <=? (request t c).1)%Z = (-1 =? (request t c).1)%Z.
Proof.
  intros Ht Hc. rewrite request_run. pose proof (headroom_bound t Ht) as [_ Hh].
  destruct (lua_le _ _) eqn:E; [done|]. cbn [fst].
  destruct (refuses_near t _ (headroom t) Ht (conj (Qle_refl _) Hh) (started_ok t c Ht Hc) E) as [H1 _].
  destruct (Z.leb_spec 0 (lua_ceil (lua_sub (allow_at (started t c)) (now_ts t)))) as [|]; [|lia].
  destruct (Z.eqb_spec (-1) (lua_ceil (lua_sub (allow_at (started t c)) (now_ts t)))) as [|]; [lia|done].
Qed.

(** The key stays reasonable. *)
Lemma request_reasonable t c :
  (0 ≤ t < 2 ^ 70)%Z → reasonable_key t c → reasonable_key t (request t c).2.
Proof.
  intros Ht Hc. rewrite request_run. destruct (lua_le _ _) eqn:E; [|done]. cbn [snd].
  destruct (headroom_bound t Ht) as [Hb1 Hb2].
  destruct (admits_near t _ (headroom t) Ht (conj (Qle_refl _) Hb2) (started_ok t c Ht Hc) E) as (Sw & W1 & W2).
  destruct B_bounds as [B1 B2], P_bounds as [P1 P2].
  intros v. destruct (Z.lt_ge_cases t (t + expiry * 1000000)) as [|]; [|by rewrite get_expired by lia].
  rewrite get_live by lia. intros [= <-]. split; [done|]. unfold headroom in *. lra.
Qed.

(** *** The rate over a window *)

Section window.
Context (t0 t1 : Z).
Hypothesis t1_ok : (t1 < 2 ^ 70)%Z.
Abbreviation H := (headroom t1).

(** From [t] on the script starts from [k] intervals after [t0], or later. *)
Definition charged (t k : Z) (c : cell) : Prop :=
  ∀ t', (t ≤ t' ≤ t1)%Z → secs t0 + inject_Z k * (T - margin t1) - u53 * H <= val (started t' c).

Lemma expiry_nonneg : (0 ≤ expiry)%Z.
Proof.
  pose proof expiry_bound as He. destruct P_bounds as [HP _].
  assert (-1 < expiry)%Z; [|lia]. rewrite Zlt_Qlt. change (inject_Z (-1)) with (- (1))%Q. lra.
Qed.

(** An admitted request charges its interval, up to the margin. *)
Lemma charged_set t k c :
  (0 ≤ t ≤ t1)%Z → reasonable_key t c → charged t k c →
  lua_le (allow_at (started t c)) (now_ts t) = true →
  let c' := cell_SET_EX t (new_tat (started t c)) expiry c in
  reasonable_key t c' ∧ charged t (k + 1) c'
  ∧ secs t0 + inject_Z (k + 1) * (T - margin t1) <= secs t1 + B + margin t1.
Proof.
  intros Ht Hc Hk Ha. cbn zeta.
  assert (0 ≤ t < 2 ^ 70)%Z as Ht' by lia. destruct (headroom_bound t1 ltac:(lia)) as [Hb1 Hb2].
  pose proof (headroom_le t t1 ltac:(lia)) as Hle.
  destruct (admits_near t _ H Ht' (conj Hle Hb2) (started_ok t c Ht' Hc) Ha) as (Sw & W1 & W2).
  pose proof (Hk t ltac:(lia)) as Hx. pose proof (secs_le t t1 ltac:(lia)) as Hs1.
  pose proof (margin_eta t1) as Hm.
  destruct B_bounds as [B1 B2], P_bounds as [P1 P2].
  pose proof (request_reasonable t c Ht' Hc) as Hkey. rewrite request_run, Ha in Hkey. cbn [snd] in Hkey.
  assert (reasonable (new_tat (started t c))) as Hr by (split; [done|unfold headroom in *; lra]).
  set (v := new_tat (started t c)) in *.
  assert (inject_Z (k + 1) * (T - margin t1) == inject_Z k * (T - margin t1) + T - margin t1) as Ek
    by (rewrite inject_Z_plus; ring).
  assert (0 <= u53 * H) by (apply Qmult_le_0_compat; [discriminate|lra]).
  split_and!.
  - done.
  - intros t2 Ht2. destruct (start_spec t2 (Some v)) as (_ & _ & Hv & _); [lia|by intros ? [= <-]|].
    specialize (Hv v eq_refl).
    destruct (Z.lt_ge_cases t2 (t + expiry * 1000000)) as [Hl|Hl].
    + rewrite get_live by lia. lra.
    + rewrite get_expired by lia. change (start t2 None) with (start t2 None).
      destruct (start_spec t2 None) as (_ & Hn & _); [lia|done|].
      apply secs_le in Hl. rewrite secs_add in Hl. pose proof expiry_bound.
      destruct (now_near t2 ltac:(lia)) as (_ & _ & N1 & _). pose proof (secs_le t2 t1 ltac:(lia)).
      unfold headroom in *. lra.
  - lra.
Qed.

Lemma float_window_step ts : ∀ t k c,
  (0 ≤ t)%Z → reasonable_key t c → charged t k c →
  secs t0 + inject_Z k * (T - margin t1) <= secs t1 + B + margin t1 →
  times_from t ts → Forall (λ t', t' ≤ t1)%Z ts →
  secs t0 + inject_Z (k + Z.of_nat (admitted (gcra_replies rate (period_seconds d) burst ts c))) * (T - margin t1)
  <= secs t1 + B + margin t1.
Proof.
  induction ts as [|t' ts IH]; intros t k c Ht0 Hc Hk Hend Hts Hf.
  { cbn. by rewrite Z.add_0_r. }
  destruct Hts as [Ht Hts]. apply Forall_cons in Hf as [Ht1 Hf]. cbn [gcra_replies].
  assert (reasonable_key t' c) as Hc' by by eapply reasonable_later.
  assert (charged t' k c) as Hk' by (intros t2 ?; apply Hk; lia).
  pose proof (reply_spec t' c ltac:(lia) Hc') as Hreply. rewrite request_run in *.
  destruct (lua_le _ _) eqn:E; cbn [fst] in *; rewrite admitted_cons.
  - destruct (charged_set t' k c ltac:(lia) Hc' Hk' E) as (H1 & H2 & H3).
    replace (k + Z.of_nat _)%Z with (k + 1 + Z.of_nat (admitted (gcra_replies rate (period_seconds d) burst ts
         (cell_SET_EX t' (new_tat (started t' c)) expiry c))))%Z by (cbn; lia).
    by apply (IH t'); [lia|..].
  - destruct (refuses_near t' (started t' c) (headroom t')) as [Hr _]; [lia| |by apply started_ok; [lia|]|done|].
    { split; [apply Qle_refl|]. apply headroom_bound. lia. }
    destruct (Z.eqb_spec (-1) (lua_ceil (lua_sub (allow_at (started t' c)) (now_ts t')))); [lia|].
    by apply (IH t'); [lia|..].
Qed.

End window.

(** In any window of any run, at most the window's share of the rate and one
    burst get through, up to the margin per request. *)
Lemma float_window_bound t0 t1 ts c :
  (0 ≤ t0 ≤ t1)%Z → (t1 < 2 ^ 70)%Z → reasonable_key t0 c →
  times_from t0 ts → Forall (λ t, t ≤ t1)%Z ts →
  inject_Z (Z.of_nat (admitted (gcra_replies rate (period_seconds d) burst ts c))) * (T - margin t1)
  <= (secs t1 - secs t0) + B + margin t1.
Proof.
  intros Ht Ht1 Hc Hts Hf. destruct (headroom_bound t1 ltac:(lia)) as [Hb1 Hb2]. pose proof (secs_le t0 t1 ltac:(lia)).
  pose proof (margin_eta t1) as Hm.
  assert (0 <= u53 * headroom t1) by (apply Qmult_le_0_compat; [discriminate|lra]).
  destruct B_bounds, P_bounds.
  assert (inject_Z 0 * (T - margin t1) == 0) as E0 by (change (inject_Z 0) with 0; ring).
  pose proof (float_window_step t0 t1 Ht1 ts t0 0 c ltac:(lia) Hc) as Hw. rewrite Z.add_0_l in Hw.
  set (n := inject_Z (Z.of_nat _) * _) in *.
  enough (secs t0 + n <= secs t1 + B + margin t1) by lra.
  apply Hw; [|lra|done..]. intros t' Ht'.
  destruct (started_ok t' c) as [_ Hs]; [lia|eapply reasonable_later; [|done]; lia|].
  destruct (now_near t' ltac:(lia)) as (_ & _ & N1 & _). pose proof (secs_le t0 t' ltac:(lia)). pose proof (secs_le t' t1 ltac:(lia)).
  unfold headroom in *. lra.
Qed.

(** *** A refused client *)

(** A client that waits the time it is told, and a margin, is admitted, if the key
    still holds what it held. *)
Lemma float_retry t t' c reply :
  (2 ≤ burst)%Z → margin t' <= T → (0 ≤ t ≤ t')%Z → (t' < 2 ^ 70)%Z → reasonable_key t c →
  request t c = (reply, c) → (0 ≤ reply)%Z → secs t + inject_Z reply + 2 * margin t' <= secs t' →
  (request t' c).1 = (-1)%Z ∧ (1 ≤ reply)%Z.
Proof.
  intros Hb HmT Ht Ht' Hc Hr Hr0 Hwait.
  assert (t ≤ t')%Z as Htt by lia.
  destruct (headroom_bound t' ltac:(lia)) as [Hb1 Hb2]. pose proof (headroom_le t t' Htt) as Hh.
  pose proof (margin_eta t') as Hm.
  pose proof (started_ok t c ltac:(lia) Hc) as Hok. assert (reasonable_key t' c) as Hc' by by eapply reasonable_later.
  rewrite request_run in *. destruct (lua_le (allow_at (started t c)) _) eqn:E; [injection Hr as <- _; lia|].
  destruct (refuses_near t _ (headroom t') ltac:(lia) (conj Hh Hb2) Hok E) as (H1 & H2 & H3).
  assert (lua_ceil (lua_sub (allow_at (started t c)) (now_ts t)) = reply) as Er by congruence. rewrite Er in H1, H2, H3.
  split; [|done]. 
  assert (lua_le (allow_at (started t' c)) (now_ts t') = true) as ->; [|done].
  apply (admits_when t' _ (headroom t') ltac:(lia) (conj (Qle_refl _) Hb2) (started_ok t' c ltac:(lia) Hc')).
  assert (2 * T <= B) as HB.
  { apply Qmult_le_compat_r; [apply (inject_Z_le 2); lia|]. pose proof T_bounds. lra. }
  destruct (now_near t' ltac:(lia)) as (_ & _ & N1 & N2).
  destruct (start_spec t' (cell_GET t' c) ltac:(lia) Hc') as (_ & _ & _ & [-> | Hs]).
  - unfold headroom in *. destruct P_bounds. lra.
  - assert (cell_GET t c = Some (started t' c)) as Hs'.
    { destruct (get_later t t' c Htt) as [<- | Hn]; [done|]. congruence. }
    destruct (start_spec t (cell_GET t c) ltac:(lia) Hc) as (_ & _ & Hle & _). specialize (Hle _ Hs').
    destruct (Qlt_le_dec (headroom t' - 1) (val (started t c) + T)) as [Hf|Hn].
    + specialize (H3 Hf). unfold headroom in *. destruct P_bounds, B_bounds. exfalso. lra.
    + specialize (H2 Hn). lra.
Qed.

End script.

(** ** Rounding shows *)

(** Three requests per second with bursts of four: a burst of four and, a third of a
    second less a third of a microsecond later, a fifth request. Redis admits it, and
    without rounding it is refused. *)
Example rounding_admits_early :
  let b := 1700239171627001%Z in
  gcra_replies (cell := option (spec_float * Z)) 3 (period_seconds 1000000000) 4 [b; b; b; b; b + 333333]%Z cell_empty
  = [-1; -1; -1; -1; -1]%Z
  ∧ gcra_replies (cell := option (Q * Z)) 3 (period_exact 1000000000) 4 [b; b; b; b; b + 333333]%Z cell_empty
  = [-1; -1; -1; -1; 1]%Z.
Proof. vm_compute. done. Qed.
