(* ===== verification/RateLimit.v ===== *)
(** [server/middleware/ratelimit.go]: the HTTP rate limiter, with its
    per-identity key, the script of [Gcra.v] run in Redis, and the process-wide
    fallback limiter for the time Redis is down. *)

From Stdlib Require Import SpecFloat.
From S2P Require Import Prelude GoErrors Contextx GoStrings Json Http Response Gcra GcraFloat.

Open Scope string_scope.
Open Scope list_scope.

(** ** The services *)

(** [luaGCRA.Run(ctx, rdb, []string{key}, rate, period.Seconds(), burst).Float64()]:
    the reply of the script, or the error of the client. *)
Class GcraService (W : Type) : Type := {
  gcra_Run : context → string → Z → Z → Z → W → W * result Z error;
  wall_clock : W → Z;
}.

(** What Redis does with the script: it runs it on the key, atomically, at its
    own time, with the binary64 numbers of Lua; a call that fails may or may not have run it; the other
    keys of the limiter are not touched. *)
Class GcraServiceLaws (W cell : Type) `{!GcraService W} `{!RedisKey spec_float cell}
    (redis_time : W → Z) (redis_key : W → string → cell) : Prop := {
  gcra_Run_time ctx k rate period burst w :
    (redis_time w ≤ redis_time (gcra_Run ctx k rate period burst w).1)%Z;
  gcra_Run_other ctx k rate period burst w k' :
    k' ≠ k → redis_key (gcra_Run ctx k rate period burst w).1 k' = redis_key w k';
  gcra_Run_ok ctx k rate period burst w reply :
    (gcra_Run ctx k rate period burst w).2 = Ok reply →
    ∃ t, (redis_time w ≤ t ≤ redis_time (gcra_Run ctx k rate period burst w).1)%Z ∧
      gcra_request rate (period_seconds period) burst t (redis_key w k)
      = (reply, redis_key (gcra_Run ctx k rate period burst w).1 k);
  gcra_Run_err ctx k rate period burst w e :
    (gcra_Run ctx k rate period burst w).2 = Err e →
    redis_key (gcra_Run ctx k rate period burst w).1 k = redis_key w k ∨
    ∃ t, (redis_time w ≤ t ≤ redis_time (gcra_Run ctx k rate period burst w).1)%Z ∧
      (gcra_request rate (period_seconds period) burst t (redis_key w k)).2
      = redis_key (gcra_Run ctx k rate period burst w).1 k;
}.

(** [golang.org/x/time/rate]. *)
Class XRate (lim : Type) : Type := {
  NewLimiter : Z → Z → lim;
  Allow : Z → lim → lim * bool;
}.

(** Its documentation: a limiter with burst zero allows no event. *)
Class XRateLaws (lim : Type) `{!XRate lim} (exhausted : lim → Prop) : Prop := {
  NewLimiter_zero_burst r : exhausted (NewLimiter r 0);
  Allow_exhausted now l : exhausted l → (Allow now l).2 = false ∧ exhausted (Allow now l).1;
}.

(** The package's variables [limiterOnce] and [emergencyLimiter], and the rest
    of the world. *)
Record rl_world (lim W : Type) : Type := mkRL {
  limiterOnce : bool;
  emergencyLimiter : option lim;
  rl_rest : W;
}.
Arguments mkRL {lim W}.
Arguments limiterOnce {lim W}.
Arguments emergencyLimiter {lim W}.
Arguments rl_rest {lim W}.

(** ** Identities *)

(** [fmt.Sprintf("%v", x)] *)
Definition Sprint_v (a : any) : string :=
  match a with
  | AString s => s
  | AInt z => Itoa z
  | AStrings l => "[" +:+ String.concat " " l +:+ "]"
  | AOther s => s
  end.

Definition getRealIP (r : Request) : string :=
  let xForwardedFor := Header_Get (req_header r) "X-Forwarded-For" in
  if negb (bool_decide (xForwardedFor = "")) then
    let parts := Split xForwardedFor ","%char in
    TrimSpace (hd "" parts)
  else
    let xRealIP := Header_Get (req_header r) "X-Real-Ip" in
    if negb (bool_decide (xRealIP = "")) then xRealIP
    else match SplitHostPort (req_remoteAddr r) with
         | None => req_remoteAddr r
         | Some (host, _) => host
         end.

Definition rate_identity (r : Request) : string :=
  match Value (req_ctx r) AuthPrincipalIDKey with
  | Some user => "user:" +:+ Sprint_v user
  | None => "ip:" +:+ getRealIP r
  end.

Definition rate_key (r : Request) : string := "rl:" +:+ rate_identity r.

Section middleware.
Context {W lim : Type} {GS : GcraService W} {XR : XRate lim}.

Abbreviation World := (rl_world lim W).

Definition run_gcra (ctx : context) (k : string) (rps period burst : Z) (w : World) :
    World * result Z error :=
  let '(w', res) := gcra_Run ctx k rps period burst (rl_rest w) in
  (mkRL (limiterOnce w) (emergencyLimiter w) w', res).

(** [emergencyLimiter.Allow()] *)
Definition emergency_Allow : HandlerM World bool :=
  l ← gets (λ h, emergencyLimiter (h_world h));
  match l with
  | None => gopanic "runtime error: invalid memory address or nil pointer dereference"
  | Some l =>
      on_world (λ w, let '(l', ok) := Allow (wall_clock (rl_rest w)) l in
                     (mkRL (limiterOnce w) (Some l') (rl_rest w), ok))
  end.

(** The handler the middleware returns. *)
Definition ratelimit_handler (rps burst period : Z) (next : Handler World) : Handler World := λ r,
  if (rps <=? 0)%Z then next r
  else
    res ← on_world (run_gcra (req_ctx r) (rate_key r) rps period burst);
    match res with
    | Err _ =>
        ok ← emergency_Allow;
        if negb ok then
          header_Set "X-RateLimit-Fallback" "true";;
          http_Error "Service Unavailable (Rate Limit Fallback)" StatusServiceUnavailable
        else next r
    | Ok res =>
        if (0 <=? res)%Z then
          header_Set "Retry-After" (Itoa res);;
          header_Set "X-RateLimit-Limit" (Itoa rps);;
          http_Error "Rate limit exceeded" StatusTooManyRequests
        else
          header_Set "X-RateLimit-Limit" (Itoa rps);;
          next r
    end.

(** [limiterOnce.Do(...)] *)
Definition init_emergency (rps burst : Z) (w : World) : World :=
  if limiterOnce w then w
  else mkRL true (Some (NewLimiter (wrap64 (rps * 2)) (wrap64 (burst * 2)))) (rl_rest w).

(** The call that makes a middleware: it runs the initialisation. *)
Definition RateLimitMiddleware (rps burst period : Z) (w : World) : World * Middleware World :=
  (init_emergency rps burst w, ratelimit_handler rps burst period).

End middleware.
