(* ===== verification/RateWindow.v ===== *)
(** The rate a service enforces that asks the script of [Gcra.v] once per request,
    with the rounding of binary64: what the HTTP and the gRPC limiter have in common. *)

From Stdlib Require Import QArith Lqa SpecFloat.
From S2P Require Import Prelude GoErrors Contextx Gcra GcraFacts Binary64 GcraFloat RateLimit.

Open Scope string_scope.
Open Scope list_scope.

Section window.
Context {W World Req : Type} {GS : GcraService W}.
Context {cell : Type} {RK : RedisKey spec_float cell} {RL : RedisKeyLaws spec_float cell}.
Context (redis_time : W → Z) (redis_key : W → string → cell).
Context {GL : GcraServiceLaws W cell redis_time redis_key}.
(** A process with Redis in its world, and what its requests are charged to. *)
Context (redis : World → W) (ctx_of : Req → context) (key_of : Req → string).
Context (rps burst period : Z).
(** The service: the world a request leaves, and whether it reached the handler. *)
Context (serve : Req → World → World * bool).
Implicit Types (r : Req) (w : World).

(** Nobody but the limiter touches its keys, and Redis's time goes forward. *)
Definition quiet (w w' : World) : Prop :=
  (∀ k, redis_key (redis w') k = redis_key (redis w) k)
  ∧ (redis_time (redis w) ≤ redis_time (redis w'))%Z.

Abbreviation asked r w := (gcra_Run (ctx_of r) (key_of r) rps period burst (redis w)).
Definition redis_reachable w r : bool := is_ok (asked r w).2.

(** Requests of any clients, in some order, with other activity in between. The
    log says for each request Redis decided which key it counted
    against and whether it reached the handler. *)
Inductive traffic : World → list (string * bool) → World → Prop :=
| traffic_done w : traffic w [] w
| traffic_idle w w1 log w2 : quiet w w1 → traffic w1 log w2 → traffic w log w2
| traffic_request w r log w2 :
    redis_reachable w r = true → traffic (serve r w).1 log w2 →
    traffic w ((key_of r, (serve r w).2) :: log) w2
| traffic_fallback w r log w2 :
    redis_reachable w r = false → traffic (serve r w).1 log w2 → traffic w log w2.

Definition passed (k : string) (log : list (string * bool)) : nat :=
  length (filter (λ e, e = (k, true)) log).

(** The limits of the numbers: a rate below [2^52], a burst of at most twice the rate,
    a period that a [time.Duration] holds. *)
Hypothesis rps_ok : (0 < rps < 2 ^ 52)%Z.
Hypothesis burst_ok : (0 ≤ burst ≤ 2 * rps)%Z.
Hypothesis period_ok : (0 < period < 2 ^ 63)%Z.
(** The script is asked once, and decides when it answers. *)
Hypothesis serve_asks : ∀ r w, ∃ w1, redis w1 = (asked r w).1 ∧ quiet w1 (serve r w).1.
Hypothesis serve_decides :
  ∀ r w reply, (asked r w).2 = Ok reply → (serve r w).2 = negb (0 <=? reply)%Z.

(** The requests a run makes on one key. *)
Abbreviation replies := (gcra_replies rps (period_seconds period) burst).

Definition key_requests (k : string) (w w' : World) (n : nat) : Prop :=
  ∃ ts, times_from (redis_time (redis w)) ts
    ∧ Forall (λ t, (t ≤ redis_time (redis w'))%Z) ts
    ∧ (n ≤ admitted (replies ts (redis_key (redis w) k)))%nat.

Lemma times_from_weaken t t' ts : (t ≤ t')%Z → times_from t' ts → times_from t ts.
Proof. destruct ts; cbn; [done|]. intros ? [??]. split; [lia|done]. Qed.

Lemma key_requests_quiet k w w1 w2 n :
  quiet w w1 → key_requests k w1 w2 n → key_requests k w w2 n.
Proof.
  intros [Hk Ht] (ts & Hts & Hf & Hn). exists ts. rewrite <- Hk.
  split_and!; [by eapply times_from_weaken|done..].
Qed.

(** One request on the key, at a time between the two worlds. *)
Lemma key_requests_step k w w1 w2 t n :
  (redis_time (redis w) ≤ t ≤ redis_time (redis w1))%Z →
  (redis_time (redis w1) ≤ redis_time (redis w2))%Z →
  (gcra_request rps (period_seconds period) burst t (redis_key (redis w) k)).2
    = redis_key (redis w1) k →
  key_requests k w1 w2 n →
  key_requests k w w2
    ((if (-1 =? (gcra_request rps (period_seconds period) burst t (redis_key (redis w) k)).1)%Z
      then 1 else 0) + n).
Proof.
  intros Ht Ht2 Hg (ts & Hts & Hf & Hn). exists (t :: ts). split_and!.
  - split; [lia|]. eapply times_from_weaken; [|done]. lia.
  - constructor; [lia|done].
  - cbn [gcra_replies]. destruct (gcra_request _ _ _ _ _) as [reply c']. cbn [fst snd] in *. subst c'.
    rewrite admitted_cons. lia.
Qed.

Lemma key_requests_weaken k w w' n m : (m ≤ n)%nat → key_requests k w w' n → key_requests k w w' m.
Proof. intros Hm (ts & Hts & Hf & Hn). exists ts. split_and!; [done..|lia]. Qed.

(** What the key must hold at the start: nothing, or a number that is not absurd. *)
Definition sound (k : string) (w : World) : Prop :=
  (0 ≤ redis_time (redis w))%Z ∧ reasonable_key (redis_time (redis w)) (redis_key (redis w) k).

Lemma sound_quiet k w w1 : quiet w w1 → sound k w → sound k w1.
Proof. intros [Hk Ht] [H0 Hs]. split; [lia|]. rewrite Hk. by eapply reasonable_later. Qed.

(** The call to Redis leaves it so. *)
Lemma sound_asked k w r w1 :
  redis w1 = (asked r w).1 → (redis_time (redis w1) < 2 ^ 70)%Z → sound k w → sound k w1.
Proof.
  intros Hw1 Hmax [H0 Hs]. pose proof (gcra_Run_time (ctx_of r) (key_of r) rps period burst (redis w)) as Ht.
  rewrite <- Hw1 in Ht. split; [lia|].
  assert (∀ c, reasonable_key (redis_time (redis w)) c → reasonable_key (redis_time (redis w1)) c) as Hlater
    by (intros c; by apply reasonable_later).
  destruct (decide (k = key_of r)) as [->|Hk]; [|rewrite Hw1, gcra_Run_other by done; rewrite <- Hw1; by apply Hlater].
  assert (∀ t, (redis_time (redis w) ≤ t ≤ redis_time (redis w1))%Z →
    reasonable_key (redis_time (redis w1))
      (gcra_request rps (period_seconds period) burst t (redis_key (redis w) (key_of r))).2) as Hr.
  { intros t Htt. apply (reasonable_later t); [lia|]. apply request_reasonable; [done..|lia|].
    eapply reasonable_later; [|done]. lia. }
  destruct (asked r w).2 as [reply|e] eqn:E.
  - destruct (gcra_Run_ok _ _ _ _ _ _ _ E) as (t & Htt & Hg). rewrite <- Hw1 in Htt, Hg.
    specialize (Hr t Htt). by rewrite Hg in Hr.
  - destruct (gcra_Run_err _ _ _ _ _ _ _ E) as [Hg|(t & Htt & Hg)]; rewrite <- Hw1 in *.
    + rewrite Hg. by apply Hlater.
    + rewrite <- Hg. by apply Hr.
Qed.

Lemma sound_served k w r :
  (redis_time (redis (serve r w).1) < 2 ^ 70)%Z → sound k w → sound k (serve r w).1.
Proof.
  intros Hmax Hs. destruct (serve_asks r w) as (w1 & Hw1 & Hq). eapply sound_quiet; [done|].
  apply (sound_asked k w r); [done| |done]. destruct Hq. lia.
Qed.

Lemma served_key_requests k w r w2 n :
  let w' := (serve r w).1 in
  (redis_time (redis w') ≤ redis_time (redis w2) < 2 ^ 70)%Z → sound k w → key_requests k w' w2 n →
  (redis_reachable w r = true →
   key_requests k w w2
     ((if decide ((key_of r, (serve r w).2) = (k, true)) then 1 else 0) + n))
  ∧ key_requests k w w2 n.
Proof.
  intros w' Ht [H0 Hsound] Hn. destruct (serve_asks r w) as (w1 & Hw1 & Hq). fold w' in Hq.
  apply (key_requests_quiet k w1) in Hn; [|done].
  assert (redis_time (redis w1) ≤ redis_time (redis w2))%Z as Ht2 by (destruct Hq; lia).
  pose proof (gcra_Run_time (ctx_of r) (key_of r) rps period burst (redis w)) as Ht1.
  rewrite <- Hw1 in Ht1.
  destruct (decide (k = key_of r)) as [->|Hk].
  2: { assert (quiet_key : redis_key (redis w1) k = redis_key (redis w) k)
         by (rewrite Hw1; by apply gcra_Run_other).
       assert (key_requests k w w2 n) as Hn'.
       { destruct Hn as (ts & Hts & Hf & Hle). exists ts. rewrite <- quiet_key.
         split_and!; [by eapply times_from_weaken|done..]. }
       split; [|done]. intros _. rewrite decide_False by congruence. done. }
  destruct (gcra_Run (ctx_of r) (key_of r) rps period burst (redis w)).2 as [reply|e] eqn:E.
  - destruct (gcra_Run_ok _ _ _ _ _ _ _ E) as (t & Htt & Hg). rewrite <- Hw1 in Htt, Hg.
    pose proof (key_requests_step (key_of r) w w1 w2 t n Htt Ht2) as Hstep.
    assert (reasonable_key t (redis_key (redis w) (key_of r))) as Hkey
      by (eapply reasonable_later; [|done]; lia).
    pose proof (reply_spec rps burst period rps_ok burst_ok period_ok t _ ltac:(lia) Hkey) as Ha.
    rewrite Hg in Hstep, Ha. cbn [fst] in Ha. specialize (Hstep eq_refl Hn). split.
    + intros Hr. rewrite (serve_decides r w reply E). cbn [fst] in Hstep. rewrite <- Ha in Hstep.
      eapply key_requests_weaken; [|done].
      destruct (negb (0 <=? reply)%Z); destruct (decide _); simplify_eq; lia.
    + eapply key_requests_weaken; [|done]. lia.
  - split; [unfold redis_reachable; by rewrite E|].
    destruct (gcra_Run_err _ _ _ _ _ _ _ E) as [Hg|(t & Htt & Hg)]; rewrite <- Hw1 in *.
    + destruct Hn as (ts & Hts & Hf & Hle). exists ts. rewrite <- Hg.
      split_and!; [by eapply times_from_weaken|done..].
    + eapply key_requests_weaken; [|by apply (key_requests_step (key_of r) w w1 w2 t n)]. lia.
Qed.

Lemma served_time w r : (redis_time (redis w) ≤ redis_time (redis (serve r w).1))%Z.
Proof.
  destruct (serve_asks r w) as (w1 & Hw1 & [_ Hq]).
  pose proof (gcra_Run_time (ctx_of r) (key_of r) rps period burst (redis w)) as Ht.
  rewrite <- Hw1 in Ht. lia.
Qed.

Lemma traffic_time w log w2 :
  traffic w log w2 → (redis_time (redis w) ≤ redis_time (redis w2))%Z.
Proof.
  induction 1 as [w|w w1 log w2 [_ Hq] _ IH|w r log w2 _ _ IH|w r log w2 _ _ IH];
    [lia|lia|pose proof (served_time w r); lia..].
Qed.

Lemma traffic_key_requests k w log w2 :
  traffic w log w2 → (redis_time (redis w2) < 2 ^ 70)%Z → sound k w → key_requests k w w2 (passed k log).
Proof.
  induction 1 as [w|w w1 log w2 Hq Htr IH|w r log w2 Hr Htr IH|w r log w2 Hr Htr IH]; intros Hmax Hs.
  - exists []. split_and!; [done|constructor|done].
  - eapply key_requests_quiet; [done|]. apply IH; [done|by eapply sound_quiet].
  - apply traffic_time in Htr. eapply served_key_requests in Hr; [|done|done|apply IH; [done|by apply sound_served; [lia|]]].
    unfold passed. rewrite filter_cons. destruct (decide _); cbn in *; done.
  - apply traffic_time in Htr. eapply served_key_requests; [done|done|]. apply IH; [done|by apply sound_served; [lia|]].
Qed.

(** The number of requests on a key that reach the handler between two moments,
    or fewer. *)
Lemma window_enforced k n w log w2 :
  (n ≤ passed k log)%nat → traffic w log w2 → (redis_time (redis w2) < 2 ^ 70)%Z → sound k w →
  let T := T rps (period_exact period) in
  let t0 := redis_time (redis w) in
  let t1 := redis_time (redis w2) in
  (inject_Z (Z.of_nat n) * (T - margin rps burst period t1)
   <= (secs t1 - secs t0) + inject_Z burst * T + margin rps burst period t1)%Q.
Proof.
  intros Hle Htr Hmax Hs. pose proof (traffic_time _ _ _ Htr) as Ht. cbn zeta.
  destruct (traffic_key_requests k _ _ _ Htr Hmax Hs) as (ts & Hts & Hf & Hn). destruct Hs as [H0 Hkey].
  pose proof (float_window_bound rps burst period rps_ok burst_ok period_ok _ _ ts _ (conj H0 Ht) Hmax Hkey Hts Hf) as Hb.
  set (m := margin _ _ _ _) in *. set (e := T _ _) in *.
  destruct (Qlt_le_dec (e - m) 0) as [Hneg|Hpos].
  - (* a margin of more than the interval: the bound holds of any number *)
    assert (0 <= inject_Z (Z.of_nat n))%Q by (apply (inject_Z_le 0); lia).
    assert (inject_Z (Z.of_nat n) * (e - m) <= inject_Z (Z.of_nat n) * 0)%Q as H1
      by (rewrite !(Qmult_comm (inject_Z _)); apply Qmult_le_compat_r; lra).
    pose proof (secs_le _ _ Ht). pose proof (margin_nonneg rps burst period rps_ok burst_ok period_ok _ (Z.le_trans _ _ _ H0 Ht) Hmax) as Hm.
    destruct (B_bounds rps burst period rps_ok burst_ok period_ok) as [HB _]. fold e in HB. fold m in Hm. lra.
  - eapply Qle_trans; [|exact Hb]. apply Qmult_le_compat_r; [rewrite <- Zle_Qle; lia|done].
Qed.

End window.
