(* ===== verification/RateLimitFacts.v ===== *)
(** What the HTTP rate limiter guarantees: the rate each identity gets through
    it, its answers, and the fallback. *)

From Stdlib Require Import QArith Lqa SpecFloat.
From S2P Require Import Prelude GoErrors Contextx GoStrings Json Http Response Gcra GcraFacts Binary64 GcraFloat RateLimit RateWindow.

Open Scope string_scope.
Open Scope list_scope.

Section facts.
Context {W lim : Type} {GS : GcraService W} {XR : XRate lim}.
Abbreviation World := (rl_world lim W).
Implicit Types (next : Handler World) (r : Request) (h : hstate World) (w : World).

(** [w.Header().Set(k, v)] on a response. *)
Definition with_header (k v : string) (rs : response) : response :=
  mkResponse (Header_Set k v (resp_header rs)) (resp_sent rs) (resp_body rs).

(** The run of the handler when Redis answers. *)
Lemma handler_answered rps burst period next r h (w' : W) reply :
  (0 < rps)%Z → resp_sent (h_resp h) = None →
  gcra_Run (req_ctx r) (rate_key r) rps period burst (rl_rest (h_world h)) = (w', Ok reply) →
  let w1 := mkRL (limiterOnce (h_world h)) (emergencyLimiter (h_world h)) w' in
  ratelimit_handler rps burst period next r h =
    if (0 <=? reply)%Z then
      mkRun (mkH (error_response "Rate limit exceeded" 429
                    (with_header "X-RateLimit-Limit" (Itoa rps)
                       (with_header "Retry-After" (Itoa reply) (h_resp h))))
               ((λ _, 429%Z) <$> h_recorders h) w1) [] (Ret ())
    else next r (mkH (with_header "X-RateLimit-Limit" (Itoa rps) (h_resp h)) (h_recorders h) w1).
Proof.
  intros Hr Hs Hg. unfold ratelimit_handler. destruct (Z.leb_spec rps 0); [lia|].
  rewrite (on_world_run _ _ h (mkRL _ _ w') (Ok reply)) by (unfold run_gcra; by rewrite Hg).
  destruct (0 <=? reply)%Z; autorewrite with go_run; [|done].
  rewrite http_Error_run by done. done.
Qed.

(** The run of the handler when the call to Redis fails. *)
Lemma handler_fallback rps burst period next r h (w' : W) e l :
  (0 < rps)%Z → resp_sent (h_resp h) = None →
  gcra_Run (req_ctx r) (rate_key r) rps period burst (rl_rest (h_world h)) = (w', Err e) →
  emergencyLimiter (h_world h) = Some l →
  let w1 := mkRL (limiterOnce (h_world h)) (Some (Allow (wall_clock w') l).1) w' in
  ratelimit_handler rps burst period next r h =
    if (Allow (wall_clock w') l).2 then next r (mkH (h_resp h) (h_recorders h) w1)
    else mkRun (mkH (error_response "Service Unavailable (Rate Limit Fallback)" 503
                       (with_header "X-RateLimit-Fallback" "true" (h_resp h)))
                  ((λ _, 503%Z) <$> h_recorders h) w1) [] (Ret ()).
Proof.
  intros Hr Hs Hg Hl. unfold ratelimit_handler. destruct (Z.leb_spec rps 0); [lia|].
  rewrite (on_world_run _ _ h (mkRL _ _ w') (Err e)) by (unfold run_gcra; by rewrite Hg).
  unfold emergency_Allow. autorewrite with go_run. cbn [h_world emergencyLimiter]. rewrite Hl.
  destruct (Allow (wall_clock w') l) as [l' ok] eqn:E.
  rewrite (on_world_run _ _ _ (mkRL _ (Some l') w') ok) by (cbn [h_world rl_rest]; by rewrite E).
  destruct ok; cbn [negb fst snd]; [done|]. autorewrite with go_run.
  rewrite http_Error_run by done. done.
Qed.

(** ** The rate *)

Section rate.
Context {cell : Type} {RK : RedisKey spec_float cell} {RL : RedisKeyLaws spec_float cell}.
Context (redis_time : W → Z) (redis_key : W → string → cell).
Context {GL : GcraServiceLaws W cell redis_time redis_key}.
Context (rps burst period : Z) (next : Handler World).

(** The handler behind the limiter, with a mark on every call to it. *)
Definition marked : Handler World := λ r, emit (HCount ["next"]);; next r.
Definition limited : Handler World := ratelimit_handler rps burst period marked.

Definition reached (ρ : run (hstate World) hevent unit) : bool :=
  bool_decide (HCount ["next"] ∈ trace ρ).

(** A request with the status recorders in front of the limiter. *)
Definition serve_http (rq : Request * list Z) (w : World) : World * bool :=
  let ρ := limited rq.1 (mkH fresh_response rq.2 w) in (h_world (post ρ), reached ρ).

Abbreviation quiet := (quiet redis_time redis_key (rl_rest (lim := lim))).
Abbreviation sound := (sound redis_time redis_key (rl_rest (lim := lim))).
Abbreviation http_ctx := (λ rq : Request * list Z, req_ctx rq.1).
Abbreviation http_key := (λ rq : Request * list Z, rate_key rq.1).

(** Requests of any clients to the limiter, in some order (see [RateWindow.v]). *)
Definition http_traffic : World → list (string * bool) → World → Prop :=
  traffic redis_time redis_key rl_rest http_ctx http_key rps burst period serve_http.

Hypothesis rps_ok : (0 < rps < 2 ^ 52)%Z.
Hypothesis burst_ok : (0 ≤ burst ≤ 2 * rps)%Z.
Hypothesis period_ok : (0 < period < 2 ^ 63)%Z.
Hypothesis next_quiet : ∀ r h, quiet (h_world h) (h_world (post (next r h))).

Lemma marked_post r h : post (marked r h) = post (next r h).
Proof. unfold marked. go_unfold. by destruct (next r h) as [? ? []]. Qed.

Lemma marked_reached r h : reached (marked r h) = true.
Proof.
  apply bool_decide_eq_true. unfold marked. go_unfold. destruct (next r h) as [? ? []]; cbn;
    apply list_elem_of_here.
Qed.

(** In every case the limiter calls Redis once, and then at most the handler. *)
Lemma limited_world w r recs :
  ∃ w1, rl_rest w1 = (gcra_Run (req_ctx r) (rate_key r) rps period burst (rl_rest w)).1
    ∧ quiet w1 (h_world (post (limited r (mkH fresh_response recs w)))).
Proof.
  assert (∀ w1, quiet w1 w1) as Hq by (intros w1; split; [done|lia]).
  set (h := mkH fresh_response recs w). unfold limited.
  destruct (gcra_Run (req_ctx r) (rate_key r) rps period burst (rl_rest w)) as [w' [reply|e]] eqn:E.
  - rewrite (handler_answered rps burst period marked r h w' reply) by (done || apply rps_ok).
    eexists (mkRL _ _ w'). split; [done|].
    destruct (0 <=? reply)%Z; [apply Hq|]. rewrite marked_post.
    apply (next_quiet r (mkH _ _ _)).
  - destruct (emergencyLimiter w) as [l|] eqn:El.
    + rewrite (handler_fallback rps burst period marked r h w' e l) by (done || apply rps_ok).
      eexists (mkRL _ _ w'). split; [done|].
      destruct (Allow _ l).2; [|apply Hq]. rewrite marked_post. apply (next_quiet r (mkH _ _ _)).
    + eexists (mkRL _ _ w'). split; [done|]. unfold ratelimit_handler.
      destruct (Z.leb_spec rps 0); [lia|].
      rewrite (on_world_run _ _ h (mkRL _ _ w') (Err e)) by (unfold run_gcra, h; cbn [h_world]; by rewrite E).
      unfold emergency_Allow. autorewrite with go_run. cbn [h_world emergencyLimiter h].
      rewrite El. apply Hq.
Qed.

(** A request Redis answers is one request on its key, and reaches the handler
    exactly when the script admits it. *)
Lemma limited_reached w r recs reply :
  (gcra_Run (req_ctx r) (rate_key r) rps period burst (rl_rest w)).2 = Ok reply →
  reached (limited r (mkH fresh_response recs w)) = negb (0 <=? reply)%Z.
Proof.
  intros H. set (h := mkH fresh_response recs w).
  destruct (gcra_Run (req_ctx r) (rate_key r) rps period burst (rl_rest w)) as [w' res] eqn:E.
  cbn in H. subst res. unfold limited.
  rewrite (handler_answered rps burst period marked r h w' reply) by (done || apply rps_ok).
  destruct (0 <=? reply)%Z; [by apply bool_decide_eq_false, not_elem_of_nil|apply marked_reached].
Qed.

(** The emission interval, and the margin of the rounding. *)
Abbreviation T := (T rps (period_exact period)).
Abbreviation margin := (margin rps burst period).

Lemma http_window k n w log w2 :
  (n ≤ passed k log)%nat → http_traffic w log w2 → (redis_time (rl_rest w2) < 2 ^ 70)%Z → sound k w →
  let t0 := redis_time (rl_rest w) in
  let t1 := redis_time (rl_rest w2) in
  (inject_Z (Z.of_nat n) * (T - margin t1)
   <= (secs t1 - secs t0) + inject_Z burst * T + margin t1)%Q.
Proof.
  intros Hle Htr Hmax Hs.
  eapply (window_enforced redis_time redis_key rl_rest); [done..| | |exact Hle|exact Htr|exact Hmax|exact Hs].
  - intros [r recs] w'. apply limited_world.
  - intros [r recs] w' reply. apply limited_reached.
Qed.

(** C4: Whatever the clients send and however the requests of all identities
    interleave, the number of requests of one identity that Redis lets through to
    the handler between two moments, times the emission interval less a rounding
    margin, is at most the elapsed time plus the burst's emission intervals plus the
    margin. Redis runs the script in binary64; the margin is 2^-50 of the time of
    day and of eight times the burst's time and the period (about two microseconds
    today). It holds for rates below 2^52, bursts of at most twice the rate, periods
    of a time.Duration, a Redis clock below 2^70 microseconds, and a key that at the
    start holds nothing or a number of at most 2^60; calls to Redis that fail, and
    may or may not have run the script, are allowed for. *)
Theorem rate_limit_enforced k w log w2 :
  http_traffic w log w2 → (redis_time (rl_rest w2) < 2 ^ 70)%Z → sound k w →
  let t0 := redis_time (rl_rest w) in
  let t1 := redis_time (rl_rest w2) in
  (inject_Z (Z.of_nat (passed k log)) * (T - margin t1)
   <= (secs t1 - secs t0) + inject_Z burst * T + margin t1)%Q.
Proof. by apply http_window. Qed.

(** A later request on a key that still holds what it held when a request was refused. *)
Lemma retry_answer r t c reply r2 (w2 w3 : W) reply2 :
  gcra_request rps (period_seconds period) burst t c = (reply, c) → (0 ≤ reply)%Z → reasonable_key t c →
  gcra_Run (req_ctx r2) (rate_key r) rps period burst w2 = (w3, Ok reply2) →
  redis_key w2 (rate_key r) = c → (0 ≤ t ≤ redis_time w2)%Z → (redis_time w3 < 2 ^ 70)%Z → (2 ≤ burst)%Z →
  (margin (redis_time w3) <= T)%Q →
  (secs t + inject_Z reply + 2 * margin (redis_time w3) <= secs (redis_time w2))%Q →
  reply2 = (-1)%Z.
Proof.
  intros Hr Hr0 Hc Hg Hkey Ht Hmax Hb HmT Hwait.
  destruct (gcra_Run_ok (req_ctx r2) (rate_key r) rps period burst w2 reply2) as (t2 & Ht2 & Hreq2);
    [by rewrite Hg|].
  rewrite Hg in Ht2, Hreq2. cbn [fst] in Ht2, Hreq2. rewrite Hkey in Hreq2.
  pose proof (margin_le rps burst period t2 (redis_time w3) ltac:(lia)) as Hm.
  pose proof (secs_le _ _ (proj1 Ht2)) as Hs2.
  assert (0 <= inject_Z reply)%Q as Hr0' by by apply (inject_Z_le 0).
  destruct (float_retry rps burst period rps_ok burst_ok period_ok t t2 c reply) as [H1 _]; try done; [lra|lia|lia|lra|].
  by rewrite Hreq2 in H1.
Qed.

(** C25: A request the limiter refuses is answered 429 with a Retry-After of at
    least one second, without a call of the handler and with its key left as it was;
    a request of the same identity that Redis answers at least that many seconds and
    two rounding margins later reaches the handler, if the key still holds what it
    held, that is, no other request was charged to it in between. Redis runs the
    script in binary64, the burst is at least two and the emission interval at least
    the margin (under the bounds of rate_limit_enforced). *)
Theorem refused_request_can_retry r h reply :
  let k := rate_key r in
  let ρ := ratelimit_handler rps burst period next r h in
  let after := rl_rest (h_world (post ρ)) in
  (2 ≤ burst)%Z → sound k (h_world h) → (redis_time after < 2 ^ 70)%Z → resp_sent (h_resp h) = None →
  (gcra_Run (req_ctx r) k rps period burst (rl_rest (h_world h))).2 = Ok reply → (0 ≤ reply)%Z →
  (out ρ = Ret () ∧ trace ρ = []
   ∧ resp_status (h_resp (post ρ)) = Some 429%Z
   ∧ Header_Get (resp_header (h_resp (post ρ))) "Retry-After" = Itoa reply
   ∧ (1 ≤ reply)%Z
   ∧ redis_key after k = redis_key (rl_rest (h_world h)) k)
  ∧ ∀ r2 h2 (rest2 : W) reply2,
      rate_key r2 = k → resp_sent (h_resp h2) = None →
      redis_key (rl_rest (h_world h2)) k = redis_key after k →
      gcra_Run (req_ctx r2) k rps period burst (rl_rest (h_world h2)) = (rest2, Ok reply2) →
      (redis_time after ≤ redis_time (rl_rest (h_world h2)))%Z → (redis_time rest2 < 2 ^ 70)%Z →
      (margin (redis_time rest2) <= T)%Q →
      (secs (redis_time after) + inject_Z reply + 2 * margin (redis_time rest2)
       <= secs (redis_time (rl_rest (h_world h2))))%Q →
      ratelimit_handler rps burst period next r2 h2
      = next r2 (mkH (with_header "X-RateLimit-Limit" (Itoa rps) (h_resp h2)) (h_recorders h2)
                   (mkRL (limiterOnce (h_world h2)) (emergencyLimiter (h_world h2)) rest2)).
Proof.
  cbn zeta. intros Hb [H0 Hkey] Hmax Hs Hg Hpos.
  destruct (gcra_Run_ok _ _ _ _ _ _ _ Hg) as (t & Ht & Hreq).
  destruct (gcra_Run (req_ctx r) (rate_key r) rps period burst (rl_rest (h_world h))) as [w' res] eqn:E.
  cbn [fst snd] in *. subst res.
  assert (ratelimit_handler rps burst period next r h = _) as Hrun
    by (apply (handler_answered rps burst period next r h w' reply); [lia|done..]).
  destruct (Z.leb_spec 0 reply) as [_|]; [|lia]. rewrite Hrun in Hmax |- *.
  cbn [post trace out h_resp h_world rl_rest] in *.
  pose proof (refused_unchanged _ _ _ _ _ _ _ Hreq Hpos) as Hsame. rewrite Hsame in Hreq |- *.
  assert (reasonable_key t (redis_key (rl_rest (h_world h)) (rate_key r))) as Hkt
    by (eapply reasonable_later; [|done]; lia).
  split.
  - split_and!; [done..| | |done].
    + rewrite error_response_header by by_compute. unfold with_header. cbn [resp_header].
      rewrite Header_Get_Set_ne by by_compute. apply Header_Get_Set.
    + by apply (refused_reply rps burst period rps_ok burst_ok period_ok t _ reply ltac:(lia) Hkt Hreq).
  - intros r2 h2 rest2 reply2 Hr2 Hs2 Hk2 Hg2 Hlater Hmax3 HmT Hwait. pose proof (secs_le _ _ (proj2 Ht)).
    assert (reply2 = (-1)%Z) as ->.
    { eapply (retry_answer r t _ reply r2); [exact Hreq|done|done|exact Hg2|exact Hk2|lia|done|done|done|lra]. }
    rewrite <- Hr2 in Hg2. exact (handler_answered rps burst period next r2 h2 rest2 (-1) (proj1 rps_ok) Hs2 Hg2).
Qed.

End rate.

(** ** The fallback *)

(** The limiters made one after the other, in a process that has made none. *)
Fixpoint make_limiters (cfgs : list (Z * Z)) (w : World) : World :=
  match cfgs with
  | [] => w
  | (rps, burst) :: cfgs => make_limiters cfgs (RateLimitMiddleware rps burst 0 w).1
  end.

Lemma make_limiters_once cfgs : ∀ w, limiterOnce w = true → make_limiters cfgs w = w.
Proof.
  induction cfgs as [|[rps burst] cfgs IH]; intros w H; [done|]. cbn.
  unfold init_emergency. rewrite H. by apply IH.
Qed.

Lemma first_limiter rps burst cfgs (w : World) :
  limiterOnce w = false →
  make_limiters ((rps, burst) :: cfgs) w
  = mkRL true (Some (NewLimiter (wrap64 (rps * 2)) (wrap64 (burst * 2)))) (rl_rest w).
Proof. intros H. cbn. unfold init_emergency. rewrite H. by apply make_limiters_once. Qed.

(** C34: When Redis fails, a request is decided by the process-wide token bucket
    made by the first RateLimitMiddleware call of the process, with twice that
    call's rate and burst whatever the limiter at hand is configured with: it is
    passed to the handler, or answered 503 with X-RateLimit-Fallback. *)
Theorem fallback_uses_first_limiter rps0 burst0 cfgs rps burst period next r w (w' : W) e recs :
  limiterOnce w = false → (0 < rps)%Z →
  gcra_Run (req_ctx r) (rate_key r) rps period burst (rl_rest w) = (w', Err e) →
  let l := NewLimiter (wrap64 (rps0 * 2)) (wrap64 (burst0 * 2)) in
  let h := mkH fresh_response recs (make_limiters ((rps0, burst0) :: cfgs) w) in
  let ρ := ratelimit_handler rps burst period next r h in
  if (Allow (wall_clock w') l).2
  then ρ = next r (mkH fresh_response recs (mkRL true (Some (Allow (wall_clock w') l).1) w'))
  else out ρ = Ret () ∧ trace ρ = []
       ∧ finish (h_resp (post ρ)) = (503%Z, resp_header (h_resp (post ρ)),
                                     "Service Unavailable (Rate Limit Fallback)" +:+ newline)
       ∧ Header_Get (resp_header (h_resp (post ρ))) "X-RateLimit-Fallback" = "true".
Proof.
  intros Ho Hr Hg. cbn zeta. rewrite first_limiter by done.
  rewrite (handler_fallback rps burst period next r
    (mkH fresh_response recs (mkRL true (Some _) (rl_rest w))) w' e _ Hr eq_refl Hg eq_refl).
  destruct (Allow _ _).2; [done|]. cbn [post trace out h_resp].
  split_and!; [done..|vm_compute; reflexivity].
Qed.

(** When the first limiter of the process has burst 0, every limiter refuses every
    request while Redis is down. *)
Theorem disabled_limiter_blocks_fallback (exhausted : lim → Prop) {XL : XRateLaws lim exhausted}
    rps0 cfgs rps burst period next r w (w' : W) e recs :
  limiterOnce w = false → (0 < rps)%Z →
  gcra_Run (req_ctx r) (rate_key r) rps period burst (rl_rest w) = (w', Err e) →
  let h := mkH fresh_response recs (make_limiters ((rps0, 0%Z) :: cfgs) w) in
  let ρ := ratelimit_handler rps burst period next r h in
  resp_status (h_resp (post ρ)) = Some 503%Z ∧ trace ρ = []
  ∧ ∃ l, emergencyLimiter (h_world (post ρ)) = Some l ∧ exhausted l.
Proof.
  intros Ho Hr Hg. cbn zeta. rewrite first_limiter by done.
  rewrite (handler_fallback rps burst period next r
    (mkH fresh_response recs (mkRL true (Some _) (rl_rest w))) w' e _ Hr eq_refl Hg eq_refl).
  change (wrap64 (0 * 2)) with 0%Z.
  destruct (Allow_exhausted (wall_clock w') (NewLimiter (wrap64 (rps0 * 2)) 0)) as [-> He];
    [apply NewLimiter_zero_burst|].
  cbn. split_and!; [done..|]. by eexists.
Qed.

End facts.
