(* ===== verification/Idempotency.v ===== *)
(** [server/middleware/idempotency.go]: the gate that lets one request per
    idempotency key through, with a lock in Redis that expires. *)

From S2P Require Import Prelude GoErrors Contextx GoStrings Json Http Response.

Open Scope string_scope.
Open Scope list_scope.

(** ** The lock *)

(** [client.SetNX(ctx, key, value, expiry).Result()] *)
Class SetNXService (W : Type) : Type := {
  SetNX : context → string → string → Z → W → W * result bool error;
}.

(** The key is there from [t] until the expiry has passed, whatever was there before. *)
Definition locked_from {W} (locked : W → string → Z → bool) (w : W) (k : string) (t expiry : Z) : Prop :=
  ∀ t', (t ≤ t')%Z → locked w k t' = (t' <? t + expiry)%Z.

Definition lock_kept {W} (locked : W → string → Z → bool) (w w' : W) (k : string) (t : Z) : Prop :=
  ∀ t', (t ≤ t')%Z → locked w' k t' = locked w k t'.

(** Redis's documentation of [SET ... NX PX]: at one moment of the call the key
    is tested and, if it does not exist, set until it expires. [locked w k t]
    says whether the key exists at time [t] (in nanoseconds) when nobody
    writes it in between; expiries are whole milliseconds. A call that fails may have
    been executed. *)
Class SetNXLaws (W : Type) `{!SetNXService W} (redis_now : W → Z) (locked : W → string → Z → bool) :
    Prop := {
  locked_antitone w k t t' : (t ≤ t')%Z → locked w k t' = true → locked w k t = true;
  SetNX_time ctx k v expiry w : (redis_now w ≤ redis_now (SetNX ctx k v expiry w).1)%Z;
  SetNX_other ctx k v expiry w k' t :
    k' ≠ k → locked (SetNX ctx k v expiry w).1 k' t = locked w k' t;
  SetNX_set ctx k v expiry w :
    (0 < expiry)%Z → (expiry mod Millisecond = 0)%Z → (SetNX ctx k v expiry w).2 = Ok true →
    ∃ t, (redis_now w ≤ t ≤ redis_now (SetNX ctx k v expiry w).1)%Z
      ∧ locked w k t = false ∧ locked_from locked (SetNX ctx k v expiry w).1 k t expiry;
  SetNX_exists ctx k v expiry w :
    (0 < expiry)%Z → (expiry mod Millisecond = 0)%Z → (SetNX ctx k v expiry w).2 = Ok false →
    ∃ t, (redis_now w ≤ t ≤ redis_now (SetNX ctx k v expiry w).1)%Z
      ∧ locked w k t = true ∧ lock_kept locked w (SetNX ctx k v expiry w).1 k t;
  SetNX_failed ctx k v expiry w e :
    (0 < expiry)%Z → (expiry mod Millisecond = 0)%Z → (SetNX ctx k v expiry w).2 = Err e →
    ∃ t, (redis_now w ≤ t ≤ redis_now (SetNX ctx k v expiry w).1)%Z
      ∧ (lock_kept locked w (SetNX ctx k v expiry w).1 k t
         ∨ locked w k t = false ∧ locked_from locked (SetNX ctx k v expiry w).1 k t expiry);
}.

(** ** The middleware *)

(** [RedisClient] and [Logger] are the world's service and the event trace. *)
Record IdempotencyConfig : Type := mkIdempotencyConfig {
  HeaderKey : string;
  Expiry : Z;
  FailOpen : bool;
}.

Section middleware.
Context {W : Type} {SN : SetNXService W}.
Implicit Types (cfg : IdempotencyConfig) (r : Request).

Definition idem_key cfg r : string := Header_Get (req_header r) (HeaderKey cfg).
Definition redis_idem_key cfg r : string := "idempotency:" +:+ idem_key cfg r.

(** Why a request is let through, or that it is not. *)
Inductive admission : Type := NoKey | Acquired | FailedOpen | Refused.

Definition lets_through (a : admission) : bool :=
  match a with Refused => false | _ => true end.

(** The code up to the call of the next handler. *)
Definition idem_gate cfg r : HandlerM W admission :=
  let key := idem_key cfg r in
  if bool_decide (key = "") then mret NoKey
  else
    res ← on_world (SetNX (req_ctx r) (redis_idem_key cfg r) "locked" (Expiry cfg));
    match res with
    | Err err =>
        emit (HLog "ERROR" "idempotency: redis unreachable"
          [("error", AOther (error_text err)); ("key", AString key);
           ("strategy", AString (if FailOpen cfg then "fail_open" else "fail_closed"))]);;
        if FailOpen cfg then
          emit (HLog "WARN" "idempotency: bypassed check due to redis failure" [("key", AString key)]);;
          mret FailedOpen
        else
          http_Error "Idempotency check service unavailable" StatusServiceUnavailable;;
          mret Refused
    | Ok success =>
        if negb success then
          emit (HLog "WARN" "idempotency: conflict detected"
            [("key", AString key); ("ip", AString (req_remoteAddr r))]);;
          header_Set "Retry-After" "5";;
          http_Error "Duplicate request detected" StatusConflict;;
          mret Refused
        else mret Acquired
    end.

(** The handler returns after [next.ServeHTTP] without touching the lock. *)
Definition IdempotencyMiddleware cfg (next : Handler W) : Handler W := λ r,
  a ← idem_gate cfg r;
  if lets_through a then next r else mret ().

(** The runs of the gate. *)
Lemma gate_run cfg r (h : hstate W) w' res :
  idem_key cfg r ≠ "" → resp_sent (h_resp h) = None →
  SetNX (req_ctx r) (redis_idem_key cfg r) "locked" (Expiry cfg) (h_world h) = (w', res) →
  let ρ := idem_gate cfg r h in
  h_world (post ρ) = w' ∧
  match res with
  | Ok true => ρ = mkRun (mkH (h_resp h) (h_recorders h) w') [] (Ret Acquired)
  | Ok false =>
      out ρ = Ret Refused
      ∧ h_resp (post ρ) = error_response "Duplicate request detected" 409
          (mkResponse (Header_Set "Retry-After" "5" (resp_header (h_resp h))) None (resp_body (h_resp h)))
  | Err _ =>
      if FailOpen cfg then out ρ = Ret FailedOpen ∧ h_resp (post ρ) = h_resp h
      else out ρ = Ret Refused
           ∧ h_resp (post ρ) = error_response "Idempotency check service unavailable" 503 (h_resp h)
  end.
Proof.
  intros Hk Hs Hg ρ. subst ρ. unfold idem_gate. rewrite bool_decide_eq_false_2 by done.
  rewrite (on_world_run _ _ _ _ _ Hg). destruct res as [[|]|e]; cbn [negb]; [done|..].
  - unfold header_Set. autorewrite with go_run.
    erewrite run_bind by (apply http_Error_run; cbn; done).
    unfold on_resp. cbn [h_resp h_recorders h_world]. rewrite Hs. done.
  - autorewrite with go_run. destruct (FailOpen cfg); autorewrite with go_run; [done|].
    erewrite run_bind by (apply http_Error_run; cbn; done). done.
Qed.

(** A request with an idempotency key reaches the handler when the lock is acquired,
    or on a Redis failure with FailOpen; it is answered 409 with Retry-After 5 when
    the key exists, and 503 on a Redis failure without FailOpen. *)
Theorem idempotency_responses cfg next r (h : hstate W) w' res :
  idem_key cfg r ≠ "" → resp_sent (h_resp h) = None →
  SetNX (req_ctx r) (redis_idem_key cfg r) "locked" (Expiry cfg) (h_world h) = (w', res) →
  let ρ := IdempotencyMiddleware cfg next r h in
  let served := next r (mkH (h_resp h) (h_recorders h) w') in
  match res with
  | Ok true => ρ = served
  | Ok false =>
      out ρ = Ret () ∧ h_world (post ρ) = w' ∧ resp_status (h_resp (post ρ)) = Some 409%Z
      ∧ Header_Get (resp_header (h_resp (post ρ))) "Retry-After" = "5"
  | Err _ =>
      if FailOpen cfg then post ρ = post served ∧ out ρ = out served
      else out ρ = Ret () ∧ h_world (post ρ) = w' ∧ resp_status (h_resp (post ρ)) = Some 503%Z
  end.
Proof.
  intros Hk Hs Hg ρ served. destruct (gate_run cfg r h w' res Hk Hs Hg) as [Hw Hres].
  subst ρ. unfold IdempotencyMiddleware.
  destruct (idem_gate cfg r h) as [[resp recs w1] tr o] eqn:E. cbn in Hw. subst w1.
  destruct res as [[|]|e]; [|cbn in Hres..].
  - injection Hres as -> -> -> ->. by rewrite (run_bind _ _ _ _ _ _ E), after_nil.
  - destruct Hres as [-> ->]. rewrite (run_bind _ _ _ _ _ _ E). cbn [lets_through].
    split_and!; [done..|]. cbn [after post h_resp mret go_ret].
    rewrite error_response_header by by_compute. apply Header_Get_Set.
  - destruct (FailOpen cfg) eqn:Ef; destruct Hres as [-> ->]; rewrite (run_bind _ _ _ _ _ _ E);
      cbn [lets_through]; [|done].
    assert (recs = h_recorders h) as ->; [|done].
    unfold idem_gate in E. rewrite bool_decide_eq_false_2 in E by done.
    rewrite (on_world_run _ _ _ _ _ Hg) in E. autorewrite with go_run in E. rewrite Ef in E.
    autorewrite with go_run in E. by injection E.
Qed.

End middleware.

(** ** Concurrent requests *)

(** Requests of one service, interleaved: each one passes the gate at once and
    then, if it is let through, runs until it finishes. The
    state has the world, the requests that have acquired the lock of their key,
    latest first, with Redis's time before and after the gate, and those of them
    that are still being processed. *)

Section requests.
Context {W : Type} {SN : SetNXService W}.
Context (redis_now : W → Z) (locked : W → string → Z → bool).
Context {SL : SetNXLaws W redis_now locked}.
Context (cfg : IdempotencyConfig).

Record idem_sys : Type := mkSys {
  sys_world : W;
  sys_acquired : list (string * (Z * Z));
  sys_running : list (string * (Z * Z));
}.

(** The times before and after the gate of a request. *)
Definition gate_times (w w' : W) : Z * Z := (redis_now w, redis_now w').

Inductive idem_step : idem_sys → idem_sys → Prop :=
| idem_acquire w acq run r recs ρ :
    idem_gate cfg r (mkH fresh_response recs w) = ρ → out ρ = Ret Acquired →
    idem_step (mkSys w acq run)
      (let e := (redis_idem_key cfg r, gate_times w (h_world (post ρ))) in
       mkSys (h_world (post ρ)) (e :: acq) (e :: run))
| idem_not_acquired w acq run r recs ρ :
    idem_gate cfg r (mkH fresh_response recs w) = ρ → out ρ ≠ Ret Acquired →
    idem_step (mkSys w acq run) (mkSys (h_world (post ρ)) acq run)
| idem_finish w acq run1 e run2 :
    idem_step (mkSys w acq (run1 ++ e :: run2)) (mkSys w acq (run1 ++ run2))
| idem_elsewhere w w' acq run :
    (redis_now w ≤ redis_now w')%Z → (∀ k t, locked w' k t = locked w k t) →
    idem_step (mkSys w acq run) (mkSys w' acq run).

Definition idem_init (w : W) : idem_sys := mkSys w [] [].

(** Of any two requests that acquired the lock of one key, the later one got
    through the gate no earlier than the expiry after the earlier one came to it. *)
Inductive spaced : list (string * (Z * Z)) → Prop :=
| spaced_nil : spaced []
| spaced_cons k b e acq :
    (∀ b0 e0, (k, (b0, e0)) ∈ acq → b0 + Expiry cfg ≤ e)%Z → spaced acq → spaced ((k, (b, e)) :: acq).

Definition idem_inv (s : idem_sys) : Prop :=
  spaced (sys_acquired s)
  ∧ (∀ k b e, (k, (b, e)) ∈ sys_acquired s →
       (e ≤ redis_now (sys_world s))%Z
       ∧ ∀ t, (redis_now (sys_world s) ≤ t < b + Expiry cfg)%Z → locked (sys_world s) k t = true)
  ∧ sublist (sys_running s) (sys_acquired s).

Hypothesis expiry_pos : (0 < Expiry cfg)%Z.
Hypothesis expiry_ms : (Expiry cfg mod Millisecond = 0)%Z.

(** A lock is acquired at a moment Redis finds the key free and sets it. *)
Definition acquired_at (w w' : W) (k : string) (t : Z) : Prop :=
  (redis_now w ≤ t ≤ redis_now w')%Z ∧ locked w k t = false ∧ locked_from locked w' k t (Expiry cfg).

(** What the gate does to the locks. *)
Lemma gate_locks r recs w :
  let ρ := idem_gate cfg r (mkH fresh_response recs w) in
  let w' := h_world (post ρ) in
  (redis_now w ≤ redis_now w')%Z
  ∧ (out ρ = Ret Acquired → ∃ t, acquired_at w w' (redis_idem_key cfg r) t)
  ∧ ∀ k t, (redis_now w' ≤ t)%Z → locked w k t = true → locked w' k t = true.
Proof.
  cbn zeta. set (h := mkH fresh_response recs w).
  destruct (decide (idem_key cfg r = "")) as [He|He].
  { unfold idem_gate. rewrite bool_decide_eq_true_2 by done. cbn. split_and!; [lia|done|auto]. }
  destruct (SetNX (req_ctx r) (redis_idem_key cfg r) "locked" (Expiry cfg) w) as [w' res] eqn:E.
  destruct (gate_run cfg r h w' res He eq_refl E) as [Hw Hres]. rewrite Hw.
  pose proof (SetNX_time (req_ctx r) (redis_idem_key cfg r) "locked" (Expiry cfg) w) as Ht.
  assert (∀ k t, k ≠ redis_idem_key cfg r → locked w' k t = locked w k t) as Hother.
  { intros k t Hk. pose proof (SetNX_other (req_ctx r) (redis_idem_key cfg r) "locked" (Expiry cfg)
      w k t Hk) as H. by rewrite E in H. }
  rewrite E in Ht. cbn [fst] in Ht. split; [done|].
  destruct res as [[|]|e].
  - destruct (SetNX_set (req_ctx r) (redis_idem_key cfg r) "locked" (Expiry cfg) w) as (t & Htt & Hf & Hl);
      [done..|by rewrite E|]. rewrite E in Htt, Hl. cbn [fst] in *. split; [by exists t|].
    intros k t' Ht' Hk. destruct (decide (k = redis_idem_key cfg r)) as [->|]; [|by rewrite Hother].
    destruct (decide (t' < t + Expiry cfg)%Z) as [|].
    + rewrite Hl by lia. by apply Z.ltb_lt.
    + exfalso. apply (locked_antitone _ _ t) in Hk; [congruence|lia].
  - destruct (SetNX_exists (req_ctx r) (redis_idem_key cfg r) "locked" (Expiry cfg) w)
      as (t & Htt & Hf & Hl); [done..|by rewrite E|]. rewrite E in Htt, Hl. cbn [fst] in *.
    split; [destruct Hres as [-> _]; done|].
    intros k t' Ht' Hk. destruct (decide (k = redis_idem_key cfg r)) as [->|]; [|by rewrite Hother].
    rewrite Hl by lia. done.
  - destruct (SetNX_failed (req_ctx r) (redis_idem_key cfg r) "locked" (Expiry cfg) w e)
      as (t & Htt & Hl); [done..|by rewrite E|]. rewrite E in Htt, Hl. cbn [fst] in *.
    split; [destruct (FailOpen cfg); destruct Hres as [-> _]; done|].
    intros k t' Ht' Hk. destruct (decide (k = redis_idem_key cfg r)) as [->|]; [|by rewrite Hother].
    destruct Hl as [Hl|[Hf Hl]]; [rewrite Hl by lia; done|].
    exfalso. apply (locked_antitone _ _ t) in Hk; [congruence|lia].
Qed.

Lemma idem_inv_step s s' : idem_inv s → idem_step s s' → idem_inv s'.
Proof.
  intros (Hsp & Hlk & Hrun) Hstep.
  destruct Hstep as [w acq run r recs ρ <- Hout|w acq run r recs ρ <- Hout
                    |w acq run1 e run2|w w' acq run Ht Hk]; unfold idem_inv, gate_times; cbn in *.
  - destruct (gate_locks r recs w) as (Ht & Hacq & Hkeep).
    destruct (Hacq Hout) as (t & Htt & Hfree & Hfrom).
    split_and!; [constructor; [|done]| |by constructor].
    + intros b0 e0 H0. apply Z.nlt_ge. intros Hlt. destruct (Hlk _ _ _ H0) as [_ Hl].
      rewrite Hl in Hfree by lia. done.
    + intros k b e Hin. apply elem_of_cons in Hin as [[= -> -> ->]|Hin].
      * split; [lia|]. intros t' Ht'. rewrite Hfrom by lia. apply Z.ltb_lt. lia.
      * destruct (Hlk _ _ _ Hin) as [H0 Hl]. split; [lia|]. intros t' Ht'.
        apply Hkeep; [lia|]. apply Hl. lia.
  - destruct (gate_locks r recs w) as (Ht & _ & Hkeep). split_and!; [done| |done].
    intros k b e Hin. destruct (Hlk _ _ _ Hin) as [H0 Hl]. split; [lia|]. intros t' Ht'.
    apply Hkeep; [lia|]. apply Hl. lia.
  - split_and!; [done..|]. etrans; [|done]. apply sublist_app; [done|by constructor].
  - split_and!; [done| |done]. intros k b e Hin. destruct (Hlk _ _ _ Hin) as [H0 Hl].
    split; [lia|]. intros t' Ht'. rewrite Hk. apply Hl. lia.
Qed.

Lemma idem_inv_reachable w s : rtc idem_step (idem_init w) s → idem_inv s.
Proof.
  intros H. apply (rtc_ind_r (λ s, idem_inv s) (idem_init w)) in H; [done| |].
  - split_and!; [constructor|by intros ??? ?%not_elem_of_nil|done].
  - intros s1 s2 _ Hs Hi. by eapply idem_inv_step.
Qed.

(** C16: In every interleaving of requests, with Redis failures and whatever the
    handlers do, and for an expiry that is a positive whole number of milliseconds,
    the later of two requests that acquired the lock of one idempotency key leaves
    the gate no earlier than the configured expiry after the earlier one came to it.
    *)
Theorem idempotency_locks_spaced w s i j k bi ei bj ej :
  rtc idem_step (idem_init w) s →
  sys_acquired s !! i = Some (k, (bi, ei)) → sys_acquired s !! j = Some (k, (bj, ej)) → (i < j)%nat →
  (bj + Expiry cfg ≤ ei)%Z.
Proof.
  intros (Hsp & _ & _)%idem_inv_reachable. generalize dependent i. generalize dependent j.
  induction Hsp as [|k' b e acq Hsp _ IH]; intros j i Hi Hj Hlt; [done|].
  destruct j as [|j]; [lia|]. cbn in Hj. destruct i as [|i]; cbn in Hi.
  - simplify_eq. eapply Hsp. by eapply list_elem_of_lookup_2.
  - apply (IH j i); [done..|lia].
Qed.

Lemma spaced_distinct acq run now :
  spaced acq → sublist run acq →
  (∀ k b e, (k, (b, e)) ∈ acq → (e ≤ now)%Z) →
  (∀ k b e, (k, (b, e)) ∈ run → (now < b + Expiry cfg)%Z) →
  NoDup run.*1.
Proof.
  intros Hsp Hsub. revert Hsp.
  induction Hsub as [|[k [b e]] run acq Hsub IH|[k [b e]] run acq Hsub IH]; intros Hsp Hle Hlt;
    [constructor|..]; inversion Hsp as [|k1 b1 e1 acq1 Hearlier Hsp1]; subst.
  - cbn. constructor.
    + intros ([k' [b0 e0]] & -> & Hin)%list_elem_of_fmap. cbn in *.
      assert (e ≤ now)%Z by (apply (Hle k' b); left).
      assert (b0 + Expiry cfg ≤ e)%Z by (apply (Hearlier b0 e0); by eapply elem_of_sublist).
      assert (now < b0 + Expiry cfg)%Z by (apply (Hlt k' b0 e0); by right). lia.
    + apply IH; [done|..]; intros k' b' e' Hin; [apply (Hle k' b')|apply (Hlt k' b' e')]; by right.
  - apply IH; [done..| |done]. intros k' b' e' Hin. apply (Hle k' b'). by right.
Qed.

(** C7: In every interleaving of requests, for an expiry that is a positive whole
    number of milliseconds and as long as no handler has run longer than the expiry
    of its lock, no two requests that acquired the lock of the same idempotency key
    are being processed at the same time. *)
Theorem idempotency_excludes w s :
  rtc idem_step (idem_init w) s →
  (∀ k b e, (k, (b, e)) ∈ sys_running s → (redis_now (sys_world s) < b + Expiry cfg)%Z) →
  NoDup (sys_running s).*1.
Proof.
  intros (Hsp & Hlk & Hrun)%idem_inv_reachable Htimely.
  eapply spaced_distinct; [done..| |done]. intros k b e Hin. by apply Hlk in Hin as [? _].
Qed.

End requests.

(** ** A Redis to run it in *)

(** The time in nanoseconds and the expiry of every key. *)
Record lock_sim : Type := mkLocks { sim_reachable : bool; sim_now : Z; sim_expiry : gmap string Z }.

Definition sim_locked (w : lock_sim) (k : string) (t : Z) : bool :=
  match sim_expiry w !! k with Some e => (t <? e)%Z | None => false end.

#[export] Instance sim_setnx : SetNXService lock_sim := {
  SetNX _ k _ expiry w :=
    if negb (sim_reachable w) then (w, Err (NewError "redis: connection refused"))
    else if sim_locked w k (sim_now w) then (w, Ok false)
    else (mkLocks true (sim_now w) (<[k := (sim_now w + expiry)%Z]> (sim_expiry w)), Ok true);
}.

#[export] Instance sim_setnx_laws : SetNXLaws lock_sim sim_now sim_locked.
Proof.
  split; cbn.
  - intros w k t t' Ht. unfold sim_locked. destruct (sim_expiry w !! k); [|done].
    intros ?%Z.ltb_lt. apply Z.ltb_lt. lia.
  - intros ctx k v expiry w. destruct (sim_reachable w), (sim_locked w k (sim_now w)); cbn; lia.
  - intros ctx k v expiry w k' t Hk.
    destruct (sim_reachable w), (sim_locked w k (sim_now w)); cbn; try done.
    unfold sim_locked. cbn. by rewrite lookup_insert_ne.
  - intros ctx k v expiry w _ _. destruct (sim_reachable w), (sim_locked w k (sim_now w)) eqn:E; cbn;
      try done. intros _. exists (sim_now w). split_and!; [lia..|done|].
    intros t' Ht'. unfold sim_locked. cbn. by rewrite lookup_insert, decide_True.
  - intros ctx k v expiry w _ _. destruct (sim_reachable w), (sim_locked w k (sim_now w)) eqn:E; cbn;
      try done. intros _. exists (sim_now w). split_and!; [lia..|done|by intros ??].
  - intros ctx k v expiry w e _ _. destruct (sim_reachable w), (sim_locked w k (sim_now w)) eqn:E; cbn;
      try done; intros _; exists (sim_now w); (split; [lia|]); left; by intros ??.
Qed.

Definition sim_cfg : IdempotencyConfig := mkIdempotencyConfig "Idempotency-Key" (30 * Second) false.
Definition order_request : Request :=
  mkRequest "POST" "/orders" {["Idempotency-Key" := ["o-1"]]} "10.0.0.1:4000" Background.
Definition order_key : string := "idempotency:o-1".

(** The key of the request is free: it acquires the lock. *)
Definition sim_acquired (w : lock_sim) : lock_sim :=
  mkLocks true (sim_now w) (<[order_key := (sim_now w + 30 * Second)%Z]> (sim_expiry w)).

Lemma sim_acquire w acq run :
  sim_reachable w = true → sim_locked w order_key (sim_now w) = false →
  let e := (order_key, (sim_now w, sim_now w)) in
  idem_step sim_now sim_locked sim_cfg (mkSys w acq run) (mkSys (sim_acquired w) (e :: acq) (e :: run)).
Proof.
  intros Hr Hl e. subst e. change order_key with (redis_idem_key sim_cfg order_request).
  assert (SetNX (req_ctx order_request) (redis_idem_key sim_cfg order_request) "locked"
            (Expiry sim_cfg) w = (sim_acquired w, Ok true)) as Hs.
  { change (redis_idem_key sim_cfg order_request) with order_key. cbn. by rewrite Hr, Hl. }
  destruct (gate_run sim_cfg order_request (mkH fresh_response [] w) _ _ ltac:(by_compute) eq_refl Hs)
    as [Hw Hg].
  pose proof (idem_acquire sim_now sim_locked sim_cfg w acq run order_request [] _ eq_refl) as Hstep.
  rewrite Hg in Hstep. by apply Hstep.
Qed.

Definition sleep (d : Z) (w : lock_sim) : lock_sim :=
  mkLocks (sim_reachable w) (sim_now w + d) (sim_expiry w).

Definition locks_first : lock_sim := sim_acquired (mkLocks true 0 ∅).
Definition locks_second : lock_sim := sim_acquired (sleep (30 * Second) locks_first).

Definition first_lock : string * (Z * Z) := (order_key, (0, 0)%Z).
Definition second_lock : string * (Z * Z) := (order_key, (30 * Second, 30 * Second)%Z).

(** The first request acquires the lock, and its handler is still busy when the
    lock expires and a second request acquires it again. *)
Lemma two_acquisitions :
  rtc (idem_step sim_now sim_locked sim_cfg) (idem_init (mkLocks true 0 ∅))
    (mkSys locks_second [second_lock; first_lock] [second_lock; first_lock]).
Proof.
  eapply rtc_l; [by apply sim_acquire|].
  eapply rtc_l; [apply (idem_elsewhere _ _ _ _ (sleep (30 * Second) locks_first)); by vm_compute|].
  apply rtc_once. apply sim_acquire; vm_compute; reflexivity.
Qed.

(** A handler that runs longer than the lock's expiry is joined by a second one for
    the same idempotency key: a state with both at work is reachable. *)
Theorem slow_handlers_run_twice :
  ∃ s, rtc (idem_step sim_now sim_locked sim_cfg) (idem_init (mkLocks true 0 ∅)) s
    ∧ (sys_running s).*1 = [order_key; order_key].
Proof. eexists. split; [exact two_acquisitions|reflexivity]. Qed.

Lemma idempotency_locks_spaced_witness : (0 + Expiry sim_cfg ≤ 30 * Second)%Z.
Proof.
  apply (idempotency_locks_spaced sim_now sim_locked sim_cfg ltac:(reflexivity) ltac:(reflexivity)
           (mkLocks true 0 ∅) _ 0 1 order_key (30 * Second) (30 * Second) 0 0 two_acquisitions);
    [reflexivity..|lia].
Defined.

(** One request at work. *)
Lemma one_acquisition :
  rtc (idem_step sim_now sim_locked sim_cfg) (idem_init (mkLocks true 0 ∅))
    (mkSys locks_first [first_lock] [first_lock]).
Proof. apply rtc_once. by apply sim_acquire. Qed.

Lemma idempotency_excludes_witness : NoDup [order_key].
Proof.
  apply (idempotency_excludes sim_now sim_locked sim_cfg ltac:(reflexivity) ltac:(reflexivity)
           (mkLocks true 0 ∅) _ one_acquisition).
  intros k b e Hin. apply elem_of_cons in Hin as [[= -> -> ->]|[]%not_elem_of_nil]. vm_compute. reflexivity.
Defined.

(** A duplicate while the first request is at work. *)
Lemma idempotency_responses_witness :
  resp_status (h_resp (post (IdempotencyMiddleware sim_cfg (λ _, WriteHeader 201) order_request
    (mkH fresh_response [] locks_first)))) = Some 409%Z.
Proof.
  apply (idempotency_responses sim_cfg (λ _, WriteHeader 201) order_request
           (mkH fresh_response [] locks_first) locks_first (Ok false));
    [by_compute|reflexivity|vm_compute; reflexivity].
Defined.
