(* ===== verification/Middleware.v ===== *)
(** The HTTP middleware of [server/middleware/base.go], [recovery.go],
    [metrics.go] and [trace.go]. *)

From S2P Require Import Prelude GoErrors Contextx GoStrings Json Http Response.

Open Scope string_scope.
Open Scope list_scope.

(** ** What the middleware calls *)

(** [time.Now()], in nanoseconds. *)
Class Clock (W : Type) : Type := { time_Now : W → Z }.

(** [uuid.New()] (its 16 bytes) and [uuid.NewString()]. *)
Class UUID (W : Type) : Type := {
  uuid_New : W → W * list ascii;
  uuid_NewString : W → W * string;
}.
Class UUIDLaws (W : Type) `{!UUID W} : Prop := {
  uuid_New_length w : length (uuid_New w).2 = 16;
  uuid_NewString_length w : String.length (uuid_NewString w).2 = 36;
}.

(** [trace.SpanFromContext(ctx).SpanContext()]: the trace id, when it is valid. *)
Class SpanContexts : Type := { span_TraceID : context → option string }.
Class SpanContextsLaws `{!SpanContexts} : Prop := {
  span_TraceID_length ctx id : span_TraceID ctx = Some id → String.length id = 32;
}.

(** chi: [ww.Status()] of the wrapped writer, and the pattern of the route that
    matched ([None] when the request has no route context). *)
Class Chi (W : Type) : Type := {
  ww_Status : hstate W → Z;
  RoutePattern : context → W → option string;
}.
(** chi's documentation: the status sent, or 0 if none has been sent yet. *)
Class ChiLaws (W : Type) `{!Chi W} : Prop := {
  ww_Status_sent h : ww_Status h = default 0%Z (resp_status (h_resp h));
}.

(** otelchi: the middleware for a service name and options; the option
    [WithChiRoutes] gives the routes, here none. *)
Class Otelchi (W : Type) : Type := {
  otelchi_Middleware : string → list (option (list string)) → Handler W → Handler W;
}.

(** [hex.EncodeToString] *)
Definition hex_digit (z : Z) : ascii := if (z <? 10)%Z then chr (48 + z) else chr (87 + z).
Definition hex_EncodeToString (l : list ascii) : string :=
  of_bytes (concat (map (λ b, [hex_digit (code b / 16); hex_digit (code b mod 16)]) l)).

Section middleware.
Context {W : Type} {CL : Clock W} {UU : UUID W} {SC : SpanContexts} {CH : Chi W}.
Implicit Types (next : Handler W) (r : Request) (h : hstate W).

(** ** [base.go] *)

Definition SecurityHeaders next : Handler W := λ r,
  header_Set "X-Content-Type-Options" "nosniff";;
  header_Set "X-Frame-Options" "DENY";;
  header_Set "X-XSS-Protection" "1; mode=block";;
  next r.

Definition OTelMiddleware `{!Otelchi W} (serviceName : string) : Handler W → Handler W :=
  otelchi_Middleware serviceName [None].

(** A call below a new [responseWriter] with the given [status]; the result has the
    field's value at the end. *)
Definition with_responseWriter (status : Z) (m : HandlerM W unit) : HandlerM W Z := λ h,
  let ρ := m (mkH (h_resp h) (status :: h_recorders h) (h_world h)) in
  let recs := h_recorders (post ρ) in
  mkRun (mkH (h_resp (post ρ)) (tl recs) (h_world (post ρ))) (trace ρ)
    (match out ρ with
     | Ret _ => Ret (hd status recs)
     | Panic v => Panic v
     | Running => Running
     end).

Definition now_ns : HandlerM W Z := gets (λ h, time_Now (h_world h)).

Definition LoggerMiddleware next : Handler W := λ r,
  start ← now_ns;
  status ← with_responseWriter StatusOK (next r);
  stop ← now_ns;
  emit (HLog "INFO" "http_request"
    [("method", AString (req_method r)); ("path", AString (req_path r)); ("status", AInt status);
     ("duration_ms", AInt (Z.quot (sat64 (stop - start)) Millisecond));
     ("remote_ip", AString (req_remoteAddr r))]).

(** ** [recovery.go] *)

(** The stack is left out of the log record. *)
Definition PanicRecovery next : Handler W := λ r,
  recovering (next r) (λ rec,
    emit (HLog "ERROR" "HTTP PANIC RECOVERED"
      [("error", AString rec); ("method", AString (req_method r)); ("path", AString (req_path r))]);;
    ErrorJSON r StatusInternalServerError "INTERNAL_SERVER_ERROR" "An unexpected error occurred").

(** ** [metrics.go] *)

Definition MetricsMiddleware next : Handler W := λ r,
  start ← now_ns;
  next r;;
  stop ← now_ns;
  code ← gets ww_Status;
  pattern ← gets (λ h, RoutePattern (req_ctx r) (h_world h));
  let duration := sat64 (stop - start) in
  let status := Itoa code in
  let path :=
    match pattern with
    | Some p => if negb (bool_decide (p = "")) then p
                else if (code =? StatusNotFound)%Z then "not_found" else "unmatched_route"
    | None => if (code =? StatusNotFound)%Z then "not_found" else "unmatched_route"
    end in
  emit (HCount [status; req_method r; path]);;
  emit (HObserve [status; req_method r; path] duration).

(** ** [trace.go] *)

Definition TraceHeader : string := "X-Trace-Id".
Definition RequestHeader : string := "X-Request-Id".

Definition TraceIDMiddleware next : Handler W := λ r,
  let ctx := req_ctx r in
  let traceID := default "" (span_TraceID ctx) in
  let traceID := if bool_decide (traceID = "") then Header_Get (req_header r) TraceHeader else traceID in
  traceID ← (if bool_decide (traceID = "")
             then uid ← on_world uuid_New; mret (hex_EncodeToString uid)
             else mret traceID);
  let reqID := Header_Get (req_header r) RequestHeader in
  reqID ← (if bool_decide (reqID = "") then on_world uuid_NewString else mret reqID);
  header_Set TraceHeader traceID;;
  header_Set RequestHeader reqID;;
  let ctx := WithTraceID ctx traceID in
  let ctx := WithRequestID ctx reqID in
  next (WithContext r ctx).

(** ** Properties *)

Lemma hex_length l : String.length (hex_EncodeToString l) = 2 * length l.
Proof. unfold hex_EncodeToString. induction l as [|b l IH]; [done|]. cbn in *. rewrite IH. lia. Qed.

(** The trace id a request gets: the span's, the client's, or a fresh one; and
    the request id. *)
Definition chosen_trace_id (r : Request) (w : W) : W * string :=
  match span_TraceID (req_ctx r) with
  | Some id => (w, id)
  | None =>
      if bool_decide (Header_Get (req_header r) TraceHeader = "")
      then let '(w', uid) := uuid_New w in (w', hex_EncodeToString uid)
      else (w, Header_Get (req_header r) TraceHeader)
  end.

Definition chosen_request_id (r : Request) (w : W) : W * string :=
  if bool_decide (Header_Get (req_header r) RequestHeader = "") then uuid_NewString w
  else (w, Header_Get (req_header r) RequestHeader).

Lemma trace_run {SCL : SpanContextsLaws} next r h w1 w2 traceID reqID :
  chosen_trace_id r (h_world h) = (w1, traceID) → chosen_request_id r w1 = (w2, reqID) →
  TraceIDMiddleware next r h =
    next (WithContext r (WithRequestID (WithTraceID (req_ctx r) traceID) reqID))
      (mkH (mkResponse (Header_Set RequestHeader reqID
                          (Header_Set TraceHeader traceID (resp_header (h_resp h))))
              (resp_sent (h_resp h)) (resp_body (h_resp h))) (h_recorders h) w2).
Proof.
  intros Ht Hq. unfold TraceIDMiddleware. cbn zeta.
  assert (∀ {B} (k : string → HandlerM W B) h w1,
    chosen_request_id r (h_world h) = (w1, reqID) →
    ((if bool_decide (Header_Get (req_header r) RequestHeader = "") then on_world uuid_NewString
      else mret (Header_Get (req_header r) RequestHeader)) ≫= k) h
    = k reqID (mkH (h_resp h) (h_recorders h) w1)) as Hreq.
  { intros B k [resp recs w] w' H. unfold chosen_request_id in H. cbn in *.
    destruct (bool_decide _); [by apply on_world_run|]. simplify_eq. by rewrite run_ret. }
  assert (∀ {B} (k : string → HandlerM W B),
    ((if bool_decide ((if bool_decide (default "" (span_TraceID (req_ctx r)) = "")
                       then Header_Get (req_header r) TraceHeader
                       else default "" (span_TraceID (req_ctx r))) = "")
      then uid ← on_world uuid_New; mret (hex_EncodeToString uid)
      else mret (if bool_decide (default "" (span_TraceID (req_ctx r)) = "")
                 then Header_Get (req_header r) TraceHeader
                 else default "" (span_TraceID (req_ctx r)))) ≫= k) h
    = k traceID (mkH (h_resp h) (h_recorders h) w1)) as Htr.
  { intros B k. unfold chosen_trace_id in Ht. destruct (span_TraceID (req_ctx r)) as [id|] eqn:E;
      cbn [default].
    - apply span_TraceID_length in E.
      assert (id ≠ "") by (intros ->; done). rewrite !(bool_decide_eq_false_2 (id = "")) by done.
      simplify_eq. rewrite run_ret. by destruct h.
    - rewrite (bool_decide_eq_true_2 ("" = "")) by done.
      destruct (bool_decide (Header_Get _ _ = "")) eqn:E2; [|simplify_eq; rewrite run_ret; by destruct h].
      destruct (uuid_New (h_world h)) as [w' uid] eqn:Eu. simplify_eq.
      rewrite run_assoc. rewrite (on_world_run _ _ _ _ _ Eu). by rewrite run_ret. }
  rewrite Htr. rewrite (Hreq _ _ (mkH (h_resp h) (h_recorders h) w1) w2 Hq).
  by autorewrite with go_run.
Qed.

Lemma chosen_ids_nonempty {SCL : SpanContextsLaws} {UL : UUIDLaws W} r w :
  (chosen_trace_id r w).2 ≠ "" ∧ (chosen_request_id r w).2 ≠ "".
Proof.
  split.
  - unfold chosen_trace_id. destruct (span_TraceID (req_ctx r)) as [id|] eqn:E.
    + apply span_TraceID_length in E. cbn [snd]. by intros ->.
    + destruct (bool_decide _) eqn:E2; [|by apply bool_decide_eq_false in E2].
      pose proof (uuid_New_length w). destruct (uuid_New w) as [w' uid]. cbn in *.
      pose proof (hex_length uid) as Hl. intros Heq. rewrite Heq in Hl. cbn in Hl. lia.
  - unfold chosen_request_id. destruct (bool_decide _) eqn:E2; [|by apply bool_decide_eq_false in E2].
    pose proof (uuid_NewString_length w) as Hl. by intros E; rewrite E in Hl.
Qed.

(** TraceIDMiddleware calls the handler with a non-empty trace id and request id in
    its context that are the ones in the response headers: the span's trace id if it
    is valid, else the client's, else a fresh one; and the client's request id if it
    sent one. *)
Theorem trace_ids_delivered {SCL : SpanContextsLaws} {UL : UUIDLaws W} next r h :
  ∃ r' h',
    TraceIDMiddleware next r h = next r' h'
    ∧ Header_Get (resp_header (h_resp h')) TraceHeader = GetTraceID (Some (req_ctx r'))
    ∧ Header_Get (resp_header (h_resp h')) RequestHeader = GetRequestID (Some (req_ctx r'))
    ∧ GetTraceID (Some (req_ctx r')) ≠ "" ∧ GetRequestID (Some (req_ctx r')) ≠ ""
    ∧ (∀ id, span_TraceID (req_ctx r) = Some id → GetTraceID (Some (req_ctx r')) = id)
    ∧ (span_TraceID (req_ctx r) = None → Header_Get (req_header r) TraceHeader ≠ "" →
       GetTraceID (Some (req_ctx r')) = Header_Get (req_header r) TraceHeader)
    ∧ (Header_Get (req_header r) RequestHeader ≠ "" →
       GetRequestID (Some (req_ctx r')) = Header_Get (req_header r) RequestHeader).
Proof.
  pose proof (chosen_ids_nonempty r (h_world h)) as [Hne _].
  destruct (chosen_trace_id r (h_world h)) as [w1 traceID] eqn:Et.
  pose proof (chosen_ids_nonempty r w1) as [_ Hne'].
  destruct (chosen_request_id r w1) as [w2 reqID] eqn:Eq. cbn [snd] in *.
  do 2 eexists. split; [by eapply trace_run|]. cbn [h_resp resp_header req_ctx WithContext].
  change (GetRequestID (Some (WithRequestID (WithTraceID (req_ctx r) traceID) reqID))) with reqID.
  change (GetTraceID (Some (WithRequestID (WithTraceID (req_ctx r) traceID) reqID))) with traceID.
  split_and!; [|by apply Header_Get_Set|done|done|..].
  - rewrite Header_Get_Set_ne by by_compute. apply Header_Get_Set.
  - intros id Hid. unfold chosen_trace_id in Et. rewrite Hid in Et. by simplify_eq.
  - intros Hid Hh. unfold chosen_trace_id in Et. rewrite Hid in Et.
    rewrite bool_decide_eq_false_2 in Et by done. by simplify_eq.
  - intros Hh. unfold chosen_request_id in Eq. rewrite bool_decide_eq_false_2 in Eq by done.
    by simplify_eq.
Qed.

(** ** Panics *)

(** [write] returns, and does not change what has been sent. *)
Lemma write_total r status payload h :
  out (write r status payload h) = Ret ()
  ∧ h_recorders (post (write r status payload h)) = (λ _, status) <$> h_recorders h
  ∧ ∀ s, resp_sent (h_resp h) = Some s → resp_sent (h_resp (post (write r status payload h))) = Some s.
Proof.
  unfold write, WriteHeader, encode_to, Write. autorewrite with go_run.
  set (h1 := mkH _ _ _).
  assert (∀ s, resp_sent (h_resp h) = Some s → resp_sent (h_resp h1) = Some s) as Hs.
  { intros s Hs. unfold h1. cbn [h_resp]. unfold raw_WriteHeader, on_resp. cbn [h_resp resp_sent].
    by rewrite Hs. }
  destruct (json_line payload) as [line|e]; [|autorewrite with go_run; done].
  destruct (raw_Write line (h_resp h1)) as [resp e] eqn:E.
  rewrite (run_lift _ _ _ (mkH resp (h_recorders h1) (h_world h1)) e) by (by rewrite E).
  assert (∀ s, resp_sent (h_resp h1) = Some s → resp_sent resp = Some s) as Hr.
  { intros [c hd] H1. pose proof (raw_Write_sent line (h_resp h1) c hd H1) as H2.
    by rewrite E in H2. }
  destruct e as [e|]; split_and!; try done; intros s H; by apply Hr, Hs.
Qed.

Lemma panic_recovery_run next r h h' tr v :
  next r h = mkRun h' tr (Panic v) →
  let ρ := PanicRecovery next r h in
  out ρ = Ret ()
  ∧ (resp_sent (h_resp h') = None →
     h_resp (post ρ) =
       json_response 500 (error_line "INTERNAL_SERVER_ERROR" "An unexpected error occurred"
                            (GetRequestID (Some (req_ctx r)))) (h_resp h'))
  ∧ (∀ s, resp_sent (h_resp h') = Some s → resp_sent (h_resp (post ρ)) = Some s)
  ∧ h_recorders (post ρ) = (λ _, 500%Z) <$> h_recorders h'
  ∧ ∃ tr', trace ρ = tr ++ HLog "ERROR" "HTTP PANIC RECOVERED"
      [("error", AString v); ("method", AString (req_method r)); ("path", AString (req_path r))] :: tr'.
Proof.
  intros Hn ρ. subst ρ. unfold PanicRecovery, recovering. rewrite Hn, run_emit. cbn [post trace out after].
  unfold ErrorJSON, ErrorJSONWithDetails. cbn zeta.
  set (env := envelope_gval _). destruct (write_total r StatusInternalServerError env h') as (Ho & Hr & Hs).
  split_and!; [done| |done|done|by eexists].
  intros Hnone. by erewrite write_run by first [apply error_envelope_line|done].
Qed.

(** A handler that panics before it has sent anything is answered with status 500
    and the JSON error envelope with the request id, and the panic does not leave
    PanicRecovery. *)
Theorem panic_becomes_500 next r h h' tr v :
  next r h = mkRun h' tr (Panic v) → resp_sent (h_resp h') = None →
  let ρ := PanicRecovery next r h in
  out ρ = Ret ()
  ∧ h_resp (post ρ) =
      json_response 500 (error_line "INTERNAL_SERVER_ERROR" "An unexpected error occurred"
                           (GetRequestID (Some (req_ctx r)))) (h_resp h').
Proof. intros Hn Hs. destruct (panic_recovery_run _ _ _ _ _ _ Hn) as (Ho & Hr & _). auto. Qed.

(** A handler that returns is not touched. *)
Lemma recovery_transparent next r h :
  (∀ v, out (next r h) ≠ Panic v) → PanicRecovery next r h = next r h.
Proof.
  intros Hn. unfold PanicRecovery, recovering. destruct (next r h) as [h' tr [| |]] eqn:E; try done.
  by destruct (Hn v).
Qed.

(** ** Status codes in logs and metrics *)

(** After a panic behind a status that was sent, the request log has 500 and the
    client the status sent. *)
Theorem logged_status_differs next r h h' tr v c hd :
  next r (mkH (h_resp h) (200%Z :: h_recorders h) (h_world h)) = mkRun h' tr (Panic v) →
  resp_sent (h_resp h') = Some (c, hd) → length (h_recorders h') = S (length (h_recorders h)) →
  let ρ := LoggerMiddleware (PanicRecovery next) r h in
  resp_status (h_resp (post ρ)) = Some c
  ∧ ∃ attrs, last (trace ρ) = Some (HLog "INFO" "http_request" attrs) ∧ ("status", AInt 500) ∈ attrs.
Proof.
  intros Hn Hs Hl ρ. subst ρ. unfold LoggerMiddleware, now_ns. rewrite run_gets.
  destruct (panic_recovery_run next r _ h' tr v Hn) as (Ho & _ & Hsent & Hrec & tr' & Htr).
  set (hp := mkH (h_resp h) (200%Z :: h_recorders h) (h_world h)) in *.
  assert (with_responseWriter StatusOK (PanicRecovery next r) h =
    mkRun (mkH (h_resp (post (PanicRecovery next r hp))) (tl (h_recorders (post (PanicRecovery next r hp))))
             (h_world (post (PanicRecovery next r hp))))
      (trace (PanicRecovery next r hp)) (Ret 500%Z)) as Hw.
  { unfold with_responseWriter. change StatusOK with 200%Z. fold hp. rewrite Ho, Hrec. by destruct (h_recorders h'). }
  rewrite (run_bind _ _ _ _ _ _ Hw), run_gets. cbn [after post trace emit h_resp]. split.
  - unfold resp_status. by rewrite (Hsent _ Hs).
  - eexists. split; [apply last_snoc|]. set_solver.
Qed.

(** The labels of a request that is served. *)
Definition metric_path (pattern : option string) (code : Z) : string :=
  match pattern with
  | Some p => if bool_decide (p = "") then if (code =? 404)%Z then "not_found" else "unmatched_route" else p
  | None => if (code =? 404)%Z then "not_found" else "unmatched_route"
  end.

(** MetricsMiddleware counts and times every request whose handler returns exactly
    once, under the status sent (0 if none was), the method and a path label that is
    the route pattern, not_found or unmatched_route, never the request's path. *)
Theorem metrics_recorded {CHL : ChiLaws W} next r h h' tr :
  next r h = mkRun h' tr (Ret ()) →
  let code := default 0%Z (resp_status (h_resp h')) in
  let labels := [Itoa code; req_method r; metric_path (RoutePattern (req_ctx r) (h_world h')) code] in
  MetricsMiddleware next r h =
    mkRun h' (tr ++ [HCount labels; HObserve labels (sat64 (time_Now (h_world h') - time_Now (h_world h)))])
      (Ret ()).
Proof.
  intros Hn code labels. subst code labels. unfold MetricsMiddleware, now_ns. rewrite run_gets.
  rewrite (run_bind _ _ _ _ _ _ Hn). rewrite !run_gets, ww_Status_sent. cbn zeta.
  rewrite run_emit. unfold metric_path, StatusNotFound.
  destruct (RoutePattern _ _) as [p|]; [destruct (bool_decide (p = ""))|]; done.
Qed.

(** A request that panics is answered 500 and counted nowhere. *)
Theorem metrics_miss_panics next r h h' tr v :
  next r h = mkRun h' tr (Panic v) →
  trace (PanicRecovery (MetricsMiddleware next) r h) !! length tr
    = Some (HLog "ERROR" "HTTP PANIC RECOVERED"
        [("error", AString v); ("method", AString (req_method r)); ("path", AString (req_path r))])
  ∧ (resp_sent (h_resp h') = None →
     resp_status (h_resp (post (PanicRecovery (MetricsMiddleware next) r h))) = Some 500%Z
     ∧ ∀ labels, HCount labels ∈ trace (PanicRecovery (MetricsMiddleware next) r h) → HCount labels ∈ tr).
Proof.
  intros Hn.
  assert (MetricsMiddleware next r h = mkRun h' tr (Panic v)) as Hm.
  { unfold MetricsMiddleware, now_ns. rewrite run_gets. unfold mbind, go_bind. by rewrite Hn. }
  unfold PanicRecovery, recovering. rewrite Hm, run_emit. cbn [post trace out after].
  split; [by rewrite lookup_app_r, Nat.sub_diag by lia|].
  intros Hs. unfold ErrorJSON, ErrorJSONWithDetails. cbn zeta.
  erewrite write_run by first [apply error_envelope_line|done]. split; [done|].
  intros labels. cbn [trace app]. rewrite elem_of_app, list_elem_of_singleton. intros [|]; done.
Qed.

End middleware.
