(* ===== verification/Grpc.v ===== *)
(** The gRPC unary interceptors of [server/middleware/grpc_recovery.go],
    [grpc_ratelimit.go] and [trace.go]. *)

From Stdlib Require Import QArith.
From S2P Require Import Prelude GoErrors Contextx GoStrings Json Http Response Gcra GcraFacts RateLimit Middleware.

Open Scope string_scope.
Open Scope list_scope.

(** ** The server library *)

Inductive grpc_code : Type := codes_ResourceExhausted | codes_Unauthenticated | codes_Internal.

#[export] Instance grpc_code_eq_dec : EqDecision grpc_code.
Proof. solve_decision. Defined.

(** An error a handler returns: a [status.Error] or any other one. *)
Inductive grpc_error : Type :=
| StatusError (c : grpc_code) (msg : string)
| OtherError (e : error).

Record UnaryServerInfo : Type := mkInfo { FullMethod : string }.

(** The header metadata of the reply and the world. *)
Record gstate (W : Type) : Type := mkG { g_header : list (string * string); g_world : W }.
Arguments mkG {W}.
Arguments g_header {W}.
Arguments g_world {W}.

Abbreviation GrpcM W := (Go (gstate W) hevent).

(** [req] and the reply are opaque to the interceptors. *)
Definition UnaryHandler (W req resp : Type) : Type := context → req → GrpcM W (result resp grpc_error).
Definition UnaryServerInterceptor (W req resp : Type) : Type :=
  context → req → UnaryServerInfo → UnaryHandler W req resp → GrpcM W (result resp grpc_error).

(** What the library keeps in the context: the metadata of the call, with keys
    in lower case, and the address of the peer. *)
Class GrpcContext : Type := {
  FromIncomingContext : context → option (gmap string (list string));
  peer_Addr : context → option string;
}.
Class GrpcContextLaws `{!GrpcContext} : Prop := {
  incoming_other ctx k v :
    FromIncomingContext (WithValue ctx (contextKey k) v) = FromIncomingContext ctx;
  peer_other ctx k v : peer_Addr (WithValue ctx (contextKey k) v) = peer_Addr ctx;
}.

Section interceptors.
Context {W req resp : Type}.

(** [grpc.SetHeader(ctx, md)], before anything has been sent. *)
Definition grpc_SetHeader (md : list (string * string)) : GrpcM W unit :=
  modify (λ g, mkG (g_header g ++ md) (g_world g)).

Definition g_on_world {A} (f : W → W * A) : GrpcM W A :=
  lift (λ g, let '(w, a) := f (g_world g) in (mkG (g_header g) w, a)).

Lemma g_on_world_run {A B} (f : W → W * A) (k : A → GrpcM W B) g w a :
  f (g_world g) = (w, a) → (g_on_world f ≫= k) g = k a (mkG (g_header g) w).
Proof. intros H. apply run_lift. by rewrite H. Qed.

(** ** [grpc_recovery.go] *)

Definition GRPCRecoveryInterceptor : UnaryServerInterceptor W req resp := λ ctx rq info handler,
  recovering (handler ctx rq) (λ rec,
    emit (HLog "ERROR" "GRPC PANIC RECOVERED"
      [("error", AString rec); ("method", AString (FullMethod info))]);;
    mret (Err (StatusError codes_Internal "internal server error"))).

(** ** [grpc_ratelimit.go] *)

Definition grpc_identity `{!GrpcContext} (ctx : context) : string :=
  match Value ctx AuthPrincipalIDKey with
  | Some user => "user:" +:+ Sprint_v user
  | None => match peer_Addr ctx with Some addr => "ip:" +:+ addr | None => "ip:unknown" end
  end.

Definition grpc_rate_key `{!GrpcContext} (ctx : context) : string := "rl:grpc:" +:+ grpc_identity ctx.

Definition GRPCRateLimitInterceptor `{!GrpcContext, !GcraService W} (rate burst period : Z) :
    UnaryServerInterceptor W req resp := λ ctx rq info handler,
  if (rate <=? 0)%Z then handler ctx rq
  else
    res ← g_on_world (gcra_Run ctx (grpc_rate_key ctx) rate period burst);
    match res with
    | Err _ => handler ctx rq
    | Ok res =>
        if (0 <=? res)%Z then
          let retryAfter := Itoa res in
          grpc_SetHeader [("x-retry-after", retryAfter); ("x-ratelimit-limit", Itoa rate)];;
          mret (Err (StatusError codes_ResourceExhausted
                  ("rate limit exceeded, retry in " +:+ retryAfter +:+ " seconds")))
        else handler ctx rq
    end.

(** ** [trace.go] *)

(** The context with the trace id, and then with the request id. *)
Definition grpc_trace_ctx `{!UUID W, !SpanContexts} (ctx : context) : GrpcM W context :=
  match span_TraceID ctx with
  | Some traceID => mret (WithTraceID ctx traceID)
  | None => uid ← g_on_world uuid_New; mret (WithTraceID ctx (hex_EncodeToString uid))
  end.

Definition grpc_request_ctx `{!GrpcContext, !UUID W} (ctx : context) : GrpcM W context :=
  match FromIncomingContext ctx with
  | Some md =>
      match md !! map_bytes lower_ascii RequestHeader with
      | Some (v :: _) => mret (WithRequestID ctx v)
      | _ => id ← g_on_world uuid_NewString; mret (WithRequestID ctx id)
      end
  | None => id ← g_on_world uuid_NewString; mret (WithRequestID ctx id)
  end.

Definition GRPCTraceInterceptor `{!GrpcContext, !UUID W, !SpanContexts} :
    UnaryServerInterceptor W req resp := λ ctx rq info handler,
  ctx ← grpc_trace_ctx ctx;
  ctx ← grpc_request_ctx ctx;
  handler ctx rq.

(** ** Properties *)

(** A panic of a handler becomes an Internal error. *)
Theorem grpc_panic_is_internal ctx rq info (handler : UnaryHandler W req resp) g g' tr v :
  handler ctx rq g = mkRun g' tr (Panic v) →
  GRPCRecoveryInterceptor ctx rq info handler g =
    mkRun g' (tr ++ [HLog "ERROR" "GRPC PANIC RECOVERED"
                      [("error", AString v); ("method", AString (FullMethod info))]])
      (Ret (Err (StatusError codes_Internal "internal server error"))).
Proof. intros Hh. unfold GRPCRecoveryInterceptor, recovering. by rewrite Hh. Qed.

Context {GC : GrpcContext} {GS : GcraService W}.

Lemma grpc_limit_outcomes_run ctx rq info (handler : UnaryHandler W req resp) rate burst period g w' res :
  (0 < rate)%Z → gcra_Run ctx (grpc_rate_key ctx) rate period burst (g_world g) = (w', res) →
  GRPCRateLimitInterceptor rate burst period ctx rq info handler g =
    match res with
    | Ok reply =>
        if (0 <=? reply)%Z then
          mkRun (mkG (g_header g ++ [("x-retry-after", Itoa reply); ("x-ratelimit-limit", Itoa rate)]) w')
            [] (Ret (Err (StatusError codes_ResourceExhausted
                       ("rate limit exceeded, retry in " +:+ Itoa reply +:+ " seconds"))))
        else handler ctx rq (mkG (g_header g) w')
    | Err _ => handler ctx rq (mkG (g_header g) w')
    end.
Proof.
  intros Hr Hg. unfold GRPCRateLimitInterceptor. destruct (Z.leb_spec rate 0); [lia|].
  rewrite (g_on_world_run _ _ _ _ _ Hg). destruct res as [reply|e]; [|done].
  destruct (0 <=? reply)%Z; [|done]. unfold grpc_SetHeader. by rewrite run_modify.
Qed.

(** A call is passed on when the script admits it or Redis fails, and refused with
    the time to wait otherwise. *)
Theorem grpc_limit_outcomes ctx rq info (handler : UnaryHandler W req resp) rate burst period g w' res :
  (0 < rate)%Z → gcra_Run ctx (grpc_rate_key ctx) rate period burst (g_world g) = (w', res) →
  GRPCRateLimitInterceptor rate burst period ctx rq info handler g =
    match res with
    | Ok reply =>
        if (0 <=? reply)%Z then
          mkRun (mkG (g_header g ++ [("x-retry-after", Itoa reply); ("x-ratelimit-limit", Itoa rate)]) w')
            [] (Ret (Err (StatusError codes_ResourceExhausted
                       ("rate limit exceeded, retry in " +:+ Itoa reply +:+ " seconds"))))
        else handler ctx rq (mkG (g_header g) w')
    | Err _ => handler ctx rq (mkG (g_header g) w')
    end.
Proof. apply grpc_limit_outcomes_run. Qed.

(** Two connections of one host have different keys: the port is part of the
    identity. *)
Theorem grpc_connections_counted_apart ctx1 ctx2 host p1 p2 :
  Value ctx1 AuthPrincipalIDKey = None → Value ctx2 AuthPrincipalIDKey = None →
  peer_Addr ctx1 = Some (host +:+ ":" +:+ p1) → peer_Addr ctx2 = Some (host +:+ ":" +:+ p2) →
  p1 ≠ p2 → grpc_rate_key ctx1 ≠ grpc_rate_key ctx2.
Proof.
  intros H1 H2 Hp1 Hp2 Hne. unfold grpc_rate_key, grpc_identity. rewrite H1, H2, Hp1, Hp2.
  intros Heq. apply Hne. by simplify_eq.
Qed.

Section trace.
Context {UU : UUID W} {UL : UUIDLaws W} {SC : SpanContexts} {SCL : SpanContextsLaws}.
Context {GCL : GrpcContextLaws}.

Lemma grpc_trace_ctx_run ctx g :
  ∃ traceID w', grpc_trace_ctx ctx g = mkRun (mkG (g_header g) w') [] (Ret (WithTraceID ctx traceID))
    ∧ traceID ≠ "" ∧ ∀ id, span_TraceID ctx = Some id → traceID = id.
Proof.
  unfold grpc_trace_ctx. destruct (span_TraceID ctx) as [id|] eqn:E.
  - exists id, (g_world g). apply span_TraceID_length in E.
    split_and!; [by destruct g|by intros ->|by intros ? [= ->]].
  - pose proof (uuid_New_length (g_world g)) as Hl.
    destruct (uuid_New (g_world g)) as [w' uid] eqn:Eu. cbn in Hl.
    exists (hex_EncodeToString uid), w'. split_and!; [by rewrite (g_on_world_run _ _ _ _ _ Eu)| |done].
    intros Heq. pose proof (hex_length uid) as Hh. rewrite Heq in Hh. cbn in Hh. lia.
Qed.

Lemma grpc_request_ctx_run ctx g :
  ∃ reqID w', grpc_request_ctx ctx g = mkRun (mkG (g_header g) w') [] (Ret (WithRequestID ctx reqID))
    ∧ match FromIncomingContext ctx ≫= (.!! "x-request-id") with
      | Some (v :: _) => reqID = v
      | _ => String.length reqID = 36%nat
      end.
Proof.
  assert (∃ reqID w',
    (id ← g_on_world uuid_NewString; mret (WithRequestID ctx id) : GrpcM W context) g
    = mkRun (mkG (g_header g) w') [] (Ret (WithRequestID ctx reqID)) ∧ String.length reqID = 36%nat)
    as (id & w1 & Hid & Hlen).
  { pose proof (uuid_NewString_length (g_world g)) as Hl.
    destruct (uuid_NewString (g_world g)) as [w' id] eqn:Eu.
    exists id, w'. by rewrite (g_on_world_run _ _ _ _ _ Eu). }
  unfold grpc_request_ctx. change (map_bytes lower_ascii RequestHeader) with "x-request-id".
  destruct (FromIncomingContext ctx) as [md|]; cbn; [destruct (md !! _) as [[|v l]|]|]; eauto.
  exists v, (g_world g). by destruct g.
Qed.

(** A call's handler gets a trace id that is not empty, and the client's or a fresh
    request id. *)
Theorem grpc_trace_ids ctx rq info (handler : UnaryHandler W req resp) g :
  ∃ ctx' g',
    GRPCTraceInterceptor ctx rq info handler g = handler ctx' rq g'
    ∧ g_header g' = g_header g
    ∧ GetTraceID (Some ctx') ≠ ""
    ∧ (∀ id, span_TraceID ctx = Some id → GetTraceID (Some ctx') = id)
    ∧ match FromIncomingContext ctx ≫= (.!! "x-request-id") with
      | Some (v :: _) => GetRequestID (Some ctx') = v
      | _ => String.length (GetRequestID (Some ctx')) = 36%nat
      end.
Proof.
  destruct (grpc_trace_ctx_run ctx g) as (traceID & w1 & Ht & Hne & Hspan).
  destruct (grpc_request_ctx_run (WithTraceID ctx traceID) (mkG (g_header g) w1))
    as (reqID & w2 & Hq & Hreq).
  unfold WithTraceID, TraceIDKey in Hreq. rewrite incoming_other in Hreq.
  exists (WithRequestID (WithTraceID ctx traceID) reqID), (mkG (g_header g) w2).
  unfold GRPCTraceInterceptor.
  rewrite (run_bind _ _ _ _ _ _ Ht), (run_bind _ _ _ _ _ _ Hq), !after_nil.
  split_and!; done.
Qed.
End trace.

End interceptors.
