(* ===== verification/GrpcRate.v ===== *)
(** The rate the gRPC interceptor of [Grpc.v] enforces, by [RateWindow.v]. *)

From Stdlib Require Import QArith Lqa SpecFloat.
From S2P Require Import Prelude GoErrors Contextx GoStrings Json Http Response Gcra GcraFacts Binary64 GcraFloat RateLimit RateWindow Middleware Grpc.

Open Scope string_scope.
Open Scope list_scope.

Section grpc_rate.
Context {W req resp : Type} {GC : GrpcContext} {GS : GcraService W}.
Context {cell : Type} {RK : RedisKey spec_float cell} {RL : RedisKeyLaws spec_float cell}.
Context (redis_time : W → Z) (redis_key : W → string → cell).
Context {GL : GcraServiceLaws W cell redis_time redis_key}.
Context (rate burst period : Z) (handler : UnaryHandler W req resp).

Definition marked_handler : UnaryHandler W req resp := λ ctx rq, emit (HCount ["next"]);; handler ctx rq.

(** A call: its context, its request and the method. *)
Definition grpc_call : Type := context * req * UnaryServerInfo.
Definition limited_call (c : grpc_call) : GrpcM W (result resp grpc_error) :=
  GRPCRateLimitInterceptor rate burst period c.1.1 c.1.2 c.2 marked_handler.
Definition handled (ρ : run (gstate W) hevent (result resp grpc_error)) : bool :=
  bool_decide (HCount ["next"] ∈ trace ρ).
Definition serve_grpc (c : grpc_call) (w : W) : W * bool :=
  let ρ := limited_call c (mkG [] w) in (g_world (post ρ), handled ρ).

Abbreviation quiet := (quiet redis_time redis_key id).
Abbreviation call_ctx := (λ c : grpc_call, c.1.1).
Abbreviation call_key := (λ c : grpc_call, grpc_rate_key c.1.1).

(** Calls of any clients, in some order. *)
Definition grpc_traffic : W → list (string * bool) → W → Prop :=
  traffic redis_time redis_key id call_ctx call_key rate burst period serve_grpc.

Hypothesis rate_ok : (0 < rate < 2 ^ 52)%Z.
Hypothesis burst_ok : (0 ≤ burst ≤ 2 * rate)%Z.
Hypothesis period_ok : (0 < period < 2 ^ 63)%Z.
Hypothesis handler_quiet : ∀ ctx rq g, quiet (g_world g) (g_world (post (handler ctx rq g))).

Lemma marked_handler_run ctx rq g :
  post (marked_handler ctx rq g) = post (handler ctx rq g) ∧ handled (marked_handler ctx rq g) = true.
Proof.
  unfold marked_handler. rewrite run_emit. split; [done|]. apply bool_decide_eq_true. left.
Qed.

(** The interceptor asks the script once, and then at most calls the handler. *)
Lemma limited_call_world c w :
  ∃ w1, w1 = (gcra_Run c.1.1 (grpc_rate_key c.1.1) rate period burst w).1 ∧ quiet w1 (serve_grpc c w).1.
Proof.
  destruct c as [[ctx rq] info]. unfold serve_grpc, limited_call. cbn [fst snd].
  assert (∀ w1, quiet w1 w1) as Hq by (intros w1; split; [done|lia]).
  destruct (gcra_Run ctx (grpc_rate_key ctx) rate period burst w) as [w' res] eqn:E. exists w'. split; [done|].
  rewrite (grpc_limit_outcomes_run ctx rq info marked_handler rate burst period (mkG [] w) w' res (proj1 rate_ok) E).
  destruct res as [reply|e]; [destruct (0 <=? reply)%Z; [apply Hq|]|];
    rewrite (proj1 (marked_handler_run _ _ _)); apply (handler_quiet ctx rq (mkG [] w')).
Qed.

Lemma limited_call_decides c w reply :
  (gcra_Run c.1.1 (grpc_rate_key c.1.1) rate period burst w).2 = Ok reply →
  (serve_grpc c w).2 = negb (0 <=? reply)%Z.
Proof.
  destruct c as [[ctx rq] info]. unfold serve_grpc, limited_call. cbn [fst snd]. intros H.
  destruct (gcra_Run ctx (grpc_rate_key ctx) rate period burst w) as [w' res] eqn:E. cbn in H. subst res.
  rewrite (grpc_limit_outcomes_run ctx rq info marked_handler rate burst period (mkG [] w) w' (Ok reply) (proj1 rate_ok) E).
  destruct (0 <=? reply)%Z; [by apply bool_decide_eq_false, not_elem_of_nil|apply marked_handler_run].
Qed.

(** C14: However the calls of all identities interleave, the number of calls of one
    identity that Redis lets through the gRPC interceptor between two moments, times
    the emission interval less a rounding margin, is at most the elapsed time plus
    the burst's emission intervals plus the margin, with Redis running the script in
    binary64 (for rates below 2^52, bursts of at most twice the rate, periods of a
    time.Duration, a Redis clock below 2^70 microseconds and a key that at the start
    holds nothing or a number of at most 2^60); calls to Redis that fail are allowed
    for. *)
Theorem grpc_rate_enforced k w log w2 :
  grpc_traffic w log w2 → (redis_time w2 < 2 ^ 70)%Z → sound redis_time redis_key id k w →
  let T := T rate (period_exact period) in
  let t0 := redis_time w in
  let t1 := redis_time w2 in
  (inject_Z (Z.of_nat (passed k log)) * (T - margin rate burst period t1)
   <= (secs t1 - secs t0) + inject_Z burst * T + margin rate burst period t1)%Q.
Proof.
  intros Htr Hmax Hs. eapply (window_enforced redis_time redis_key id); [done..| | |exact (Nat.le_refl _)|exact Htr|exact Hmax|exact Hs].
  - apply limited_call_world.
  - apply limited_call_decides.
Qed.

End grpc_rate.

(** The HTTP and the gRPC limiter never count on the same key. *)
Lemma limiters_keys_disjoint `{!GrpcContext} r ctx : rate_key r ≠ grpc_rate_key ctx.
Proof.
  unfold rate_key, grpc_rate_key, rate_identity, grpc_identity.
  by destruct (Value (req_ctx r) AuthPrincipalIDKey), (Value ctx AuthPrincipalIDKey); intros [=].
Qed.
