(* ===== verification/RateSim.v ===== *)
(** A Redis and a process to run the rate limiters in, and the instances of
    their theorems there. *)

From Stdlib Require Import QArith SpecFloat.
From S2P Require Import Prelude GoErrors Contextx GoStrings Json Http Response Gcra GcraFacts Binary64 GcraFloat RateLimit RateWindow RateLimitFacts Middleware Grpc GrpcRate.

Open Scope string_scope.
Open Scope list_scope.

(** Redis is up or down, has a clock in microseconds and the keys. *)
Record redis_sim : Type := mkSim {
  sim_up : bool;
  sim_time : Z;
  sim_keys : gmap string (option (spec_float * Z));
}.

Definition sim_key (w : redis_sim) (k : string) : option (spec_float * Z) :=
  match sim_keys w !! k with Some c => c | None => None end.

#[export] Instance sim_gcra : GcraService redis_sim := {
  gcra_Run _ k rate period burst w :=
    if sim_up w then
      let '(reply, c) := gcra_request rate (period_seconds period) burst (sim_time w) (sim_key w k) in
      (mkSim true (sim_time w) (<[k := c]> (sim_keys w)), Ok reply)
    else (w, Err (NewError "dial tcp: connection refused"));
  wall_clock w := (sim_time w * 1000)%Z;
}.

#[export] Instance sim_gcra_laws : GcraServiceLaws redis_sim (option (spec_float * Z)) sim_time sim_key.
Proof.
  split; intros ctx k rate period burst w; cbn -[gcra_request period_seconds];
    destruct (gcra_request rate (period_seconds period) burst (sim_time w) (sim_key w k))
      as [reply' c] eqn:E; destruct (sim_up w); cbn -[gcra_request period_seconds].
  - lia.
  - lia.
  - intros k' Hk. unfold sim_key. cbn. by rewrite lookup_insert_ne.
  - done.
  - intros reply [= <-]. exists (sim_time w). split; [lia|]. rewrite E. unfold sim_key. cbn.
    by rewrite lookup_insert, decide_True.
  - done.
  - done.
  - by left.
Qed.

(** A limiter that never refills: its rate, its burst and its tokens. *)
Definition tokens : Type := Z * Z * Z.

#[export] Instance sim_rate : XRate tokens := {
  NewLimiter r b := (r, b, b);
  Allow _ l := let '(r, b, n) := l in if (1 <=? n)%Z then ((r, b, n - 1)%Z, true) else (l, false);
}.

Definition no_tokens (l : tokens) : Prop := (l.2 ≤ 0)%Z.

#[export] Instance sim_rate_laws : XRateLaws tokens no_tokens.
Proof.
  split; [intros r; cbn; unfold no_tokens; cbn; lia|].
  intros now [[r b] n] H. unfold no_tokens in *. cbn in *. destruct (Z.leb_spec 1 n); [lia|done].
Qed.

Abbreviation SimWorld := (rl_world tokens redis_sim).

Definition sim_world (up : bool) (t : Z) : SimWorld := mkRL false None (mkSim up t ∅).
Definition sim_request : Request :=
  mkRequest "GET" "/" {["X-Forwarded-For" := ["203.0.113.7, 10.0.0.1"]]} "10.0.0.1:4000" Background.

(** A handler that answers [204]. *)
Definition sim_next : Handler SimWorld := λ _, WriteHeader 204.

Lemma sim_next_quiet r h : quiet sim_time sim_key rl_rest (h_world h) (h_world (post (sim_next r h))).
Proof. split; [done|cbn; lia]. Qed.

(** Four requests at once and one half a second later: 2 per second, bursts of 3. *)
Definition advance (dt : Z) (w : SimWorld) : SimWorld :=
  mkRL (limiterOnce w) (emergencyLimiter w)
    (mkSim (sim_up (rl_rest w)) (sim_time (rl_rest w) + dt) (sim_keys (rl_rest w))).

Lemma advance_quiet dt w : (0 ≤ dt)%Z → quiet sim_time sim_key rl_rest w (advance dt w).
Proof. intros. split; [done|cbn; lia]. Qed.

Definition sim_step (w : SimWorld) : SimWorld :=
  h_world (post (limited 2 3 Second sim_next sim_request (mkH fresh_response [] w))).

Definition sim_end : SimWorld :=
  sim_step (advance 500000 (sim_step (sim_step (sim_step (sim_step (sim_world true 0)))))).

Definition sim_log : list (string * bool) :=
  [("rl:ip:203.0.113.7", true); ("rl:ip:203.0.113.7", true); ("rl:ip:203.0.113.7", true);
   ("rl:ip:203.0.113.7", false); ("rl:ip:203.0.113.7", true)].

Abbreviation sim_http_traffic := (http_traffic sim_time sim_key 2 3 Second sim_next).

Lemma sim_request_step (w : SimWorld) k b log w2 :
  is_ok (gcra_Run (req_ctx sim_request) (rate_key sim_request) 2 Second 3 (rl_rest w)).2 = true →
  k = rate_key sim_request → b = reached (limited 2 3 Second sim_next sim_request (mkH fresh_response [] w)) →
  sim_http_traffic (sim_step w) log w2 → sim_http_traffic w ((k, b) :: log) w2.
Proof.
  intros Hr -> -> Ht.
  exact (traffic_request _ _ _ _ _ _ _ _ _ w (sim_request, []) log w2 Hr Ht).
Qed.

Lemma sim_traffic : sim_http_traffic (sim_world true 0) sim_log sim_end.
Proof.
  do 4 (apply sim_request_step; [vm_compute; reflexivity..|]).
  eapply traffic_idle; [by apply (advance_quiet 500000)|].
  apply sim_request_step; [vm_compute; reflexivity..|]. unfold sim_end. apply traffic_done.
Qed.

Lemma empty_key_sound t w k : sim_keys w = ∅ → reasonable_key t (sim_key w k).
Proof. intros H v. unfold sim_key. rewrite H, lookup_empty. discriminate. Qed.

Lemma sim_world_sound k : sound sim_time sim_key rl_rest k (sim_world true 0).
Proof. split; [done|]. by apply empty_key_sound. Qed.

Lemma rate_limit_enforced_witness :
  let t1 := sim_time (rl_rest sim_end) in
  (inject_Z 4 * (T 2 (period_exact Second) - margin 2 3 Second t1)
   <= (secs t1 - secs 0) + inject_Z 3 * T 2 (period_exact Second) + margin 2 3 Second t1)%Q
  ∧ passed "rl:ip:203.0.113.7" sim_log = 4%nat.
Proof.
  split; [|reflexivity].
  apply (rate_limit_enforced sim_time sim_key 2 3 Second sim_next ltac:(lia) ltac:(lia) ltac:(done) sim_next_quiet
           "rl:ip:203.0.113.7" (sim_world true 0) sim_log sim_end sim_traffic);
    [vm_compute; reflexivity|apply sim_world_sound].
Defined.

(** The fourth request at once, and the same client 1.1 seconds later. *)
Definition sim_refused : hstate SimWorld :=
  mkH fresh_response [] (sim_step (sim_step (sim_step (sim_world true 0)))).
Definition sim_refusal := ratelimit_handler 2 3 Second sim_next sim_request sim_refused.
Definition sim_retry : hstate SimWorld := mkH fresh_response [] (advance 1100000 (h_world (post sim_refusal))).

Lemma sim_refused_sound : sound sim_time sim_key rl_rest (rate_key sim_request) (h_world sim_refused).
Proof.
  split; [vm_compute; discriminate|]. intros v H. vm_compute in H. injection H as <-.
  split; [split; [reflexivity|vm_compute; discriminate]|vm_compute; discriminate].
Qed.

Lemma refused_request_can_retry_witness :
  resp_status (h_resp (post sim_refusal)) = Some 429%Z
  ∧ resp_status (h_resp (post (ratelimit_handler 2 3 Second sim_next sim_request sim_retry))) = Some 204%Z.
Proof.
  destruct (refused_request_can_retry sim_time sim_key 2 3 Second sim_next ltac:(lia) ltac:(lia) ltac:(done) sim_request
    sim_refused 1 ltac:(lia) sim_refused_sound) as [(_ & _ & H1 & _) H2]; [vm_compute; reflexivity..|lia|].
  split; [exact H1|].
  rewrite (H2 sim_request sim_retry (gcra_Run (req_ctx sim_request) (rate_key sim_request) 2 Second 3 (rl_rest (h_world sim_retry))).1 (-1)%Z);
    [vm_compute; reflexivity..|vm_compute; discriminate|vm_compute; reflexivity|vm_compute; discriminate|vm_compute; discriminate].
Defined.

Lemma fallback_uses_first_limiter_witness :
  let ρ := ratelimit_handler 100 20 Second sim_next sim_request
             (mkH fresh_response [] (make_limiters [(1, 1); (100, 20)]%Z (sim_world false 0))) in
  resp_status (h_resp (post ρ)) = Some 204%Z
  ∧ emergencyLimiter (h_world (post ρ)) = Some (2, 2, 1)%Z.
Proof.
  assert (H : ratelimit_handler 100 20 Second sim_next sim_request
      (mkH fresh_response [] (make_limiters [(1, 1); (100, 20)]%Z (sim_world false 0)))
    = sim_next sim_request
        (mkH fresh_response [] (mkRL true (Some (2, 2, 1)%Z) (mkSim false 0 ∅)))).
  { exact (fallback_uses_first_limiter 1 1 [(100, 20)%Z] 100 20 Second sim_next sim_request
      (sim_world false 0) (mkSim false 0 ∅) (NewError "dial tcp: connection refused") []
      eq_refl eq_refl eq_refl). }
  cbv zeta. rewrite H. split; reflexivity.
Defined.

Lemma disabled_limiter_blocks_fallback_witness :
  resp_status (h_resp (post (ratelimit_handler 100 20 Second sim_next sim_request
    (mkH fresh_response [] (make_limiters [(0, 0); (100, 20)]%Z (sim_world false 0))))))
  = Some 503%Z.
Proof.
  apply (disabled_limiter_blocks_fallback (W := redis_sim) no_tokens 0 [(100, 20)%Z] 100 20 Second
    sim_next sim_request (sim_world false 0) (mkSim false 0 ∅)
    (NewError "dial tcp: connection refused") []); reflexivity.
Defined.

(** ** gRPC calls *)

#[export] Instance sim_peer : GrpcContext := {
  FromIncomingContext _ := None;
  peer_Addr _ := Some "10.0.0.9:51000";
}.

Definition sim_call : grpc_call (req := unit) := (Background, tt, mkInfo "/orders/Get").
Definition sim_unary : UnaryHandler redis_sim unit unit := λ _ _, mret (Ok tt).
Definition call_at (w : redis_sim) : redis_sim := (serve_grpc 2 3 Second sim_unary sim_call w).1.
Definition later (w : redis_sim) : redis_sim := mkSim (sim_up w) (sim_time w + 500000) (sim_keys w).

Abbreviation sim_grpc_traffic := (grpc_traffic sim_time sim_key 2 3 Second sim_unary).

Lemma sim_call_step w b log w2 :
  is_ok (gcra_Run Background "rl:grpc:ip:10.0.0.9:51000" 2 Second 3 w).2 = true →
  b = (serve_grpc 2 3 Second sim_unary sim_call w).2 →
  sim_grpc_traffic (call_at w) log w2 →
  sim_grpc_traffic w (("rl:grpc:ip:10.0.0.9:51000", b) :: log) w2.
Proof.
  intros Hr -> Ht. exact (traffic_request _ _ _ _ _ _ _ _ _ w sim_call log w2 Hr Ht).
Qed.

Definition grpc_start : redis_sim := mkSim true 0 ∅.
Definition grpc_end : redis_sim := call_at (later (call_at (call_at (call_at (call_at grpc_start))))).
Definition grpc_log : list (string * bool) :=
  [("rl:grpc:ip:10.0.0.9:51000", true); ("rl:grpc:ip:10.0.0.9:51000", true); ("rl:grpc:ip:10.0.0.9:51000", true);
   ("rl:grpc:ip:10.0.0.9:51000", false); ("rl:grpc:ip:10.0.0.9:51000", true)].

Lemma later_quiet w : quiet sim_time sim_key id w (later w).
Proof. split; [done|cbn; lia]. Qed.

Lemma sim_calls : sim_grpc_traffic grpc_start grpc_log grpc_end.
Proof.
  do 4 (apply sim_call_step; [vm_compute; reflexivity..|]).
  eapply traffic_idle; [apply later_quiet|].
  apply sim_call_step; [vm_compute; reflexivity..|]. unfold grpc_end. apply traffic_done.
Qed.

Lemma grpc_rate_enforced_witness :
  let t1 := sim_time grpc_end in
  (inject_Z 4 * (T 2 (period_exact Second) - margin 2 3 Second t1)
   <= (secs t1 - secs 0) + inject_Z 3 * T 2 (period_exact Second) + margin 2 3 Second t1)%Q
  ∧ passed "rl:grpc:ip:10.0.0.9:51000" grpc_log = 4%nat.
Proof.
  split; [|reflexivity].
  apply (grpc_rate_enforced sim_time sim_key 2 3 Second sim_unary ltac:(lia) ltac:(lia) ltac:(done)) with
    (k := "rl:grpc:ip:10.0.0.9:51000") (w := grpc_start) (log := grpc_log);
    [|exact sim_calls|vm_compute; reflexivity|].
  - intros ctx rq g. split; [reflexivity|cbn; lia].
  - split; [done|]. by apply empty_key_sound.
Defined.
