(* ===== verification/Auth.v ===== *)
(** [server/middleware/auth.go] and [server/middleware/strategy_jwt.go]: the
    authentication middleware for HTTP and gRPC, and its JWT strategy. *)

From Stdlib Require Import QArith.
From S2P Require Import Prelude GoErrors Contextx GoStrings Json Http Response Gcra GcraFacts RateLimit Middleware Grpc.

Open Scope string_scope.
Open Scope list_scope.

(** The order in which a [range] statement visits a map. *)
Class RangeOrder (V : Type) : Type := {
  range_of : gmap string V → list (string * V);
  range_of_perm m : range_of m ≡ₚ map_to_list m;
}.

(** ** Payloads *)

Record AuthPayload : Type := mkPayload {
  ap_Headers : gmap string string;
  ap_RemoteAddr : string;
  ap_Method : string;
  ap_Path : string;
}.

(** [headers[http.CanonicalHeaderKey(k)] = v[0]] for every key that has a value. *)
Definition canonical_headers (l : list (string * list string)) : gmap string string :=
  foldl (λ headers kv,
    match kv.2 with v :: _ => <[CanonicalHeaderKey kv.1 := v]> headers | [] => headers end) ∅ l.

Definition GetHeader `{!Unicode, !RangeOrder string} (p : AuthPayload) (key : string) : string :=
  match ap_Headers p !! CanonicalHeaderKey key with
  | Some v => v
  | None =>
      let key := ToLower key in
      match List.find (λ kv, bool_decide (ToLower kv.1 = key)) (range_of (ap_Headers p)) with
      | Some (_, v) => v
      | None => ""
      end
  end.

(** ** Strategies *)

(** [AuthStrategy]: the context on success. *)
Definition AuthStrategy (W : Type) : Type :=
  context → AuthPayload → Go W hevent (result context error).

Section middleware.
Context {W req resp : Type} {RO : RangeOrder (list string)}.

(** A call that works on the world alone. *)
Definition on_go {A} (m : Go W hevent A) : HandlerM W A := λ h,
  let ρ := m (h_world h) in mkRun (mkH (h_resp h) (h_recorders h) (post ρ)) (trace ρ) (out ρ).
Definition g_on_go {A} (m : Go W hevent A) : GrpcM W A := λ g,
  let ρ := m (g_world g) in mkRun (mkG (g_header g) (post ρ)) (trace ρ) (out ρ).

Definition http_payload (r : Request) : AuthPayload :=
  mkPayload (canonical_headers (range_of (req_header r))) (req_remoteAddr r) (req_method r) (req_path r).

Definition HTTPMiddleware (strategy : AuthStrategy W) (next : Handler W) : Handler W := λ r,
  let ctx := WithEntryPoint (req_ctx r) "http" in
  res ← on_go (strategy ctx (http_payload r));
  match res with
  | Err err => http_Error (error_text err) StatusUnauthorized
  | Ok ctx => next (WithContext r ctx)
  end.

Definition GRPCUnaryInterceptor `{!GrpcContext} (strategy : AuthStrategy W) :
    UnaryServerInterceptor W req resp := λ ctx rq info handler,
  let ctx := WithEntryPoint ctx "grpc" in
  match FromIncomingContext ctx with
  | None => mret (Err (StatusError codes_Unauthenticated "metadata is not provided"))
  | Some md =>
      let headers := canonical_headers (range_of md) in
      let remoteAddr := default "0.0.0.0:0" (peer_Addr ctx) in
      let payload := mkPayload headers remoteAddr (FullMethod info) (FullMethod info) in
      res ← g_on_go (strategy ctx payload);
      match res with
      | Err err => mret (Err (StatusError codes_Unauthenticated (error_text err)))
      | Ok newCtx => handler newCtx rq
      end
  end.

Lemma on_go_run {A B} (m : Go W hevent A) (k : A → HandlerM W B) h w tr a :
  m (h_world h) = mkRun w tr (Ret a) →
  (on_go m ≫= k) h = after tr (k a (mkH (h_resp h) (h_recorders h) w)).
Proof. intros H. apply run_bind. unfold on_go. by rewrite H. Qed.

Lemma g_on_go_run {A B} (m : Go W hevent A) (k : A → GrpcM W B) g w tr a :
  m (g_world g) = mkRun w tr (Ret a) → (g_on_go m ≫= k) g = after tr (k a (mkG (g_header g) w)).
Proof. intros H. apply run_bind. unfold g_on_go. by rewrite H. Qed.

End middleware.

(** ** The JWT strategy *)

(** [crypto/claims.go]; times in nanoseconds. *)
Record HelixClaims : Type := mkClaims {
  Issuer : string;
  Subject : string;
  ExpiresAt : option Z;
  NotBefore : option Z;
  Scope : string;
  Roles : list string;
  Sid : string;
}.

(** The interface [crypto.JWKSVerifier]. *)
Class JWKSVerifier (W : Type) : Type := {
  VerifyToken : string → Go W hevent (result HelixClaims error);
}.

Section jwt.
Context {W : Type} {UC : Unicode} {ROs : RangeOrder string} {JV : JWKSVerifier W}.

Definition Authenticate : AuthStrategy W := λ ctx payload,
  let authHeader := GetHeader payload "Authorization" in
  if bool_decide (authHeader = "") then mret (Err (errors_New "missing authorization header"))
  else
    match Split authHeader " "%char with
    | [scheme; tokenStr] =>
        if bool_decide (scheme = "Bearer") then
          res ← VerifyToken tokenStr;
          match res with
          | Err err =>
              emit (HLog "WARN" "JWT verification failed"
                [("error", AOther (error_text err)); ("ip", AString (ap_RemoteAddr payload))]);;
              mret (Err (errors_New "invalid token"))
          | Ok claims =>
              let ctx := if bool_decide (Subject claims = "") then ctx
                         else WithAuthPrincipalID ctx (Subject claims) in
              let ctx := if bool_decide (Sid claims = "") then ctx
                         else WithAuthSessionID ctx (Sid claims) in
              mret (Ok ctx)
          end
        else mret (Err (errors_New "invalid authorization header format"))
    | _ => mret (Err (errors_New "invalid authorization header format"))
    end.

(** The token of an [Authorization] header. *)
Inductive bearer_token : string → string → Prop :=
| bearer tokenStr : " "%char ∉ bytes_of tokenStr → bearer_token ("Bearer " +:+ tokenStr) tokenStr.

Definition auth_ctx (ctx : context) (claims : HelixClaims) : context :=
  let ctx := if bool_decide (Subject claims = "") then ctx else WithAuthPrincipalID ctx (Subject claims) in
  if bool_decide (Sid claims = "") then ctx else WithAuthSessionID ctx (Sid claims).

Lemma split_two s a b :
  Split s " "%char = [a; b] → s = a +:+ " " +:+ b ∧ " "%char ∉ bytes_of b.
Proof.
  unfold Split. intros H. pose proof (join_split " "%char (bytes_of s)) as Hj.
  pose proof (split_no_sep " "%char (bytes_of s)) as Hn.
  destruct (split_bytes " "%char (bytes_of s)) as [|p [|q [|]]]; simplify_eq/=.
  rewrite <- (of_bytes_of s), <- Hj. split; [|rewrite bytes_of_of; by inversion Hn as [|?? ? Hq]; inversion Hq].
  clear. induction p as [|c p IH]; [done|]. change (String c (of_bytes (p ++ " "%char :: q)) =
    String c (of_bytes p +:+ " " +:+ of_bytes q)). by f_equal.
Qed.

(** A context is returned only for a token the verifier accepts. *)
Lemma authenticate_ok ctx payload w w' tr ctx' :
  Authenticate ctx payload w = mkRun w' tr (Ret (Ok ctx')) →
  ∃ tokenStr claims,
    bearer_token (GetHeader payload "Authorization") tokenStr
    ∧ VerifyToken tokenStr w = mkRun w' tr (Ret (Ok claims)) ∧ ctx' = auth_ctx ctx claims.
Proof.
  unfold Authenticate. destruct (bool_decide _); [by intros [=]|].
  destruct (Split _ _) as [|scheme [|tokenStr [|]]] eqn:Es; try (by intros [=]).
  destruct (bool_decide (scheme = "Bearer")) eqn:E; [|by intros [=]].
  apply bool_decide_eq_true in E as ->. intros H. exists tokenStr.
  apply split_two in Es as [-> Hns]. unfold mbind, go_bind in H.
  destruct (VerifyToken tokenStr w) as [w1 t1 [[claims|err]| |]]; try done.
  exists claims. cbn in H. rewrite app_nil_r in H. simplify_eq. split_and!; [by constructor|done..].
Qed.

(** A token in a well-formed header reaches the verifier. *)
Lemma split_app_bytes (p q : list ascii) :
  " "%char ∉ p → " "%char ∉ q → split_bytes " "%char (p ++ " "%char :: q) = [p; q].
Proof.
  intros Hp Hq.
  assert (split_bytes " "%char q = [q]) as Hsq.
  { induction q as [|c q IH]; [done|]. apply not_elem_of_cons in Hq as [Hc Hq]. cbn.
    destruct (Ascii.eqb_spec c " "%char) as [->|]; [done|]. by rewrite IH. }
  induction p as [|c p IH]; cbn; [by rewrite Hsq|].
  apply not_elem_of_cons in Hp as [Hc Hp]. destruct (Ascii.eqb_spec c " "%char) as [->|]; [done|].
  by rewrite IH.
Qed.

Lemma authenticate_bearer ctx payload tokenStr w w' tr claims :
  GetHeader payload "Authorization" = "Bearer " +:+ tokenStr → " "%char ∉ bytes_of tokenStr →
  VerifyToken tokenStr w = mkRun w' tr (Ret (Ok claims)) →
  Authenticate ctx payload w = mkRun w' tr (Ret (Ok (auth_ctx ctx claims))).
Proof.
  intros Hh Hns Hv. unfold Authenticate. rewrite Hh.
  rewrite bool_decide_eq_false_2 by done.
  assert (Split ("Bearer " +:+ tokenStr) " "%char = ["Bearer"; tokenStr]) as ->.
  { unfold Split. change (bytes_of ("Bearer " +:+ tokenStr))
      with (bytes_of "Bearer" ++ " "%char :: bytes_of tokenStr).
    rewrite split_app_bytes by (done || by_compute). cbn. by rewrite of_bytes_of. }
  rewrite bool_decide_eq_true_2 by done. rewrite (run_bind _ _ _ _ _ _ Hv).
  unfold after. cbn. by rewrite app_nil_r.
Qed.

End jwt.

(** ** Headers *)

Lemma lower_of_case u c : lower_ascii (if (u : bool) then upper_ascii c else lower_ascii c) = lower_ascii c.
Proof. destruct u, c as [[] [] [] [] [] [] [] []]; vm_compute; reflexivity. Qed.

Lemma lower_canonical u l : map lower_ascii (canonical_bytes u l) = map lower_ascii l.
Proof.
  revert u. induction l as [|c l IH]; intros u; [done|]. cbn [canonical_bytes map].
  by rewrite lower_of_case, IH.
Qed.

(** Lower-case keys have distinct canonical forms. *)
Lemma canonical_lower_inj k k' :
  map_bytes lower_ascii k = k → map_bytes lower_ascii k' = k' →
  forallb valid_header_byte (bytes_of k') = true →
  CanonicalHeaderKey k = CanonicalHeaderKey k' → k = k'.
Proof.
  intros Hk Hk' Hv H. unfold CanonicalHeaderKey in H. rewrite Hv in H.
  assert (k' = map_bytes lower_ascii (of_bytes (canonical_bytes true (bytes_of k')))) as ->.
  { unfold map_bytes in *. by rewrite bytes_of_of, lower_canonical. }
  destruct (forallb valid_header_byte (bytes_of k)).
  - rewrite <- H. unfold map_bytes in *. by rewrite bytes_of_of, lower_canonical.
  - by rewrite <- H, Hk.
Qed.

(** A key is found under its canonical form when no other key has that form,
    whatever the order the map is visited in. *)
Lemma canonical_headers_snoc l kv :
  canonical_headers (l ++ [kv])
  = match kv.2 with
    | v :: _ => <[CanonicalHeaderKey kv.1 := v]> (canonical_headers l) | [] => canonical_headers l end.
Proof. unfold canonical_headers. by rewrite foldl_app. Qed.

Lemma canonical_headers_lookup l k v vs :
  NoDup l.*1 → (k, v :: vs) ∈ l →
  (∀ k' vs', (k', vs') ∈ l → CanonicalHeaderKey k' = CanonicalHeaderKey k → k' = k) →
  canonical_headers l !! CanonicalHeaderKey k = Some v.
Proof.
  induction l as [|[k1 vs1] l IH] using rev_ind; intros Hnd Hin Huniq; [by apply not_elem_of_nil in Hin|].
  rewrite canonical_headers_snoc. rewrite fmap_app in Hnd.
  apply NoDup_app in Hnd as (Hnd & Hdis & _).
  apply elem_of_app in Hin as [Hin|Hin%list_elem_of_singleton].
  - assert (CanonicalHeaderKey k1 ≠ CanonicalHeaderKey k) as Hne.
    { intros Heq. apply (Hdis k); [apply list_elem_of_fmap; by exists (k, v :: vs)|].
      rewrite <- (Huniq k1 vs1); [left|set_solver|done]. }
    assert (canonical_headers l !! CanonicalHeaderKey k = Some v) as Hl.
    { apply IH; [done..|]. intros k' vs' Hk'. apply (Huniq k' vs'). set_solver. }
    destruct vs1 as [|v1 vs1]; cbn; [done|]. by rewrite lookup_insert_ne.
  - simplify_eq. cbn. by rewrite lookup_insert, decide_True.
Qed.

Lemma canonical_headers_range {RO : RangeOrder (list string)} (m : gmap string (list string)) k v vs :
  m !! k = Some (v :: vs) →
  (∀ k', is_Some (m !! k') → CanonicalHeaderKey k' = CanonicalHeaderKey k → k' = k) →
  canonical_headers (range_of m) !! CanonicalHeaderKey k = Some v.
Proof.
  intros Hm Huniq. pose proof (range_of_perm m) as Hp.
  eapply canonical_headers_lookup.
  - rewrite Hp. apply NoDup_fst_map_to_list.
  - rewrite Hp. by apply elem_of_map_to_list.
  - intros k' vs' Hin. rewrite Hp in Hin. apply elem_of_map_to_list in Hin. apply Huniq. by eexists.
Qed.

(** ** Who gets through *)

Section properties.
Context {W req resp : Type} {UC : Unicode} {ROs : RangeOrder string} {RO : RangeOrder (list string)}.
Context {JV : JWKSVerifier W} {GC : GrpcContext}.

(** The verifier answers. *)
Hypothesis verifier_returns : ∀ t w, ∃ w' tr res, VerifyToken t w = mkRun w' tr (Ret res).

Lemma authenticate_returns ctx payload w :
  ∃ w' tr res, Authenticate ctx payload w = mkRun w' tr (Ret res).
Proof.
  unfold Authenticate. destruct (bool_decide _); [by do 3 eexists|].
  destruct (Split _ _) as [|scheme [|tokenStr [|]]]; try by do 3 eexists.
  destruct (bool_decide _); [|by do 3 eexists].
  destruct (verifier_returns tokenStr w) as (w' & tr & res & Hv).
  rewrite (run_bind _ _ _ _ _ _ Hv). destruct res; by do 3 eexists.
Qed.

(** Only a verified token gets a request to the handler. *)
Lemma http_auth_cases (next : Handler W) r h :
  resp_sent (h_resp h) = None →
  (∃ tokenStr claims w' tr,
     bearer_token (GetHeader (http_payload r) "Authorization") tokenStr
     ∧ VerifyToken tokenStr (h_world h) = mkRun w' tr (Ret (Ok claims))
     ∧ HTTPMiddleware Authenticate next r h
       = after tr (next (WithContext r (auth_ctx (WithEntryPoint (req_ctx r) "http") claims))
                     (mkH (h_resp h) (h_recorders h) w')))
  ∨ ∃ w' tr msg,
      HTTPMiddleware Authenticate next r h
      = mkRun (mkH (error_response msg 401 (h_resp h)) ((λ _, 401%Z) <$> h_recorders h) w') tr (Ret ()).
Proof.
  intros Hs. unfold HTTPMiddleware.
  destruct (authenticate_returns (WithEntryPoint (req_ctx r) "http") (http_payload r) (h_world h))
    as (w' & tr & [ctx'|err] & Ha); rewrite (on_go_run _ _ _ _ _ _ Ha).
  - left. apply authenticate_ok in Ha as (tokenStr & claims & Hb & Hv & ->).
    by exists tokenStr, claims, w', tr.
  - right. exists w', tr, (error_text err). rewrite http_Error_run by done.
    unfold after. cbn [post trace out h_recorders h_resp h_world]. by rewrite app_nil_r.
Qed.

(** A request with a token the verifier accepts reaches the handler. *)
Theorem http_auth_complete (next : Handler W) r h tokenStr vs claims w' tr :
  req_header r !! "Authorization" = Some (("Bearer " +:+ tokenStr) :: vs) →
  (∀ k, is_Some (req_header r !! k) → CanonicalHeaderKey k = k) →
  " "%char ∉ bytes_of tokenStr →
  VerifyToken tokenStr (h_world h) = mkRun w' tr (Ret (Ok claims)) →
  HTTPMiddleware Authenticate next r h
  = after tr (next (WithContext r (auth_ctx (WithEntryPoint (req_ctx r) "http") claims))
                (mkH (h_resp h) (h_recorders h) w')).
Proof.
  intros Hh Hcan Hns Hv.
  assert (Authenticate (WithEntryPoint (req_ctx r) "http") (http_payload r) (h_world h)
    = mkRun w' tr (Ret (Ok (auth_ctx (WithEntryPoint (req_ctx r) "http") claims)))) as Ha.
  { apply (authenticate_bearer _ _ tokenStr); [|done|done]. unfold GetHeader, http_payload.
    cbn [ap_Headers]. rewrite (canonical_headers_range _ "Authorization" _ _ Hh); [done|].
    intros k' Hk' Heq. rewrite (Hcan _ Hk') in Heq. by rewrite Heq. }
  unfold HTTPMiddleware. by rewrite (on_go_run _ _ _ _ _ _ Ha).
Qed.

Definition grpc_payload (ctx : context) (info : UnaryServerInfo) (md : gmap string (list string)) :
    AuthPayload :=
  mkPayload (canonical_headers (range_of md)) (default "0.0.0.0:0" (peer_Addr ctx))
    (FullMethod info) (FullMethod info).

(** The same for a call. *)
Lemma grpc_auth_cases ctx rq info (handler : UnaryHandler W req resp) g :
  let ctx1 := WithEntryPoint ctx "grpc" in
  (∃ md tokenStr claims w' tr,
     FromIncomingContext ctx1 = Some md
     ∧ bearer_token (GetHeader (grpc_payload ctx1 info md) "Authorization") tokenStr
     ∧ VerifyToken tokenStr (g_world g) = mkRun w' tr (Ret (Ok claims))
     ∧ GRPCUnaryInterceptor Authenticate ctx rq info handler g
       = after tr (handler (auth_ctx ctx1 claims) rq (mkG (g_header g) w')))
  ∨ ∃ w' tr msg,
      GRPCUnaryInterceptor Authenticate ctx rq info handler g
      = mkRun (mkG (g_header g) w') tr (Ret (Err (StatusError codes_Unauthenticated msg))).
Proof.
  intros ctx1. unfold GRPCUnaryInterceptor. fold ctx1.
  destruct (FromIncomingContext ctx1) as [md|];
    [|right; exists (g_world g), [], "metadata is not provided"; by destruct g].
  fold (grpc_payload ctx1 info md).
  destruct (authenticate_returns ctx1 (grpc_payload ctx1 info md) (g_world g))
    as (w' & tr & [ctx'|err] & Ha); rewrite (g_on_go_run _ _ _ _ _ _ Ha).
  - left. apply authenticate_ok in Ha as (tokenStr & claims & Hb & Hv & ->).
    by exists md, tokenStr, claims, w', tr.
  - right. exists w', tr, (error_text err). unfold after. cbn. by rewrite app_nil_r.
Qed.

(** A unary call whose metadata (lower-case keys, visited in any order) has an
    authorization entry Bearer and a token the verifier accepts reaches its handler
    with the token's identity, although the strategy asks for the header in its HTTP
    spelling. *)
Theorem grpc_auth_complete {GCL : GrpcContextLaws} ctx rq info (handler : UnaryHandler W req resp) g
    md tokenStr vs claims w' tr :
  FromIncomingContext ctx = Some md →
  md !! "authorization" = Some (("Bearer " +:+ tokenStr) :: vs) →
  (∀ k, is_Some (md !! k) → map_bytes lower_ascii k = k) →
  " "%char ∉ bytes_of tokenStr →
  VerifyToken tokenStr (g_world g) = mkRun w' tr (Ret (Ok claims)) →
  GRPCUnaryInterceptor Authenticate ctx rq info handler g
  = after tr (handler (auth_ctx (WithEntryPoint ctx "grpc") claims) rq (mkG (g_header g) w')).
Proof.
  intros Hmd Hh Hlow Hns Hv. unfold GRPCUnaryInterceptor, WithEntryPoint, EntryPointKey.
  rewrite incoming_other, Hmd. set (ctx1 := WithValue ctx _ _).
  fold (grpc_payload ctx1 info md).
  assert (Authenticate ctx1 (grpc_payload ctx1 info md) (g_world g)
    = mkRun w' tr (Ret (Ok (auth_ctx ctx1 claims)))) as Ha.
  { apply (authenticate_bearer _ _ tokenStr); [|done|done]. unfold GetHeader, grpc_payload.
    cbn [ap_Headers]. change (CanonicalHeaderKey "Authorization") with (CanonicalHeaderKey "authorization").
    rewrite (canonical_headers_range _ "authorization" _ _ Hh); [done|].
    intros k' Hk' Heq. apply canonical_lower_inj; [by apply Hlow|by_compute|by_compute|done]. }
  by rewrite (g_on_go_run _ _ _ _ _ _ Ha).
Qed.

End properties.
