(* ===== verification/AuthRate.v ===== *)
(** The authentication middleware in front of the rate limiter: the requests of one
    authenticated principal are counted together, whatever addresses and headers
    they come with. *)

From Stdlib Require Import QArith Lqa SpecFloat.
From S2P Require Import Prelude GoErrors Contextx GoStrings Json Http Response Gcra GcraFacts Binary64 GcraFloat RateLimit RateWindow RateLimitFacts Middleware Grpc Auth.

Open Scope string_scope.
Open Scope list_scope.

(** The key of an authenticated request is its principal's. *)
Lemma rate_key_principal r ctx u :
  GetAuthPrincipalID (Some ctx) = u → u ≠ "" → rate_key (WithContext r ctx) = "rl:user:" +:+ u.
Proof.
  unfold GetAuthPrincipalID, getString, rate_key, rate_identity. cbn [req_ctx WithContext].
  destruct (Value ctx AuthPrincipalIDKey) as [[]|]; by intros <-.
Qed.

Section chain.
Context {W lim : Type} {GS : GcraService W} {XR : XRate lim}.
Abbreviation World := (rl_world lim W).
Context {cell : Type} {RK : RedisKey spec_float cell} {RL : RedisKeyLaws spec_float cell}.
Context (redis_time : W → Z) (redis_key : W → string → cell).
Context {GL : GcraServiceLaws W cell redis_time redis_key}.
Context {UC : Unicode} {RO : RangeOrder (list string)} {ROs : RangeOrder string} {JV : JWKSVerifier World}.
Context (rps burst period : Z) (next : Handler World).

Abbreviation quiet := (quiet redis_time redis_key (rl_rest (lim := lim))).

(** A verifier leaves the limiter's keys alone, and does not call the handler. *)
Class QuietVerifier : Prop := {
  verify_quiet tok (w : World) : quiet w (post (VerifyToken tok w));
  verify_unmarked tok (w : World) : HCount ["next"] ∉ trace (VerifyToken tok w);
}.

(** [HTTPMiddleware(strategy)(RateLimitMiddleware(...)(next))] *)
Definition chain : Handler World := HTTPMiddleware Authenticate (limited rps burst period next).

(** What the strategy makes of a request. *)
Definition authenticated (r : Request) (w : World) : run World hevent (result context error) :=
  Authenticate (WithEntryPoint (req_ctx r) "http") (http_payload r) w.

Abbreviation served r recs w := (chain r (mkH fresh_response recs w)).
Abbreviation answers ctx r w := (is_ok (gcra_Run ctx (rate_key (WithContext r ctx)) rps period burst (rl_rest w)).2).

(** Requests of any clients, in some order, with other activity in between. The log
    has the principal of each request that Redis decided, and whether it reached the
    handler. *)
Inductive chain_traffic : World → list (string * bool) → World → Prop :=
| chain_done w : chain_traffic w [] w
| chain_idle w w1 log w2 : quiet w w1 → chain_traffic w1 log w2 → chain_traffic w log w2
| chain_decided w r recs ctx log w2 :
    out (authenticated r w) = Ret (Ok ctx) → answers ctx r (post (authenticated r w)) = true →
    chain_traffic (h_world (post (served r recs w))) log w2 →
    chain_traffic w ((GetAuthPrincipalID (Some ctx), reached (served r recs w)) :: log) w2
| chain_fallback w r recs ctx log w2 :
    out (authenticated r w) = Ret (Ok ctx) → answers ctx r (post (authenticated r w)) = false →
    chain_traffic (h_world (post (served r recs w))) log w2 → chain_traffic w log w2
| chain_refused w r recs log w2 :
    (∀ ctx, out (authenticated r w) ≠ Ret (Ok ctx)) →
    chain_traffic (h_world (post (served r recs w))) log w2 → chain_traffic w log w2.

Context {QV : QuietVerifier}.
Hypothesis rps_ok : (0 < rps < 2 ^ 52)%Z.
Hypothesis burst_ok : (0 ≤ burst ≤ 2 * rps)%Z.
Hypothesis period_ok : (0 < period < 2 ^ 63)%Z.
Hypothesis next_quiet : ∀ r h, quiet (h_world h) (h_world (post (next r h))).

Lemma quiet_refl w : quiet w w.
Proof. split; [done|lia]. Qed.

(** The strategy only asks the verifier. *)
Lemma authenticated_effects r w :
  quiet w (post (authenticated r w)) ∧ HCount ["next"] ∉ trace (authenticated r w).
Proof.
  assert (∀ e, let ρ := (mret (Err e) : Go World hevent (result context error)) w in
    quiet w (post ρ) ∧ HCount ["next"] ∉ trace ρ) as Hnone.
  { intros e. split; [apply quiet_refl|by apply not_elem_of_nil]. }
  unfold authenticated, Authenticate. destruct (bool_decide _); [apply Hnone|].
  destruct (Split _ _) as [|scheme [|tok [|]]]; try apply Hnone. destruct (bool_decide _); [|apply Hnone].
  pose proof (verify_quiet tok w) as Hq. pose proof (verify_unmarked tok w) as Hm. unfold mbind, go_bind.
  destruct (VerifyToken tok w) as [w1 tr [[claims|e]|v|]]; cbn in *; try done; [by rewrite app_nil_r|].
  split; [done|]. rewrite not_elem_of_app. split; [done|]. rewrite list_elem_of_singleton. done.
Qed.

(** The chain is the limiter on the authenticated request, or an answer of its own. *)
Lemma served_authenticated r recs w ctx :
  out (authenticated r w) = Ret (Ok ctx) →
  let w1 := post (authenticated r w) in
  quiet w w1
  ∧ h_world (post (served r recs w)) = (serve_http rps burst period next (WithContext r ctx, recs) w1).1
  ∧ reached (served r recs w) = (serve_http rps burst period next (WithContext r ctx, recs) w1).2.
Proof.
  intros Ho. destruct (authenticated_effects r w) as [Hq Hm]. split; [done|].
  unfold chain, HTTPMiddleware. cbn zeta.
  destruct (authenticated r w) as [w1 tr o] eqn:Ea. cbn in Ho, Hm. subst o.
  rewrite (on_go_run _ _ _ w1 tr (Ok ctx)) by exact Ea. cbn [h_resp h_recorders post].
  unfold serve_http. cbn [fst snd]. split; [done|]. unfold reached, after. cbn [trace].
  apply bool_decide_ext. rewrite elem_of_app. tauto.
Qed.

Lemma served_refused r recs w :
  (∀ ctx, out (authenticated r w) ≠ Ret (Ok ctx)) → quiet w (h_world (post (served r recs w))).
Proof.
  intros Ho. destruct (authenticated_effects r w) as [Hq _].
  unfold chain, HTTPMiddleware. cbn zeta. unfold mbind, go_bind, on_go. cbn [h_world].
  fold (authenticated r w). destruct (authenticated r w) as [w1 tr [[ctx|e]|v|]] eqn:Ea; cbn in *; try done.
  by destruct (Ho ctx).
Qed.

(** The limiter behind the authentication sees the traffic of its own clients. *)
Lemma chain_http_traffic w log w2 :
  chain_traffic w log w2 →
  ∃ log', http_traffic redis_time redis_key rps burst period next w log' w2
    ∧ ∀ u, u ≠ "" → (passed u log ≤ passed ("rl:user:" +:+ u) log')%nat.
Proof.
  induction 1 as [w|w w1 log w2 Hq _ (log' & IH & Hp)|w r recs ctx log w2 Ho Ha _ (log' & IH & Hp)
    |w r recs ctx log w2 Ho Ha _ (log' & IH & Hp)|w r recs log w2 Ho _ (log' & IH & Hp)].
  - exists []. split; [apply traffic_done|done].
  - exists log'. split; [by eapply traffic_idle|done].
  - destruct (served_authenticated r recs w ctx Ho) as (Hq & Hw & Hr). rewrite Hw in IH. rewrite Hr.
    set (rq := (WithContext r ctx, recs)) in *. set (w1 := post (authenticated r w)) in *.
    exists ((rate_key rq.1, (serve_http rps burst period next rq w1).2) :: log'). split.
    + eapply traffic_idle; [exact Hq|].
      exact (traffic_request redis_time redis_key rl_rest (λ rq, req_ctx rq.1) (λ rq, rate_key rq.1)
               rps burst period (serve_http rps burst period next) w1 rq log' w2 Ha IH).
    + intros u Hu. unfold passed. rewrite !filter_cons. specialize (Hp u Hu). unfold passed in Hp.
      destruct (decide (_ = (u, true))) as [[Hc Hb]%pair_equal_spec|].
      * rewrite decide_True; [cbn; lia|]. rewrite Hb. f_equal. by apply (rate_key_principal r ctx u).
      * destruct (decide _); cbn; lia.
  - destruct (served_authenticated r recs w ctx Ho) as (Hq & Hw & Hr). rewrite Hw in IH.
    exists log'. split; [|done]. eapply traffic_idle; [exact Hq|].
    exact (traffic_fallback redis_time redis_key rl_rest (λ rq, req_ctx rq.1) (λ rq, rate_key rq.1)
             rps burst period (serve_http rps burst period next) _ (WithContext r ctx, recs) log' w2 Ha IH).
  - exists log'. split; [|done]. eapply traffic_idle; [by apply served_refused|done].
Qed.

(** C15: With the authentication middleware in front of the rate limiter, the number
    of requests of one authenticated principal that Redis lets through to the
    handler between two moments, times the emission interval less a rounding margin,
    is at most the elapsed time plus the burst's emission intervals plus the margin,
    whatever addresses, headers and tokens they come with and however the requests
    of all clients interleave, with Redis running the script in binary64 (under the
    bounds of the HTTP limiter's theorem). *)
Theorem principal_rate_enforced u w log w2 :
  u ≠ "" → chain_traffic w log w2 → (redis_time (rl_rest w2) < 2 ^ 70)%Z →
  sound redis_time redis_key rl_rest ("rl:user:" +:+ u) w →
  let T := T rps (period_exact period) in
  let t0 := redis_time (rl_rest w) in
  let t1 := redis_time (rl_rest w2) in
  (inject_Z (Z.of_nat (passed u log)) * (T - margin rps burst period t1)
   <= (secs t1 - secs t0) + inject_Z burst * T + margin rps burst period t1)%Q.
Proof.
  intros Hu Htr Hmax Hs. cbn zeta. destruct (chain_http_traffic w log w2 Htr) as (log' & Ht & Hle).
  by apply (http_window redis_time redis_key rps burst period next rps_ok burst_ok period_ok next_quiet
              ("rl:user:" +:+ u) _ w log' w2 (Hle u Hu) Ht Hmax Hs).
Qed.

End chain.

(** ** Requests that are not authenticated *)

(** A client that is not authenticated chooses the key it is counted on. *)
Theorem forwarded_for_chooses_key r s :
  Value (req_ctx r) AuthPrincipalIDKey = None → s ≠ "" → ","%char ∉ bytes_of s → TrimSpace s = s →
  rate_key (mkRequest (req_method r) (req_path r) (Header_Set "X-Forwarded-For" s (req_header r))
              (req_remoteAddr r) (req_ctx r)) = "rl:ip:" +:+ s.
Proof.
  intros Hv Hs Hc Ht. unfold rate_key, rate_identity. cbn [req_ctx]. rewrite Hv. unfold getRealIP.
  cbn [req_header]. rewrite Header_Get_Set, bool_decide_eq_false_2 by done. cbn [negb].
  assert (Split s ","%char = [s]) as ->; [|cbn [hd]; by rewrite Ht].
  unfold Split. assert (∀ l, ","%char ∉ l → split_bytes ","%char l = [l]) as Hl.
  { induction l as [|c l IH]; [done|]. intros [Hne Hn]%not_elem_of_cons. cbn.
    destruct (Ascii.eqb_spec c ","%char) as [->|]; [done|]. by rewrite IH. }
  rewrite Hl by done. cbn. by rewrite of_bytes_of.
Qed.
