(* ===== verification/Base64.v ===== *)
(** [encoding/base64]'s [RawURLEncoding] and the big-endian integers of
    [math/big], as [crypto/jwks_client.go] uses them. *)

From S2P Require Import Prelude GoStrings.

Open Scope list_scope.

(** ** The alphabet *)

Definition b64_char (z : Z) : ascii :=
  if (z <? 26)%Z then chr (65 + z)
  else if (z <? 52)%Z then chr (71 + z)
  else if (z <? 62)%Z then chr (z - 4)
  else if (z =? 62)%Z then "-"%char
  else "_"%char.

Definition b64_value (c : ascii) : option Z :=
  if is_upper c then Some (code c - 65)%Z
  else if is_lower c then Some (code c - 71)%Z
  else if is_digit c then Some (code c + 4)%Z
  else if Ascii.eqb c "-"%char then Some 62%Z
  else if Ascii.eqb c "_"%char then Some 63%Z
  else None.

Lemma b64_value_char z : (0 ≤ z < 64)%Z → b64_value (b64_char z) = Some z.
Proof.
  intros Hz.
  assert (Forall (λ n, b64_value (b64_char (Z.of_nat n)) = Some (Z.of_nat n)) (seq 0 64)) as H
    by (repeat (constructor; [vm_compute; reflexivity|]); constructor).
  rewrite Forall_forall in H. rewrite <- (Z2Nat.id z) by lia. apply H, elem_of_seq. lia.
Qed.

(** ** Encoding *)

Fixpoint b64_encode (l : list ascii) : list ascii :=
  match l with
  | [] => []
  | [a] =>
      let v := Z.shiftl (code a) 16 in
      [b64_char (Z.shiftr v 18); b64_char (Z.land (Z.shiftr v 12) 63)]
  | [a; b] =>
      let v := Z.lor (Z.shiftl (code a) 16) (Z.shiftl (code b) 8) in
      [b64_char (Z.shiftr v 18); b64_char (Z.land (Z.shiftr v 12) 63); b64_char (Z.land (Z.shiftr v 6) 63)]
  | a :: b :: c :: l =>
      let v := Z.lor (Z.lor (Z.shiftl (code a) 16) (Z.shiftl (code b) 8)) (code c) in
      b64_char (Z.shiftr v 18) :: b64_char (Z.land (Z.shiftr v 12) 63)
        :: b64_char (Z.land (Z.shiftr v 6) 63) :: b64_char (Z.land v 63) :: b64_encode l
  end.

(** ** Decoding *)

(** Newlines are skipped, every other byte is a digit; there is no padding. *)
Definition is_newline (c : ascii) : bool := Ascii.eqb c "010"%char || Ascii.eqb c "013"%char.

Definition b64_digits (l : list ascii) : option (list Z) :=
  mapM b64_value (List.filter (λ c, negb (is_newline c)) l).

Definition b64_word (a b c d : Z) : Z :=
  Z.lor (Z.lor (Z.shiftl a 18) (Z.shiftl b 12)) (Z.lor (Z.shiftl c 6) d).
Definition byte_at (v n : Z) : ascii := chr (Z.land (Z.shiftr v n) 255).

(** Groups of four digits; two or three digits may be left over, and the bits of
    the last one that belong to no byte are ignored. *)
Fixpoint b64_groups (ds : list Z) : option (list ascii) :=
  match ds with
  | [] => Some []
  | [_] => None
  | [a; b] => let v := b64_word a b 0 0 in Some [byte_at v 16]
  | [a; b; c] => let v := b64_word a b c 0 in Some [byte_at v 16; byte_at v 8]
  | a :: b :: c :: d :: ds =>
      let v := b64_word a b c d in
      rest ← b64_groups ds; Some (byte_at v 16 :: byte_at v 8 :: byte_at v 0 :: rest)
  end.

(** [base64.RawURLEncoding.DecodeString(s)], [None] for a [CorruptInputError]. *)
Definition RawURL_DecodeString (s : string) : option (list ascii) :=
  ds ← b64_digits (bytes_of s); b64_groups ds.

Definition RawURL_EncodeToString (l : list ascii) : string := of_bytes (b64_encode l).

Example b64_example :
  RawURL_DecodeString "AQAB" = Some (map chr [1; 0; 1]%Z)
  ∧ RawURL_DecodeString "AQ==" = None ∧ RawURL_DecodeString "A" = None
  ∧ RawURL_EncodeToString (map chr [251; 255]%Z) = "-_8"%string.
Proof. vm_compute. done. Qed.

(** ** Integers *)

(** [new(big.Int).SetBytes(bs)] *)
Definition SetBytes (bs : list ascii) : Z := foldl (λ n b, (n * 256 + code b)%Z) 0%Z bs.

Lemma SetBytes_snoc bs b : SetBytes (bs ++ [b]) = (SetBytes bs * 256 + code b)%Z.
Proof. unfold SetBytes. by rewrite foldl_app. Qed.

Lemma SetBytes_nonneg bs : (0 ≤ SetBytes bs)%Z.
Proof.
  induction bs as [|b bs IH] using rev_ind; [done|]. rewrite SetBytes_snoc.
  pose proof (code_range b). lia.
Qed.

(** [eVal = (eVal << 8) | int(b)] for each byte, on 64-bit integers. *)
Definition shift_in (e : Z) (b : ascii) : Z := wrap64 (Z.lor (wrap64 (Z.shiftl e 8)) (code b)).
Definition exponent (bs : list ascii) : Z := foldl shift_in 0%Z bs.

(** Bits below a shift add up. *)
Lemma lor_shift x y n : (0 ≤ n)%Z → (0 ≤ y < 2 ^ n)%Z → Z.lor (Z.shiftl x n) y = (x * 2 ^ n + y)%Z.
Proof.
  intros Hn Hy. rewrite Z.shiftl_mul_pow2 by lia.
  assert (Z.land (x * 2 ^ n) y = 0%Z) as Hd.
  { apply Z.bits_inj'. intros m Hm. rewrite Z.land_spec, Z.bits_0.
    destruct (Z.lt_ge_cases m n); [by rewrite Z.mul_pow2_bits_low|].
    apply andb_false_intro2. destruct (decide (y = 0%Z)) as [->|]; [apply Z.bits_0|].
    apply Z.bits_above_log2; [lia|]. apply Z.log2_lt_pow2; [lia|].
    apply Z.lt_le_trans with (2 ^ n)%Z; [lia|apply Z.pow_le_mono_r; lia]. }
  by rewrite <- Z.lxor_lor, <- Z.add_nocarry_lxor.
Qed.

Lemma lor_disjoint x b : (0 ≤ b < 256)%Z → Z.lor (x * 256) b = (x * 256 + b)%Z.
Proof. intros Hb. pose proof (lor_shift x b 8) as H. rewrite Z.shiftl_mul_pow2 in H by lia. by apply H. Qed.

Lemma wrap64_shift_in e b : shift_in (wrap64 e) b = wrap64 (e * 256 + code b).
Proof.
  pose proof (code_range b) as Hb. unfold shift_in.
  rewrite Z.shiftl_mul_pow2 by lia. change (2 ^ 8)%Z with 256%Z.
  assert (∃ x, wrap64 (wrap64 e * 256) = (x * 256)%Z ∧ ∃ q, (e * 256 = x * 256 + q * 2 ^ 64)%Z)
    as (x & Hx & q & Hq).
  { exists (wrap64 (wrap64 e * 256) / 256)%Z. unfold wrap64.
    set (e' := ((e + 2 ^ 63) mod 2 ^ 64 - 2 ^ 63)%Z).
    assert (∃ q1, e = (e' + q1 * 2 ^ 64)%Z) as [q1 He].
    { exists ((e + 2 ^ 63) / 2 ^ 64)%Z. unfold e'.
      pose proof (Z_div_mod_eq_full (e + 2 ^ 63) (2 ^ 64)). lia. }
    set (y := ((e' * 256 + 2 ^ 63) mod 2 ^ 64 - 2 ^ 63)%Z).
    assert (∃ q2, (e' * 256 = y + q2 * 2 ^ 64)%Z) as [q2 Hy].
    { exists ((e' * 256 + 2 ^ 63) / 2 ^ 64)%Z. unfold y.
      pose proof (Z_div_mod_eq_full (e' * 256 + 2 ^ 63) (2 ^ 64)). lia. }
    assert (y = (e' - q2 * 2 ^ 56) * 256)%Z as Hy' by lia.
    rewrite Hy', Z.div_mul by lia. split; [done|]. exists (q1 * 256 + q2)%Z. lia. }
  rewrite Hx, lor_disjoint by done. unfold wrap64.
  replace (e * 256 + code b + 2 ^ 63)%Z with (x * 256 + code b + 2 ^ 63 + q * 2 ^ 64)%Z by lia.
  by rewrite Z.mod_add by lia.
Qed.

(** The exponent is the integer of the bytes, wrapped. *)
Lemma exponent_wraps bs : exponent bs = wrap64 (SetBytes bs).
Proof.
  induction bs as [|b bs IH] using rev_ind; [done|].
  rewrite SetBytes_snoc. unfold exponent in *. rewrite foldl_app. cbn. by rewrite IH, wrap64_shift_in.
Qed.

(** ** The round trip *)

Lemma land_63 x : Z.land x 63 = (x mod 64)%Z.
Proof. change 63%Z with (Z.ones 6). by rewrite Z.land_ones by lia. Qed.
Lemma land_255 x : Z.land x 255 = (x mod 256)%Z.
Proof. change 255%Z with (Z.ones 8). by rewrite Z.land_ones by lia. Qed.

Lemma word_add a b c d :
  (0 ≤ b < 64)%Z → (0 ≤ c < 64)%Z → (0 ≤ d < 64)%Z →
  b64_word a b c d = (a * 2 ^ 18 + b * 2 ^ 12 + c * 2 ^ 6 + d)%Z.
Proof.
  intros Hb Hc Hd. unfold b64_word.
  rewrite (lor_shift c d) by lia. rewrite (Z.shiftl_mul_pow2 b 12) by lia.
  rewrite (lor_shift a (b * 2 ^ 12) 18) by lia.
  replace (a * 2 ^ 18 + b * 2 ^ 12)%Z with ((a * 64 + b) * 2 ^ 12)%Z by lia.
  rewrite <- (Z.shiftl_mul_pow2 (a * 64 + b) 12) by lia. rewrite lor_shift, Z.shiftl_mul_pow2 by lia. lia.
Qed.

(** The digits of a 24-bit word give it back. *)
Lemma word_digits v :
  (0 ≤ v < 2 ^ 24)%Z →
  b64_word (Z.shiftr v 18) (Z.land (Z.shiftr v 12) 63) (Z.land (Z.shiftr v 6) 63) (Z.land v 63) = v
  ∧ (0 ≤ Z.shiftr v 18 < 64)%Z ∧ (0 ≤ Z.land (Z.shiftr v 12) 63 < 64)%Z
  ∧ (0 ≤ Z.land (Z.shiftr v 6) 63 < 64)%Z ∧ (0 ≤ Z.land v 63 < 64)%Z.
Proof.
  intros Hv. rewrite !land_63, !Z.shiftr_div_pow2 by lia.
  change (2 ^ 18)%Z with 262144%Z. change (2 ^ 12)%Z with 4096%Z. change (2 ^ 6)%Z with 64%Z.
  change (2 ^ 24)%Z with 16777216%Z in Hv.
  split; [|Z.to_euclidean_division_equations; lia].
  rewrite word_add by (Z.to_euclidean_division_equations; lia).
  change (2 ^ 18)%Z with 262144%Z. change (2 ^ 12)%Z with 4096%Z. change (2 ^ 6)%Z with 64%Z.
  Z.to_euclidean_division_equations; lia.
Qed.

(** The word of three bytes, and its bytes. *)
Definition word3 (a b c : ascii) : Z := Z.lor (Z.lor (Z.shiftl (code a) 16) (Z.shiftl (code b) 8)) (code c).

Lemma word3_add a b c : word3 a b c = (code a * 65536 + code b * 256 + code c)%Z.
Proof.
  pose proof (code_range a). pose proof (code_range b). pose proof (code_range c). unfold word3.
  rewrite (Z.shiftl_mul_pow2 (code b) 8) by lia.
  rewrite (lor_shift (code a) (code b * 2 ^ 8) 16) by lia.
  replace (code a * 2 ^ 16 + code b * 2 ^ 8)%Z with ((code a * 256 + code b) * 256)%Z by lia.
  rewrite lor_disjoint by lia. lia.
Qed.

Lemma word3_bytes a b c :
  (0 ≤ word3 a b c < 2 ^ 24)%Z
  ∧ byte_at (word3 a b c) 16 = a ∧ byte_at (word3 a b c) 8 = b ∧ byte_at (word3 a b c) 0 = c.
Proof.
  pose proof (code_range a). pose proof (code_range b). pose proof (code_range c).
  rewrite word3_add. unfold byte_at. rewrite !land_255, !Z.shiftr_div_pow2 by lia.
  change (2 ^ 16)%Z with 65536%Z. change (2 ^ 8)%Z with 256%Z. change (2 ^ 0)%Z with 1%Z.
  split; [change (2 ^ 24)%Z with 16777216%Z; lia|].
  split_and!; rewrite <- chr_code; f_equal; Z.to_euclidean_division_equations; lia.
Qed.

Lemma b64_encode_digits l :
  ∃ ds, b64_encode l = map b64_char ds ∧ Forall (λ d, 0 ≤ d < 64)%Z ds ∧ b64_groups ds = Some l.
Proof.
  induction l as [l IH] using (induction_ltof1 _ (@length ascii)). unfold ltof in IH.
  destruct l as [|a [|b [|c l]]].
  - by exists [].
  - destruct (word3_bytes a "000"%char "000"%char) as (Hv & Ha & _).
    assert (word3 a "000"%char "000"%char = Z.shiftl (code a) 16) as Hw
      by (unfold word3; cbn; by rewrite !Z.lor_0_r).
    rewrite Hw in Hv, Ha. destruct (word_digits _ Hv) as (Hd & H1 & H2 & H3 & H4).
    exists [Z.shiftr (Z.shiftl (code a) 16) 18; Z.land (Z.shiftr (Z.shiftl (code a) 16) 12) 63].
    split_and!; [done|repeat constructor; lia|]. cbn -[Z.shiftr Z.shiftl Z.land byte_at b64_word].
    assert (Z.land (Z.shiftr (Z.shiftl (code a) 16) 6) 63 = 0 ∧ Z.land (Z.shiftl (code a) 16) 63 = 0)%Z
      as [E1 E2].
    { rewrite !land_63, Z.shiftr_div_pow2, Z.shiftl_mul_pow2 by lia.
      change (2 ^ 6)%Z with 64%Z. change (2 ^ 16)%Z with 65536%Z.
      split; Z.to_euclidean_division_equations; lia. }
    rewrite E1, E2 in Hd. by rewrite Hd, Ha.
  - destruct (word3_bytes a b "000"%char) as (Hv & Ha & Hb & _).
    assert (word3 a b "000"%char = Z.lor (Z.shiftl (code a) 16) (Z.shiftl (code b) 8)) as Hw
      by (unfold word3; cbn; by rewrite !Z.lor_0_r).
    assert (Z.land (word3 a b "000"%char) 63 = 0)%Z as E.
    { rewrite land_63, word3_add. change (code "000"%char) with 0%Z.
      Z.to_euclidean_division_equations; lia. }
    rewrite Hw in Hv, Ha, Hb, E. set (v := Z.lor _ _) in *.
    destruct (word_digits _ Hv) as (Hd & H1 & H2 & H3 & H4).
    exists [Z.shiftr v 18; Z.land (Z.shiftr v 12) 63; Z.land (Z.shiftr v 6) 63].
    split_and!; [done|repeat constructor; lia|]. cbn -[Z.shiftr Z.shiftl Z.land byte_at b64_word].
    rewrite E in Hd. by rewrite Hd, Ha, Hb.
  - destruct (IH l) as (ds & Hds & Hf & Hg); [cbn; lia|].
    destruct (word3_bytes a b c) as (Hv & Ha & Hb & Hc).
    destruct (word_digits _ Hv) as (Hd & H1 & H2 & H3 & H4). set (v := word3 a b c) in *.
    exists (Z.shiftr v 18 :: Z.land (Z.shiftr v 12) 63 :: Z.land (Z.shiftr v 6) 63 :: Z.land v 63 :: ds).
    split_and!.
    + cbn -[Z.shiftr Z.shiftl Z.land b64_char]. fold (word3 a b c). fold v. by rewrite Hds.
    + repeat (constructor; [lia|]). done.
    + cbn -[Z.shiftr Z.shiftl Z.land byte_at b64_word]. by rewrite Hg, Hd, Ha, Hb, Hc.
Qed.

Lemma b64_char_not_newline z : (0 ≤ z < 64)%Z → is_newline (b64_char z) = false.
Proof.
  intros Hz. pose proof (b64_value_char z Hz) as Hv.
  unfold is_newline. apply orb_false_iff. split; apply Ascii.eqb_neq; intros E; by rewrite E in Hv.
Qed.

Lemma b64_digits_encoded ds :
  Forall (λ d, 0 ≤ d < 64)%Z ds → b64_digits (map b64_char ds) = Some ds.
Proof.
  unfold b64_digits. induction 1 as [|d ds Hd _ IH]; [done|].
  cbn [map List.filter]. rewrite b64_char_not_newline by done. cbn [negb mapM].
  by rewrite b64_value_char, IH by done.
Qed.

(** Decoding what the encoder writes. *)
Lemma b64_decode_encode l : RawURL_DecodeString (RawURL_EncodeToString l) = Some l.
Proof.
  unfold RawURL_DecodeString, RawURL_EncodeToString. rewrite bytes_of_of.
  destruct (b64_encode_digits l) as (ds & -> & Hf & Hg).
  by rewrite b64_digits_encoded.
Qed.
