(* ===== verification/Jwks.v ===== *)
(** [crypto/jwks_client.go]: the client that caches the identity provider's
    keys and verifies tokens with them. *)

From S2P Require Import Prelude GoErrors Contextx GoStrings Json Http Response Middleware Auth Base64.

Open Scope string_scope.
Open Scope list_scope.

(** ** Keys *)

Record jsonWebKey : Type := mkJwk { Kty : string; Use : string; Kid : string; jwk_N : string; jwk_E : string }.

(** [rsa.PublicKey] *)
Record rsa_key : Type := mkRSA { rsa_N : Z; rsa_E : Z }.

#[export] Instance rsa_key_eq_dec : EqDecision rsa_key.
Proof. solve_decision. Defined.

(** The text of a [CorruptInputError] is left out. *)
Definition corrupt_input : error := errors_New "illegal base64 data".

Definition toRSAPublicKey (j : jsonWebKey) : result rsa_key error :=
  match RawURL_DecodeString (jwk_N j) with
  | None => Err (Errorf_w "invalid modulus (n): " corrupt_input "")
  | Some nBytes =>
      let n := SetBytes nBytes in
      match RawURL_DecodeString (jwk_E j) with
      | None => Err (Errorf_w "invalid exponent (e): " corrupt_input "")
      | Some eBytes => Ok (mkRSA n (exponent eBytes))
      end
  end.

(** ** The services *)

(** [http.NewRequestWithContext] on the URL, [client.Do], and the decoding of the
    body by [encoding/json]. *)
Class JwksEndpoint (W : Type) : Type := {
  request_error : string → option error;
  http_Do : string → W → W * result Z error;
  decode_body : W → result (list jsonWebKey) error;
}.

(** What the key function sees of a token: whether its method is an RSA one, the
    algorithm's name, and the key id. *)
Record token_header : Type := mkHeader { is_RSA : bool; alg : string; kid : option string }.

(** [*jwt.Token]: the claims, when they are [*HelixClaims], and [Valid]. *)
Record jwt_token : Type := mkToken { tok_Claims : option HelixClaims; tok_Valid : bool }.

Definition jwt_ErrTokenExpired : string := "jwt.ErrTokenExpired".

(** [github.com/golang-jwt/jwt/v5]. [ParseWithClaims keyfunc issuer token] is the
    call with [WithIssuer] and [WithExpirationRequired]; the other
    fields say what a token contains. *)
Class JWT (W : Type) : Type := {
  unverified_header : string → option token_header;
  unverified_claims : string → option HelixClaims;
  signed_by : string → rsa_key → bool;
  ParseWithClaims :
    (token_header → Go W hevent (result rsa_key error)) → string → string →
    Go W hevent (result jwt_token error);
}.

(** ** The client *)

Record jwks_config : Type := mkJwksConfig { jwksURL : string; jwks_issuer : string; maxStaleDuration : Z }.

(** The fields the client's lock protects, and the rest of the world. *)
Record jw_world (W : Type) : Type := mkJW {
  cache : gmap string rsa_key;
  lastUpdated : Z;
  jw_rest : W;
}.
Arguments mkJW {W}.
Arguments cache {W}.
Arguments lastUpdated {W}.
Arguments jw_rest {W}.

Section client.
Context {W : Type} {CL : Clock W} {EP : JwksEndpoint W}.
Abbreviation JM := (Go (jw_world W) hevent).
Implicit Types (c : jwks_config) (w : jw_world W).

Definition usable (j : jsonWebKey) : bool :=
  negb (negb (bool_decide (Kty j = "RSA")) || negb (bool_decide (Use j = "sig")) || bool_decide (Kid j = "")).

(** The loop over the keys of a response. *)
Fixpoint build_cache (keys : list jsonWebKey) (newCache : gmap string rsa_key) : JM (gmap string rsa_key) :=
  match keys with
  | [] => mret newCache
  | jwk :: keys =>
      if negb (usable jwk) then build_cache keys newCache
      else
        match toRSAPublicKey jwk with
        | Err err =>
            emit (HLog "WARN" "Skipping invalid JWK"
              [("kid", AString (Kid jwk)); ("error", AOther (error_text err))]);;
            build_cache keys newCache
        | Ok key => build_cache keys (<[Kid jwk := key]> newCache)
        end
  end.

Definition jw_lift {A} (f : W → W * A) : JM A :=
  lift (λ w, let '(w', a) := f (jw_rest w) in (mkJW (cache w) (lastUpdated w) w', a)).
Definition jw_now : JM Z := gets (λ w, time_Now (jw_rest w)).

(** [fetchKeys] up to the lock: the keys of a response with at least one usable key. *)
Definition fetch_response c : JM (result (gmap string rsa_key) error) :=
  match request_error (jwksURL c) with
  | Some err => mret (Err (Errorf_w "failed to create request: " err ""))
  | None =>
      resp ← jw_lift (http_Do (jwksURL c));
      match resp with
      | Err err => mret (Err (Errorf_w "failed to fetch JWKS URL: " err ""))
      | Ok status =>
          if negb (status =? StatusOK)%Z then
            mret (Err (errors_New ("JWKS endpoint returned status " +:+ Itoa status)))
          else
            body ← gets (λ w, decode_body (jw_rest w));
            match body with
            | Err err => mret (Err (Errorf_w "failed to decode JWKS response: " err ""))
            | Ok keys =>
                newCache ← build_cache keys ∅;
                if decide (newCache = ∅) then
                  mret (Err (errors_New "JWKS response contains zero valid RSA keys"))
                else mret (Ok newCache)
            end
      end
  end.

(** The assignments under the lock. *)
Definition set_cache (newCache : gmap string rsa_key) w : jw_world W := mkJW newCache (lastUpdated w) (jw_rest w).
Definition set_lastUpdated w : jw_world W := mkJW (cache w) (time_Now (jw_rest w)) (jw_rest w).

(** [None] is a nil error. *)
Definition fetchKeys c : JM (option error) :=
  res ← fetch_response c;
  match res with
  | Err err => mret (Some err)
  | Ok newCache =>
      modify (set_cache newCache);;
      modify set_lastUpdated;;
      mret None
  end.

(** One call at a time; [JwksFlight.v] has the calls that join a running one
    through [singleflight]. *)
Definition doRefresh c : JM (option error) := fetchKeys c.

(** The key function up to the lookup: the key id to look for. *)
Definition key_id (token : token_header) : result string error :=
  if negb (is_RSA token) then Err (errors_New ("unexpected signing method: " +:+ alg token))
  else
    match kid token with
    | None => Err (errors_New "missing kid in token header")
    | Some kid => if bool_decide (kid = "") then Err (errors_New "missing kid in token header") else Ok kid
    end.

Definition miss_log (kid : string) : hevent :=
  HLog "INFO" "Key ID miss, attempting emergency refresh..." [("kid", AString kid)].
Definition refresh_failed (err : error) : error := Errorf_w "failed emergency key refresh: " err "".
Definition kid_not_found (kid : string) : error :=
  errors_New ("kid " +:+ kid +:+ " not found in JWKS even after emergency refresh").

(** The key function. *)
Definition key_for c (token : token_header) : JM (result rsa_key error) :=
  match key_id token with
  | Err err => mret (Err err)
  | Ok kid =>
      found ← gets (λ w, cache w !! kid);
      match found with
      | Some key => mret (Ok key)
      | None =>
          emit (miss_log kid);;
          err ← doRefresh c;
          match err with
          | Some err => mret (Err (refresh_failed err))
          | None =>
              found ← gets (λ w, cache w !! kid);
              match found with
              | None => mret (Err (kid_not_found kid))
              | Some key => mret (Ok key)
              end
          end
      end
  end.

Definition crypto_ErrInvalidToken : error := Sentinel "crypto.ErrInvalidToken" "crypto: invalid token".
Definition crypto_ErrExpiredToken : error := Sentinel "crypto.ErrExpiredToken" "crypto: token expired".

Context {JL : JWT (jw_world W)}.

(** The checks after the parse; [now.Add(-1m).After(exp.Time)] dereferences the
    expiry. *)
Definition check_claims (token : jwt_token) : JM (result HelixClaims error) :=
  match tok_Claims token with
  | None => mret (Err crypto_ErrInvalidToken)
  | Some claims =>
      if negb (tok_Valid token) then mret (Err crypto_ErrInvalidToken)
      else
        now ← jw_now;
        match ExpiresAt claims with
        | None => gopanic "runtime error: invalid memory address or nil pointer dereference"
        | Some exp =>
            if (exp <? now - Minute)%Z then mret (Err crypto_ErrExpiredToken)
            else
              match NotBefore claims with
              | Some nbf =>
                  if (now + Minute <? nbf)%Z
                  then mret (Err (Errorf_w "" crypto_ErrInvalidToken ": token not active yet"))
                  else mret (Ok claims)
              | None => mret (Ok claims)
              end
        end
  end.

(** The warning about a cache last updated at [lastUpd]. *)
Definition stale_events c (lastUpd now : Z) : list hevent :=
  if (maxStaleDuration c <? sat64 (now - lastUpd))%Z
  then [HLog "ERROR" "CRITICAL: JWKS cache is stale beyond limit" []] else [].

(** The call of the library with the key function, and what follows it. *)
Definition parse_and_check c (keyfunc : token_header → JM (result rsa_key error)) (tokenString : string) :
    JM (result HelixClaims error) :=
  res ← ParseWithClaims keyfunc (jwks_issuer c) tokenString;
  match res with
  | Err err =>
      if errors_Is err jwt_ErrTokenExpired then mret (Err crypto_ErrExpiredToken)
      else mret (Err (Errorf_w "" crypto_ErrInvalidToken (": " +:+ error_text err)))
  | Ok token => check_claims token
  end.

Definition verify c (tokenString : string) : JM (result HelixClaims error) :=
  lastUpd ← gets lastUpdated;
  now ← jw_now;
  emit_all (stale_events c lastUpd now);;
  parse_and_check c (key_for c) tokenString.

(** ** The refresher *)

(** What the [select] of the background goroutine receives. *)
Inductive wakeup : Type := CtxDone | Tick.
Class Wakeups : Type := { next_wakeup : W → W * wakeup }.

(** [time.NewTicker] panics on an interval that is not positive. *)
Definition startKeyRefresher `{!Wakeups} (fuel : nat) c (interval : Z) : JM unit :=
  if (interval <=? 0)%Z then gopanic "non-positive interval for NewTicker"
  else
    emit (HLog "INFO" "JWKS Caching Client background refresher started" [("url", AString (jwksURL c))]);;
    for_loop fuel (λ _ : unit,
      ev ← jw_lift next_wakeup;
      match ev with
      | CtxDone =>
          emit (HLog "INFO" "JWKS Caching Client refresher shutting down..." []);;
          mret (Return ())
      | Tick =>
          err ← doRefresh c;
          match err with
          | Some err =>
              emit (HLog "ERROR" "Failed to auto-refresh JWKS keys" [("error", AOther (error_text err))]);;
              mret (Continue ())
          | None => mret (Continue ())
          end
      end) ().

(** ** Construction *)

(** The client, and the goroutine it starts. *)
Definition NewJWKSCachingClient `{!Wakeups} (url issuer : string) (refreshInterval maxStale : Z) :
    JM (result (jwks_config * (nat → JM unit)) error) :=
  if bool_decide (url = "") || bool_decide (issuer = "") then
    mret (Err (errors_New "jwks client: URL and Issuer are mandatory"))
  else
    let maxStale := if (maxStale <=? 0)%Z then (24 * Hour)%Z else maxStale in
    let c := mkJwksConfig url issuer maxStale in
    modify (λ w, mkJW ∅ 0 (jw_rest w));;
    err ← fetchKeys c;
    match err with
    | Some err => mret (Err (Errorf_w "jwks client: FATAL on initial key fetch: " err ""))
    | None => mret (Ok (c, λ fuel, startKeyRefresher fuel c refreshInterval))
    end.

(** The client behind the interface the strategy uses. *)
Definition caching_verifier c : JWKSVerifier (jw_world W) := {| VerifyToken := verify c |}.

End client.
