(* ===== verification/JwksFacts.v ===== *)
(** What the key cache holds and which tokens the client accepts. *)

From S2P Require Import Prelude GoErrors Contextx GoStrings Json Http Response Middleware Grpc Auth Base64 Jwks.

Open Scope string_scope.
Open Scope list_scope.

(** ** Keys *)

(** The RSA key of a JWK whose modulus and exponent are base64url encodings has the
    encoded modulus exactly, and the encoded exponent wrapped to 64 bits. *)
Theorem rsa_key_decoded k u i nb eb :
  toRSAPublicKey (mkJwk k u i (RawURL_EncodeToString nb) (RawURL_EncodeToString eb))
  = Ok (mkRSA (SetBytes nb) (wrap64 (SetBytes eb))).
Proof.
  unfold toRSAPublicKey. cbn [jwk_N jwk_E].
  rewrite !b64_decode_encode. by rewrite exponent_wraps.
Qed.

(** The key a JWK gives for a key id: it is an RSA signing key with that id, its modulus
    and its exponent are base64url text of big-endian numbers, and the exponent is kept
    in 64 bits. *)
Definition offers (j : jsonWebKey) (i : string) (key : rsa_key) : Prop :=
  Kty j = "RSA" ∧ Use j = "sig" ∧ Kid j = i ∧ i ≠ ""
  ∧ ∃ nBytes eBytes,
      RawURL_DecodeString (jwk_N j) = Some nBytes ∧ RawURL_DecodeString (jwk_E j) = Some eBytes
      ∧ rsa_N key = SetBytes nBytes ∧ rsa_E key = wrap64 (SetBytes eBytes).

(** The code's test and its conversion find exactly these. *)
Lemma offers_iff j i key : offers j i key ↔ usable j = true ∧ Kid j = i ∧ toRSAPublicKey j = Ok key.
Proof.
  unfold offers, usable, toRSAPublicKey.
  assert (negb (negb (bool_decide (Kty j = "RSA")) || negb (bool_decide (Use j = "sig")) || bool_decide (Kid j = "")) = true
          ↔ Kty j = "RSA" ∧ Use j = "sig" ∧ Kid j ≠ "") as ->.
  { do 3 case_bool_decide; cbn; intuition congruence. }
  split.
  - intros (Ht & Hu & Hi & Hne & nb & eb & -> & -> & Hn & He). split_and!; [done..|by subst|done|].
    f_equal. rewrite exponent_wraps, <- Hn, <- He. by destruct key.
  - intros ((Ht & Hu & Hne) & Hi & Hk). split_and!; [done..|by subst|].
    destruct (RawURL_DecodeString (jwk_N j)) as [nb|]; [|done].
    destruct (RawURL_DecodeString (jwk_E j)) as [eb|]; [|done]. injection Hk as <-.
    exists nb, eb. cbn. by rewrite exponent_wraps.
Qed.

(** What a list of JWKs publishes for a key id: the key of the last one that gives one. *)

Inductive published (i : string) (key : rsa_key) : list jsonWebKey → Prop :=
| published_at l1 j l2 :
    offers j i key → (∀ j' key', j' ∈ l2 → ¬ offers j' i key') → published i key (l1 ++ j :: l2).

Section facts.
Context {W : Type} {CL : Clock W} {EP : JwksEndpoint W}.
Abbreviation JM := (Go (jw_world W) hevent).
Implicit Types (c : jwks_config) (w : jw_world W).

(** What [build_cache] computes. *)
Fixpoint cached (keys : list jsonWebKey) (m : gmap string rsa_key) : gmap string rsa_key :=
  match keys with
  | [] => m
  | j :: keys =>
      cached keys
        (if usable j then match toRSAPublicKey j with Ok key => <[Kid j := key]> m | Err _ => m end
         else m)
  end.

Lemma build_cache_run keys : ∀ m w,
  ∃ tr, build_cache keys m w = mkRun w tr (Ret (cached keys m)).
Proof.
  induction keys as [|j keys IH]; intros m w; [by exists []|]. cbn.
  destruct (usable j); cbn; [|apply IH].
  destruct (toRSAPublicKey j) as [key|e]; [apply IH|].
  destruct (IH m w) as [tr Htr]. rewrite run_emit, Htr. by eexists.
Qed.

Lemma cached_lookup keys : ∀ m i key,
  cached keys m !! i = Some key ↔
  published i key keys ∨ (∀ j key', j ∈ keys → ¬ offers j i key') ∧ m !! i = Some key.
Proof.
  induction keys as [|j keys IH]; intros m i key; cbn.
  { split; [intros H; right; split; [by intros ?? ?%not_elem_of_nil|done]|].
    intros [H|[_ H]]; [|done]. inversion H as [l1 j l2 _ _ E]. by destruct l1. }
  rewrite IH.
  assert (∀ key1, published i key1 (j :: keys) ↔
    published i key1 keys ∨ offers j i key1 ∧ ∀ j' key', j' ∈ keys → ¬ offers j' i key') as Hpub.
  { intros key1. split.
    - intros H. inversion H as [l1 j1 l2 Ho Hn E]. destruct l1 as [|j2 l1]; simplify_eq/=; [by right|].
      left. by constructor.
    - intros [H|[Ho Hn]]; [|by apply (published_at _ _ [])].
      destruct H as [l1 j1 l2 Ho Hn]. by apply (published_at _ _ (j :: l1)). }
  rewrite (Hpub key).
  set (m' := if usable j then _ else m).
  assert ((∃ key', offers j i key' ∧ m' !! i = Some key')
          ∨ (∀ key', ¬ offers j i key') ∧ m' !! i = m !! i) as Hm.
  { unfold m'. setoid_rewrite offers_iff. destruct (usable j); [|right; split; [by intros ? [??]|done]].
    destruct (toRSAPublicKey j) as [k1|e]; [|right; split; [by intros ? (_ & _ & ?)|done]].
    destruct (decide (Kid j = i)) as [<-|Hi].
    - left. exists k1. by rewrite lookup_insert, decide_True.
    - right. split; [by intros ? (_ & ? & _)|]. by rewrite lookup_insert_ne. }
  assert (∀ k1 k2, offers j i k1 → offers j i k2 → k1 = k2) as Hfun.
  { intros k1 k2 (_ & _ & H1)%offers_iff (_ & _ & H2)%offers_iff. congruence. }
  split.
  - intros [H|[Hn Hl]]; [by left; left|].
    destruct Hm as [(k1 & Ho & Hl')|[Hno Hl']].
    + left. right. assert (k1 = key) as -> by congruence. done.
    + right. split; [|congruence]. intros j' k' [->|Hin]%elem_of_cons; [apply Hno|by apply Hn].
  - intros [[H|[Ho Hn]]|[Hn Hl]]; [by left|..]; right.
    + split; [done|]. destruct Hm as [(k1 & Ho1 & Hl')|[Hno _]]; [|by destruct (Hno key)].
      by rewrite (Hfun _ _ Ho Ho1).
    + split; [intros j' k' Hin; apply Hn; by right|].
      destruct Hm as [(k1 & Ho & _)|[_ ->]]; [|done]. destruct (Hn j k1); [left|done].
Qed.

(** Well-formed keys: a modulus that is a natural number and an exponent that is an
    [int]. A well-formed cache has at least one key. *)
Definition wf_key (key : rsa_key) : Prop := (0 ≤ rsa_N key)%Z ∧ is_int64 (rsa_E key).
Definition wf_keys (m : gmap string rsa_key) : Prop := m ≠ ∅ ∧ map_Forall (λ _ key, wf_key key) m.

Lemma toRSAPublicKey_wf j key : toRSAPublicKey j = Ok key → wf_key key.
Proof.
  unfold toRSAPublicKey. destruct (RawURL_DecodeString (jwk_N j)) as [nb|]; [|done].
  destruct (RawURL_DecodeString (jwk_E j)) as [eb|]; [|done]. intros [= <-].
  split; cbn; [apply SetBytes_nonneg|]. rewrite exponent_wraps. apply wrap64_range.
Qed.

Lemma cached_wf keys : cached keys ∅ ≠ ∅ → wf_keys (cached keys ∅).
Proof.
  intros Hne. split; [done|]. intros i key [Hp|[_ ?]]%cached_lookup; [|done].
  destruct Hp as [l1 j l2 (_ & _ & Hj)%offers_iff _]. by eapply toRSAPublicKey_wf.
Qed.

(** ** Fetching *)

Lemma jw_lift_run {A B} (f : W → W * A) (k : A → JM B) w v a :
  f (jw_rest w) = (v, a) → (jw_lift f ≫= k) w = k a (mkJW (cache w) (lastUpdated w) v).
Proof. intros H. apply run_lift. by rewrite H. Qed.

(** The outcomes of a fetch up to the lock. *)
Lemma response_cases c w :
  (∃ v tr e, fetch_response c w = mkRun (mkJW (cache w) (lastUpdated w) v) tr (Ret (Err e)))
  ∨ ∃ v tr keys,
      http_Do (jwksURL c) (jw_rest w) = (v, Ok 200%Z) ∧ decode_body v = Ok keys ∧ cached keys ∅ ≠ ∅
      ∧ fetch_response c w = mkRun (mkJW (cache w) (lastUpdated w) v) tr (Ret (Ok (cached keys ∅))).
Proof.
  unfold fetch_response. destruct (request_error _) as [e|]; [left; by destruct w; do 3 eexists|].
  destruct (http_Do (jwksURL c) (jw_rest w)) as [v [status|e]] eqn:E;
    rewrite (jw_lift_run _ _ _ _ _ E); [|left; by do 3 eexists].
  destruct (Z.eqb_spec status StatusOK) as [->|]; cbn [negb]; [|left; by do 3 eexists].
  rewrite run_gets. cbn [jw_rest].
  destruct (decode_body v) as [keys|e] eqn:Ed; [|left; by do 3 eexists].
  destruct (build_cache_run keys ∅ (mkJW (cache w) (lastUpdated w) v)) as [tr Hb].
  rewrite (run_bind _ _ _ _ _ _ Hb). destruct (decide _); [left; by do 3 eexists|].
  right. exists v, tr, keys. split_and!; [done..|]. unfold after. cbn. by rewrite app_nil_r.
Qed.

(** The outcomes of a fetch. *)
Lemma fetch_cases c w :
  (∃ v tr e, fetchKeys c w = mkRun (mkJW (cache w) (lastUpdated w) v) tr (Ret (Some e)))
  ∨ ∃ v tr keys,
      http_Do (jwksURL c) (jw_rest w) = (v, Ok 200%Z) ∧ decode_body v = Ok keys ∧ cached keys ∅ ≠ ∅
      ∧ fetchKeys c w = mkRun (mkJW (cached keys ∅) (time_Now v) v) tr (Ret None).
Proof.
  unfold fetchKeys.
  destruct (response_cases c w) as [(v & tr & e & H)|(v & tr & keys & Hd & Hk & Hne & H)];
    rewrite (run_bind _ _ _ _ _ _ H); [left|right]; exists v, tr; [exists e|exists keys].
  - unfold after. cbn. by rewrite app_nil_r.
  - split_and!; [done..|]. rewrite !run_modify. unfold after. cbn. by rewrite app_nil_r.
Qed.

(** C22: fetchKeys either fails and leaves the key cache and its time as they were,
    or succeeds and makes the cache exactly the keys the response publishes, at
    least one, with the time of the fetch: for each key id the key of the last JWK
    with that non-empty kid, kty RSA and use sig whose modulus and exponent are
    base64url, read as big-endian numbers with the exponent kept in 64 bits. *)
Theorem fetch_replaces_or_keeps c w :
  let ρ := fetchKeys c w in
  (∃ e, out ρ = Ret (Some e) ∧ cache (post ρ) = cache w ∧ lastUpdated (post ρ) = lastUpdated w)
  ∨ (out ρ = Ret None ∧ lastUpdated (post ρ) = time_Now (jw_rest (post ρ)) ∧ cache (post ρ) ≠ ∅
     ∧ ∃ keys, decode_body (jw_rest (post ρ)) = Ok keys
         ∧ ∀ i key, cache (post ρ) !! i = Some key ↔ published i key keys).
Proof.
  cbn zeta. destruct (fetch_cases c w) as [(v & tr & e & ->)|(v & tr & keys & _ & Hd & Hne & ->)]; cbn.
  - left. by exists e.
  - right. split_and!; [done..|]. exists keys. split; [done|]. intros i key. rewrite cached_lookup.
    split; [intros [?|[_ ?]]; done|by left].
Qed.

(** ** Tokens *)

Lemma key_id_ok t i : key_id t = Ok i ↔ is_RSA t = true ∧ kid t = Some i ∧ i ≠ "".
Proof.
  unfold key_id. destruct (is_RSA t); cbn [negb]; [|split; [done|by intros (? & _)]].
  destruct (kid t) as [i'|]; [|split; [done|by intros (_ & ? & _)]].
  destruct (bool_decide (i' = "")) eqn:E; [apply bool_decide_eq_true in E|apply bool_decide_eq_false in E].
  - split; [done|]. intros (_ & [= ->] & ?). done.
  - split; [by intros [= <-]|]. by intros (_ & [= ->] & _).
Qed.

(** The key function returns, changes nothing but through a fetch, and its key is in the
    cache it leaves. *)
Lemma key_for_run c t w :
  ∃ w' tr res, key_for c t w = mkRun w' tr (Ret res)
    ∧ (wf_keys (cache w) → wf_keys (cache w'))
    ∧ ∀ key, res = Ok key → is_RSA t = true ∧ ∃ i, kid t = Some i ∧ i ≠ "" ∧ cache w' !! i = Some key.
Proof.
  unfold key_for. destruct (key_id t) as [i|e] eqn:Ei; [|by do 3 eexists].
  apply key_id_ok in Ei as (Hr & Hk & Hi).
  rewrite run_gets. destruct (cache w !! i) as [key|] eqn:El.
  { do 3 eexists. split_and!; [done..|]. intros k [= <-]. split; [done|]. by exists i. }
  rewrite run_emit. unfold doRefresh.
  destruct (fetch_cases c w) as [(v & tr & e & Hf)|(v & tr & keys & _ & Hd & Hne & Hf)];
    rewrite (run_bind _ _ _ _ _ _ Hf); [by do 3 eexists|].
  rewrite run_gets. cbn [cache]. destruct (cached keys ∅ !! i) as [key|] eqn:Ec; do 3 eexists;
    (split_and!; [done|by intros; apply cached_wf|]); intros k [= <-]. split; [done|]. by exists i.
Qed.

Context {JL : JWT (jw_world W)}.

(** The library's documentation of [ParseWithClaims]: it calls the key function
    at most once, on the header of the token, and has no other effects; it
    accepts exactly the well-formed tokens whose signature the key verifies, whose
    issuer is the one required and whose times are valid now, with no leeway. *)
Definition times_valid (now : Z) (claims : HelixClaims) : Prop :=
  (∃ exp, ExpiresAt claims = Some exp ∧ (now < exp)%Z)
  ∧ ∀ nbf, NotBefore claims = Some nbf → (nbf ≤ now)%Z.

Class JWTLaws : Prop := {
  parse_malformed kf iss tok w :
    unverified_header tok = None ∨ unverified_claims tok = None →
    ∃ e, ParseWithClaims kf iss tok w = mkRun w [] (Ret (Err e)) ∧ errors_Is e jwt_ErrTokenExpired = false;
  parse_no_key kf iss tok w hdr claims w' tr e :
    unverified_header tok = Some hdr → unverified_claims tok = Some claims →
    kf hdr w = mkRun w' tr (Ret (Err e)) →
    ∃ e', ParseWithClaims kf iss tok w = mkRun w' tr (Ret (Err e'))
      ∧ errors_Is e' jwt_ErrTokenExpired = errors_Is e jwt_ErrTokenExpired;
  parse_accepts kf iss tok w hdr claims w' tr key :
    unverified_header tok = Some hdr → unverified_claims tok = Some claims →
    kf hdr w = mkRun w' tr (Ret (Ok key)) →
    signed_by tok key = true → Issuer claims = iss → times_valid (time_Now (jw_rest w')) claims →
    ParseWithClaims kf iss tok w = mkRun w' tr (Ret (Ok (mkToken (Some claims) true)));
  parse_rejects kf iss tok w hdr claims w' tr key :
    unverified_header tok = Some hdr → unverified_claims tok = Some claims →
    kf hdr w = mkRun w' tr (Ret (Ok key)) →
    ¬ (signed_by tok key = true ∧ Issuer claims = iss ∧ times_valid (time_Now (jw_rest w')) claims) →
    ∃ e, ParseWithClaims kf iss tok w = mkRun w' tr (Ret (Err e));
}.

(** What acceptance means. *)
Definition authentic c (tok : string) (claims : HelixClaims) (w' : jw_world W) : Prop :=
  ∃ hdr i key,
    unverified_header tok = Some hdr ∧ is_RSA hdr = true ∧ kid hdr = Some i ∧ i ≠ ""
    ∧ cache w' !! i = Some key ∧ signed_by tok key = true
    ∧ unverified_claims tok = Some claims ∧ Issuer claims = jwks_issuer c
    ∧ times_valid (time_Now (jw_rest w')) claims.

#[export] Instance times_valid_dec now claims : Decision (times_valid now claims).
Proof.
  unfold times_valid. destruct (ExpiresAt claims) as [exp|].
  - destruct (decide (now < exp)%Z) as [He|He].
    + destruct (NotBefore claims) as [nbf|].
      * destruct (decide (nbf ≤ now)%Z) as [Hn|Hn]; [left|right].
        -- split; [by exists exp|]. by intros ? [= <-].
        -- intros [_ H]. by apply Hn, H.
      * left. split; [by exists exp|done].
    + right. intros [(e & [= <-] & H) _]. done.
  - right. by intros [(e & [=] & _) _].
Defined.

(** Parsing ends in one of two ways. *)
Lemma parse_cases {JLL : JWTLaws} c tok w :
  ∃ w' tr, (wf_keys (cache w) → wf_keys (cache w')) ∧
    ((∃ e, ParseWithClaims (key_for c) (jwks_issuer c) tok w = mkRun w' tr (Ret (Err e)))
     ∨ ∃ claims, authentic c tok claims w'
         ∧ ParseWithClaims (key_for c) (jwks_issuer c) tok w
           = mkRun w' tr (Ret (Ok (mkToken (Some claims) true)))).
Proof.
  destruct (unverified_header tok) as [hdr|] eqn:Eh.
  2: { destruct (parse_malformed (key_for c) (jwks_issuer c) tok w) as (e & -> & _); [by left|].
       exists w, []. split; [done|]. left. by exists e. }
  destruct (unverified_claims tok) as [claims|] eqn:Ec.
  2: { destruct (parse_malformed (key_for c) (jwks_issuer c) tok w) as (e & -> & _); [by right|].
       exists w, []. split; [done|]. left. by exists e. }
  destruct (key_for_run c hdr w) as (w' & tr & [key|e] & Hk & Hne & Hin); exists w', tr; (split; [done|]).
  - destruct (Hin key eq_refl) as (Hr & i & Hi & Hie & Hl).
    destruct (decide (signed_by tok key = true ∧ Issuer claims = jwks_issuer c
                      ∧ times_valid (time_Now (jw_rest w')) claims)) as [(Hs & Hiss & Ht)|Hn].
    + right. exists claims. split; [by exists hdr, i, key|]. by eapply parse_accepts.
    + left. by eapply parse_rejects.
  - left. destruct (parse_no_key _ (jwks_issuer c) tok w hdr claims w' tr e Eh Ec Hk) as (e' & -> & _).
    by exists e'.
Qed.

(** The stale-cache warning. *)
Definition stale_log c w : list hevent := stale_events c (lastUpdated w) (time_Now (jw_rest w)).

(** The code around the call of the library. *)
Lemma verify_prefix c tok w : verify c tok w = after (stale_log c w) (parse_and_check c (key_for c) tok w).
Proof. unfold verify, jw_now. by rewrite !run_gets, run_emit_all. Qed.

Lemma check_claims_valid w claims :
  times_valid (time_Now (jw_rest w)) claims →
  check_claims (mkToken (Some claims) true) w = mkRun w [] (Ret (Ok claims)).
Proof.
  intros [(exp & Hexp & Hlt) Hnbf]. unfold check_claims, jw_now. cbn [tok_Claims tok_Valid negb].
  rewrite run_gets, Hexp. destruct (Z.ltb_spec exp (time_Now (jw_rest w) - Minute)); [dur_lia|].
  destruct (NotBefore claims) as [nbf|]; [|done]. specialize (Hnbf nbf eq_refl).
  destruct (Z.ltb_spec (time_Now (jw_rest w) + Minute) nbf); [dur_lia|done].
Qed.

Lemma verify_accepted c tok w w' tr claims :
  ParseWithClaims (key_for c) (jwks_issuer c) tok w = mkRun w' tr (Ret (Ok (mkToken (Some claims) true))) →
  times_valid (time_Now (jw_rest w')) claims →
  verify c tok w = mkRun w' (stale_log c w ++ tr) (Ret (Ok claims)).
Proof.
  intros Hp Ht. rewrite verify_prefix; unfold parse_and_check; rewrite (run_bind _ _ _ _ _ _ Hp).
  rewrite check_claims_valid, after_after by done. unfold after. cbn. by rewrite app_nil_r.
Qed.

Lemma verify_run {JLL : JWTLaws} c tok w :
  ∃ w' tr, (wf_keys (cache w) → wf_keys (cache w')) ∧
    ((∃ e, verify c tok w = mkRun w' (stale_log c w ++ tr) (Ret (Err e)))
     ∨ ∃ claims, authentic c tok claims w' ∧ verify c tok w = mkRun w' (stale_log c w ++ tr) (Ret (Ok claims))).
Proof.
  destruct (parse_cases c tok w) as (w' & tr & Hne & [(e & Hp)|(claims & Ha & Hp)]);
    exists w', tr; (split; [done|]).
  - left. rewrite verify_prefix; unfold parse_and_check; rewrite (run_bind _ _ _ _ _ _ Hp), after_after.
    destruct (errors_Is e _); eexists; unfold after; cbn; by rewrite app_nil_r.
  - right. exists claims. split; [done|]. apply verify_accepted; [done|].
    by destruct Ha as (? & ? & ? & _ & _ & _ & _ & _ & _ & _ & _ & ?).
Qed.

(** C8: VerifyToken always returns, with no nil dereference, and returns claims only
    for an authentic token: an RSA method, a signature under the key that the cache
    then holds for the token's key id, the configured issuer, an expiry after now
    and an activation not after now. *)
Theorem verify_sound {JLL : JWTLaws} c tok w :
  match out (verify c tok w) with
  | Ret (Ok claims) => authentic c tok claims (post (verify c tok w))
  | Ret (Err _) => True
  | _ => False
  end.
Proof. by destruct (verify_run c tok w) as (w' & tr & _ & [(e & ->)|(claims & Ha & ->)]). Qed.

(** C28: VerifyToken accepts every token that is RSA signed by a cached key, from
    the configured issuer and valid now, without touching the cache, however old the
    cache is: a cache older than maxStaleDuration only adds a log record. *)
Theorem verify_complete {JLL : JWTLaws} c tok w hdr i key claims :
  unverified_header tok = Some hdr → is_RSA hdr = true → kid hdr = Some i → i ≠ "" →
  cache w !! i = Some key → signed_by tok key = true →
  unverified_claims tok = Some claims → Issuer claims = jwks_issuer c →
  times_valid (time_Now (jw_rest w)) claims →
  verify c tok w = mkRun w (stale_log c w) (Ret (Ok claims)).
Proof.
  intros Hh Hr Hk Hi Hc Hs Hcl Hiss Ht.
  assert (key_for c hdr w = mkRun w [] (Ret (Ok key))) as Hkey.
  { unfold key_for. rewrite (proj2 (key_id_ok hdr i)) by done. by rewrite run_gets, Hc. }
  pose proof (parse_accepts (key_for c) (jwks_issuer c) tok w hdr claims w [] key
    Hh Hcl Hkey Hs Hiss Ht) as Hp.
  rewrite (verify_accepted _ _ _ _ _ _ Hp Ht). by rewrite app_nil_r.
Qed.

(** A token is rejected from the moment it expires: the minute of leeway in
    VerifyToken has no effect. *)
Theorem no_expiry_leeway {JLL : JWTLaws} c tok w claims exp :
  unverified_claims tok = Some claims → ExpiresAt claims = Some exp →
  (exp ≤ time_Now (jw_rest (post (verify c tok w))))%Z →
  ∃ e, out (verify c tok w) = Ret (Err e).
Proof.
  intros Hc He Hle.
  destruct (verify_run c tok w) as (w' & tr & _ & [(e & Hv)|(claims' & Ha & Hv)]); rewrite Hv in Hle |- *;
    [by exists e|exfalso]. cbn in Hle.
  destruct Ha as (? & ? & ? & _ & _ & _ & _ & _ & _ & Hc' & _ & (exp' & He' & Hlt) & _).
  simplify_eq. lia.
Qed.

(** ** The cache over time *)

Definition has_keys w : Prop := wf_keys (cache w).

Lemma refresh_keeps_keys c : preserves has_keys (doRefresh c).
Proof.
  intros w Hw. unfold doRefresh, has_keys.
  destruct (fetch_cases c w) as [(v & tr & e & ->)|(v & tr & keys & _ & _ & Hne & ->)]; [done|].
  by apply cached_wf.
Qed.

Lemma refresher_keeps_keys {WK : Wakeups (W := W)} fuel c interval :
  preserves has_keys (startKeyRefresher fuel c interval).
Proof.
  unfold startKeyRefresher. destruct (_ <=? _)%Z; [auto with golib|].
  apply preserves_bind; [auto with golib|intros _]. apply preserves_for_loop. intros _.
  apply preserves_bind.
  - apply preserves_lift. intros w Hw. by destruct (next_wakeup (jw_rest w)).
  - intros []; [auto with golib|]. apply preserves_bind; [apply refresh_keeps_keys|].
    intros [e|]; auto with golib.
Qed.

Lemma verify_keeps_keys {JLL : JWTLaws} c tok : preserves has_keys (verify c tok).
Proof.
  intros w Hw.
  by destruct (verify_run c tok w) as (w' & tr & Hk & [(e & ->)|(claims & _ & ->)]); apply Hk.
Qed.

(** C31: Once the JWKS client has been constructed its cache is well-formed, and the
    refresher (for any number of rounds and failures) and every VerifyToken keep it
    so: there is at least one key, and each has a natural number as its modulus and
    a 64-bit exponent. *)
Theorem cache_keeps_keys {JLL : JWTLaws} {WK : Wakeups (W := W)} url iss interval maxStale w c refresher :
  out (NewJWKSCachingClient url iss interval maxStale w) = Ret (Ok (c, refresher)) →
  has_keys (post (NewJWKSCachingClient url iss interval maxStale w))
  ∧ (∀ fuel, preserves has_keys (refresher fuel))
  ∧ ∀ tok, preserves has_keys (verify c tok).
Proof.
  unfold NewJWKSCachingClient. destruct (_ || _); [done|]. cbn zeta.
  rewrite run_modify. set (c0 := mkJwksConfig _ _ _). intros H.
  destruct (fetch_cases c0 (mkJW ∅ 0 (jw_rest w)))
    as [(v & tr & e & Hf)|(v & tr & keys & _ & _ & Hne & Hf)];
    rewrite (run_bind _ _ _ _ _ _ Hf) in H |- *; [done|].
  simplify_eq/=. split_and!; [by apply cached_wf| |].
  - intros fuel. apply refresher_keeps_keys.
  - intros tok. apply verify_keeps_keys.
Qed.

(** A client constructed with an interval that is not positive starts a goroutine
    that panics. *)
Theorem refresher_crashes_on_zero_interval {WK : Wakeups (W := W)} url iss interval maxStale w c refresher :
  (interval ≤ 0)%Z →
  out (NewJWKSCachingClient url iss interval maxStale w) = Ret (Ok (c, refresher)) →
  ∀ fuel w', out (refresher fuel w') = Panic "non-positive interval for NewTicker".
Proof.
  intros Hi. unfold NewJWKSCachingClient. destruct (_ || _); [done|]. cbn zeta.
  rewrite run_modify. set (c0 := mkJwksConfig _ _ _). intros H.
  destruct (fetch_cases c0 (mkJW ∅ 0 (jw_rest w)))
    as [(v & tr & e & Hf)|(v & tr & keys & _ & _ & Hne & Hf)];
    rewrite (run_bind _ _ _ _ _ _ Hf) in H; simplify_eq/=.
  intros fuel w'. unfold startKeyRefresher. by destruct (Z.leb_spec interval 0); [|lia].
Qed.

(** ** Requests *)

Context {UC : Unicode} {ROs : RangeOrder string} {RO : RangeOrder (list string)} {GC : GrpcContext}.

Lemma verify_returns {JLL : JWTLaws} c tok w : ∃ w' tr res, verify c tok w = mkRun w' tr (Ret res).
Proof. destruct (verify_run c tok w) as (w' & tr & _ & [(e & ->)|(claims & _ & ->)]); eauto. Qed.

Lemma verify_ok_authentic {JLL : JWTLaws} c tok w w' tr claims :
  verify c tok w = mkRun w' tr (Ret (Ok claims)) → authentic c tok claims w'.
Proof.
  intros H. destruct (verify_run c tok w) as (w1 & tr1 & _ & [(e & Hv)|(claims1 & Ha & Hv)]);
    rewrite Hv in H; by simplify_eq.
Qed.

(** C6: A request passes the HTTP authentication middleware with the JWT strategy
    over the caching JWKS client only if its Authorization header is Bearer and a
    token without spaces that is RSA signed by the key the cache holds for its
    non-empty key id, from the configured issuer, not expired and already active;
    the handler then gets the token's subject and session in its context. Every
    other request is answered 401 without calling the handler. *)
Theorem http_requests_authenticated {JLL : JWTLaws} c (next : Handler (jw_world W)) r h :
  resp_sent (h_resp h) = None →
  let ρ := HTTPMiddleware (Authenticate (JV := caching_verifier c)) next r h in
  (∃ tok claims w' tr,
     bearer_token (GetHeader (http_payload r) "Authorization") tok ∧ authentic c tok claims w'
     ∧ ρ = after tr (next (WithContext r (auth_ctx (WithEntryPoint (req_ctx r) "http") claims))
                       (mkH (h_resp h) (h_recorders h) w')))
  ∨ ∃ w' tr msg,
      ρ = mkRun (mkH (error_response msg 401 (h_resp h)) ((λ _, 401%Z) <$> h_recorders h) w') tr (Ret ()).
Proof.
  intros Hs. destruct (http_auth_cases (JV := caching_verifier c) (verify_returns c) next r h Hs)
    as [(tok & claims & w' & tr & Hb & Hv & Hr)|H]; [left|by right].
  exists tok, claims, w', tr. split_and!; [done|exact (verify_ok_authentic _ _ _ _ _ _ Hv)|done].
Qed.

(** C27: A unary call passes the gRPC authentication interceptor with the JWT
    strategy over the caching JWKS client only with metadata whose authorization
    entry is a Bearer token that is authentic for the key cache; every other call
    fails with Unauthenticated without calling the handler. *)
Theorem grpc_calls_authenticated {JLL : JWTLaws} {req resp} c ctx (rq : req) info
    (handler : UnaryHandler (jw_world W) req resp) g :
  let ctx1 := WithEntryPoint ctx "grpc" in
  let ρ := GRPCUnaryInterceptor (Authenticate (JV := caching_verifier c)) ctx rq info handler g in
  (∃ md tok claims w' tr,
     FromIncomingContext ctx1 = Some md
     ∧ bearer_token (GetHeader (grpc_payload ctx1 info md) "Authorization") tok ∧ authentic c tok claims w'
     ∧ ρ = after tr (handler (auth_ctx ctx1 claims) rq (mkG (g_header g) w')))
  ∨ ∃ w' tr msg, ρ = mkRun (mkG (g_header g) w') tr (Ret (Err (StatusError codes_Unauthenticated msg))).
Proof.
  cbn zeta. destruct (grpc_auth_cases (JV := caching_verifier c) (verify_returns c) ctx rq info handler g)
    as [(md & tok & claims & w' & tr & Hm & Hb & Hv & Hr)|H]; [left|by right].
  exists md, tok, claims, w', tr. split_and!; [done..|exact (verify_ok_authentic _ _ _ _ _ _ Hv)|done].
Qed.

End facts.
