(* ===== verification/JwksFlight.v ===== *)
(** [crypto/jwks_client.go] with its goroutines: any number of [VerifyToken]
    calls and the background refresher, their refreshes joined by
    [singleflight], and the [sync.RWMutex] around the key cache. *)

From S2P Require Import Prelude GoErrors Contextx GoStrings Json Http Response Middleware Auth Base64 Jwks.

Open Scope string_scope.
Open Scope list_scope.

(** ** [sync.RWMutex] *)

(** A writer that has called [Lock] keeps new readers out and waits for the
    readers inside. *)
Inductive writer : Type := WNone | WWaiting | WHolding.
Record rwmutex : Type := mkRW { rw_readers : nat; rw_writer : writer }.

(** [None]: the caller blocks. *)
Definition RLock (mu : rwmutex) : option rwmutex :=
  match rw_writer mu with WNone => Some (mkRW (S (rw_readers mu)) WNone) | _ => None end.
Definition RUnlock (mu : rwmutex) : rwmutex := mkRW (pred (rw_readers mu)) (rw_writer mu).
Definition Lock_announce (mu : rwmutex) : option rwmutex :=
  match rw_writer mu with WNone => Some (mkRW (rw_readers mu) WWaiting) | _ => None end.
Definition Lock_enter (mu : rwmutex) : option rwmutex :=
  match rw_readers mu with O => Some (mkRW 0 WHolding) | S _ => None end.
Definition Unlock (mu : rwmutex) : rwmutex := mkRW (rw_readers mu) WNone.

(** ** [golang.org/x/sync/singleflight] *)

(** The group for the one key the client uses; calls of [Do] are numbered.
    [sf_join n] is the arrival of call [n], true when it executes the function;
    [sf_complete r] the end of the function; [sf_result n] what call [n]
    returns, once it can. [sf_running] and [sf_waits] say whether an execution is
    under way and which calls belong to it. *)
Class Singleflight (SF : Type) : Type := {
  sf_new : SF;
  sf_join : nat → SF → SF * bool;
  sf_complete : option error → SF → SF;
  sf_result : nat → SF → option (option error);
  sf_running : SF → bool;
  sf_waits : nat → SF → bool;
}.

(** The documentation of [Do]: one execution at a time; a call that arrives during
    an execution waits for it and gets its result. *)
Class SingleflightLaws (SF : Type) {SG : Singleflight SF} : Prop := {
  sf_new_idle : sf_running sf_new = false;
  sf_new_waits n : sf_waits n sf_new = false;
  sf_new_result n : sf_result n sf_new = None;
  sf_join_leads n g : (sf_join n g).2 = negb (sf_running g);
  sf_join_running n g : sf_running (sf_join n g).1 = true;
  sf_join_waits n g m : sf_waits m (sf_join n g).1 = bool_decide (m = n) || sf_waits m g;
  sf_join_result n g m : sf_result m g = None → sf_result m (sf_join n g).1 = None;
  sf_join_keeps n g m r : m ≠ n → sf_result m g = Some r → sf_result m (sf_join n g).1 = Some r;
  sf_complete_idle r g : sf_running (sf_complete r g) = false;
  sf_complete_waits r g m : sf_waits m (sf_complete r g) = false;
  sf_complete_result r g m :
    sf_result m (sf_complete r g) = if sf_waits m g then Some r else sf_result m g;
}.

(** ** Threads *)

(** Who refreshes: a [VerifyToken] whose key id is not cached, or the ticker. *)
Inductive purpose : Type := ForToken (tok kid : string) | ForTicker.

(** Where an execution of [fetchKeys] stands. *)
Inductive fetch_pc : Type :=
| FRequest
| FLock (newCache : gmap string rsa_key)
| FLocking (newCache : gmap string rsa_key)
| FWriteCache (newCache : gmap string rsa_key)
| FWriteTime
| FUnlock
| FReturn (err : option error).

Inductive thread : Type :=
| VStart (tok : string)
| VReadTime (tok : string)
| VParse (tok : string) (lastUpd : Z)
| KLock (tok kid : string) (again : bool)
| KRead (tok kid : string) (again : bool)
| Refresh (p : purpose)
| Flight (p : purpose) (call : nat) (f : fetch_pc)
| Waiting (p : purpose) (call : nat)
| Finish (tok : string) (key : option (result rsa_key error))
| VDone (tok : string) (res : result HelixClaims error)
| TIdle
| TAge (err : error)
| TReadAge (err : error)
| TStopped.

Section flight.
Context {W : Type} {CL : Clock W} {EP : JwksEndpoint W} {JL : JWT (jw_world W)}.
Context {SF : Type} {SG : Singleflight SF}.

(** The client with its calls. [received] and [installed] are history: the key
    sets of the good responses, and which of them the cache is. *)
Record flight_state : Type := mkFlight {
  jw : jw_world W;
  mu : rwmutex;
  sf : SF;
  calls : nat;
  threads : list thread;
  logs : list hevent;
  received : list (gmap string rsa_key);
  installed : nat;
}.
Implicit Types (c : jwks_config) (s : flight_state) (t : thread).

Definition with_mu s m := mkFlight (jw s) m (sf s) (calls s) (threads s) (logs s) (received s) (installed s).
Definition with_logs s l :=
  mkFlight (jw s) (mu s) (sf s) (calls s) (threads s) (logs s ++ l) (received s) (installed s).
Definition with_jw s w := mkFlight w (mu s) (sf s) (calls s) (threads s) (logs s) (received s) (installed s).
Definition with_sf s g n := mkFlight (jw s) (mu s) g n (threads s) (logs s) (received s) (installed s).
Definition with_threads s l :=
  mkFlight (jw s) (mu s) (sf s) (calls s) l (logs s) (received s) (installed s).
Definition with_received s m :=
  mkFlight (jw s) (mu s) (sf s) (calls s) (threads s) (logs s) (received s ++ [m]) (installed s).
Definition with_installed s m :=
  mkFlight (set_cache m (jw s)) (mu s) (sf s) (calls s) (threads s) (logs s) (received s)
    (pred (length (received s))).

(** What a caller of [doRefresh] does with its result. *)
Definition resume (p : purpose) (err : option error) : thread :=
  match p, err with
  | ForToken tok kid, None => KLock tok kid true
  | ForToken tok kid, Some e => Finish tok (Some (Err (refresh_failed e)))
  | ForTicker, None => TIdle
  | ForTicker, Some e => TAge e
  end.

(** [fetchKeys], one access of shared state at a time. *)
Definition fetch_step c s (f : fetch_pc) : option (flight_state * fetch_pc) :=
  match f with
  | FRequest =>
      let ρ := fetch_response c (jw s) in
      let s := with_logs (with_jw s (post ρ)) (trace ρ) in
      match out ρ with
      | Ret (Ok m) => Some (with_received s m, FLock m)
      | Ret (Err e) => Some (s, FReturn (Some e))
      | _ => None
      end
  | FLock m => (λ l, (with_mu s l, FLocking m)) <$> Lock_announce (mu s)
  | FLocking m => (λ l, (with_mu s l, FWriteCache m)) <$> Lock_enter (mu s)
  | FWriteCache m => Some (with_installed s m, FWriteTime)
  | FWriteTime => Some (with_jw s (set_lastUpdated (jw s)), FUnlock)
  | FUnlock => Some (with_mu s (Unlock (mu s)), FReturn None)
  | FReturn _ => None
  end.

(** The key function, once its answer is known; it is not called for a malformed
    token. *)
Definition answer (key : option (result rsa_key error)) (_ : token_header) :
    Go (jw_world W) hevent (result rsa_key error) :=
  mret (default (Err (errors_New "token is malformed")) key).

(** One access of shared state by a thread; [None] when it blocks or has nothing
    to do. The key function's answer is handed to the library by [Finish]; the
    library has no access to the client's own fields. *)
Definition thread_step c s t : option (flight_state * thread) :=
  match t with
  | VStart tok => (λ l, (with_mu s l, VReadTime tok)) <$> RLock (mu s)
  | VReadTime tok => Some (with_mu s (RUnlock (mu s)), VParse tok (lastUpdated (jw s)))
  | VParse tok lastUpd =>
      let s := with_logs s (stale_events c lastUpd (time_Now (jw_rest (jw s)))) in
      match unverified_header tok, unverified_claims tok with
      | Some hdr, Some _ =>
          match key_id hdr with
          | Err e => Some (s, Finish tok (Some (Err e)))
          | Ok kid => Some (s, KLock tok kid false)
          end
      | _, _ => Some (s, Finish tok None)
      end
  | KLock tok kid again => (λ l, (with_mu s l, KRead tok kid again)) <$> RLock (mu s)
  | KRead tok kid again =>
      let found := cache (jw s) !! kid in
      let s := with_mu s (RUnlock (mu s)) in
      match found, again with
      | Some key, _ => Some (s, Finish tok (Some (Ok key)))
      | None, false => Some (with_logs s [miss_log kid], Refresh (ForToken tok kid))
      | None, true => Some (s, Finish tok (Some (Err (kid_not_found kid))))
      end
  | Refresh p =>
      let n := calls s in
      let '(g, leads) := sf_join n (sf s) in
      Some (with_sf s g (S n), if leads then Flight p n FRequest else Waiting p n)
  | Flight p n (FReturn err) => Some (with_sf s (sf_complete err (sf s)) (calls s), Waiting p n)
  | Flight p n f => (λ '(s, f), (s, Flight p n f)) <$> fetch_step c s f
  | Waiting p n => (λ err, (s, resume p err)) <$> sf_result n (sf s)
  | Finish tok key =>
      let ρ := parse_and_check c (answer key) tok (jw s) in
      match out ρ with
      | Ret res =>
          Some (with_logs (with_jw s (mkJW (cache (jw s)) (lastUpdated (jw s)) (jw_rest (post ρ)))) (trace ρ),
                VDone tok res)
      | _ => None
      end
  | TAge err => (λ l, (with_mu s l, TReadAge err)) <$> RLock (mu s)
  | TReadAge err =>
      Some (with_logs (with_mu s (RUnlock (mu s)))
              [HLog "ERROR" "Failed to auto-refresh JWKS keys" [("error", AOther (error_text err))]], TIdle)
  | VDone _ _ | TIdle | TStopped => None
  end.

Definition set_thread s i t := with_threads s (<[i := t]> (threads s)).

(** A step of the client: a thread goes on, [VerifyToken] is called, the ticker or
    the end of the context wakes the refresher, or the world around the client
    changes: time passes, the provider changes its keys. *)
Inductive flight_step c : relation flight_state :=
| step_thread s i t s' t' :
    threads s !! i = Some t → thread_step c s t = Some (s', t') → flight_step c s (set_thread s' i t')
| step_verify s tok : flight_step c s (with_threads s (threads s ++ [VStart tok]))
| step_tick s i : threads s !! i = Some TIdle → flight_step c s (set_thread s i (Refresh ForTicker))
| step_stop s i :
    threads s !! i = Some TIdle →
    flight_step c s
      (set_thread (with_logs s [HLog "INFO" "JWKS Caching Client refresher shutting down..." []]) i TStopped)
| step_world s w : flight_step c s (with_jw s (mkJW (cache (jw s)) (lastUpdated (jw s)) w)).

(** The client as [NewJWKSCachingClient] returns it, with the refresher's
    goroutine. *)
Definition flight_init (w : jw_world W) : flight_state :=
  mkFlight w (mkRW 0 WNone) sf_new 0 [TIdle] [] [cache w] 0.

Definition flight_reachable c w : flight_state → Prop := rtc (flight_step c) (flight_init w).

End flight.
