(* ===== verification/JwksFlightFacts.v ===== *)
(** What the JWKS client guarantees when its calls run concurrently, for every
    interleaving. *)

From S2P Require Import Prelude GoErrors Contextx GoStrings Json Http Response Middleware Grpc Auth Base64 Jwks JwksFacts JwksFlight.

Open Scope string_scope.
Open Scope list_scope.
Open Scope nat_scope.

(** ** What the threads hold *)

Definition reads (t : thread) : bool :=
  match t with VReadTime _ | KRead _ _ _ | TReadAge _ => true | _ => false end.
Definition locking (t : thread) : bool :=
  match t with Flight _ _ (FLocking _) => true | _ => false end.
Definition writes (t : thread) : bool :=
  match t with Flight _ _ (FWriteCache _ | FWriteTime | FUnlock) => true | _ => false end.
Definition leads (t : thread) : bool :=
  match t with Flight _ _ _ => true | _ => false end.
(** A response has been received and is not in the cache yet. *)
Definition pending (t : thread) : bool :=
  match t with Flight _ _ (FLock _ | FLocking _ | FWriteCache _) => true | _ => false end.

Definition lock_inv (mu : rwmutex) (ts : list thread) : Prop :=
  rw_readers mu = countb reads ts ∧
  match rw_writer mu with
  | WNone => countb locking ts = 0 ∧ countb writes ts = 0
  | WWaiting => countb locking ts = 1 ∧ countb writes ts = 0
  | WHolding => countb locking ts = 0 ∧ countb writes ts = 1 ∧ rw_readers mu = 0
  end.

Section flight_facts.
Context {W : Type} {CL : Clock W} {EP : JwksEndpoint W} {JL : JWT (jw_world W)}.
Context {SF : Type} {SG : Singleflight SF} {SGL : SingleflightLaws SF}.
Abbreviation fstate := (flight_state (W := W) (SF := SF)).
Implicit Types (c : jwks_config) (s : fstate) (t : thread).

(** The token names the key id. *)
Definition names_key (tok kid : string) : Prop :=
  ∃ hdr claims, unverified_header tok = Some hdr ∧ unverified_claims tok = Some claims
    ∧ key_id hdr = Ok kid.

Definition belongs (p : purpose) : Prop :=
  match p with ForToken tok kid => names_key tok kid | ForTicker => True end.

Definition thread_ok (g : SF) (n : nat) (sets : list (gmap string rsa_key)) t : Prop :=
  match t with
  | KLock tok kid _ | KRead tok kid _ => names_key tok kid
  | Refresh p => belongs p
  | Flight p m f =>
      belongs p ∧ (m < n)%nat ∧ sf_waits m g = true
      ∧ match f with FLock k | FLocking k | FWriteCache k => last sets = Some k | _ => True end
  | Waiting p m => belongs p ∧ (m < n)%nat ∧ (sf_waits m g = true ∨ is_Some (sf_result m g))
  | Finish tok (Some (Ok key)) => ∃ kid set, names_key tok kid ∧ set ∈ sets ∧ set !! kid = Some key
  | Finish tok (Some (Err _)) =>
      ∃ hdr claims, unverified_header tok = Some hdr ∧ unverified_claims tok = Some claims
  | Finish tok None => unverified_header tok = None ∨ unverified_claims tok = None
  | _ => True
  end.

Record flight_inv s : Prop := mkFlightInv {
  inv_lock : lock_inv (mu s) (threads s);
  inv_leader : countb leads (threads s) = if sf_running (sf s) then 1 else 0;
  inv_pending : length (received s) = S (installed s + countb pending (threads s));
  inv_cache : received s !! installed s = Some (cache (jw s));
  inv_threads : Forall (thread_ok (sf s) (calls s) (received s)) (threads s);
  inv_idle : sf_running (sf s) = false → ∀ n, sf_waits n (sf s) = false;
  inv_fresh n : (calls s ≤ n)%nat → sf_waits n (sf s) = false ∧ sf_result n (sf s) = None;
  inv_keys : Forall (λ set, set ≠ ∅) (received s);
}.

Lemma flight_inv_init w : cache w ≠ ∅ → flight_inv (flight_init w).
Proof.
  intros Hw. split; cbn; rewrite ?sf_new_idle; try done.
  - by repeat constructor.
  - by intros _ n; apply sf_new_waits.
  - intros n _. by rewrite sf_new_waits, sf_new_result.
  - by repeat constructor.
Qed.

(** ** Every step keeps the invariant *)

(** The counts after thread [i] has gone on to [t']. *)
Ltac counts Hi t' :=
  pose proof (countb_insert reads _ _ _ t' Hi) as Hreads;
  pose proof (countb_insert locking _ _ _ t' Hi) as Hlocking;
  pose proof (countb_insert writes _ _ _ t' Hi) as Hwrites; cbn in Hreads, Hlocking, Hwrites.

Ltac lock_cases :=
  repeat match goal with
  | H : context [match rw_writer ?m with _ => _ end] |- _ => destruct (rw_writer m) eqn:?
  | H : context [match rw_readers ?m with _ => _ end] |- _ => destruct (rw_readers m) eqn:?
  | |- context [match rw_writer ?m with _ => _ end] => destruct (rw_writer m) eqn:?
  end.

(** The lock invariant after a step of a thread in a known place. *)
Ltac lock_step Hi t' :=
  counts Hi t'; unfold lock_inv, RLock, RUnlock, Lock_announce, Lock_enter, Unlock in *; cbn in *;
  lock_cases; simplify_eq/=; lia.

(** A step that leaves the group, the history and the cache alone. *)
Lemma inv_local s s' i t t' :
  flight_inv s → threads s !! i = Some t →
  sf s' = sf s → calls s' = calls s → received s' = received s → installed s' = installed s →
  cache (jw s') = cache (jw s) → threads s' = threads s →
  leads t' = leads t → pending t' = pending t →
  thread_ok (sf s) (calls s) (received s) t' →
  lock_inv (mu s') (<[i := t']> (threads s)) →
  flight_inv (set_thread s' i t').
Proof.
  intros [] Hi Hsf Hc Hr Hin Hca Hts Hl Hp Hok Hlock.
  pose proof (countb_insert leads _ _ _ t' Hi) as H1. pose proof (countb_insert pending _ _ _ t' Hi) as H2.
  rewrite Hl in H1. rewrite Hp in H2.
  split; cbn; rewrite ?Hsf, ?Hc, ?Hr, ?Hin, ?Hca, ?Hts; try done; [lia..|by apply Forall_insert].
Qed.

(** There is one leader at a time, so the other threads do not lead. *)
Lemma inv_one_leader s i j t t' :
  flight_inv s → threads s !! i = Some t → leads t = true →
  threads s !! j = Some t' → leads t' = true → i = j.
Proof.
  intros [] Hi Ht Hj Ht'. eapply (countb_two leads); [|exact Hi|exact Hj|done..].
  rewrite inv_leader0. destruct (sf_running _); lia.
Qed.

Lemma forall_others (P Q : thread → Prop) ts i t t' :
  Forall P ts → ts !! i = Some t → Q t' →
  (∀ j u, j ≠ i → ts !! j = Some u → P u → Q u) → Forall Q (<[i := t']> ts).
Proof.
  intros HP Hi Ht' Hu. apply Forall_lookup. intros j u.
  intros [(-> & <- & _)|[Hne Hj]]%list_lookup_insert_Some; [done|].
  apply (Hu j u); [by apply not_eq_sym|done|]. exact (proj1 (Forall_lookup _ _) HP j u Hj).
Qed.

(** A step that does not touch the lock. *)
Lemma lock_inv_same mu ts i t t' :
  ts !! i = Some t → reads t' = reads t → locking t' = locking t → writes t' = writes t →
  lock_inv mu ts → lock_inv mu (<[i := t']> ts).
Proof.
  intros Hi Hr Hl Hw. unfold lock_inv.
  pose proof (countb_insert reads ts i t t' Hi) as H1. pose proof (countb_insert locking ts i t t' Hi) as H2.
  pose proof (countb_insert writes ts i t t' Hi) as H3. rewrite Hr in H1. rewrite Hl in H2. rewrite Hw in H3.
  destruct (rw_writer mu); lia.
Qed.

(** The steps of [singleflight] keep what a thread relies on. *)
Lemma thread_ok_join g n sets t :
  sf_waits n g = false → sf_result n g = None →
  thread_ok g n sets t → thread_ok (sf_join n g).1 (S n) sets t.
Proof.
  intros Hw Hr. destruct t as [| | | | | |p m f|p m| | | | | |]; try done; cbn.
  - intros (? & ? & Hm & ?). rewrite sf_join_waits, Hm, orb_true_r. split_and!; [done|lia|done..].
  - intros (? & ? & Hm). split_and!; [done|lia|]. rewrite sf_join_waits.
    destruct Hm as [->|[r Hres]]; [left; by rewrite orb_true_r|right].
    exists r. apply sf_join_keeps; [lia|done].
Qed.

Lemma thread_ok_complete g n sets t r :
  leads t = false → thread_ok g n sets t → thread_ok (sf_complete r g) n sets t.
Proof.
  destruct t as [| | | | | |p m f|p m| | | | | |]; try done; cbn.
  intros _ (? & ? & Hm). split_and!; [done..|]. right. rewrite sf_complete_result.
  destruct (sf_waits m g); [by eexists|]. by destruct Hm.
Qed.

Lemma thread_ok_received g n sets set t :
  leads t = false → thread_ok g n sets t → thread_ok g n (sets ++ [set]) t.
Proof.
  destruct t as [| | | | | |p m f|p m|tok [[key|e]|]| | | | |]; try done; cbn.
  intros _ (kid & set' & ? & ? & ?). exists kid, set'. rewrite elem_of_app. auto.
Qed.

Lemma inv_received_len s i t :
  flight_inv s → threads s !! i = Some t → leads t = true →
  length (received s) = S (installed s + if pending t then 1 else 0).
Proof.
  intros [] Hi Ht. rewrite inv_pending0. f_equal.
  assert (countb leads (threads s) ≤ 1) as Hl by (rewrite inv_leader0; destruct (sf_running _); lia).
  assert (countb pending (threads s) ≤ 1).
  { etrans; [|exact Hl]. clear. induction (threads s) as [|u us IH]; [done|]. rewrite !countb_cons.
    destruct u as [| | | | | |? ? []| | | | | | |]; cbn; lia. }
  destruct (pending t) eqn:Hp.
  - assert (0 < countb pending (threads s)) by (apply countb_elem; by exists i, t). lia.
  - destruct (decide (countb pending (threads s) = 0)) as [->|Hn]; [done|].
    assert (0 < countb pending (threads s)) as (j & u & Hj & Hu)%countb_elem; [lia|].
    assert (i = j) as -> by (eapply (countb_two leads); [exact Hl|done..|]; by destruct u).
    congruence.
Qed.

Lemma inv_join s i p :
  flight_inv s → threads s !! i = Some (Refresh p) →
  let '(g, leads) := sf_join (calls s) (sf s) in
  flight_inv (set_thread (with_sf s g (S (calls s))) i
    (if leads then Flight p (calls s) FRequest else Waiting p (calls s))).
Proof.
  intros Hinv Hi. pose proof Hinv as []. destruct (inv_fresh0 (calls s)) as [Hw Hr]; [done|].
  pose proof (proj1 (Forall_lookup _ _) inv_threads0 _ _ Hi) as Hb.
  pose proof (sf_join_leads (calls s) (sf s)) as Hl. pose proof (sf_join_running (calls s) (sf s)) as Hrun.
  pose proof (sf_join_waits (calls s) (sf s)) as Hws.
  assert (∀ m, S (calls s) ≤ m →
    sf_waits m (sf_join (calls s) (sf s)).1 = false ∧ sf_result m (sf_join (calls s) (sf s)).1 = None) as Hfr.
  { intros m Hm. destruct (inv_fresh0 m) as [H1 H2]; [lia|]. split; [|by apply sf_join_result].
    rewrite Hws, H1, bool_decide_eq_false_2 by lia. done. }
  assert (Forall (thread_ok (sf_join (calls s) (sf s)).1 (S (calls s)) (received s)) (threads s)) as Hoth.
  { eapply Forall_impl; [done|]. intros u. by apply thread_ok_join. }
  destruct (sf_join (calls s) (sf s)) as [g ld]. cbn in *. subst ld.
  set (t' := if negb (sf_running (sf s)) then Flight p (calls s) FRequest else Waiting p (calls s)).
  pose proof (countb_insert leads _ _ _ t' Hi) as H1. pose proof (countb_insert pending _ _ _ t' Hi) as H2.
  assert (pending t' = false) as Hp by (unfold t'; by destruct (sf_running (sf s))).
  rewrite Hp in H2. cbn in H1, H2.
  assert (thread_ok g (S (calls s)) (received s) t') as Ht'.
  { unfold t'. specialize (Hws (calls s)). rewrite bool_decide_eq_true_2 in Hws by done.
    destruct (sf_running (sf s)); cbn; split_and!; auto; lia. }
  split; cbn; rewrite ?Hrun; try done; [| |lia|by apply Forall_insert].
  - eapply lock_inv_same; [done|unfold t'; by destruct (sf_running (sf s))..|done].
  - rewrite inv_leader0 in H1. unfold t' in *. destruct (sf_running (sf s)); cbn in *; lia.
Qed.

Lemma inv_complete s i p n err :
  flight_inv s → threads s !! i = Some (Flight p n (FReturn err)) →
  flight_inv (set_thread (with_sf s (sf_complete err (sf s)) (calls s)) i (Waiting p n)).
Proof.
  intros Hinv Hi. pose proof Hinv as [].
  pose proof (proj1 (Forall_lookup _ _) inv_threads0 _ _ Hi) as (Hb & Hn & Hw & _).
  assert (sf_running (sf s) = true) as Hrun.
  { destruct (sf_running (sf s)) eqn:E; [done|]. by rewrite (inv_idle0 eq_refl) in Hw. }
  pose proof (countb_insert leads _ _ _ (Waiting p n) Hi) as H1.
  pose proof (countb_insert pending _ _ _ (Waiting p n) Hi) as H2. cbn in H1, H2. rewrite Hrun in inv_leader0.
  split; cbn; rewrite ?sf_complete_idle; try done; [|lia|lia| | |].
  - by eapply lock_inv_same.
  - eapply forall_others; [done..| |].
    + cbn. split_and!; [done..|]. right. rewrite sf_complete_result, Hw. by eexists.
    + intros j u Hne Hj. apply thread_ok_complete. destruct (leads u) eqn:Hu; [|done].
      by destruct Hne; eapply inv_one_leader.
  - intros _ m. apply sf_complete_waits.
  - intros m Hm. destruct (inv_fresh0 m Hm) as [H3 H4]. by rewrite sf_complete_waits, sf_complete_result, H3.
Qed.

Lemma inv_response s i p n w l set :
  flight_inv s → threads s !! i = Some (Flight p n FRequest) → set ≠ ∅ → cache w = cache (jw s) →
  flight_inv (set_thread (with_received (with_logs (with_jw s w) l) set) i (Flight p n (FLock set))).
Proof.
  intros Hinv Hi Hne Hc. pose proof Hinv as [].
  pose proof (proj1 (Forall_lookup _ _) inv_threads0 _ _ Hi) as (Hb & Hn & Hw & _).
  pose proof (countb_insert leads _ _ _ (Flight p n (FLock set)) Hi) as H1.
  pose proof (countb_insert pending _ _ _ (Flight p n (FLock set)) Hi) as H2. cbn in H1, H2.
  split; cbn; try done; [|lia| | | |].
  - by eapply lock_inv_same.
  - rewrite length_app. cbn. lia.
  - rewrite Hc, lookup_app_l; [done|]. by eapply lookup_lt_Some.
  - eapply forall_others; [done..| |].
    + cbn. by rewrite last_snoc.
    + intros j u Hji Hj. apply thread_ok_received. destruct (leads u) eqn:Hu; [|done].
      by destruct Hji; eapply inv_one_leader.
  - apply Forall_app. by repeat constructor.
Qed.

Lemma inv_write_cache s i p n set :
  flight_inv s → threads s !! i = Some (Flight p n (FWriteCache set)) →
  flight_inv (set_thread (with_installed s set) i (Flight p n FWriteTime)).
Proof.
  intros Hinv Hi. pose proof (inv_received_len s i _ Hinv Hi eq_refl) as Hlen. pose proof Hinv as [].
  pose proof (proj1 (Forall_lookup _ _) inv_threads0 _ _ Hi) as (Hb & Hn & Hw & Hlast).
  pose proof (countb_insert leads _ _ _ (Flight p n FWriteTime) Hi) as H1.
  pose proof (countb_insert pending _ _ _ (Flight p n FWriteTime) Hi) as H2. cbn in H1, H2, Hlen.
  split; cbn; try done; [|lia|lia| |].
  - by eapply lock_inv_same.
  - by rewrite <- last_lookup.
  - by apply Forall_insert.
Qed.

Lemma fetch_local c s s' i p n f f' :
  flight_inv s → threads s !! i = Some (Flight p n f) → fetch_step c s f = Some (s', f') →
  flight_inv (set_thread s' i (Flight p n f')).
Proof.
  intros Hinv Hi Hs. pose proof Hinv as [].
  pose proof (proj1 (Forall_lookup _ _) inv_threads0 _ _ Hi) as (Hb & Hn & Hw & Hlast).
  destruct f; cbn in Hs.
  - destruct (response_cases c (jw s)) as [(v & tr & e & H)|(v & tr & keys & _ & _ & Hne & H)];
      rewrite H in Hs; simplify_eq/=.
    + eapply inv_local; try done. by eapply lock_inv_same.
    + by apply inv_response.
  - destruct (Lock_announce (mu s)) eqn:E; simplify_eq/=. eapply inv_local; try done.
    lock_step Hi (Flight p n (FLocking newCache)).
  - destruct (Lock_enter (mu s)) eqn:E; simplify_eq/=. eapply inv_local; try done.
    lock_step Hi (Flight p n (FWriteCache newCache)).
  - simplify_eq. by apply inv_write_cache.
  - simplify_eq. eapply inv_local; try done. by eapply lock_inv_same.
  - simplify_eq. eapply inv_local; try done. lock_step Hi (Flight p n (FReturn None)).
  - done.
Qed.

Lemma inv_thread_step c s s' i t t' :
  flight_inv s → threads s !! i = Some t → thread_step c s t = Some (s', t') →
  flight_inv (set_thread s' i t').
Proof.
  intros Hinv Hi Hs. pose proof Hinv as [].
  pose proof (proj1 (Forall_lookup _ _) inv_threads0 _ _ Hi) as Hok.
  destruct t as [tok|tok|tok upd|tok kid again|tok kid again|p|p n f|p n|tok key|tok res| |err|err|]; cbn in Hs.
  - destruct (RLock (mu s)) eqn:E; simplify_eq/=. eapply inv_local; try done. lock_step Hi (VReadTime tok).
  - simplify_eq. eapply inv_local; try done. lock_step Hi (VParse tok (lastUpdated (jw s))).
  - destruct (unverified_header tok) as [hdr|] eqn:Eh; [destruct (unverified_claims tok) as [cl|] eqn:Ec|];
      [destruct (key_id hdr) as [kid|e] eqn:Ek|..]; simplify_eq;
      (eapply inv_local; try done; [cbn; auto|by eapply lock_inv_same]); eexists; eauto.
  - destruct (RLock (mu s)) eqn:E; simplify_eq/=. eapply inv_local; try done. lock_step Hi (KRead tok kid again).
  - destruct (cache (jw s) !! kid) as [key|] eqn:Ek; [|destruct again]; simplify_eq;
      (eapply inv_local; try done); [|lock_step Hi (Finish tok (Some (Ok key)))|
        |lock_step Hi (Finish tok (Some (Err (kid_not_found kid))))|lock_step Hi (Refresh (ForToken tok kid))].
    + cbn. exists kid, (cache (jw s)). split_and!; [done| |done]. by eapply list_elem_of_lookup_2.
    + destruct Hok as (? & ? & ? & ? & ?). by do 2 eexists.
  - pose proof (inv_join s i p Hinv Hi) as Hj. destruct (sf_join _ _) as [g ld]. by simplify_eq.
  - destruct f; [..|simplify_eq; by apply inv_complete];
      match type of Hs with fmap _ ?o = _ => destruct o as [[s1 f1]|] eqn:Ef end; cbn in Hs; simplify_eq;
      eapply fetch_local; eauto.
  - destruct (sf_result n (sf s)) as [r|]; simplify_eq/=. destruct Hok as (Hb & _).
    destruct p, r; (eapply inv_local; try done; try by eapply lock_inv_same).
    destruct Hb as (? & ? & ? & ? & ?). by do 2 eexists.
  - destruct (out (parse_and_check c _ tok (jw s))); simplify_eq.
    eapply inv_local; try done. by eapply lock_inv_same.
  - done.
  - done.
  - destruct (RLock (mu s)) eqn:E; simplify_eq/=. eapply inv_local; try done. lock_step Hi (TReadAge err).
  - simplify_eq. eapply inv_local; try done. lock_step Hi TIdle.
  - done.
Qed.

Lemma flight_inv_step c s s' : flight_inv s → flight_step c s s' → flight_inv s'.
Proof.
  intros Hinv Hst. revert Hinv.
  destruct Hst as [s0 i t s1 t' Hi Hs|s0 tok|s0 i Hi|s0 i Hi|s0 w]; intros Hinv; [by eapply inv_thread_step|..].
  - destruct Hinv as [[]]. split; cbn; rewrite ?countb_snoc, ?Nat.add_0_r; try done.
    + unfold lock_inv. by rewrite !countb_snoc, !Nat.add_0_r.
    + apply Forall_app. by repeat constructor.
  - eapply inv_local; try done. eapply lock_inv_same; try done. apply Hinv.
  - eapply inv_local; try done. eapply lock_inv_same; try done. apply Hinv.
  - destruct Hinv. by split.
Qed.

Lemma flight_inv_reachable c w s : cache w ≠ ∅ → flight_reachable c w s → flight_inv s.
Proof.
  intros Hw Hr. unfold flight_reachable in Hr. remember (flight_init w) as s0 eqn:E.
  assert (flight_inv s0) as H0 by (subst s0; by apply flight_inv_init). clear E Hw.
  induction Hr as [|? ? ? Hs _ IH]; [done|]. by eapply IH, flight_inv_step.
Qed.

(** ** One fetch at a time, no data race *)

(** C11: In every reachable state of the JWKS client with any number of concurrent
    VerifyToken calls and the refresher, a goroutine that is writing the key cache
    or its time excludes every reader and every other writer, and at most one
    goroutine is fetching keys (singleflight). *)
Theorem jwks_race_free c w s :
  cache w ≠ ∅ → flight_reachable c w s →
  (∀ i j t u, threads s !! i = Some t → threads s !! j = Some u → writes t = true →
     reads u = false ∧ (writes u = true → i = j))
  ∧ ∀ i j t u, threads s !! i = Some t → threads s !! j = Some u → leads t = true → leads u = true → i = j.
Proof.
  intros Hw Hr. pose proof (flight_inv_reachable c w s Hw Hr) as Hinv. split.
  2: { intros i j t u Hi Hj Ht Hu. by eapply inv_one_leader. }
  intros i j t u Hi Hj Ht. destruct Hinv as [[Hrd Hwr]].
  assert (0 < countb writes (threads s)) as Hpos by (apply countb_elem; by exists i, t).
  assert (rw_writer (mu s) = WHolding) as Hh by (destruct (rw_writer (mu s)); [lia|lia|done]).
  rewrite Hh in Hwr. split.
  - destruct (reads u) eqn:Hu; [|done].
    assert (0 < countb reads (threads s)) by (apply countb_elem; by exists j, u). lia.
  - intros Hu. eapply (countb_two writes); [|exact Hi|exact Hj|done..]. lia.
Qed.

(** ** What the cache is *)

(** What a step of a thread does to the group, the history and the cache. *)
Definition keeps s s' : Prop :=
  sf s' = sf s ∧ calls s' = calls s ∧ received s' = received s ∧ installed s' = installed s
  ∧ cache (jw s') = cache (jw s).

Lemma thread_step_cases c s t s' t' :
  thread_step c s t = Some (s', t') →
  threads s' = threads s ∧
  (keeps s s'
   ∨ (∃ p, t = Refresh p ∧ s' = with_sf s (sf_join (calls s) (sf s)).1 (S (calls s)))
   ∨ (∃ p n err, t = Flight p n (FReturn err) ∧ s' = with_sf s (sf_complete err (sf s)) (calls s))
   ∨ (∃ p n w l set, t = Flight p n FRequest ∧ s' = with_received (with_logs (with_jw s w) l) set)
   ∨ ∃ p n set, t = Flight p n (FWriteCache set) ∧ s' = with_installed s set).
Proof.
  intros Hs.
  destruct t as [tok|tok|tok upd|tok kid again|tok kid again|p|p n f|p n|tok key|tok res| |err|err|]; cbn in Hs;
    try (destruct (RLock (mu s)); simplify_eq/=; split; [done|by left]); try (simplify_eq; split; [done|by left]).
  - destruct (unverified_header tok) as [hdr|]; [destruct (unverified_claims tok); [destruct (key_id hdr)|]|];
      simplify_eq; (split; [done|by left]).
  - destruct (cache (jw s) !! kid); [|destruct again]; simplify_eq; (split; [done|by left]).
  - destruct (sf_join _ _) as [g ld] eqn:E; simplify_eq. split; [done|]. right; left. by exists p.
  - destruct f; [..|simplify_eq; split; [done|]; right; right; left; by do 3 eexists]; cbn in Hs.
    + destruct (response_cases c (jw s)) as [(v & tr & e & H)|(v & tr & keys & _ & _ & Hne & H)];
        rewrite H in Hs; simplify_eq/=; (split; [done|]); [by left|].
      right; right; right; left. by do 5 eexists.
    + destruct (Lock_announce (mu s)); simplify_eq/=; (split; [done|by left]).
    + destruct (Lock_enter (mu s)); simplify_eq/=; (split; [done|by left]).
    + simplify_eq/=. split; [done|]. do 4 right. by do 3 eexists.
    + simplify_eq/=; (split; [done|by left]).
    + simplify_eq/=; (split; [done|by left]).
  - destruct (sf_result n (sf s)); simplify_eq/=; (split; [done|by left]).
  - destruct (out (parse_and_check c _ tok (jw s))); simplify_eq; (split; [done|by left]).
  - done.
  - done.
  - done.
Qed.

Lemma history_step c s s' :
  flight_inv s → flight_step c s s' → received s `prefix_of` received s' ∧ installed s ≤ installed s'.
Proof.
  intros Hinv Hst. revert Hinv.
  destruct Hst as [s i t s' t' Hi Hs|s tok|s i Hi|s i Hi|s w]; intros Hinv; try by split.
  destruct (thread_step_cases _ _ _ _ _ Hs)
    as [_ [(_ & _ & Hr & Hin & _)|[(p & -> & ->)|[(p & n & err & -> & ->)|[(p & n & w & l & set & -> & ->)|
         (p & n & set & -> & ->)]]]]]; cbn; try by split.
  - by rewrite Hr, Hin.
  - split; [by apply prefix_app_r|done].
  - split; [done|]. rewrite (inv_received_len s i _ Hinv Hi eq_refl). cbn. lia.
Qed.

Lemma history_steps c s s' :
  flight_inv s → rtc (flight_step c) s s' →
  flight_inv s' ∧ received s `prefix_of` received s' ∧ installed s ≤ installed s'.
Proof.
  intros Hinv Hr. induction Hr as [|s1 s2 s3 Hs _ IH]; [done|].
  destruct (history_step c s1 s2 Hinv Hs) as [Hp Hi]. destruct IH as (H1 & H2 & H3); [by eapply flight_inv_step|].
  split_and!; [done|by etrans|lia].
Qed.

(** C17: In every interleaving the key cache is exactly one of the key sets the
    provider has sent, never empty, and the position of that set in the order of
    arrival never goes back: an older response is not installed over a newer one. *)
Theorem jwks_cache_never_regresses c w s s' :
  cache w ≠ ∅ → flight_reachable c w s → rtc (flight_step c) s s' →
  received s !! installed s = Some (cache (jw s)) ∧ cache (jw s) ≠ ∅
  ∧ received s' !! installed s = Some (cache (jw s)) ∧ installed s ≤ installed s'.
Proof.
  intros Hw Hr Hs. pose proof (flight_inv_reachable c w s Hw Hr) as Hinv.
  destruct (history_steps c s s' Hinv Hs) as (_ & [l Hp] & Hi). destruct Hinv. split_and!; [done| | |done].
  - exact (proj1 (Forall_lookup _ _) inv_keys0 _ _ inv_cache0).
  - rewrite Hp, lookup_app_l; [done|]. by eapply lookup_lt_Some.
Qed.

(** ** A refresh that succeeds brings keys at least as new as the call *)

(** Thread [i] looks a key up a second time only in the key set number [n] or a later one. *)
Definition refreshed_to (n i : nat) s : Prop :=
  n < length (received s) ∧
  match threads s !! i with
  | Some (KLock _ _ again | KRead _ _ again) => again = true → n ≤ installed s
  | Some (Waiting _ m) => sf_result m (sf s) = Some None → n ≤ installed s
  | _ => True
  end.

Lemma refreshed_own_step c s s' n i t t' :
  flight_inv s → refreshed_to n i s → threads s !! i = Some t → thread_step c s t = Some (s', t') →
  refreshed_to n i (set_thread s' i t').
Proof.
  intros Hinv [Hn Hpc] Hi Hs. rewrite Hi in Hpc.
  destruct (history_step c s _ Hinv (step_thread c s i t s' t' Hi Hs)) as [Hp%prefix_length Hins]. cbn in Hp, Hins.
  destruct (thread_step_cases _ _ _ _ _ Hs) as [Hts _].
  split; [cbn; lia|]. cbn [set_thread with_threads threads sf installed].
  rewrite Hts, list_lookup_insert_eq by (by eapply lookup_lt_Some).
  destruct t as [tok|tok|tok upd|tok kid again|tok kid again|p|p m f|p m|tok key|tok res| |err|err|]; cbn in Hs.
  - by destruct (RLock (mu s)); simplify_eq/=.
  - by simplify_eq.
  - destruct (unverified_header tok) as [hdr|]; [destruct (unverified_claims tok); [destruct (key_id hdr)|]|];
      by simplify_eq.
  - destruct (RLock (mu s)); simplify_eq/=. intros ->. auto.
  - destruct (cache (jw s) !! kid); [|destruct again]; by simplify_eq.
  - pose proof (inv_fresh s Hinv (calls s) ltac:(lia)) as [_ Hres].
    pose proof (sf_join_result (calls s) (sf s) _ Hres) as Hres'.
    destruct (sf_join (calls s) (sf s)) as [g []]; simplify_eq/=; [done|]. by rewrite Hres'.
  - destruct f; cbn in Hs;
      try (match type of Hs with fmap _ ?o = _ => destruct o as [[s1 f1]|] end; by simplify_eq/=); simplify_eq/=.
    + by destruct (out (fetch_response c (jw s))) as [[]| |]; simplify_eq/=.
    + by destruct (Lock_announce (mu s)); simplify_eq/=.
    + by destruct (Lock_enter (mu s)); simplify_eq/=.
    + pose proof (inv_received_len s i _ Hinv Hi eq_refl) as Hl. cbn in Hl. lia.
  - destruct (sf_result m (sf s)) as [r|]; simplify_eq/=. destruct p, r; simplify_eq/=; auto.
  - by destruct (out (parse_and_check c _ tok (jw s))); simplify_eq.
  - done.
  - done.
  - by destruct (RLock (mu s)); simplify_eq/=.
  - by simplify_eq.
  - done.
Qed.

Lemma refreshed_other_step c s s' n i j t t' :
  flight_inv s → refreshed_to n i s → threads s !! j = Some t → i ≠ j →
  thread_step c s t = Some (s', t') → refreshed_to n i (set_thread s' j t').
Proof.
  intros Hinv [Hn Hpc] Hj Hij Hs.
  destruct (history_step c s _ Hinv (step_thread c s j t s' t' Hj Hs)) as [Hp%prefix_length Hins]. cbn in Hp, Hins.
  destruct (thread_step_cases _ _ _ _ _ Hs) as [Hts Hc].
  split; [cbn; lia|]. cbn [set_thread with_threads threads sf installed].
  rewrite Hts, list_lookup_insert_ne by done.
  destruct (threads s !! i) as [[tok|tok|tok upd|tok kid again|tok kid again|p|p m f|p m|tok key|tok res| |err|err|]|]
    eqn:Hi; try done; try (intros Ha; etrans; [by apply Hpc|done]).
  destruct (proj1 (Forall_lookup _ _) (inv_threads s Hinv) _ _ Hi) as (_ & Hm & _).
  destruct Hc as [(Hsf & _)|[(p' & -> & ->)|[(p' & n' & err & -> & ->)|[(p' & n' & w & l & set & -> & ->)|
    (p' & n' & set & -> & ->)]]]]; cbn in *; try (rewrite ?Hsf; intros Ha; etrans; [by apply Hpc|done]).
  - intros Ha. destruct (sf_result m (sf s)) as [r|] eqn:E.
    + rewrite (sf_join_keeps _ _ _ r) in Ha; [|lia|done]. by apply Hpc.
    + by rewrite sf_join_result in Ha.
  - rewrite sf_complete_result. destruct (sf_waits m (sf s)); [|done]. intros _.
    pose proof (inv_received_len s j _ Hinv Hj eq_refl) as Hl. cbn in Hl. lia.
Qed.

Lemma refreshed_step c s s' n i :
  flight_inv s → refreshed_to n i s → flight_step c s s' → refreshed_to n i s'.
Proof.
  intros Hinv H Hst. revert Hinv H.
  destruct Hst as [s j t s' t' Hj Hs|s tok|s j Hj|s j Hj|s w]; intros Hinv H; try done.
  - destruct (decide (i = j)) as [->|]; [by eapply refreshed_own_step|by eapply refreshed_other_step].
  - destruct H as [Hn H]. split; [done|]. cbn.
    destruct ((threads s ++ [VStart tok]) !! i) as [t|] eqn:E; [|done].
    apply lookup_snoc_Some in E as [[_ E]|[_ <-]]; [by rewrite E in H|done].
  - destruct H as [Hn H]. split; [done|]. cbn.
    destruct (decide (i = j)) as [->|];
      [by rewrite list_lookup_insert_eq by (by eapply lookup_lt_Some)|by rewrite list_lookup_insert_ne].
  - destruct H as [Hn H]. split; [done|]. cbn.
    destruct (decide (i = j)) as [->|];
      [by rewrite list_lookup_insert_eq by (by eapply lookup_lt_Some)|by rewrite list_lookup_insert_ne].
Qed.

(** C36: When a VerifyToken call that asked for a refresh returns to the cache, the
    keys installed are at least as new as the newest response the client had
    received when it asked, also when it joined a fetch that another call leads. *)
Theorem jwks_refresh_is_fresh c w s s' i tok kid :
  cache w ≠ ∅ → flight_reachable c w s → threads s !! i = Some (Refresh (ForToken tok kid)) →
  rtc (flight_step c) s s' → threads s' !! i = Some (KRead tok kid true) →
  ∃ n, length (received s) = S n ∧ n ≤ installed s'.
Proof.
  intros Hw Hr Hi Hs Hi'. pose proof (flight_inv_reachable c w s Hw Hr) as Hinv.
  exists (pred (length (received s))). split; [rewrite (inv_pending s Hinv); done|].
  assert (refreshed_to (pred (length (received s))) i s) as H0.
  { split; [rewrite (inv_pending s Hinv); cbn; lia|by rewrite Hi]. }
  assert (refreshed_to (pred (length (received s))) i s') as [_ H].
  { clear Hi Hi'. revert Hinv H0. generalize (pred (length (received s))). intros n.
    induction Hs as [|s1 s2 s3 Hst _ IH]; [done|]. intros Hinv H0.
    apply IH; [|by eapply flight_inv_step|by eapply refreshed_step]. by eapply rtc_r. }
  rewrite Hi' in H. by apply H.
Qed.

(** ** Tokens *)

Context {JLL : JWTLaws}.

Lemma check_claims_answer (keyfunc : token_header → Go (jw_world W) hevent (result rsa_key error)) c tok w e :
  ParseWithClaims keyfunc (jwks_issuer c) tok w = mkRun w [] (Ret (Err e)) →
  ∃ res, parse_and_check c keyfunc tok w = mkRun w [] (Ret (Err res)).
Proof.
  intros H. unfold parse_and_check. rewrite (run_bind _ _ _ _ _ _ H). destruct (errors_Is e _); by eexists.
Qed.

(** The answer of the key function the thread holds is a key of the cache, as it was
    at some time since it was key set number [n]. *)
Definition cached_since (n : nat) s (tok : string) (key : rsa_key) : Prop :=
  ∃ kid k set, names_key tok kid ∧ n ≤ k ≤ installed s ∧ received s !! k = Some set ∧ set !! kid = Some key.

Definition answer_since (n i : nat) s : Prop :=
  n ≤ installed s ∧
  match threads s !! i with
  | Some (Finish tok (Some (Ok key))) => cached_since n s tok key
  | _ => True
  end.

Lemma cached_since_mono c n s s' tok key :
  flight_inv s → flight_step c s s' → cached_since n s tok key → cached_since n s' tok key.
Proof.
  intros Hinv Hst (kid & k & set & Hk & Hn & Hset & Hkey). destruct (history_step c s s' Hinv Hst) as [[l Hp] Hi].
  exists kid, k, set. split_and!; [done|lia|lia| |done]. rewrite Hp, lookup_app_l; [done|]. by eapply lookup_lt_Some.
Qed.

Lemma answer_since_step c s s' n i :
  flight_inv s → answer_since n i s → flight_step c s s' → answer_since n i s'.
Proof.
  intros Hinv [Hn H] Hst. destruct (history_step c s s' Hinv Hst) as [_ Hins]. split; [lia|].
  pose proof (λ tok key, cached_since_mono c n s s' tok key Hinv Hst) as Hmono.
  destruct (threads s' !! i) as [[]|] eqn:Hi'; try done. destruct key as [[key|e]|]; try done.
  assert (threads s !! i = Some (Finish tok (Some (Ok key))) ∨ cached_since n s tok key) as [Hi|Hc];
    [|apply Hmono; by rewrite Hi in H|by apply Hmono].
  clear Hmono H. revert Hn Hinv Hi' Hins. destruct Hst as [s j t s' t' Hj Hs|s tok'|s j Hj|s j Hj|s v];
    intros Hn Hinv Hi' Hins; cbn in Hi'; [|apply lookup_snoc_Some in Hi' as [[_ ?]|[_ ?]]; [by left|done]| | |by left].
  2, 3: apply list_lookup_insert_Some in Hi' as [(_ & ? & _)|[_ ?]]; [done|by left].
  destruct (thread_step_cases _ _ _ _ _ Hs) as [Hts _]. rewrite Hts in Hi'.
  apply list_lookup_insert_Some in Hi' as [(-> & -> & _)|[_ ?]]; [right|by left].
  pose proof (proj1 (Forall_lookup _ _) (inv_threads s Hinv) _ _ Hj) as Hok.
  destruct t as [tok'|tok'|tok' upd|tok' kid again|tok' kid again|p|p m f|p m|tok' key'|tok' res| |err|err|]; cbn in Hs;
    try (destruct (RLock (mu s)); by simplify_eq/=); try by simplify_eq.
  - destruct (unverified_header tok') as [hdr|]; [destruct (unverified_claims tok'); [destruct (key_id hdr)|]|];
      by simplify_eq.
  - destruct (cache (jw s) !! kid) as [key'|] eqn:Ek; [|destruct again]; simplify_eq.
    exists kid, (installed s), (cache (jw s)). split_and!; [done..| |done]. apply Hinv.
  - destruct (sf_join _ _) as [g []]; by simplify_eq.
  - destruct f; [..|by simplify_eq];
      match type of Hs with fmap _ ?o = _ => destruct o as [[s1 f1]|] end; by simplify_eq/=.
  - destruct (sf_result m (sf s)) as [[r|]|]; [destruct p..|]; by simplify_eq/=.
  - destruct (out (parse_and_check c _ tok' (jw s))); by simplify_eq.
Qed.

(** What acceptance means, for a key. *)
Definition accepted_with c (now : Z) (tok : string) (key : rsa_key) (claims : HelixClaims) : Prop :=
  signed_by tok key = true ∧ unverified_claims tok = Some claims
  ∧ Issuer claims = jwks_issuer c ∧ times_valid now claims.

Lemma finish_runs c g n sets tok key w :
  thread_ok g n sets (Finish tok key) →
  ∃ res, parse_and_check c (answer key) tok w = mkRun w [] (Ret res)
    ∧ ∀ claims, res = Ok claims →
        ∃ k, key = Some (Ok k) ∧ accepted_with c (time_Now (jw_rest w)) tok k claims.
Proof.
  intros Hok. destruct key as [[key|e]|]; cbn in Hok.
  - destruct Hok as (kid & set & (hdr & claims & Hh & Hc & Hk) & Hin & Hl).
    assert (answer (Some (Ok key)) hdr w = mkRun w [] (Ret (Ok key))) as Ha by done.
    destruct (decide (signed_by tok key = true ∧ Issuer claims = jwks_issuer c
                      ∧ times_valid (time_Now (jw_rest w)) claims)) as [(Hs & Hiss & Ht)|Hn].
    + pose proof (parse_accepts _ (jwks_issuer c) tok w hdr claims w [] key Hh Hc Ha Hs Hiss Ht) as Hp.
      exists (Ok claims). split; [|by intros ? [= <-]; exists key].
      unfold parse_and_check. rewrite (run_bind _ _ _ _ _ _ Hp). by rewrite check_claims_valid, after_nil.
    + destruct (parse_rejects _ (jwks_issuer c) tok w hdr claims w [] key Hh Hc Ha Hn) as [e He].
      destruct (check_claims_answer _ c tok w e He) as [res ->]. by eexists.
  - destruct Hok as (hdr & claims & Hh & Hc).
    assert (answer (Some (Err e)) hdr w = mkRun w [] (Ret (Err e))) as Ha by done.
    destruct (parse_no_key _ (jwks_issuer c) tok w hdr claims w [] e Hh Hc Ha) as (e' & He & _).
    destruct (check_claims_answer _ c tok w e' He) as [res ->]. by eexists.
  - destruct (parse_malformed (answer None) (jwks_issuer c) tok w Hok) as (e & He & _).
    destruct (check_claims_answer _ c tok w e He) as [res ->]. by eexists.
Qed.

(** A step that ends a call with claims. *)
Lemma accepting_step c s s' i tok key claims :
  flight_inv s → threads s !! i = Some (Finish tok key) → flight_step c s s' →
  threads s' !! i = Some (VDone tok (Ok claims)) →
  ∃ k, key = Some (Ok k) ∧ accepted_with c (time_Now (jw_rest (jw s))) tok k claims.
Proof.
  intros Hinv Hi Hst Hi'. revert Hinv Hi Hi'.
  destruct Hst as [s j t s' t' Hj Hs|s tok'|s j Hj|s j Hj|s v]; intros Hinv Hi Hi'; cbn in Hi'.
  - destruct (thread_step_cases _ _ _ _ _ Hs) as [Hts _]. rewrite Hts in Hi'.
    apply list_lookup_insert_Some in Hi' as [(-> & -> & _)|[_ ?]]; [|congruence]. simplify_eq. cbn in Hs.
    pose proof (proj1 (Forall_lookup _ _) (inv_threads s Hinv) _ _ Hj) as Hok.
    destruct (finish_runs c _ _ _ _ _ (jw s) Hok) as (res & Hp & Hres). rewrite Hp in Hs. simplify_eq/=.
    by apply Hres.
  - apply lookup_snoc_Some in Hi' as [[_ ?]|[_ ?]]; congruence.
  - apply list_lookup_insert_Some in Hi' as [(_ & ? & _)|[_ ?]]; congruence.
  - apply list_lookup_insert_Some in Hi' as [(_ & ? & _)|[_ ?]]; congruence.
  - congruence.
Qed.

(** C10: In every interleaving of calls and refreshes VerifyToken returns claims
    only for a token that is RSA signed by a key of a key set that was in the cache
    at some time since the call started, from the configured issuer and valid at the
    time it is checked. *)
Theorem jwks_concurrent_verify_sound c w s0 s s' i tok key claims :
  cache w ≠ ∅ → flight_reachable c w s0 →
  threads s0 !! i = Some (VStart tok) → rtc (flight_step c) s0 s →
  threads s !! i = Some (Finish tok key) → flight_step c s s' →
  threads s' !! i = Some (VDone tok (Ok claims)) →
  ∃ k, cached_since (installed s0) s tok k
    ∧ accepted_with c (time_Now (jw_rest (jw s))) tok k claims.
Proof.
  intros Hw Hr Hi0 Hsteps Hi Hst Hi'. pose proof (flight_inv_reachable c w s0 Hw Hr) as Hinv.
  assert (flight_inv s ∧ answer_since (installed s0) i s) as [Hinv' [_ Ha]].
  { assert (answer_since (installed s0) i s0) as H0 by (split; [done|by rewrite Hi0]).
    clear Hi0 Hi Hst Hr Hw. revert Hinv H0. generalize (installed s0). intros n.
    induction Hsteps as [|s1 s2 s3 H12 _ IH]; [done|]. intros Hinv H0.
    apply IH; [by eapply flight_inv_step|by eapply answer_since_step]. }
  destruct (accepting_step c s s' i tok key claims Hinv' Hi Hst Hi') as (k & -> & Hacc).
  rewrite Hi in Ha. by exists k.
Qed.

End flight_facts.
