(* ===== verification/JwksFlightLive.v ===== *)
(** The progress of the concurrent JWKS client, and that a call that runs alone is
    [verify] of [Jwks.v]. *)

From S2P Require Import Prelude GoErrors Contextx GoStrings Json Http Response Middleware Grpc Auth Base64 Jwks JwksFacts JwksFlight JwksFlightFacts.

Open Scope string_scope.
Open Scope list_scope.
Open Scope nat_scope.

Section flight_live.
Context {W : Type} {CL : Clock W} {EP : JwksEndpoint W} {JL : JWT (jw_world W)}.
Context {SF : Type} {SG : Singleflight SF} {SGL : SingleflightLaws SF}.
Context {JLL : JWTLaws}.
Abbreviation fstate := (flight_state (W := W) (SF := SF)).
Implicit Types (c : jwks_config) (s : fstate) (t : thread).

(** ** Every call can return *)

(** How many steps a thread is from its end, or from the next tick. *)
Definition weight t : nat :=
  match t with
  | VStart _ => 17 | VReadTime _ => 16 | VParse _ _ => 15
  | KLock _ _ false => 14 | KRead _ _ false => 13 | Refresh _ => 12
  | Flight _ _ f =>
      match f with
      | FRequest => 11 | FLock _ => 10 | FLocking _ => 9 | FWriteCache _ => 8
      | FWriteTime => 7 | FUnlock => 6 | FReturn _ => 5
      end
  | Waiting _ _ => 4 | KLock _ _ true => 3 | KRead _ _ true => 2 | TAge _ => 2
  | Finish _ _ => 1 | TReadAge _ => 1
  | VDone _ _ | TIdle | TStopped => 0
  end.

Definition work (ts : list thread) : nat := sum_list_with weight ts.

Lemma work_insert ts i t t' :
  ts !! i = Some t → work (<[i := t']> ts) + weight t = work ts + weight t'.
Proof.
  revert i. induction ts as [|u ts IH]; intros [|i] Hi; simplify_eq/=; [lia|]. specialize (IH _ Hi). lia.
Qed.

Lemma work_zero ts i t : work ts = 0 → ts !! i = Some t → weight t = 0.
Proof. intros H0 Hi. pose proof (work_insert ts i t TIdle Hi) as H. cbn in H. lia. Qed.

Lemma work_pos ts : 0 < work ts → ∃ i t, ts !! i = Some t ∧ 0 < weight t.
Proof.
  induction ts as [|u ts IH]; cbn; [lia|]. intros H. destruct (weight u) eqn:E.
  - destruct IH as (i & t & Hi & Ht); [unfold work; lia|]. by exists (S i), t.
  - exists 0, u. split; [done|lia].
Qed.

(** The places where a thread can wait for another one. *)
Definition may_block t : bool :=
  match t with
  | VStart _ | KLock _ _ _ | TAge _ | Waiting _ _ | Flight _ _ (FLock _ | FLocking _) => true
  | _ => false
  end.

Definition advances c s : Prop :=
  ∃ i t s' t', threads s !! i = Some t ∧ thread_step c s t = Some (s', t') ∧ weight t' < weight t.

Lemma free_advances c s i t :
  flight_inv s → threads s !! i = Some t → 0 < weight t → may_block t = false → advances c s.
Proof.
  intros Hinv Hi Hw Hb. pose proof (proj1 (Forall_lookup _ _) (inv_threads s Hinv) _ _ Hi) as Hok.
  assert (∃ s' t', thread_step c s t = Some (s', t') ∧ weight t' < weight t) as (s' & t' & H1 & H2);
    [|by exists i, t, s', t'].
  destruct t as [tok|tok|tok upd|tok kid again|tok kid again|p|p n f|p n|tok key|tok res| |err|err|];
    try done; try (cbn in Hw; lia).
  - do 2 eexists. split; [done|cbn; lia].
  - cbn. destruct (unverified_header tok) as [hdr|]; [destruct (unverified_claims tok); [destruct (key_id hdr)|]|];
      do 2 eexists; (split; [done|cbn; lia]).
  - cbn. destruct (cache (jw s) !! kid); [|destruct again]; do 2 eexists; (split; [done|cbn; try destruct again; lia]).
  - cbn. destruct (sf_join _ _) as [g []]; do 2 eexists; (split; [done|cbn; lia]).
  - destruct f; try done; cbn.
    + destruct (response_cases c (jw s)) as [(v & tr & e & H)|(v & tr & keys & _ & _ & Hne & H)]; rewrite H; cbn;
        do 2 eexists; (split; [done|cbn; lia]).
    + do 2 eexists; (split; [done|cbn; lia]).
    + do 2 eexists; (split; [done|cbn; lia]).
    + do 2 eexists; (split; [done|cbn; lia]).
    + do 2 eexists; (split; [done|cbn; lia]).
  - cbn. destruct (finish_runs c _ _ _ _ _ (jw s) Hok) as (res & Hp & _). rewrite Hp.
    do 2 eexists. split; [done|cbn; lia].
  - do 2 eexists. split; [done|cbn; lia].
Qed.

(** When every thread that can go on without waiting has ended, one that waits
    can go on. *)
Lemma blocked_advance c s :
  flight_inv s → 0 < work (threads s) →
  (∀ i t, threads s !! i = Some t → 0 < weight t → may_block t = true) → advances c s.
Proof.
  intros Hinv Hpos Hall. pose proof Hinv as []. destruct inv_lock as [Hrd Hwr].
  assert (∀ f, (∀ t, f t = true → 0 < weight t ∧ may_block t = false) → countb f (threads s) = 0) as Hnone.
  { intros f Hf. destruct (decide (countb f (threads s) = 0)) as [|Hn]; [done|].
    assert (0 < countb f (threads s)) as (i & t & Hi & Ht)%countb_elem by lia.
    destruct (Hf t Ht) as [Hp Hb]. rewrite (Hall i t Hi Hp) in Hb. done. }
  assert (countb reads (threads s) = 0) as Hr0.
  { apply Hnone. intros [| | | |? ? []| | | | | | | | |]; try done; cbn; lia. }
  assert (countb writes (threads s) = 0) as Hw0 by (apply Hnone; intros [| | | | | |? ? []| | | | | | |]; try done; cbn; lia).
  rewrite Hr0 in Hrd. rewrite Hw0 in Hwr. destruct (rw_writer (mu s)) eqn:Ew; [|clear Hnone|lia].
  2: { assert (0 < countb locking (threads s)) as (i & t & Hi & Ht)%countb_elem by lia.
       destruct t as [| | | | | |p n []| | | | | | |]; try done.
       eexists i, _, _, _. split; [done|]. cbn. unfold Lock_enter. rewrite Hrd. split; [done|cbn; lia]. }
  destruct (work_pos _ Hpos) as (i & t & Hi & Ht). specialize (Hall i t Hi Ht) as Hb.
  assert (∀ j u, threads s !! j = Some u → (∃ p n, u = Waiting p n) ∨ leads u = true ∧ (∃ p n set, u = Flight p n (FLock set))
    ∨ (∃ s' t', thread_step c s u = Some (s', t') ∧ weight t' < weight u) ∨ weight u = 0) as Hcases.
  { intros j u Hj. destruct (decide (weight u = 0)) as [|Hu]; [by do 3 right|].
    specialize (Hall j u Hj ltac:(lia)). destruct u as [| | |? ? again| | |? ? []| | | | | | |]; try done.
    1, 2, 6: right; right; left; cbn; unfold RLock; rewrite Ew; do 2 eexists; (split; [done|]); cbn; try destruct again; lia.
    - right; left. split; [done|]. by do 3 eexists.
    - exfalso. destruct Hwr as [Hl _].
      assert (0 < countb locking (threads s)); [|lia]. apply countb_elem. by do 2 eexists.
    - left. by do 2 eexists. }
  assert (∀ j p n set, threads s !! j = Some (Flight p n (FLock set)) → advances c s) as HF.
  { intros j p n set Hj. eexists j, _, _, _. split; [done|]. cbn. unfold Lock_announce. rewrite Ew.
    split; [done|cbn; lia]. }
  destruct (Hcases i t Hi) as [(p & n & ->)|[[_ (p & n & set & ->)]|[(s' & t' & Hs & Hlt)|H0]]];
    [|by eapply HF|by exists i, t, s', t'|lia].
  destruct (proj1 (Forall_lookup _ _) inv_threads _ _ Hi) as (_ & _ & [Hwait|[r Hres]]).
  2: { exists i, (Waiting p n), s, (resume p r). split; [done|]. cbn. rewrite Hres. split; [done|].
       destruct p, r; cbn; lia. }
  destruct (sf_running (sf s)) eqn:Erun; [|by rewrite (inv_idle eq_refl) in Hwait].
  assert (0 < countb leads (threads s)) as (j & u & Hj & Hu)%countb_elem by lia.
  destruct (Hcases j u Hj) as [(? & ? & ->)|[[_ (? & ? & ? & ->)]|[(s' & t' & Hs & Hlt)|H0]]];
    [done|by eapply HF|by exists j, u, s', t'|]. by destruct u as [| | | | | |? ? []| | | | | | |].
Qed.

Lemma work_advances c s : flight_inv s → 0 < work (threads s) → advances c s.
Proof.
  intros Hinv Hpos.
  destruct (decide (Exists (λ t, 0 < weight t ∧ may_block t = false) (threads s))) as [Hex|Hno].
  - apply Exists_exists in Hex as (t & [i Hi]%list_elem_of_lookup & Hw & Hb). by eapply free_advances.
  - apply blocked_advance; [done..|]. intros i t Hi Hw. destruct (may_block t) eqn:Hb; [done|].
    destruct Hno. apply Exists_exists. exists t. split; [by eapply list_elem_of_lookup_2|done].
Qed.

(** C18: From every reachable state of the concurrent JWKS client, whoever holds or
    waits for the lock or for the shared fetch, there is a continuation without new
    calls in which every call returns and the refresher is between two ticks or
    stopped: no deadlock is reachable. *)
Theorem jwks_calls_can_return c w s :
  cache w ≠ ∅ → flight_reachable c w s →
  ∃ s', rtc (flight_step c) s s' ∧ length (threads s') = length (threads s)
    ∧ ∀ i t, threads s' !! i = Some t → (∃ tok res, t = VDone tok res) ∨ t = TIdle ∨ t = TStopped.
Proof.
  intros Hw Hr. pose proof (flight_inv_reachable c w s Hw Hr) as Hinv. clear Hr Hw.
  remember (work (threads s)) as n eqn:En. revert s En Hinv.
  induction (lt_wf n) as [n _ IH]. intros s -> Hinv. destruct (decide (work (threads s) = 0)) as [H0|Hpos].
  - exists s. split_and!; [done..|]. intros i t Hi%(work_zero _ _ _ H0).
    destruct t as [| | |? ? []|? ? []| |? ? []| | | | | | |]; cbn in Hi; try lia; eauto.
  - destruct (work_advances c s Hinv) as (i & t & s1 & t' & Hi & Hs & Hlt); [lia|].
    pose proof (step_thread c s i t s1 t' Hi Hs) as Hst.
    pose proof (work_insert _ _ _ t' Hi) as Hwk. destruct (thread_step_cases _ _ _ _ _ Hs) as [Hts _].
    destruct (IH (work (threads (set_thread s1 i t')))) with (s := set_thread s1 i t') as (s' & Hr & Hlen & Hall).
    + cbn [set_thread with_threads threads]. rewrite Hts. clear -Hwk Hlt. lia.
    + done.
    + by eapply flight_inv_step.
    + exists s'. split_and!; [by eapply rtc_l| |done]. rewrite Hlen. cbn. by rewrite length_insert, Hts.
Qed.

(** ** A call that runs alone *)

(** The library's documentation of the key function: it is called once for a
    well-formed token, and what the library does depends on its answer only. *)
Class JWTAnswerLaws : Prop := {
  parse_answer kf iss tok w hdr claims w' tr ans :
    unverified_header tok = Some hdr → unverified_claims tok = Some claims →
    kf hdr w = mkRun w' tr (Ret ans) →
    ParseWithClaims kf iss tok w = after tr (ParseWithClaims (answer (Some ans)) iss tok w');
  parse_ignores kf kf' iss tok (w : jw_world W) :
    unverified_header tok = None ∨ unverified_claims tok = None →
    ParseWithClaims kf iss tok w = ParseWithClaims kf' iss tok w;
}.

(** The steps of one thread. *)
Definition thread_runs c : relation (fstate * thread) :=
  rtc (λ a b, thread_step c a.1 a.2 = Some b).

Lemma thread_step_threads c s t l :
  thread_step c (with_threads s l) t = (λ r, (with_threads r.1 l, r.2)) <$> thread_step c s t.
Proof.
  destruct t as [tok|tok|tok upd|tok kid again|tok kid again|p|p n f|p n|tok key|tok res| |err|err|]; cbn;
    try done; try by destruct (RLock (mu s)).
  - destruct (unverified_header tok) as [hdr|]; [destruct (unverified_claims tok); [destruct (key_id hdr)|]|]; done.
  - destruct (cache (jw s) !! kid); [|destruct again]; done.
  - by destruct (sf_join _ _).
  - destruct f; cbn; try done.
    + by destruct (out (fetch_response c (jw s))) as [[]| |].
    + by destruct (Lock_announce (mu s)).
    + by destruct (Lock_enter (mu s)).
  - by destruct (sf_result n (sf s)).
  - by destruct (out (parse_and_check c _ tok (jw s))).
Qed.

Lemma thread_runs_steps c s t s' t' i l :
  thread_runs c (s, t) (s', t') → l !! i = Some t →
  rtc (flight_step c) (with_threads s l) (with_threads s' (<[i := t']> l)).
Proof.
  intros Hr. remember (s, t) as a eqn:Ea. remember (s', t') as b eqn:Eb. revert s t l Ea.
  induction Hr as [|a [s1 t1] b Hs _ IH]; intros s t l -> Hi; [simplify_eq; by rewrite list_insert_id|].
  cbn in Hs. eapply rtc_l.
  - eapply (step_thread c (with_threads s l) i t (with_threads s1 l) t1); [done|]. by rewrite thread_step_threads, Hs.
  - replace (<[i := t']> l) with (<[i := t']> (<[i := t1]> l)) by apply list_insert_insert_eq.
    apply (IH Eb s1 t1); [done|]. apply list_lookup_insert_eq. by eapply lookup_lt_Some.
Qed.

(** No thread holds the lock or refreshes. *)
Definition quiet s : Prop :=
  mu s = mkRW 0 WNone ∧ sf_running (sf s) = false
  ∧ ∀ n, calls s ≤ n → sf_waits n (sf s) = false ∧ sf_result n (sf s) = None.

Lemma fetchKeys_err c w w' tr e :
  fetch_response c w = mkRun w' tr (Ret (Err e)) → fetchKeys c w = mkRun w' tr (Ret (Some e)).
Proof. intros H. unfold fetchKeys. rewrite (run_bind _ _ _ _ _ _ H). unfold after. cbn. by rewrite app_nil_r. Qed.

Lemma fetchKeys_ok c w w' tr set :
  fetch_response c w = mkRun w' tr (Ret (Ok set)) →
  fetchKeys c w = mkRun (set_lastUpdated (set_cache set w')) tr (Ret None).
Proof.
  intros H. unfold fetchKeys. rewrite (run_bind _ _ _ _ _ _ H), !run_modify. unfold after. cbn. by rewrite app_nil_r.
Qed.

(** A refresh, from the call of [Do] to its return, when no other is under way. *)
Lemma solo_refresh c s p :
  quiet s →
  ∃ s' tr err, thread_runs c (s, Refresh p) (s', resume p err)
    ∧ fetchKeys c (jw s) = mkRun (jw s') tr (Ret err) ∧ logs s' = logs s ++ tr ∧ quiet s'.
Proof.
  intros (Hmu & Hrun & Hfr). set (n := calls s).
  pose proof (sf_join_leads n (sf s)) as Hl. rewrite Hrun in Hl. cbn in Hl.
  pose proof (sf_join_waits n (sf s)) as Hws. pose proof (sf_join_result n (sf s)) as Hrs.
  destruct (sf_join n (sf s)) as [g ld] eqn:Ej. cbn in Hl, Hws, Hrs. subst ld.
  assert (sf_waits n g = true) as Hwn by (by rewrite Hws, bool_decide_eq_true_2).
  assert (∀ err m, S n ≤ m → sf_waits m (sf_complete err g) = false ∧ sf_result m (sf_complete err g) = None) as Hfr'.
  { intros err m Hm. destruct (Hfr m) as [H1 H2]; [lia|]. rewrite sf_complete_waits, sf_complete_result, Hws, H1.
    rewrite bool_decide_eq_false_2 by lia. split; [done|]. by apply Hrs. }
  assert (∀ err, sf_result n (sf_complete err g) = Some err) as Hres by (intros; by rewrite sf_complete_result, Hwn).
  assert (thread_step c s (Refresh p) = Some (with_sf s g (S n), Flight p n FRequest)) as Hjoin.
  { cbn. unfold n in *. by rewrite Ej. }
  destruct (response_cases c (jw s)) as [(v & tr & e & H)|(v & tr & keys & _ & _ & Hne & H)].
  - do 3 eexists. split.
    { eapply rtc_l; [exact Hjoin|]. eapply rtc_l; [cbn; rewrite H; reflexivity|].
      eapply rtc_l; [reflexivity|]. eapply rtc_l; [cbn; rewrite Hres; reflexivity|]. apply rtc_refl. }
    split_and!; [exact (fetchKeys_err _ _ _ _ _ H)|done|by split_and!; [|apply sf_complete_idle|apply Hfr']].
  - do 3 eexists. split.
    { eapply rtc_l; [exact Hjoin|]. eapply rtc_l; [cbn; rewrite H; reflexivity|].
      eapply rtc_l; [cbn; unfold Lock_announce; rewrite Hmu; reflexivity|]. 
      do 5 (eapply rtc_l; [reflexivity|]).
      eapply rtc_l; [cbn; rewrite Hres; reflexivity|]. apply rtc_refl. }
    split_and!; [exact (fetchKeys_ok _ _ _ _ _ H)|done|by split_and!; [|apply sf_complete_idle|apply Hfr']].
Qed.

(** The key function, step by step. *)
Lemma solo_key c s tok hdr kid :
  quiet s → key_id hdr = Ok kid →
  ∃ s' tr ans, thread_runs c (s, KLock tok kid false) (s', Finish tok (Some ans))
    ∧ key_for c hdr (jw s) = mkRun (jw s') tr (Ret ans) ∧ logs s' = logs s ++ tr ∧ quiet s'.
Proof.
  intros Hq Hk. pose proof Hq as (Hmu & _ & _). unfold key_for. rewrite Hk, run_gets.
  set (s1 := with_mu (with_mu s (mkRW 1 WNone)) (mkRW 0 WNone)).
  assert (quiet s1) as Hq1 by (split_and!; [done|apply Hq|apply Hq]).
  assert (thread_step c s (KLock tok kid false) = Some (with_mu s (mkRW 1 WNone), KRead tok kid false)) as H1.
  { cbn. unfold RLock. by rewrite Hmu. }
  destruct (cache (jw s) !! kid) as [key|] eqn:El.
  { exists s1, [], (Ok key). split_and!; [|done|by rewrite app_nil_r|done].
    eapply rtc_l; [exact H1|]. eapply rtc_l; [cbn; rewrite El; reflexivity|]. apply rtc_refl. }
  destruct (solo_refresh c (with_logs s1 [miss_log kid]) (ForToken tok kid)) as (s2 & tr & err & Hr & Hf & Hl & Hq2).
  { done. }
  assert (rtc (λ a b, thread_step c a.1 a.2 = Some b) (s, KLock tok kid false) (s2, resume (ForToken tok kid) err)) as Hpre.
  { eapply rtc_l; [exact H1|]. eapply rtc_l; [cbn; rewrite El; reflexivity|]. exact Hr. }
  rewrite run_emit. unfold doRefresh. change (jw (with_logs s1 _)) with (jw s) in Hf.
  rewrite (run_bind _ _ _ _ _ _ Hf), after_after. destruct err as [e|].
  { exists s2, (miss_log kid :: tr), (Err (refresh_failed e)). split_and!; [done| |by rewrite Hl; cbn; rewrite <- app_assoc|done].
    unfold after. cbn. by rewrite app_nil_r. }
  rewrite run_gets. destruct Hq2 as (Hmu2 & Hrun2 & Hfr2).
  set (ans := match cache (jw s2) !! kid with Some key => Ok key | None => Err (kid_not_found kid) end).
  exists (with_mu (with_mu s2 (mkRW 1 WNone)) (mkRW 0 WNone)), (miss_log kid :: tr), ans.
  split_and!; [| |cbn; rewrite Hl; cbn; by rewrite <- app_assoc|by split_and!].
  2: { unfold after, ans. cbn. destruct (cache (jw s2) !! kid); cbn; by rewrite app_nil_r. }
  etrans; [exact Hpre|]. eapply rtc_l; [cbn; unfold RLock; rewrite Hmu2; reflexivity|].
  eapply rtc_l; [|apply rtc_refl]. cbn. unfold ans. by destruct (cache (jw s2) !! kid).
Qed.

Context {JAL : JWTAnswerLaws}.

Lemma check_answer c kf tok w hdr claims w' tr ans :
  unverified_header tok = Some hdr → unverified_claims tok = Some claims → kf hdr w = mkRun w' tr (Ret ans) →
  parse_and_check c kf tok w = after tr (parse_and_check c (answer (Some ans)) tok w').
Proof.
  intros Hh Hc Hk. apply bind_after. by apply (parse_answer _ _ _ _ hdr claims).
Qed.

(** The call up to the answer of the key function. *)
Lemma solo_answer c s tok :
  quiet s →
  ∃ s2 key tr, thread_runs c (s, VStart tok) (s2, Finish tok key)
    ∧ thread_ok (sf s2) (calls s2) [cache (jw s2)] (Finish tok key) ∧ quiet s2
    ∧ logs s2 = logs s ++ stale_log c (jw s) ++ tr
    ∧ parse_and_check c (key_for c) tok (jw s) = after tr (parse_and_check c (answer key) tok (jw s2)).
Proof.
  intros Hq. pose proof Hq as (Hmu & Hrun & Hfr).
  set (s1 := with_logs (with_mu (with_mu s (mkRW 1 WNone)) (mkRW 0 WNone)) (stale_log c (jw s))).
  assert (quiet s1) as Hq1 by (split_and!; [done|apply Hq|apply Hq]).
  assert (∀ t' s', thread_step c (with_mu (with_mu s (mkRW 1 WNone)) (mkRW 0 WNone)) (VParse tok (lastUpdated (jw s)))
    = Some (s', t') → thread_runs c (s, VStart tok) (s', t')) as Hpre.
  { intros t' s' Hs. eapply rtc_l; [cbn; unfold RLock; rewrite Hmu; reflexivity|].
    eapply rtc_l; [reflexivity|]. eapply rtc_l; [exact Hs|]. apply rtc_refl. }
  cbn in Hpre. destruct (unverified_header tok) as [hdr|] eqn:Eh.
  2: { exists s1, None, []. split_and!; [by apply Hpre|by left|done|by rewrite app_nil_r|].
       rewrite after_nil. unfold parse_and_check, mbind, go_bind. by rewrite (parse_ignores _ (answer None)) by auto. }
  destruct (unverified_claims tok) as [claims|] eqn:Ec.
  2: { exists s1, None, []. split_and!; [by apply Hpre|by right|done|by rewrite app_nil_r|].
       rewrite after_nil. unfold parse_and_check, mbind, go_bind. by rewrite (parse_ignores _ (answer None)) by auto. }
  destruct (key_id hdr) as [kid|e] eqn:Ek.
  2: { exists s1, (Some (Err e)), []. split_and!; [by apply Hpre|by exists hdr, claims|done|by rewrite app_nil_r|].
       apply (check_answer _ _ _ _ _ _ _ _ _ Eh Ec). unfold key_for. by rewrite Ek. }
  destruct (solo_key c s1 tok hdr kid) as (s2 & tr & ans & Hr & Hkey & Hl & Hq2); [done..|].
  exists s2, (Some ans), tr. split_and!; [|..|done| |].
  - etrans; [by apply Hpre|]. exact Hr.
  - pose proof (key_for_run c hdr (jw s)) as (w' & tr' & res & Hk & _ & Hin).
    change (jw s1) with (jw s) in Hkey. rewrite Hkey in Hk. simplify_eq. destruct res as [key|e]; cbn.
    + destruct (Hin key eq_refl) as (Hrsa & k & Hk & Hne & Hlk). exists kid, (cache (jw s2)).
      assert (key_id hdr = Ok k) as Hk' by (by apply key_id_ok). split_and!; [by exists hdr, claims|by left|congruence].
    + by exists hdr, claims.
  - rewrite Hl. cbn. by rewrite <- app_assoc.
  - by apply (check_answer _ _ _ _ _ _ _ _ _ Eh Ec).
Qed.

(** C19: A VerifyToken call that runs while no other goroutine is in the client
    takes the concurrent client to the state, the answer and the log records of the
    sequential definition verify. *)
Theorem jwks_alone_is_sequential c s i tok :
  quiet s → threads s !! i = Some (VStart tok) →
  ∃ s' res, rtc (flight_step c) s s'
    ∧ verify c tok (jw s) = mkRun (jw s') (drop (length (logs s)) (logs s')) (Ret res)
    ∧ threads s' = <[i := VDone tok res]> (threads s) ∧ quiet s'.
Proof.
  intros Hq Hi. destruct (solo_answer c s tok Hq) as (s2 & key & tr & Hr & Hok & Hq2 & Hl & Hp).
  destruct (finish_runs c _ _ _ _ _ (jw s2) Hok) as (res & Hfin & _).
  set (s3 := with_logs (with_jw s2 (mkJW (cache (jw s2)) (lastUpdated (jw s2)) (jw_rest (jw s2)))) []).
  assert (thread_runs c (s, VStart tok) (s3, VDone tok res)) as Hall.
  { etrans; [exact Hr|]. eapply rtc_l; [|apply rtc_refl]. cbn. by rewrite Hfin. }
  exists (with_threads s3 (<[i := VDone tok res]> (threads s))), res. split_and!.
  - pose proof (thread_runs_steps c s _ s3 _ i (threads s) Hall Hi) as H. by destruct s.
  - rewrite verify_prefix, Hp, Hfin. unfold after. cbn. destruct s2 as [[] ? ? ? ? ? ?]. cbn in *. subst.
    rewrite !app_nil_r, drop_app_length. done.
  - done.
  - done.
Qed.

End flight_live.
