(* ===== verification/WebSim.v ===== *)
(** A process, an identity provider and libraries to run the web components
    in, and the instances of their theorems there. *)

From S2P Require Import Prelude GoErrors Contextx GoStrings Json Http Response Middleware Grpc Auth Base64 Jwks JwksFacts.

Open Scope string_scope.
Open Scope list_scope.

(** ** The environment *)

(** The clock, the JWKS document the provider serves, and whether it is up. *)
Record web : Type := mkWeb { web_now : Z; web_keys : list jsonWebKey; web_up : bool }.

#[export] Instance web_clock : Clock web := { time_Now := web_now }.

Definition zero16 : list ascii := repeat "000"%char 16.
#[export] Instance web_uuid : UUID web := {
  uuid_New w := (w, zero16);
  uuid_NewString w := (w, "00000000-0000-4000-8000-000000000000");
}.
#[export] Instance web_uuid_laws : UUIDLaws web.
Proof. by split. Qed.

(** The span of a context, under a key of its own. *)
Definition span_key : ctx_key := ForeignKey "trace" "span".
Definition web_span (ctx : context) : option string :=
  match Value ctx span_key with
  | Some (AString id) => if (String.length id =? 32)%nat then Some id else None
  | _ => None
  end.
#[export] Instance web_spans : SpanContexts := { span_TraceID := web_span }.
#[export] Instance web_spans_laws : SpanContextsLaws.
Proof.
  split. intros ctx id. cbn. unfold web_span. destruct (Value ctx span_key) as [[s|z|l|s]|]; try done.
  destruct (Nat.eqb_spec (String.length s) 32); [|done]. by intros [= <-].
Qed.

#[export] Instance web_chi : Chi web := {
  ww_Status h := default 0%Z (resp_status (h_resp h));
  RoutePattern _ _ := Some "/orders/{id}";
}.
#[export] Instance web_chi_laws : ChiLaws web.
Proof. done. Qed.

(** Map order and Unicode tables. *)
#[export] Instance web_range {V} : RangeOrder V := {
  range_of m := map_to_list m;
  range_of_perm m := Permutation_refl (map_to_list m);
}.
#[export] Instance web_unicode : Unicode := { unicode_ToLower s := s }.

(** ** Middleware *)

Definition sim_req : Request :=
  mkRequest "GET" "/orders/7" {["X-Request-Id" := ["r-7"]]} "10.0.0.1:4000" Background.
Definition sim_h : hstate web := mkH fresh_response [] (mkWeb 0 [] true).

(** A handler that panics before it has written. *)
Definition broken : Handler web := λ _, gopanic "index out of range".
(** A handler that answers nothing itself. *)
Definition silent : Handler web := λ _, mret ().

Lemma trace_ids_delivered_witness :
  ∃ r' h', TraceIDMiddleware silent sim_req sim_h = silent r' h'
    ∧ GetRequestID (Some (req_ctx r')) = "r-7".
Proof.
  destruct (trace_ids_delivered silent sim_req sim_h) as (r' & h' & Hr & _ & _ & _ & _ & _ & _ & Hid).
  exists r', h'. split; [exact Hr|]. rewrite Hid; [reflexivity|by_compute].
Defined.

Lemma panic_becomes_500_witness :
  resp_status (h_resp (post (PanicRecovery broken sim_req sim_h))) = Some 500%Z.
Proof.
  rewrite (proj2 (panic_becomes_500 broken sim_req sim_h sim_h [] "index out of range" eq_refl eq_refl)).
  reflexivity.
Defined.

(** A handler that writes nothing is counted with status 0. *)
Lemma metrics_recorded_witness :
  trace (MetricsMiddleware silent sim_req sim_h)
  = [HCount ["0"; "GET"; "/orders/{id}"]; HObserve ["0"; "GET"; "/orders/{id}"] 0].
Proof. rewrite (metrics_recorded silent sim_req sim_h sim_h [] eq_refl). vm_compute. reflexivity. Defined.

(** ** gRPC *)

Definition sim_md : gmap string (list string) := {["authorization" := ["Bearer good"]]}.
#[export] Instance web_grpc : GrpcContext := {
  FromIncomingContext ctx := match Value ctx (ForeignKey "metadata" "in") with Some _ => Some sim_md | None => None end;
  peer_Addr ctx := match Value ctx (ForeignKey "peer" "addr") with Some (AString a) => Some a | _ => None end;
}.
#[export] Instance web_grpc_laws : GrpcContextLaws.
Proof. split; intros; cbn; by rewrite decide_False. Qed.

Definition grpc_ctx : context := WithValue Background (ForeignKey "metadata" "in") (AOther "md").

(** ** The identity provider *)

#[export] Instance web_endpoint : JwksEndpoint web := {
  request_error _ := None;
  http_Do _ w := (w, if web_up w then Ok 200%Z else Err (errors_New "connection refused"));
  decode_body w := Ok (web_keys w);
}.

Definition k1 : jsonWebKey := mkJwk "RSA" "sig" "k1" "xQ" "AQAB".
Definition idp_key : rsa_key := mkRSA 197 65537.
Definition alice : HelixClaims := mkClaims "https://idp" "alice" (Some (2000 * Second)%Z) None "" [] "s-1".

(** The library, with one token that is signed. *)
#[export] Instance web_jwt : JWT (jw_world web) := {
  unverified_header tok :=
    if bool_decide (tok = "good") then Some (mkHeader true "RS256" (Some "k1")) else None;
  unverified_claims tok := if bool_decide (tok = "good") then Some alice else None;
  signed_by tok key := bool_decide (tok = "good" ∧ key = idp_key);
  ParseWithClaims kf iss tok w :=
    if bool_decide (tok = "good") then
      match kf (mkHeader true "RS256" (Some "k1")) w with
      | mkRun w' tr (Ret (Ok key)) =>
          mkRun w' tr (Ret
            (if decide (bool_decide (tok = "good" ∧ key = idp_key) = true ∧ Issuer alice = iss
                        ∧ times_valid (time_Now (jw_rest w')) alice)
             then Ok (mkToken (Some alice) true) else Err (errors_New "token is invalid")))
      | mkRun w' tr (Ret (Err e)) => mkRun w' tr (Ret (Err (Errorf_w "token is unverifiable: " e "")))
      | mkRun w' tr (Panic v) => mkRun w' tr (Panic v)
      | mkRun w' tr Running => mkRun w' tr Running
      end
    else mkRun w [] (Ret (Err (errors_New "token is malformed")));
}.

#[export] Instance web_jwt_laws : JWTLaws (W := web).
Proof.
  split; cbn.
  - intros kf iss tok w [H|H]; destruct (bool_decide (tok = "good")); simplify_eq; by eexists.
  - intros kf iss tok w hdr claims w' tr e H H' Hk.
    destruct (bool_decide (tok = "good")); simplify_eq. rewrite Hk. by eexists.
  - intros kf iss tok w hdr claims w' tr key H H' Hk Hs Hi Ht.
    destruct (bool_decide (tok = "good")); simplify_eq. rewrite Hk.
    by rewrite decide_True.
  - intros kf iss tok w hdr claims w' tr key H H' Hk Hn.
    destruct (bool_decide (tok = "good")); simplify_eq. rewrite Hk.
    rewrite decide_False by done. by eexists.
Qed.

Definition idp : jwks_config := mkJwksConfig "https://idp/jwks" "https://idp" Hour.

(** The cache holds the provider's key, and is two hours old. *)
Definition cached_world : jw_world web := mkJW {["k1" := idp_key]} (-7200 * Second) (mkWeb 0 [k1] true).
(** The cache is cold: the key is fetched. *)
Definition cold_world : jw_world web := mkJW ∅ 0 (mkWeb 0 [k1] true).

Lemma verify_complete_witness :
  verify idp "good" cached_world
  = mkRun cached_world [HLog "ERROR" "CRITICAL: JWKS cache is stale beyond limit" []] (Ret (Ok alice)).
Proof.
  etrans; [apply (verify_complete idp "good" cached_world (mkHeader true "RS256" (Some "k1")) "k1"
                    idp_key alice)|vm_compute; reflexivity];
    [reflexivity..|done|reflexivity|reflexivity|reflexivity|reflexivity|].
  split; [by exists (2000 * Second)%Z|done].
Defined.

Lemma verify_sound_witness :
  out (verify idp "good" cold_world) = Ret (Ok alice)
  ∧ authentic idp "good" alice (post (verify idp "good" cold_world)).
Proof.
  pose proof (verify_sound idp "good" cold_world) as H.
  assert (out (verify idp "good" cold_world) = Ret (Ok alice)) as E by (vm_compute; reflexivity).
  rewrite E in H. split; [exact E|exact H].
Defined.

Definition auth_req : Request :=
  mkRequest "GET" "/orders/7" {["Authorization" := ["Bearer good"]]} "10.0.0.1:4000" Background.
Definition auth_h : hstate (jw_world web) := mkH fresh_response [] cold_world.

(** A handler that answers with the principal. *)
Definition whoami : Handler (jw_world web) := λ r,
  _ ← Write (GetAuthPrincipalID (Some (req_ctx r))); mret ().

Lemma http_requests_authenticated_witness :
  resp_body (h_resp (post (HTTPMiddleware (Authenticate (JV := caching_verifier idp)) whoami auth_req auth_h)))
  = "alice"
  ∧ ∃ tok claims w', authentic idp tok claims w'.
Proof.
  split; [vm_compute; reflexivity|].
  destruct (http_requests_authenticated idp whoami auth_req auth_h eq_refl)
    as [(tok & claims & w' & tr & _ & Ha & _)|(w' & tr & msg & H)].
  - by exists tok, claims, w'.
  - exfalso. apply (f_equal (λ ρ, resp_status (h_resp (post ρ)))) in H. vm_compute in H. discriminate.
Defined.

(** A handler that answers with the principal. *)
Definition grpc_whoami : UnaryHandler (jw_world web) unit string := λ ctx _,
  mret (Ok (GetAuthPrincipalID (Some ctx))).

Lemma grpc_calls_authenticated_witness :
  out (GRPCUnaryInterceptor (Authenticate (JV := caching_verifier idp)) grpc_ctx () (mkInfo "/orders/Get")
         grpc_whoami (mkG [] cold_world)) = Ret (Ok "alice")
  ∧ ∃ tok claims w', authentic idp tok claims w'.
Proof.
  split; [vm_compute; reflexivity|].
  destruct (grpc_calls_authenticated idp grpc_ctx () (mkInfo "/orders/Get") grpc_whoami (mkG [] cold_world))
    as [(md & tok & claims & w' & tr & _ & _ & Ha & _)|(w' & tr & msg & H)].
  - by exists tok, claims, w'.
  - exfalso. apply (f_equal out) in H. vm_compute in H. discriminate.
Defined.

Lemma grpc_auth_complete_witness :
  out (GRPCUnaryInterceptor (Authenticate (JV := caching_verifier idp)) grpc_ctx () (mkInfo "/orders/Get")
         grpc_whoami (mkG [] cached_world)) = Ret (Ok "alice").
Proof.
  rewrite (grpc_auth_complete (JV := caching_verifier idp) grpc_ctx () (mkInfo "/orders/Get") grpc_whoami
    (mkG [] cached_world) sim_md "good" [] alice cached_world
    [HLog "ERROR" "CRITICAL: JWKS cache is stale beyond limit" []]).
  - vm_compute. reflexivity.
  - reflexivity.
  - vm_compute. reflexivity.
  - intros k [v Hk]. unfold sim_md in Hk. apply lookup_singleton_Some in Hk as [<- _]. reflexivity.
  - by_compute.
  - vm_compute. reflexivity.
Defined.

#[export] Instance web_wakeups : Wakeups (W := web) := { next_wakeup w := (w, CtxDone) }.

Lemma cache_keeps_keys_witness :
  has_keys (post (NewJWKSCachingClient "https://idp/jwks" "https://idp" Minute Hour cold_world)).
Proof.
  apply (cache_keeps_keys "https://idp/jwks" "https://idp" Minute Hour cold_world idp
           (λ fuel, startKeyRefresher fuel idp Minute)).
  vm_compute. reflexivity.
Defined.
