(* ===== verification/ChainSim.v ===== *)
(** Authentication and rate limiter on one process: the theorems of [AuthRate.v] on
    a client that changes its address with every request. *)

From Stdlib Require Import QArith SpecFloat.
From S2P Require Import Prelude GoErrors Contextx GoStrings Json Http Response Gcra GcraFacts Binary64 GcraFloat RateLimit RateWindow RateLimitFacts Middleware Grpc GrpcRate RateSim Auth AuthRate WebSim.

Open Scope string_scope.
Open Scope list_scope.

(** A verifier that takes the token for the name of its subject. *)
#[export] Instance name_verifier : JWKSVerifier SimWorld := {
  VerifyToken tok :=
    if bool_decide (tok = "guest") then mret (Err (errors_New "unknown token"))
    else mret (Ok (mkClaims "https://idp" tok (Some 0%Z) None "" [] ""));
}.

#[export] Instance name_verifier_quiet : QuietVerifier (lim := tokens) sim_time sim_key.
Proof.
  split; intros tok w; cbn; destruct (bool_decide (tok = "guest")); cbn;
    try (split; [done|lia]); by apply not_elem_of_nil.
Qed.

(** A request with a token and a forwarded address. *)
Definition from (tok addr : string) : Request :=
  mkRequest "GET" "/orders" {["Authorization" := ["Bearer " +:+ tok]; "X-Forwarded-For" := [addr]]}
    "10.0.0.1:4000" Background.

Abbreviation sim_chain := (chain 2 3 Second sim_next).
Definition after_request (r : Request) (w : SimWorld) : SimWorld :=
  h_world (post (sim_chain r (mkH fresh_response [] w))).

(** Four requests of alice from four addresses, and one that is refused. *)
Definition requests : list Request :=
  [from "alice" "198.51.100.1"; from "guest" "198.51.100.1"; from "alice" "198.51.100.2";
   from "alice" "198.51.100.3"; from "alice" "198.51.100.4"].

Definition chain_end : SimWorld := foldl (λ w r, after_request r w) (sim_world true 0) requests.

Definition chain_log : list (string * bool) :=
  [("alice", true); ("alice", true); ("alice", true); ("alice", false)].

Definition alice_ctx : context := WithAuthPrincipalID (WithEntryPoint Background "http") "alice".

Abbreviation sim_chain_traffic := (chain_traffic (lim := tokens) sim_time sim_key 2 3 Second sim_next).

Lemma alice_request (w : SimWorld) addr b log w2 :
  out (authenticated (from "alice" addr) w) = Ret (Ok alice_ctx) →
  sim_up (rl_rest (post (authenticated (from "alice" addr) w))) = true →
  b = reached (sim_chain (from "alice" addr) (mkH fresh_response [] w)) →
  sim_chain_traffic (after_request (from "alice" addr) w) log w2 → sim_chain_traffic w (("alice", b) :: log) w2.
Proof.
  intros Ho Hup -> Ht.
  refine (chain_decided sim_time sim_key 2 3 Second sim_next w (from "alice" addr) [] alice_ctx log w2 Ho _ Ht).
  cbn [gcra_Run sim_gcra]. rewrite Hup. by destruct (gcra_request _ _ _ _ _).
Qed.

Lemma chain_traffic_sim : sim_chain_traffic (sim_world true 0) chain_log chain_end.
Proof.
  unfold chain_end, requests. cbn [foldl].
  apply (alice_request _ "198.51.100.1"); [vm_compute; reflexivity..|].
  eapply (chain_refused _ _ _ _ _ _ _ (from "guest" "198.51.100.1") []); [by vm_compute|].
  apply (alice_request _ "198.51.100.2"); [vm_compute; reflexivity..|].
  apply (alice_request _ "198.51.100.3"); [vm_compute; reflexivity..|].
  apply (alice_request _ "198.51.100.4"); [vm_compute; reflexivity..|]. apply chain_done.
Qed.

Lemma principal_rate_enforced_witness :
  let t1 := sim_time (rl_rest chain_end) in
  (inject_Z 3 * (T 2 (period_exact Second) - margin 2 3 Second t1)
   <= (secs t1 - secs 0) + inject_Z 3 * T 2 (period_exact Second) + margin 2 3 Second t1)%Q
  ∧ passed "alice" chain_log = 3%nat.
Proof.
  split; [|reflexivity].
  apply (principal_rate_enforced sim_time sim_key 2 3 Second sim_next ltac:(lia) ltac:(lia) ltac:(done) sim_next_quiet
           "alice" (sim_world true 0) chain_log chain_end);
    [done|exact chain_traffic_sim|vm_compute; reflexivity|apply sim_world_sound].
Defined.

(** Without a token the header decides. *)
Lemma forwarded_for_chooses_key_witness :
  rate_key (mkRequest "GET" "/" (Header_Set "X-Forwarded-For" "mallory-42" ∅) "10.0.0.1:4000" Background)
  = "rl:ip:mallory-42".
Proof.
  apply (forwarded_for_chooses_key (mkRequest "GET" "/" ∅ "10.0.0.1:4000" Background) "mallory-42");
    [reflexivity|done|by_compute|vm_compute; reflexivity].
Defined.
