(* ===== verification/FlightSim.v ===== *)
(** A [singleflight] group to run the concurrent JWKS client with, an executable
    scheduler that is sound for its step relation, and its theorems on concrete
    schedules. *)

From S2P Require Import Prelude GoErrors Contextx GoStrings Json Http Response Middleware Grpc Auth Base64 Jwks JwksFacts JwksFlight JwksFlightFacts JwksFlightLive WebSim.

Open Scope string_scope.
Open Scope list_scope.

(** ** The group: whether a call runs, the calls that wait, and the results *)

Record group : Type := mkGroup { g_running : bool; g_waiting : list nat; g_results : list (nat * option error) }.

Fixpoint result_of (n : nat) (l : list (nat * option error)) : option (option error) :=
  match l with
  | [] => None
  | (m, r) :: l => if (n =? m)%nat then Some r else result_of n l
  end.

#[export] Instance sim_group : Singleflight group := {
  sf_new := mkGroup false [] [];
  sf_join n g := (mkGroup true (n :: g_waiting g) (g_results g), negb (g_running g));
  sf_complete r g := mkGroup false [] (map (λ n, (n, r)) (g_waiting g) ++ g_results g);
  sf_result n g := result_of n (g_results g);
  sf_running := g_running;
  sf_waits n g := existsb (Nat.eqb n) (g_waiting g);
}.

#[export] Instance sim_group_laws : SingleflightLaws group.
Proof.
  split; try done; cbn.
  - intros n g m. destruct (Nat.eqb_spec m n); by case_bool_decide.
  - intros r g m. induction (g_waiting g) as [|k l IH]; [done|]. cbn. by destruct (m =? k)%nat.
Qed.

#[export] Instance web_jwt_answers : JWTAnswerLaws (W := web).
Proof.
  split; cbn.
  - intros kf iss tok w hdr claims w' tr ans Hh _ Hk. destruct (bool_decide (tok = "good")); simplify_eq.
    rewrite Hk. unfold after. by destruct ans; cbn; rewrite app_nil_r.
  - intros kf kf' iss tok w Hn. by destruct (bool_decide (tok = "good")), Hn.
Qed.

(** ** The scheduler *)

Inductive action : Type := Go_on (i : nat) | Call (tok : string) | Tick_at (i : nat) | World (w : web).

Abbreviation state := (flight_state (W := web) (SF := group)).

Definition act c (s : state) (a : action) : option state :=
  match a with
  | Go_on i =>
      match threads s !! i with
      | Some t => (λ r, set_thread r.1 i r.2) <$> thread_step c s t
      | None => None
      end
  | Call tok => Some (with_threads s (threads s ++ [VStart tok]))
  | Tick_at i =>
      match threads s !! i with
      | Some TIdle => Some (set_thread s i (Refresh ForTicker))
      | _ => None
      end
  | World w => Some (with_jw s (mkJW (cache (jw s)) (lastUpdated (jw s)) w))
  end.

Fixpoint exec c (s : state) (l : list action) : option state :=
  match l with
  | [] => Some s
  | a :: l => match act c s a with Some s => exec c s l | None => None end
  end.

Lemma act_step c s a s' : act c s a = Some s' → flight_step c s s'.
Proof.
  destruct a as [i|tok|i|w]; cbn.
  - destruct (threads s !! i) as [t|] eqn:Hi; [|done].
    destruct (thread_step c s t) as [[s1 t1]|] eqn:Hs; [|done]. intros [= <-]. by econstructor.
  - intros [= <-]. constructor.
  - destruct (threads s !! i) as [[]|] eqn:Hi; try done. intros [= <-]. by constructor.
  - intros [= <-]. constructor.
Qed.

Lemma exec_steps c s l s' : exec c s l = Some s' → rtc (flight_step c) s s'.
Proof.
  revert s. induction l as [|a l IH]; intros s; cbn; [by intros [= <-]|].
  destruct (act c s a) as [s1|] eqn:Ha; [|done]. intros H. eapply rtc_l; [by eapply act_step|by apply IH].
Qed.

(** ** Schedules *)

(** The client knows key [k0]; the provider serves [k1] as well from time 5 on. *)
Definition k0 : jsonWebKey := mkJwk "RSA" "sig" "k0" "xQ" "AQAB".
Definition before_rotation : web := mkWeb 0 [k0] true.
Definition after_rotation : web := mkWeb (5 * Second) [k0; k1] true.
Definition started (w : web) : jw_world web := mkJW {["k0" := idp_key]} 0 w.

Definition state_after c w (l : list action) : state :=
  default (flight_init (started w)) (exec c (flight_init (started w)) l).

(** Two calls miss; the first one fetches, the second one joins it. *)
Definition both_miss : list action :=
  [Call "good"; Call "good"] ++ repeat (Go_on 1) 5 ++ repeat (Go_on 2) 5 ++ [Go_on 1; Go_on 2; Go_on 1; Go_on 1; Go_on 1].
Definition writing : state := state_after idp after_rotation both_miss.
Definition done_both : state :=
  default writing (exec idp writing (repeat (Go_on 1) 5 ++ repeat (Go_on 2) 4)).

Lemma reach c w (l : list action) s :
  exec c (flight_init (started w)) l = Some s → flight_reachable c (started w) s.
Proof. apply exec_steps. Qed.

Lemma started_keys w : cache (started w) ≠ ∅.
Proof. by_compute. Qed.

Lemma jwks_race_free_witness :
  (∃ t, threads writing !! 1%nat = Some t ∧ writes t = true)
  ∧ ∀ u, threads writing !! 2%nat = Some u → reads u = false.
Proof.
  destruct (jwks_race_free idp (started after_rotation) writing (started_keys _)) as [H _].
  - apply (reach idp after_rotation both_miss). vm_compute. reflexivity.
  - split; [eexists; split; [vm_compute; reflexivity|reflexivity]|].
    intros u Hu. eapply (H 1%nat 2%nat); [vm_compute; reflexivity|exact Hu|reflexivity].
Defined.

Lemma jwks_cache_never_regresses_witness :
  received done_both !! 0%nat = Some (cache (jw writing)) ∧ installed done_both = 1%nat.
Proof.
  destruct (jwks_cache_never_regresses idp (started after_rotation) writing done_both (started_keys _))
    as (_ & _ & H & _).
  - apply (reach idp after_rotation both_miss). vm_compute. reflexivity.
  - apply (exec_steps idp _ (repeat (Go_on 1) 5 ++ repeat (Go_on 2) 4)). vm_compute. reflexivity.
  - split; [exact H|vm_compute; reflexivity].
Defined.

(** The second call, before it joins and when it looks its key up again. *)
Definition joining : state := state_after idp after_rotation (take 12 both_miss).
Definition looking : state :=
  default joining (exec idp joining (drop 12 both_miss ++ repeat (Go_on 1) 5 ++ repeat (Go_on 2) 2)).

Lemma jwks_refresh_is_fresh_witness : ∃ n, length (received joining) = S n ∧ (n ≤ installed looking)%nat.
Proof.
  apply (jwks_refresh_is_fresh idp (started after_rotation) joining looking 2 "good" "k1" (started_keys _)).
  - apply (reach idp after_rotation (take 12 both_miss)). vm_compute. reflexivity.
  - vm_compute. reflexivity.
  - apply (exec_steps idp _ (drop 12 both_miss ++ repeat (Go_on 1) 5 ++ repeat (Go_on 2) 2)). vm_compute. reflexivity.
  - vm_compute. reflexivity.
Defined.

(** A call from its start to its acceptance. *)
Definition called : state := state_after idp after_rotation (take 2 both_miss).
Definition answered : state :=
  default called (exec idp called (drop 2 both_miss ++ repeat (Go_on 1) 5 ++ repeat (Go_on 2) 3)).

Lemma jwks_concurrent_verify_sound_witness :
  ∃ k, cached_since 0 answered "good" k ∧ accepted_with idp (5 * Second) "good" k alice.
Proof.
  destruct (jwks_concurrent_verify_sound idp (started after_rotation) called answered
    (default answered (act idp answered (Go_on 2))) 2 "good" (Some (Ok idp_key)) alice (started_keys _))
    as (k & Hc & Ha).
  - apply (reach idp after_rotation (take 2 both_miss)). vm_compute. reflexivity.
  - vm_compute. reflexivity.
  - apply (exec_steps idp _ (drop 2 both_miss ++ repeat (Go_on 1) 5 ++ repeat (Go_on 2) 3)). vm_compute. reflexivity.
  - vm_compute. reflexivity.
  - apply (act_step idp _ (Go_on 2)). vm_compute. reflexivity.
  - vm_compute. reflexivity.
  - exists k. split; [exact Hc|exact Ha].
Defined.

Lemma jwks_calls_can_return_witness :
  ∃ s, rtc (flight_step idp) writing s
    ∧ ∀ i t, threads s !! i = Some t → (∃ tok res, t = VDone tok res) ∨ t = TIdle ∨ t = TStopped.
Proof.
  destruct (jwks_calls_can_return idp (started after_rotation) writing (started_keys _)) as (s & Hr & _ & Hs).
  - apply (reach idp after_rotation both_miss). vm_compute. reflexivity.
  - exists s. split; [exact Hr|exact Hs].
Defined.

(** One call, alone, with an empty cache entry for its key. *)
Definition alone : state := state_after idp after_rotation [Call "good"].

Lemma jwks_alone_is_sequential_witness :
  ∃ s, rtc (flight_step idp) alone s ∧ threads s = [TIdle; VDone "good" (Ok alice)]
    ∧ verify idp "good" (jw alone) = mkRun (jw s) (logs s) (Ret (Ok alice)).
Proof.
  destruct (jwks_alone_is_sequential idp alone 1 "good") as (s & res & Hr & Hv & Ht & _).
  - split_and!; [reflexivity|reflexivity|]. intros n _. split; reflexivity.
  - reflexivity.
  - exists s. assert (res = Ok alice) as ->.
    { apply (f_equal out) in Hv. vm_compute in Hv. by simplify_eq. }
    split; [exact Hr|]. split; [exact Ht|exact Hv].
Defined.

(** The ticker's fetch gets its response, the provider publishes a new key, and
    then a token signed with it arrives: the call joins the fetch, and is refused
    with a key the provider has been serving since before it came. *)
Definition stale_join : list action :=
  [Tick_at 0; Go_on 0; Go_on 0; World after_rotation; Call "good"]
  ++ repeat (Go_on 1) 6 ++ repeat (Go_on 0) 6 ++ repeat (Go_on 1) 4.

Theorem joined_refresh_misses_published_key :
  ∃ s0 s e, flight_reachable idp (started before_rotation) s0
    ∧ threads s0 !! 1%nat = Some (VStart "good") ∧ web_keys (jw_rest (jw s0)) = [k0; k1]
    ∧ rtc (flight_step idp) s0 s ∧ threads s !! 1%nat = Some (VDone "good" (Err e))
    ∧ e = Errorf_w "" crypto_ErrInvalidToken
            ": token is unverifiable: kid k1 not found in JWKS even after emergency refresh".
Proof.
  exists (state_after idp before_rotation (take 5 stale_join)), (state_after idp before_rotation stale_join).
  eexists. split_and!.
  - apply (reach idp before_rotation (take 5 stale_join)). vm_compute. reflexivity.
  - vm_compute. reflexivity.
  - vm_compute. reflexivity.
  - apply (exec_steps idp _ (drop 5 stale_join)). vm_compute. reflexivity.
  - vm_compute. reflexivity.
  - vm_compute. reflexivity.
Qed.
