(* ===== verification/Otel.v ===== *)
(** The OpenTelemetry calls of the instrumentation: spans with their events,
    as the database, cache and logging code uses them. *)

From S2P Require Import Prelude GoErrors Contextx.

Open Scope string_scope.
Open Scope list_scope.

(** Attributes of a span or of an event of it. *)
Inductive attr_value : Type :=
| AttrString (s : string)
| AttrInt64 (z : Z)
| AttrFloat64 (rendered : string)
| AttrBool (b : bool).

#[export] Instance attr_value_eq_dec : EqDecision attr_value.
Proof. solve_decision. Defined.

Abbreviation attributes := (list (string * attr_value)).

(** What happens to spans, by span id. *)
Inductive span_event : Type :=
| SpanStart (id : nat) (name : string) (attrs : attributes)
| SpanRecordError (id : nat) (e : error) (attrs : attributes)
| SpanSetStatus (id : nat) (description : string)
| SpanSetAttributes (id : nat) (attrs : attributes)
| SpanAddEvent (id : nat) (name : string) (attrs : attributes)
| SpanEnd (id : nat).

(** The span of a context and whether it records; [tracer.Start] makes a
    span whose id has not been used, in a context derived from the given one.
    Whether the new span records is the sampler's decision. *)
Class Spans (W : Type) : Type := {
  span_of : context → option nat;
  IsRecording : W → context → bool;
  tracer_start : context → W → W * (context * nat);
}.

(** The documentation: the returned context contains the new span; a context
    without a span gives a span that does not record. *)
Class SpansLaws (W : Type) `{!Spans W} : Prop := {
  start_span ctx w : span_of (tracer_start ctx w).2.1 = Some (tracer_start ctx w).2.2;
  no_span_no_recording ctx w : span_of ctx = None → IsRecording w ctx = false;
}.

(** The spans a run starts and those it ends. *)
Definition started (t : list span_event) : list nat :=
  omap (λ e, match e with SpanStart id _ _ => Some id | _ => None end) t.
Definition ended (t : list span_event) : list nat :=
  omap (λ e, match e with SpanEnd id => Some id | _ => None end) t.

Lemma started_app t1 t2 : started (t1 ++ t2) = started t1 ++ started t2.
Proof. apply omap_app. Qed.
Lemma ended_app t1 t2 : ended (t1 ++ t2) = ended t1 ++ ended t2.
Proof. apply omap_app. Qed.

Section spans.
Context {W : Type} {SP : Spans W}.
Abbreviation SM := (Go W span_event).

(** [tracer.Start(ctx, name, trace.WithAttributes(attrs...))] *)
Definition Start (ctx : context) (name : string) (attrs : attributes) : SM (context * nat) :=
  r ← lift (tracer_start ctx);
  emit (SpanStart r.2 name attrs);;
  mret r.

(** [defer f(); m]: [f] runs whether [m] returns or panics. *)
Definition deferring {A} (m : SM A) (f : SM unit) : SM A := λ w,
  match m w with
  | mkRun w1 t1 Running => mkRun w1 t1 Running
  | mkRun w1 t1 o =>
      let ρ := f w1 in
      mkRun (post ρ) (t1 ++ trace ρ)
        (match out ρ with Ret _ => o | Panic v => Panic v | Running => Running end)
  end.

End spans.
