(* ===== verification/Database.v ===== *)
(** [database/errors.go] and [database/postgres.go]: the mapping of database
    errors to the service's codes, the connection pool, and its query tracer. *)

From S2P Require Import Prelude GoErrors Contextx GoStrings Json Http Response Otel.

Open Scope string_scope.
Open Scope list_scope.

(** ** [errors.go] *)

Definition pgx_ErrNoRows : error := Sentinel "pgx.ErrNoRows" "no rows in result set".

Definition IsNoRows (err : option error) : bool :=
  match err with Some e => errors_Is e "pgx.ErrNoRows" | None => false end.

Definition pg_mapped (pe : pg_error) : option error :=
  if bool_decide (Code pe = "23505") then Some (errors_New (ErrAlreadyExists +:+ ": " +:+ Detail pe))
  else if bool_decide (Code pe = "23503")
  then Some (errors_New (ErrConflict +:+ ": referenced record not found"))
  else if bool_decide (Code pe = "23514") then Some (errors_New (ErrValidation +:+ ": " +:+ Message pe))
  else if bool_decide (Code pe = "40001") then Some (errors_New (ErrVersionMismatch +:+ ": retry transaction"))
  else if bool_decide (Code pe = "57014") then Some (errors_New (ErrGatewayTimeout +:+ ": query timeout"))
  else None.

Definition MapError (err : option error) : option error :=
  match err with
  | None => None
  | Some e =>
      if errors_Is e "pgx.ErrNoRows" then Some (Errorf_w (ErrNotFound +:+ ": ") e "")
      else
        match errors_As_Pg e ≫= pg_mapped with
        | Some e' => Some e'
        | None => Some (Errorf_w (ErrSystem +:+ ": ") e "")
        end
  end.

(** The class of an error, and the status the service answers it with. *)
Inductive db_class : Type := NotFound | AlreadyExists | BadReference | CheckFailed | Serialization | Canceled | Internal.

Definition class_of (e : error) : db_class :=
  if errors_Is e "pgx.ErrNoRows" then NotFound
  else match Code <$> errors_As_Pg e with
       | Some c =>
           if bool_decide (c = "23505") then AlreadyExists
           else if bool_decide (c = "23503") then BadReference
           else if bool_decide (c = "23514") then CheckFailed
           else if bool_decide (c = "40001") then Serialization
           else if bool_decide (c = "57014") then Canceled
           else Internal
       | None => Internal
       end.

Definition class_status (c : db_class) : Z :=
  match c with
  | NotFound => 404
  | AlreadyExists | BadReference | Serialization => 409
  | CheckFailed => 400
  | Canceled => 503
  | Internal => 500
  end.

(** A mapped error's text starts with its code. *)
Inductive coded (c : string) : error → Prop :=
| coded_error e rest : error_text e = c +:+ ": " +:+ rest → coded c e.

Lemma coded_New c m : coded c (errors_New (c +:+ ": " +:+ m)).
Proof. by econstructor. Qed.
Lemma coded_Wrap c e s : coded c (Errorf_w (c +:+ ": ") e s).
Proof. econstructor. cbn [error_text]. by rewrite str_app_assoc. Qed.

Ltac solve_coded c :=
  eexists c, _; split_and!; [reflexivity|first [apply coded_New | apply coded_Wrap]|reflexivity].

(** C32: MapError gives every database error, however wrapped or joined, a text that
    starts with a code, and MapStatus sends that code to the status of the error's
    class: 404 for no rows, 409 for unique, foreign key and serialization failures,
    400 for check violations, 503 for a cancelled query and 500 for anything else.
    *)
Theorem map_error_status e :
  ∃ c e', MapError (Some e) = Some e' ∧ coded c e' ∧ MapStatus c = class_status (class_of e).
Proof.
  unfold MapError, class_of. destruct (errors_Is e "pgx.ErrNoRows"); [solve_coded ErrNotFound|].
  destruct (errors_As_Pg e) as [pe|]; cbn [mbind option_bind fmap option_fmap option_map];
    [|solve_coded ErrSystem].
  unfold pg_mapped.
  repeat match goal with |- context [bool_decide (Code pe = ?k)] => destruct (bool_decide (Code pe = k)) end;
    first [solve_coded ErrAlreadyExists|solve_coded ErrConflict|solve_coded ErrValidation
          |solve_coded ErrVersionMismatch|solve_coded ErrGatewayTimeout|solve_coded ErrSystem].
Qed.

(** Mapping keeps IsNoRows. *)
Theorem map_error_keeps_no_rows err : IsNoRows (MapError err) = IsNoRows err.
Proof.
  destruct err as [e|]; [|done]. unfold MapError, IsNoRows.
  destruct (errors_Is e "pgx.ErrNoRows") eqn:E; [done|].
  destruct (errors_As_Pg e) as [pe|]; cbn [mbind option_bind]; [|done].
  unfold pg_mapped. destruct_tests; done.
Qed.

(** An error mapped twice is an internal error: the first mapping drops the driver's
    error. *)
Theorem mapped_twice_is_internal pe :
  pg_mapped pe ≠ None →
  ∃ e', MapError (MapError (Some (PgError pe))) = Some e' ∧ coded ErrSystem e'.
Proof.
  intros Hm. destruct (pg_mapped pe) as [e1|] eqn:E; [|done].
  assert (MapError (Some (PgError pe)) = Some e1) as ->.
  { unfold MapError. cbn [errors_Is errors_As_Pg mbind option_bind]. by rewrite E. }
  assert (∃ m, e1 = errors_New m) as [m ->].
  { unfold pg_mapped in E. destruct_tests; simplify_eq; eauto. }
  eexists. split; [done|]. apply coded_Wrap.
Qed.

(** ** [postgres.go] *)

(** [Config], and the environment variable each duration is read from. *)
Record db_Config : Type := mkDBConfig {
  DBDSN : string;
  DBMaxConns : Z;
  DBMinConns : Z;
  DBMaxConnIdle : Z;
  DBMaxConnLife : Z;
  DBConnectTimeout : Z;
  HealthCheckPeriod : Z;
}.

(** envconfig's rule for a tagged field: the variable, or the default. *)
Definition db_Config_from (str : string → option string) (int dur : string → option Z) : option db_Config :=
  match str "DB_DSN" with
  | None => None
  | Some dsn =>
      Some (mkDBConfig dsn
              (default 50 (int "DB_MAX_OPEN_CONNS"))
              (default 10 (int "DB_MIN_IDLE_CONNS"))
              (default (30 * Minute) (dur "DB_CONN_MAX_LIFETIME"))
              (default (15 * Minute) (dur "DB_CONN_MAX_IDLE_TIME"))
              (default (15 * Minute) (dur "DB_CONN_TIMEOUT"))
              (default Minute (dur "DB_HEALTHCHECK_PERIOD")))%Z
  end.

(** The fields of [pgxpool.Config] the code sets. *)
Record pool_config : Type := mkPoolConfig {
  pc_MaxConns : Z;
  pc_MinConns : Z;
  pc_MaxConnLifetime : Z;
  pc_MaxConnIdleTime : Z;
  pc_ConnectTimeout : Z;
  pc_HealthCheckPeriod : Z;
  pc_Tracer : bool;
}.

(** [pgxpool]: parsing gives a configuration with its own defaults; the pools
    that are open are part of the world. *)
Class PgxPool (W pool : Type) : Type := {
  pgxpool_ParseConfig : string → result pool_config error;
  pgxpool_NewWithConfig : pool_config → W → W * result pool error;
  pool_Ping : pool → Z → W → W * option error;
  pool_Close : pool → W → W;
}.

Section pool.
Context {W pool : Type} {PP : PgxPool W pool}.

Definition tuned (cfg : db_Config) (pc : pool_config) : pool_config :=
  let pc := mkPoolConfig (DBMaxConns cfg) (DBMinConns cfg) (DBMaxConnLife cfg) (DBMaxConnIdle cfg)
              (DBConnectTimeout cfg) (HealthCheckPeriod cfg) true in
  mkPoolConfig (pc_MaxConns pc) (pc_MinConns pc) (pc_MaxConnLifetime pc) (pc_MaxConnIdleTime pc)
    (pc_ConnectTimeout pc) Minute (pc_Tracer pc).

Definition NewPostgres (cfg : db_Config) : Go W span_event (result pool error) :=
  match pgxpool_ParseConfig (DBDSN cfg) with
  | Err err => mret (Err (Errorf_w "database: failed to parse DBDSN: " err ""))
  | Ok poolConfig =>
      let poolConfig := tuned cfg poolConfig in
      res ← lift (pgxpool_NewWithConfig poolConfig);
      match res with
      | Err err => mret (Err (Errorf_w "database: failed to create pool: " err ""))
      | Ok pool =>
          err ← lift (pool_Ping pool (5 * Second));
          match err with
          | Some err =>
              modify (pool_Close pool);;
              mret (Err (Errorf_w "database: failed to ping postgres: " err ""))
          | None => mret (Ok pool)
          end
      end
  end.

(** The pools a run leaves open: [open_in w] lists those of the world. *)
Class PgxPoolLaws (open_in : W → list pool) : Prop := {
  new_opens pc w p : (pgxpool_NewWithConfig pc w).2 = Ok p →
    open_in (pgxpool_NewWithConfig pc w).1 = p :: open_in w;
  new_fails pc w e : (pgxpool_NewWithConfig pc w).2 = Err e →
    open_in (pgxpool_NewWithConfig pc w).1 = open_in w;
  ping_keeps p t w : open_in (pool_Ping p t w).1 = open_in w;
  close_closes p w l : open_in w = p :: l → open_in (pool_Close p w) = l;
}.

(** A pool that cannot be pinged is closed and not returned. *)
Theorem postgres_fails_closed (open_in : W → list pool) {PL : PgxPoolLaws open_in} cfg w :
  let ρ := NewPostgres cfg w in
  match out ρ with
  | Ret (Ok p) =>
      open_in (post ρ) = p :: open_in w
      ∧ ∃ pc w1, pgxpool_ParseConfig (DBDSN cfg) = Ok pc
          ∧ (pgxpool_NewWithConfig (tuned cfg pc) w) = (w1, Ok p) ∧ (pool_Ping p (5 * Second) w1).2 = None
  | Ret (Err _) => open_in (post ρ) = open_in w
  | _ => False
  end.
Proof.
  cbn zeta. unfold NewPostgres. destruct (pgxpool_ParseConfig (DBDSN cfg)) as [pc|e]; [|done]. cbn zeta.
  pose proof (new_opens (tuned cfg pc) w) as Ho. pose proof (new_fails (tuned cfg pc) w) as Hf.
  destruct (pgxpool_NewWithConfig (tuned cfg pc) w) as [w1 [p|e]] eqn:E;
    rewrite (run_lift _ _ _ _ _ E); [|by apply (Hf e)].
  specialize (Ho p eq_refl). cbn in Ho. pose proof (ping_keeps p (5 * Second) w1) as Hk.
  destruct (pool_Ping p (5 * Second) w1) as [w2 [e|]] eqn:Ep; rewrite (run_lift _ _ _ _ _ Ep); cbn in Hk.
  - rewrite run_modify. cbn. apply close_closes. congruence.
  - cbn. split; [congruence|]. exists pc, w1. by rewrite E, Ep.
Qed.

(** The variables of the lifetime and of the idle time set each other's limit, and
    the health check period is not used. *)
Theorem pool_lifetimes_swapped str int dur dsn pc life idle period :
  str "DB_DSN" = Some dsn →
  dur "DB_CONN_MAX_LIFETIME" = Some life → dur "DB_CONN_MAX_IDLE_TIME" = Some idle →
  dur "DB_HEALTHCHECK_PERIOD" = Some period →
  ∃ cfg, db_Config_from str int dur = Some cfg
    ∧ pc_MaxConnLifetime (tuned cfg pc) = idle ∧ pc_MaxConnIdleTime (tuned cfg pc) = life
    ∧ HealthCheckPeriod cfg = period ∧ pc_HealthCheckPeriod (tuned cfg pc) = Minute.
Proof.
  intros Hs Hl Hi Hp. unfold db_Config_from. rewrite Hs, Hl, Hi, Hp. by eexists.
Qed.

(** ** The query tracer *)

Context {SP : Spans W}.

Definition TraceQueryStart (ctx : context) (sql : string) : Go W span_event context :=
  rec ← gets (λ w, IsRecording w ctx);
  if negb rec then mret ctx
  else
    r ← Start ctx "db.query" [("db.system", AttrString "postgresql"); ("db.statement", AttrString sql)];
    mret r.1.

(** The error, or the command tag. *)
Definition TraceQueryEnd (ctx : context) (res : result string error) : Go W span_event unit :=
  rec ← gets (λ w, IsRecording w ctx);
  if negb rec then mret ()
  else
    match span_of ctx with
    | None => mret ()
    | Some id =>
        deferring
          (match res with
           | Err e => emit (SpanRecordError id e []);; emit (SpanSetStatus id (error_text e))
           | Ok tag => emit (SpanSetAttributes id [("db.command_tag", AttrString tag)])
           end)
          (emit (SpanEnd id))
    end.

(** A traced query starts one span and ends that span once if it records, on success
    and on error; a query in a context that is not recording starts and ends none.
    *)
Theorem query_spans_balanced {SL : SpansLaws W} ctx sql res w :
  let ρ := (ctx' ← TraceQueryStart ctx sql; TraceQueryEnd ctx' res) w in
  out ρ = Ret ()
  ∧ (if IsRecording w ctx
     then started (trace ρ) = [(tracer_start ctx w).2.2]
          ∧ ended (trace ρ) = (if IsRecording (post ρ) (tracer_start ctx w).2.1
                               then [(tracer_start ctx w).2.2] else [])
     else trace ρ = []).
Proof.
  cbn zeta. unfold TraceQueryStart. rewrite run_assoc, run_gets.
  destruct (IsRecording w ctx) eqn:E; cbn [negb].
  - pose proof (start_span ctx w) as Hs. destruct (tracer_start ctx w) as [w1 [ctx' id]] eqn:Et. cbn in Hs.
    unfold Start. rewrite !run_assoc. rewrite (run_lift _ _ _ _ _ Et), run_assoc, run_emit, !run_ret.
    unfold TraceQueryEnd. rewrite run_gets. cbn [fst snd].
    destruct (IsRecording w1 ctx') eqn:E1; cbn [negb].
    + rewrite Hs. set (ρ := after _ _). assert (post ρ = w1) as -> by (unfold ρ; by destruct res).
      rewrite E1. unfold ρ. by destruct res.
    + set (ρ := after _ _). assert (post ρ = w1) as -> by done. by rewrite E1.
  - rewrite run_ret. unfold TraceQueryEnd. rewrite run_gets, E. done.
Qed.

End pool.
