(* ===== verification/RedisCache.v ===== *)
(** [cache/redis.go]: the Redis client with its fail-fast ping, and the hooks
    that trace its commands. *)

From S2P Require Import Prelude GoErrors Contextx GoStrings Json Otel.

Open Scope string_scope.
Open Scope list_scope.

Record redis_Config : Type := mkRedisConfig { Addr : string; Password : string; DB : Z }.

(** [redis.Cmder]: its name and its rendering. *)
Record Cmder : Type := mkCmd { cmd_Name : string; cmd_String : string }.

Definition redis_Nil : error := Sentinel "redis.Nil" "redis: nil".

(** [err != redis.Nil] compares the values, it does not unwrap. *)
Definition is_redis_Nil (e : error) : bool :=
  match e with Sentinel name _ => bool_decide (name = "redis.Nil") | _ => false end.

(** go-redis: a client, and what the world does with a ping and a close. *)
Class RedisClient (W client : Type) : Type := {
  redis_NewClient : redis_Config → W → W * client;
  redis_Ping : client → Z → W → W * option error;
  redis_Close : client → W → W;
}.
Class RedisClientLaws (W client : Type) `{!RedisClient W client} (open_in : W → list client) : Prop := {
  client_opens cfg w : open_in (redis_NewClient cfg w).1 = (redis_NewClient cfg w).2 :: open_in w;
  client_ping_keeps c t w : open_in (redis_Ping c t w).1 = open_in w;
  client_closes c w l : open_in w = c :: l → open_in (redis_Close c w) = l;
}.

Section cache.
Context {W : Type} {SP : Spans W}.
Abbreviation SM := (Go W span_event).

(** ** Hooks *)

Definition ProcessHook (next : context → Cmder → SM (option error)) : context → Cmder → SM (option error) :=
  λ ctx cmd,
  rec ← gets (λ w, IsRecording w ctx);
  if negb rec then next ctx cmd
  else
    r ← Start ctx "redis.command"
          [("db.system", AttrString "redis"); ("db.operation", AttrString (cmd_Name cmd));
           ("db.statement", AttrString (cmd_String cmd))];
    deferring
      (err ← next r.1 cmd;
       match err with
       | Some e =>
           if is_redis_Nil e then mret err
           else
             emit (SpanRecordError r.2 e []);;
             emit (SpanSetStatus r.2 (error_text e));;
             mret err
       | None => mret err
       end)
      (emit (SpanEnd r.2)).

Definition ProcessPipelineHook (next : context → list Cmder → SM (option error)) :
    context → list Cmder → SM (option error) := λ ctx cmds,
  rec ← gets (λ w, IsRecording w ctx);
  if negb rec then next ctx cmds
  else
    let n := Z.of_nat (length cmds) in
    r ← Start ctx "redis.pipeline"
          [("db.system", AttrString "redis"); ("db.operation", AttrString "pipeline");
           ("db.statement", AttrString ("pipeline:" +:+ Itoa n +:+ "_cmds"));
           ("db.redis.pipeline_length", AttrInt64 n)];
    deferring
      (err ← next r.1 cmds;
       match err with
       | Some e =>
           if is_redis_Nil e then mret err
           else
             emit (SpanRecordError r.2 e []);;
             emit (SpanSetStatus r.2 (error_text e));;
             mret err
       | None => mret err
       end)
      (emit (SpanEnd r.2)).

(** [DialHook] passes the call on. *)
Definition DialHook {A} (next : context → string → string → SM A) : context → string → string → SM A :=
  λ ctx network addr, next ctx network addr.

(** ** The client *)

Context {client : Type} {RC : RedisClient W client}.

Definition NewRedis (cfg : redis_Config) : SM (result client error) :=
  rdb ← lift (redis_NewClient cfg);
  err ← lift (redis_Ping rdb (3 * Second));
  match err with
  | Some err =>
      modify (redis_Close rdb);;
      mret (Err (Errorf_w ("cache: failed to connect to redis at " +:+ Addr cfg +:+ ": ") err ""))
  | None => mret (Ok rdb)
  end.

(** A client that cannot be pinged is closed and not returned. *)
Theorem redis_fails_closed (open_in : W → list client) {RL : RedisClientLaws W client open_in} cfg w :
  let ρ := NewRedis cfg w in
  match out ρ with
  | Ret (Ok c) => open_in (post ρ) = c :: open_in w
      ∧ (redis_Ping c (3 * Second) (redis_NewClient cfg w).1).2 = None
  | Ret (Err _) => open_in (post ρ) = open_in w
  | _ => False
  end.
Proof.
  cbn zeta. unfold NewRedis. pose proof (client_opens cfg w) as Ho.
  destruct (redis_NewClient cfg w) as [w1 c] eqn:E. rewrite (run_lift _ _ _ _ _ E). cbn in Ho.
  pose proof (client_ping_keeps c (3 * Second) w1) as Hk.
  destruct (redis_Ping c (3 * Second) w1) as [w2 [e|]] eqn:Ep; rewrite (run_lift _ _ _ _ _ Ep); cbn in Hk.
  - rewrite run_modify. cbn. apply client_closes. congruence.
  - cbn. split; [congruence|]. by rewrite Ep.
Qed.

(** The command runs in a context that has the new span. *)
Definition hooked_ctx (ctx : context) (w : W) : context := (tracer_start ctx w).2.1.

(** The Redis tracing hook returns exactly what the command returns or panics with,
    ends the span it started in every case, and records an error on it unless the
    error is redis.Nil. *)
Theorem command_hook_transparent next ctx cmd w w' tr o :
  IsRecording w ctx = true →
  next (hooked_ctx ctx w) cmd (tracer_start ctx w).1 = mkRun w' tr o → o ≠ Running →
  let ρ := ProcessHook next ctx cmd w in
  let id := (tracer_start ctx w).2.2 in
  post ρ = w' ∧ out ρ = o
  ∧ ∃ tr', trace ρ =
      SpanStart id "redis.command"
        [("db.system", AttrString "redis"); ("db.operation", AttrString (cmd_Name cmd));
         ("db.statement", AttrString (cmd_String cmd))] :: tr ++ tr' ++ [SpanEnd id]
    ∧ tr' = match o with
            | Ret (Some e) => if is_redis_Nil e then [] else [SpanRecordError id e []; SpanSetStatus id (error_text e)]
            | _ => []
            end.
Proof.
  intros Hr Hn Ho. cbn zeta. unfold ProcessHook, hooked_ctx in *. rewrite run_gets, Hr. cbn [negb].
  destruct (tracer_start ctx w) as [w1 [ctx' id]] eqn:Et. cbn [fst snd] in *.
  unfold Start. rewrite run_assoc, (run_lift _ _ _ _ _ Et), run_assoc, run_emit, run_ret.
  unfold deferring, mbind, go_bind. cbn [fst snd]. rewrite Hn.
  destruct o as [[e|]|v|]; [destruct (is_redis_Nil e)|..]; cbn; rewrite ?app_nil_r; try done;
    (split_and!; [done..|]); eexists; (split; [|done]); cbn; by rewrite <- ?app_assoc.
Qed.

End cache.
