(* ===== verification/Logging.v ===== *)
(** [log/logger.go] and [pkg/telemetry/otel_handler.go]: the logger with its
    redaction, and the handler that ties log records to spans. *)

From S2P Require Import Prelude GoErrors Contextx GoStrings Json Otel.

Open Scope string_scope.
Open Scope list_scope.

(** ** [log/slog] *)

(** A value by its kind; [VError] is a [KindAny] that holds an error, [VOther]
    any other kind with its rendering. *)
#[warnings="-register-all"]
Inductive slog_value : Type :=
| VString (s : string)
| VInt64 (z : Z)
| VFloat64 (rendered : string)
| VBool (b : bool)
| VError (e : error)
| VOther (rendered : string)
| VGroup (attrs : list (string * slog_value)).

Abbreviation slog_attr := (string * slog_value)%type.

Record slog_record : Type := mkRecord { rec_level : Z; rec_message : string; rec_attrs : list slog_attr }.

Definition LevelDebug : Z := -4.
Definition LevelInfo : Z := 0.
Definition LevelWarn : Z := 4.
Definition LevelError : Z := 8.

(** What a logger does: a line of output, or a change of a span. *)
Inductive log_event : Type :=
| LogLine (level : Z) (msg : string) (attrs : list slog_attr)
| LogSpan (e : span_event).

(** ** Redaction *)

Definition sensitiveKeys : list string :=
  ["password"; "token"; "access_token"; "refresh_token"; "authorization"; "secret"; "db_dsn"; "api_key"].

Definition redacted : slog_value := VString "[REDACTED]".

Section logging.
Context {UC : Unicode}.

Definition sensitive (key : string) : bool := bool_decide (ToLower key ∈ sensitiveKeys).

Definition Redactor (a : slog_attr) : slog_attr :=
  let '(k, v) := a in if sensitive k then (k, redacted) else (k, v).

(** The built-in handlers call [ReplaceAttr] on every attribute that is not a
    group, at any depth. *)
Fixpoint replace_value (k : string) (v : slog_value) : slog_attr :=
  match v with
  | VGroup l => (k, VGroup (map (λ kv, replace_value kv.1 kv.2) l))
  | _ => Redactor (k, v)
  end.
Definition replace_attr (a : slog_attr) : slog_attr := replace_value a.1 a.2.

(** [strings.ToLower(cfg.Level)] *)
Definition parse_level (level : string) : Z :=
  let l := ToLower level in
  if bool_decide (l = "debug") then LevelDebug
  else if bool_decide (l = "warn") then LevelWarn
  else if bool_decide (l = "error") then LevelError
  else LevelInfo.

(** ** The handler *)

Context {W : Type} {SP : Spans W}.

(** [sc.TraceID().String()] and [sc.SpanID().String()] of the context's span,
    when it has them. *)
Class SpanIDs : Type := { sc_TraceID : context → option string; sc_SpanID : context → option string }.
Context {SI : SpanIDs}.

Abbreviation LM := (Go W log_event).

(** [a.Value.String()] for the kinds that have no attribute type of their own. *)
Fixpoint value_string (v : slog_value) : string :=
  match v with
  | VString s => s
  | VInt64 z => Itoa z
  | VFloat64 s => s
  | VBool b => if b then "true" else "false"
  | VError e => error_text e
  | VOther s => s
  | VGroup l => "[" +:+ String.concat " " (map (λ kv, kv.1 +:+ "=" +:+ value_string kv.2) l) +:+ "]"
  end.

Definition otel_attr (a : slog_attr) : string * attr_value :=
  let '(k, v) := a in
  match v with
  | VString s => (k, AttrString s)
  | VInt64 z => (k, AttrInt64 z)
  | VFloat64 s => (k, AttrFloat64 s)
  | VBool b => (k, AttrBool b)
  | _ => (k, AttrString (value_string v))
  end.

(** The last attribute [error] that holds an error. *)
Definition err_found (attrs : list slog_attr) : option error :=
  foldl (λ found a,
    match a with
    | (k, VError e) => if bool_decide (k = "error") then Some e else found
    | _ => found
    end) None attrs.

Definition enrichSpan (id : nat) (r : slog_record) : LM unit :=
  let otelAttrs := map otel_attr (rec_attrs r) in
  let errFound := err_found (rec_attrs r) in
  let errFound :=
    match errFound with
    | None => if (LevelError <=? rec_level r)%Z then Some (errors_New (rec_message r)) else None
    | Some e => Some e
    end in
  if (LevelError <=? rec_level r)%Z then
    match errFound with
    | Some e => emit (LogSpan (SpanRecordError id e otelAttrs))
    | None => mret ()
    end;;
    emit (LogSpan (SpanSetStatus id (rec_message r)))
  else if (rec_level r =? LevelWarn)%Z then
    emit (LogSpan (SpanAddEvent id "log_warning" (otelAttrs ++ [("message", AttrString (rec_message r))])))
  else mret ().

(** The wrapped handler: the attributes and groups the calls of [WithAttrs] and
    [WithGroup] have added to it, in their order. Empty ones add nothing. *)
Inductive layer : Type := LAttrs (l : list slog_attr) | LGroup (name : string).
Abbreviation base_handler := (list layer).

Definition base_WithAttrs (h : base_handler) (attrs : list slog_attr) : base_handler :=
  match attrs with [] => h | _ => h ++ [LAttrs attrs] end.
Definition base_WithGroup (h : base_handler) (name : string) : base_handler :=
  if bool_decide (name = "") then h else h ++ [LGroup name].

(** The attributes of a line: what follows a group, the record's own attributes
    too, is in it. *)
Fixpoint line_attrs (h : base_handler) (attrs : list slog_attr) : list slog_attr :=
  match h with
  | [] => attrs
  | LAttrs l :: h => l ++ line_attrs h attrs
  | LGroup name :: h => [(name, VGroup (line_attrs h attrs))]
  end.

(** One line, with its attributes replaced. *)
Definition base_Handle (h : base_handler) (r : slog_record) : LM unit :=
  emit (LogLine (rec_level r) (rec_message r) (map replace_attr (line_attrs h (rec_attrs r)))).

(** [OTelHandler] embeds the handler it wraps. *)
Record OTelHandler : Type := mkOTelHandler { wrapped : base_handler }.
Definition NewOTelHandler (h : base_handler) : OTelHandler := mkOTelHandler h.
Definition WithAttrs (h : OTelHandler) (attrs : list slog_attr) : OTelHandler :=
  mkOTelHandler (base_WithAttrs (wrapped h) attrs).
Definition WithGroup (h : OTelHandler) (name : string) : OTelHandler :=
  mkOTelHandler (base_WithGroup (wrapped h) name).

Definition with_span_ids (ctx : context) (r : slog_record) : slog_record :=
  let add k id (r : slog_record) :=
    match id with
    | Some s => mkRecord (rec_level r) (rec_message r) (rec_attrs r ++ [(k, VString s)])
    | None => r
    end in
  add "span_id" (sc_SpanID ctx) (add "trace_id" (sc_TraceID ctx) r).

Definition Handle (h : OTelHandler) (ctx : context) (r : slog_record) : LM unit :=
  rec ← gets (λ w, IsRecording w ctx);
  match span_of ctx, rec with
  | Some id, true =>
      let r := with_span_ids ctx r in
      (if (LevelWarn <=? rec_level r)%Z then enrichSpan id r else mret ());;
      base_Handle (wrapped h) r
  | _, _ => base_Handle (wrapped h) r
  end.

(** [log.Config]; [logger_New] is [New(cfg)]: [lg_console] says that the wrapped handler
    is tint's and not the JSON one. Both call [Redactor] the same way. *)
Record log_Config : Type := mkLogConfig { Level : string; Format : string }.
Record Logger : Type := mkLogger { lg_level : Z; lg_console : bool; lg_handler : OTelHandler }.
Definition logger_New (cfg : log_Config) : Logger :=
  mkLogger (parse_level (Level cfg)) (bool_decide (Format cfg = "console")) (NewOTelHandler []).

(** A call of a logger: records below its level are dropped. *)
Definition log (lg : Logger) (ctx : context) (level : Z) (msg : string) (attrs : list slog_attr) :
    LM unit :=
  if (lg_level lg <=? level)%Z then Handle (lg_handler lg) ctx (mkRecord level msg attrs) else mret ().

(** ** What gets out *)

(** The attributes that are not groups, at any depth. *)
Fixpoint leaves_of (k : string) (v : slog_value) : list slog_attr :=
  match v with
  | VGroup l => concat (map (λ kv, leaves_of kv.1 kv.2) l)
  | _ => [(k, v)]
  end.
Definition leaves (attrs : list slog_attr) : list slog_attr :=
  concat (map (λ kv, leaves_of kv.1 kv.2) attrs).

Lemma slog_value_ind' (P : slog_value → Prop) :
  (∀ v, (∀ l, v ≠ VGroup l) → P v) →
  (∀ l, Forall (λ kv, P kv.2) l → P (VGroup l)) → ∀ v, P v.
Proof.
  intros Hleaf Hg. fix IH 1. intros [s|z|s|b|e|s|l]; try (apply Hleaf; done).
  apply Hg. induction l as [|[k v] l IHl]; constructor; [apply IH|apply IHl].
Qed.

Lemma replace_leaves k v : leaves_of (replace_value k v).1 (replace_value k v).2 = map Redactor (leaves_of k v).
Proof.
  revert k. induction v as [v Hv|l IH] using slog_value_ind'; intros k.
  - destruct v; try by destruct (Hv attrs); cbn. all: cbn; by destruct (sensitive k).
  - cbn. induction IH as [|[k1 v1] l H _ IHl]; [done|]. cbn in *. by rewrite H, IHl, map_app.
Qed.

Lemma output_leaves attrs : leaves (map replace_attr attrs) = map Redactor (leaves attrs).
Proof.
  unfold leaves. induction attrs as [|[k v] attrs IH]; [done|]. cbn. rewrite map_app, IH. f_equal.
  apply replace_leaves.
Qed.

(** What the handler does, span and line: the changes of the span depend on the
    record, the line on the wrapped handler too. *)
Definition handled_record (ctx : context) (w : W) (r : slog_record) : slog_record :=
  match span_of ctx, IsRecording w ctx with Some _, true => with_span_ids ctx r | _, _ => r end.

Definition span_changes (ctx : context) (w : W) (r : slog_record) : list log_event :=
  match span_of ctx, IsRecording w ctx with
  | Some id, true =>
      if (LevelWarn <=? rec_level r)%Z then trace (enrichSpan id (with_span_ids ctx r) w) else []
  | _, _ => []
  end.

Lemma enrichSpan_run id r w :
  enrichSpan id r w = mkRun w (trace (enrichSpan id r w)) (Ret ())
  ∧ ∀ e, e ∈ trace (enrichSpan id r w) → ∃ s, e = LogSpan s.
Proof.
  unfold enrichSpan. destruct_tests; destruct (err_found (rec_attrs r)); (split; [done|]); cbn;
    intros ev Hin; cbn in Hin; repeat (apply elem_of_cons in Hin as [->|Hin]; [by eexists|]);
    by apply not_elem_of_nil in Hin.
Qed.

Lemma with_span_ids_same ctx r :
  rec_level (with_span_ids ctx r) = rec_level r ∧ rec_message (with_span_ids ctx r) = rec_message r.
Proof. unfold with_span_ids. by destruct (sc_SpanID ctx), (sc_TraceID ctx). Qed.

Lemma handle_run h ctx r w :
  Handle h ctx r w = mkRun w (span_changes ctx w r ++
    [LogLine (rec_level r) (rec_message r)
       (map replace_attr (line_attrs (wrapped h) (rec_attrs (handled_record ctx w r))))]) (Ret ()).
Proof.
  unfold Handle, handled_record, span_changes. rewrite run_gets.
  destruct (with_span_ids_same ctx r) as [Hl Hm].
  destruct (span_of ctx) as [id|], (IsRecording w ctx); try done. rewrite Hl.
  destruct (LevelWarn <=? rec_level r)%Z.
  - rewrite (run_bind _ _ _ _ _ _ (proj1 (enrichSpan_run _ _ _))). unfold base_Handle. by rewrite Hl, Hm.
  - rewrite run_ret. unfold base_Handle. by rewrite Hl, Hm.
Qed.

Lemma span_changes_span ctx w r e : e ∈ span_changes ctx w r → ∃ s, e = LogSpan s.
Proof.
  unfold span_changes. destruct (span_of ctx), (IsRecording w ctx); try by intros ?%not_elem_of_nil.
  destruct (_ <=? _)%Z; [apply enrichSpan_run|by intros ?%not_elem_of_nil].
Qed.

(** C33: In every line the logger writes, each attribute that is not a group, at any
    depth of groups, whose key is sensitive in any letter case has the value
    [REDACTED]; an attribute that is a group is written under its key, sensitive or
    not, with its members redacted by their own keys only, since slog does not call
    ReplaceAttr on groups. *)
Theorem log_output_redacted h ctx r w level msg attrs :
  LogLine level msg attrs ∈ trace (Handle h ctx r w) →
  (∀ k v, (k, v) ∈ leaves attrs → sensitive k = true → v = redacted)
  ∧ (∀ k l, (k, VGroup l) ∈ line_attrs (wrapped h) (rec_attrs (handled_record ctx w r)) →
       (k, VGroup (map replace_attr l)) ∈ attrs).
Proof.
  intros Hin. rewrite handle_run in Hin.
  apply elem_of_app in Hin as [Hin|Hin%list_elem_of_singleton]; [by apply span_changes_span in Hin as [? [=]]|].
  simplify_eq. split.
  - intros k v Hk Hs. rewrite output_leaves in Hk. apply list_elem_of_In, in_map_iff in Hk as ([k' v'] & Heq & _).
    cbn in Heq. destruct (sensitive k') eqn:E; simplify_eq; [done|congruence].
  - intros k l Hl. apply list_elem_of_In, in_map_iff. exists (k, VGroup l). split; [done|]. by apply list_elem_of_In.
Qed.

(** The attributes a record puts on its span are the ones before redaction. *)
Theorem span_attributes_not_redacted h ctx id r w k s :
  span_of ctx = Some id → IsRecording w ctx = true → (k, VString s) ∈ rec_attrs r →
  (LevelError ≤ rec_level r)%Z ∨ rec_level r = LevelWarn →
  ∃ e attrs, LogSpan e ∈ trace (Handle h ctx r w) ∧ (k, AttrString s) ∈ attrs
    ∧ ((∃ err, e = SpanRecordError id err attrs) ∨ e = SpanAddEvent id "log_warning" attrs).
Proof.
  intros Hs Hr Hk Hl. rewrite handle_run. cbn [trace]. unfold span_changes. rewrite Hs, Hr.
  destruct (with_span_ids_same ctx r) as [Hl' _]. set (r' := with_span_ids ctx r) in *.
  assert ((k, AttrString s) ∈ map otel_attr (rec_attrs r')) as Hin.
  { apply list_elem_of_In, in_map_iff. exists (k, VString s). split; [done|]. apply list_elem_of_In.
    unfold r', with_span_ids. destruct (sc_SpanID ctx), (sc_TraceID ctx); cbn; rewrite ?elem_of_app; auto. }
  destruct (Z.leb_spec LevelWarn (rec_level r)); [|unfold LevelError, LevelWarn in *; lia].
  unfold enrichSpan. rewrite Hl'. destruct (Z.leb_spec LevelError (rec_level r)).
  - destruct (err_found (rec_attrs r')) as [e|]; do 2 eexists; (split_and!; [left|done|left; by eexists]).
  - destruct Hl as [|Hw]; [lia|]. rewrite Hw, Z.eqb_refl.
    do 2 eexists. split_and!; [left|rewrite elem_of_app; by left|by right].
Qed.

(** A record in a context whose span does not record gets no trace id. *)
Theorem unsampled_records_untraced h ctx r w :
  IsRecording w ctx = false →
  trace (Handle h ctx r w)
  = [LogLine (rec_level r) (rec_message r) (map replace_attr (line_attrs (wrapped h) (rec_attrs r)))].
Proof.
  intros Hr. rewrite handle_run. unfold span_changes, handled_record. rewrite Hr. by destruct (span_of ctx).
Qed.

(** ** Derived loggers *)

(** The attributes the handler puts in front of a line's own, and the groups it
    nests it in. *)
Lemma line_attrs_app h1 h2 attrs : line_attrs (h1 ++ h2) attrs = line_attrs h1 (line_attrs h2 attrs).
Proof. induction h1 as [|[l|g] h1 IH]; cbn; [done|by rewrite IH..]. Qed.

Lemma line_attrs_WithAttrs h l attrs : line_attrs (base_WithAttrs h l) attrs = line_attrs h (l ++ attrs).
Proof. destruct l as [|a l]; [done|]. unfold base_WithAttrs. by rewrite line_attrs_app. Qed.

Lemma line_attrs_WithGroup h g attrs :
  g ≠ "" → line_attrs (base_WithGroup h g) attrs = line_attrs h [(g, VGroup attrs)].
Proof.
  intros Hg. unfold base_WithGroup. rewrite bool_decide_eq_false_2 by done. by rewrite line_attrs_app.
Qed.

Lemma handled_record_prepend ctx w r l :
  rec_attrs (handled_record ctx w (mkRecord (rec_level r) (rec_message r) (l ++ rec_attrs r)))
  = l ++ rec_attrs (handled_record ctx w r).
Proof.
  unfold handled_record, with_span_ids. destruct (span_of ctx), (IsRecording w ctx); try done.
  destruct (sc_SpanID ctx), (sc_TraceID ctx); cbn; by rewrite <- ?app_assoc.
Qed.

(** C37: A logger derived with attributes writes the line the original writes for
    the record with these attributes in front, a logger derived with a group writes
    the record's attributes (with its span's ids) inside the group, and both put the
    same events and attributes on the span as the original. *)
Theorem derived_loggers h ctx r w l g :
  let line (h : OTelHandler) (r : slog_record) := last (trace (Handle h ctx r w)) in
  let spans (h : OTelHandler) (r : slog_record) := removelast (trace (Handle h ctx r w)) in
  line (WithAttrs h l) r = line h (mkRecord (rec_level r) (rec_message r) (l ++ rec_attrs r))
  ∧ (g ≠ "" → line (WithGroup h g) r
       = Some (LogLine (rec_level r) (rec_message r)
           (map replace_attr (line_attrs (wrapped h) [(g, VGroup (rec_attrs (handled_record ctx w r)))]))))
  ∧ spans (WithAttrs h l) r = spans h r ∧ spans (WithGroup h g) r = spans h r.
Proof.
  intros line spans. unfold line, spans. rewrite !handle_run. cbn [trace]. rewrite !last_snoc, !removelast_last. split_and!.
  - cbn [wrapped WithAttrs rec_level rec_message]. by rewrite handled_record_prepend, line_attrs_WithAttrs.
  - intros Hg. cbn [wrapped WithGroup]. by rewrite line_attrs_WithGroup.
  - done.
  - done.
Qed.

End logging.
