(* ===== verification/Server.v ===== *)
(** [server/server.go]: the life of the HTTP and gRPC servers. [Start] sets the
    HTTP server up, starts a goroutine per server and waits for the context or for
    an error; the goroutines, the clients and the waiting caller are
    the threads of a step relation. *)

From S2P Require Import Prelude GoErrors.

Open Scope string_scope.
Open Scope list_scope.

(** ** Configuration *)

Record server_Config : Type := mkServerConfig {
  EnableHTTP : bool;
  EnableGRPC : bool;
  HTTPPort : string;
  GRPCPort : string;
  HTTPReadTimeout : Z;
  HTTPWriteTimeout : Z;
  ShutdownTimeout : Z;
  HTTPMTLSEnabled : bool;
  HTTPMTLSCACert : string;
  HTTPMTLSServerCert : string;
  HTTPMTLSServerKey : string;
  GRPCMTLSEnabled : bool;
}.

(** The parts of [tls.Config] and [http.Server] the code sets. *)
Inductive client_auth : Type := NoClientCert | RequireAndVerifyClientCert.
Record tls_config : Type := mkTLS { ClientCAs : string; ClientAuth : client_auth; MinVersion : Z }.
Definition VersionTLS12 : Z := 771.

Record http_server : Type := mkHttpServer {
  srv_Addr : string;
  ReadTimeout : Z;
  ReadHeaderTimeout : Z;
  WriteTimeout : Z;
  IdleTimeout : Z;
  TLSConfig : option tls_config;
}.

(** The file system and the PEM parser: the certificates in a file's text. *)
Class Files : Type := {
  os_ReadFile : string → result string error;
  AppendCertsFromPEM : string → bool;
}.

Section setup.
Context {FS : Files}.

Definition loadMTLSConfig (caPath : string) : result tls_config error :=
  match os_ReadFile caPath with
  | Err err => Err (Errorf_w "could not read CA cert: " err "")
  | Ok caCert =>
      if negb (AppendCertsFromPEM caCert) then Err (errors_New "failed to append CA cert")
      else Ok (mkTLS caCert RequireAndVerifyClientCert VersionTLS12)
  end.

(** How a server is listened for: the gRPC server without a TLS configuration of its own. *)
Inductive listener : Type :=
| ListenAndServeTLS (srv : http_server) (cert key : string)
| ListenAndServe (srv : http_server)
| ServeGRPC (addr : string).

(** The first part of [Start]: the goroutines it starts, in order. *)
Definition start_listeners (cfg : server_Config) : result (list listener) error :=
  let base := mkHttpServer (":" +:+ HTTPPort cfg) (HTTPReadTimeout cfg) (5 * Second)
                (HTTPWriteTimeout cfg) (120 * Second) None in
  let grpc := if EnableGRPC cfg then [ServeGRPC (":" +:+ GRPCPort cfg)] else [] in
  if EnableHTTP cfg then
    if HTTPMTLSEnabled cfg then
      match loadMTLSConfig (HTTPMTLSCACert cfg) with
      | Err err => Err (Errorf_w "failed to load HTTP mTLS config: " err "")
      | Ok tlsConfig =>
          let srv := mkHttpServer (srv_Addr base) (ReadTimeout base) (ReadHeaderTimeout base)
                       (WriteTimeout base) (IdleTimeout base) (Some tlsConfig) in
          Ok (ListenAndServeTLS srv (HTTPMTLSServerCert cfg) (HTTPMTLSServerKey cfg) :: grpc)
      end
    else Ok (ListenAndServe base :: grpc)
  else Ok grpc.

(** With mTLS enabled the HTTP server requires and verifies client certificates, or
    is not started. *)
Theorem mtls_required cfg ls :
  EnableHTTP cfg = true → HTTPMTLSEnabled cfg = true → start_listeners cfg = Ok ls →
  (∀ srv, ListenAndServe srv ∉ ls)
  ∧ ∃ srv tls, ListenAndServeTLS srv (HTTPMTLSServerCert cfg) (HTTPMTLSServerKey cfg) ∈ ls
    ∧ TLSConfig srv = Some tls ∧ ClientAuth tls = RequireAndVerifyClientCert ∧ MinVersion tls = VersionTLS12
    ∧ os_ReadFile (HTTPMTLSCACert cfg) = Ok (ClientCAs tls) ∧ AppendCertsFromPEM (ClientCAs tls) = true.
Proof.
  intros Hh Hm. unfold start_listeners, loadMTLSConfig. rewrite Hh, Hm.
  destruct (os_ReadFile _) as [ca|e]; [|done]. destruct (AppendCertsFromPEM ca) eqn:Ea; cbn [negb]; [|done].
  intros [= <-]. split.
  - intros srv [[=]|Hin]%elem_of_cons.
    destruct (EnableGRPC cfg); [by apply list_elem_of_singleton in Hin|by apply not_elem_of_nil in Hin].
  - do 2 eexists. split_and!; [left|done..].
Qed.

(** The flag for the gRPC server changes nothing. *)
Lemma grpc_mtls_flag_ignored cfg b :
  start_listeners (mkServerConfig (EnableHTTP cfg) (EnableGRPC cfg) (HTTPPort cfg) (GRPCPort cfg)
    (HTTPReadTimeout cfg) (HTTPWriteTimeout cfg) (ShutdownTimeout cfg) (HTTPMTLSEnabled cfg)
    (HTTPMTLSCACert cfg) (HTTPMTLSServerCert cfg) (HTTPMTLSServerKey cfg) b)
  = start_listeners cfg.
Proof. done. Qed.

End setup.

(** ** Running *)

(** A server goroutine, and the caller of [Start]. *)
Inductive goroutine : Type := Off | Serving | Closing | Exited.
Inductive caller : Type := Selecting | HttpShutdown | GrpcStop | Returned (err : option error).

(** [sys_requests] and [sys_calls] are the requests and calls in flight,
    [sys_errs] is the channel [errChan], [sys_done] says whether the context
    is cancelled. *)
Record sys : Type := mkSys {
  sys_http : goroutine;
  sys_grpc : goroutine;
  sys_requests : nat;
  sys_calls : nat;
  sys_errs : list error;
  sys_done : bool;
  sys_caller : caller;
}.

Definition errChan_cap : nat := 2.

(** The servers are there: [s.httpSrv] is set when HTTP is enabled; the gRPC
    server is the constructor's argument. *)
Definition started (cfg : server_Config) : sys :=
  mkSys (if EnableHTTP cfg then Serving else Off) (if EnableGRPC cfg then Serving else Off)
    0 0 [] false Selecting.

Inductive step : sys → sys → Prop :=
(* the world *)
| step_cancel h g r c es d m : step (mkSys h g r c es d m) (mkSys h g r c es true m)
| step_request g r c es d m : step (mkSys Serving g r c es d m) (mkSys Serving g (S r) c es d m)
| step_respond h g r c es d m : step (mkSys h g (S r) c es d m) (mkSys h g r c es d m)
| step_call h r c es d m : step (mkSys h Serving r c es d m) (mkSys h Serving r (S c) es d m)
| step_reply h g r c es d m : step (mkSys h g r (S c) es d m) (mkSys h g r c es d m)
(* the HTTP goroutine: an error goes to the channel, [ErrServerClosed] does not *)
| step_http_fail g r c es d m e : (length es < errChan_cap)%nat →
    step (mkSys Serving g r c es d m)
         (mkSys Exited g r c (es ++ [Errorf_w "http server failed: " e ""]) d m)
| step_http_closed g r c es d m : step (mkSys Closing g r c es d m) (mkSys Exited g r c es d m)
(* the gRPC goroutine *)
| step_grpc_fail h r c es d m e pre : (length es < errChan_cap)%nat →
    pre = "failed to listen grpc: " ∨ pre = "grpc server failed: " →
    step (mkSys h Serving r c es d m) (mkSys h Exited r c (es ++ [Errorf_w pre e ""]) d m)
| step_grpc_stopped h r c es d m : step (mkSys h Closing r c es d m) (mkSys h Exited r c es d m)
(* the caller: the [select] *)
| step_select_err h g r c e es d :
    step (mkSys h g r c (e :: es) d Selecting) (mkSys h g r c es d (Returned (Some e)))
| step_select_done h g r c es :
    step (mkSys h g r c es true Selecting)
         (mkSys (match h with Serving => Closing | _ => h end) g r c es true HttpShutdown)
(* the caller: [Shutdown] ends when no request is left or the timeout has passed *)
| step_http_drained h g c es d :
    step (mkSys h g 0 c es d HttpShutdown)
         (mkSys h (match g with Serving => Closing | _ => g end) 0 c es d GrpcStop)
| step_http_timeout h g r c es d :
    step (mkSys h g r c es d HttpShutdown)
         (mkSys h (match g with Serving => Closing | _ => g end) r c es d GrpcStop)
(* the caller: [GracefulStop] waits for the calls in flight *)
| step_graceful h g r es d :
    step (mkSys h g r 0 es d GrpcStop) (mkSys h g r 0 es d (Returned None)).

(** The goroutines that have not exited can still put one error each into the
    channel; after [shutdown] has begun no server accepts. *)
Definition pending (g : goroutine) : nat := match g with Serving => 1 | _ => 0 end.

Definition sys_inv (s : sys) : Prop :=
  (length (sys_errs s) + pending (sys_http s) + pending (sys_grpc s) ≤ errChan_cap)%nat
  ∧ match sys_caller s with
    | HttpShutdown => sys_http s ≠ Serving
    | GrpcStop => sys_http s ≠ Serving ∧ sys_grpc s ≠ Serving
    | Returned None => sys_http s ≠ Serving ∧ sys_grpc s ≠ Serving ∧ sys_calls s = 0
    | _ => True
    end.

Lemma sys_inv_step s s' : sys_inv s → step s s' → sys_inv s'.
Proof.
  unfold sys_inv, errChan_cap. intros [Hc Hm] Hstep.
  destruct Hstep; cbn in *; rewrite ?length_app; cbn; split; try (cbn in *; lia); try done;
    repeat match goal with
    | g : goroutine |- _ => destruct g
    | m : caller |- _ => destruct m as [| | |[?|]]
    end; cbn in *; try done; try lia; 
    try (decompose [and] Hm; split_and!; done).
Qed.

Lemma sys_inv_reachable cfg s : rtc step (started cfg) s → sys_inv s.
Proof.
  intros H. apply (rtc_ind_r (λ s, sys_inv s) (started cfg)) in H; [done| |].
  - split; [|done]. unfold errChan_cap. cbn. destruct (EnableHTTP cfg), (EnableGRPC cfg); cbn; lia.
  - intros s1 s2 _ Hs Hi. by eapply sys_inv_step.
Qed.

(** A server that is still serving finds room in the error channel. *)
Theorem server_errors_never_block cfg s :
  rtc step (started cfg) s → sys_http s = Serving ∨ sys_grpc s = Serving →
  (length (sys_errs s) < errChan_cap)%nat.
Proof.
  intros [Hc _]%sys_inv_reachable [H|H]; rewrite H in Hc; unfold errChan_cap in *; cbn in Hc; lia.
Qed.

(** C26: When Start returns nil in any interleaving of the servers, their clients
    and the cancellation, neither server accepts connections any more and no gRPC
    call is in flight. *)
Theorem clean_shutdown cfg s :
  rtc step (started cfg) s → sys_caller s = Returned None →
  sys_http s ≠ Serving ∧ sys_grpc s ≠ Serving ∧ sys_calls s = 0.
Proof. intros [_ Hm]%sys_inv_reachable Hr. by rewrite Hr in Hm. Qed.

(** Start can return an error while the other server goes on serving. *)
Theorem failed_server_leaves_other_running cfg e :
  EnableHTTP cfg = true → EnableGRPC cfg = true →
  ∃ s, rtc step (started cfg) s
    ∧ sys_caller s = Returned (Some (Errorf_w "failed to listen grpc: " e "")) ∧ sys_http s = Serving
    ∧ sys_requests s = 1.
Proof.
  intros Hh Hg. unfold started. rewrite Hh, Hg.
  exists (mkSys Serving Exited 1 0 [] false (Returned (Some (Errorf_w "failed to listen grpc: " e "")))).
  split; [|split_and!; reflexivity].
  eapply rtc_l; [apply (step_grpc_fail _ _ _ _ _ _ e "failed to listen grpc: ");
    [unfold errChan_cap; cbn; lia|by left]|].
  eapply rtc_l; [apply step_select_err|]. apply rtc_once, step_request.
Qed.

(** Steps that leave a call in flight. *)
Definition step_busy (s s' : sys) : Prop := step s s' ∧ sys_calls s' ≠ 0.

(** Shutdown does not return while a gRPC call is in flight, whatever the shutdown
    timeout. *)
Theorem shutdown_waits_for_calls s s' :
  sys_caller s = GrpcStop → sys_calls s ≠ 0 → rtc step_busy s s' → sys_caller s' = GrpcStop.
Proof.
  intros Hm Hc Hr. apply (rtc_ind_r (λ s, sys_caller s = GrpcStop ∧ sys_calls s ≠ 0) s) in Hr;
    [by destruct Hr|done|].
  intros s1 s2 _ [Hstep Hb] [Hm1 Hc1]. split; [|done]. destruct Hstep; cbn in *; done.
Qed.

(** ** Witnesses *)

#[local] Instance one_ca : Files := {
  os_ReadFile p := if bool_decide (p = "/ca.pem") then Ok "PEM" else Err (errors_New "no such file");
  AppendCertsFromPEM s := bool_decide (s = "PEM");
}.

Definition both_servers : server_Config :=
  mkServerConfig true true "8080" "9090" Second Second (10 * Second) true "/ca.pem" "/srv.pem" "/srv.key" true.

Definition mtls_server : http_server :=
  mkHttpServer ":8080" Second (5 * Second) Second (120 * Second)
    (Some (mkTLS "PEM" RequireAndVerifyClientCert VersionTLS12)).

Lemma mtls_required_witness :
  ∀ srv, ListenAndServe srv ∉ [ListenAndServeTLS mtls_server "/srv.pem" "/srv.key"; ServeGRPC ":9090"].
Proof.
  apply (mtls_required both_servers
           [ListenAndServeTLS mtls_server "/srv.pem" "/srv.key"; ServeGRPC ":9090"]); reflexivity.
Defined.

Lemma server_errors_never_block_witness : (0 < errChan_cap)%nat.
Proof. apply (server_errors_never_block both_servers (started both_servers)); [apply rtc_refl|by left]. Defined.

(** Cancelled with nothing in flight. *)
Definition stopped : sys := mkSys Closing Closing 0 0 [] true (Returned None).

Lemma stopped_reachable : rtc step (started both_servers) stopped.
Proof.
  eapply rtc_l; [apply step_cancel|]. eapply rtc_l; [apply step_select_done|].
  eapply rtc_l; [apply step_http_drained|]. apply rtc_once, step_graceful.
Qed.

Lemma clean_shutdown_witness : sys_http stopped ≠ Serving ∧ sys_grpc stopped ≠ Serving ∧ sys_calls stopped = 0.
Proof. apply (clean_shutdown both_servers stopped stopped_reachable). reflexivity. Defined.

Lemma failed_server_leaves_other_running_witness :
  ∃ s, rtc step (started both_servers) s ∧ sys_http s = Serving ∧ sys_requests s = 1.
Proof.
  destruct (failed_server_leaves_other_running both_servers (errors_New "address already in use")
              eq_refl eq_refl) as (s & Hr & _ & Hs & Hq).
  by exists s.
Defined.

(** A call that does not end. *)
Definition one_call : sys := mkSys Exited Closing 0 1 [] true GrpcStop.

Lemma shutdown_waits_for_calls_witness : sys_caller one_call = GrpcStop.
Proof.
  apply (shutdown_waits_for_calls one_call one_call); [reflexivity|done|].
  apply rtc_once. split; [apply step_cancel|done].
Defined.
