(* ===== verification/Health.v ===== *)
(** [server/health/checker.go]: liveness and readiness. *)

From S2P Require Import Prelude GoErrors Contextx GoStrings Json Http Response Otel Database.

Open Scope string_scope.
Open Scope list_scope.

Section health.
Context {W pool : Type} {PP : PgxPool W pool}.

(** [RegisterRoutes] *)
Definition health_routes : list (string * string) := [("/health", "HandleHealth"); ("/ready", "HandleReadiness")].

Definition HandleHealth : Handler W := λ r,
  WriteHeader StatusOK;;
  _ ← Write "OK";
  mret ().

Definition HandleReadiness (db : pool) : Handler W := λ r,
  err ← on_world (pool_Ping db Second);
  '(status, statusCode) ← (match err with
    | Some e =>
        emit (HLog "ERROR" "readiness check failed: database unreachable or slow"
          [("error", AOther (error_text e))]);;
        mret ("DOWN", StatusServiceUnavailable)
    | None => mret ("UP", StatusOK)
    end : HandlerM W (string * Z));
  let response := GMap [("status", GStr status); ("db", GStr status)] in
  header_Set "Content-Type" "application/json";;
  WriteHeader statusCode;;
  err ← encode_to response;
  match err with
  | Some e => emit (HLog "ERROR" "failed to write health response" [("error", AOther (error_text e))])
  | None => mret ()
  end.

(** The body, with its keys in order. *)
Definition ready_line (status : string) : string :=
  match json_line (GMap [("status", GStr status); ("db", GStr status)]) with Ok l => l | Err _ => "" end.

Example ready_lines :
  single_quotes (ready_line "UP") = "{'db':'UP','status':'UP'}" +:+ newline
  ∧ single_quotes (ready_line "DOWN") = "{'db':'DOWN','status':'DOWN'}" +:+ newline.
Proof. vm_compute. done. Qed.

(** The last part of the handler. *)
Lemma readiness_tail status code (h : hstate W) :
  resp_sent (h_resp h) = None → is_informational code = false → body_allowed code = true →
  json_line (GMap [("status", GStr status); ("db", GStr status)]) = Ok (ready_line status) →
  (header_Set "Content-Type" "application/json";;
   WriteHeader code;;
   err ← encode_to (GMap [("status", GStr status); ("db", GStr status)]);
   match err with
   | Some e => emit (HLog "ERROR" "failed to write health response" [("error", AOther (error_text e))])
   | None => mret ()
   end) h
  = mkRun (mkH (json_response code (ready_line status) (h_resp h)) ((λ _, code) <$> h_recorders h)
             (h_world h)) [] (Ret ()).
Proof.
  intros Hs Hi Hb Hj. unfold WriteHeader, encode_to, Write. rewrite Hj. autorewrite with go_run.
  erewrite run_lift; cycle 1.
  { unfold raw_Write, raw_WriteHeader, on_resp. cbn [h_resp resp_sent resp_header resp_body].
    rewrite Hs, Hi. cbn [h_resp resp_sent resp_header resp_body]. rewrite Hb. reflexivity. }
  reflexivity.
Qed.

(** Readiness is 200 when the database answers the ping and 503 when it does not. *)
Theorem readiness_reflects_database db r (h : hstate W) :
  resp_sent (h_resp h) = None →
  let ρ := HandleReadiness db r h in
  let '(w', err) := pool_Ping db Second (h_world h) in
  out ρ = Ret () ∧ h_world (post ρ) = w' ∧
  match err with
  | None => h_resp (post ρ) = json_response 200 (ready_line "UP") (h_resp h) ∧ trace ρ = []
  | Some e =>
      h_resp (post ρ) = json_response 503 (ready_line "DOWN") (h_resp h)
      ∧ trace ρ = [HLog "ERROR" "readiness check failed: database unreachable or slow"
                     [("error", AOther (error_text e))]]
  end.
Proof.
  intros Hs. cbn zeta. unfold HandleReadiness.
  destruct (pool_Ping db Second (h_world h)) as [w' [e|]] eqn:E; rewrite (on_world_run _ _ _ _ _ E).
  - rewrite run_assoc, run_emit, run_ret.
    erewrite readiness_tail by first [done|vm_compute; reflexivity]. done.
  - rewrite run_ret. erewrite readiness_tail by first [done|vm_compute; reflexivity]. done.
Qed.

End health.
