(* ===== verification/Hash.v ===== *)
(** [crypto/hash.go]: password hashing with bcrypt. *)

From S2P Require Import Prelude GoErrors.

Open Scope string_scope.
Open Scope list_scope.

Definition bcrypt_MinCost : Z := 4.
Definition bcrypt_MaxCost : Z := 31.

(** [golang.org/x/crypto/bcrypt]; hashing draws a salt from the world. *)
Class Bcrypt (W : Type) : Type := {
  GenerateFromPassword : string → Z → W → W * result string error;
  CompareHashAndPassword : string → string → option error;
}.

(** Its documentation: a password of at most 72 bytes is hashed with the given
    cost, and the hash compares equal to that password alone. *)
Class BcryptLaws (W : Type) `{!Bcrypt W} : Prop := {
  generate_ok p cost (w : W) :
    (String.length p ≤ 72)%nat → (bcrypt_MinCost ≤ cost ≤ bcrypt_MaxCost)%Z →
    ∃ h, (GenerateFromPassword p cost w).2 = Ok h ∧ ∀ q, CompareHashAndPassword h q = None ↔ q = p;
  generate_too_long p cost (w : W) :
    (72 < String.length p)%nat → ∃ e, (GenerateFromPassword p cost w).2 = Err e;
}.

Section hash.
Context {W : Type} {BC : Bcrypt W}.

Record Hasher : Type := mkHasher { cost : Z }.

Definition NewHasher (cfg_Cost : Z) : Hasher :=
  mkHasher (if (cfg_Cost <? bcrypt_MinCost)%Z || (bcrypt_MaxCost <? cfg_Cost)%Z then 12 else cfg_Cost).

Definition HashPassword (h : Hasher) (password : string) (w : W) : W * result string error :=
  if bool_decide (password = "") then (w, Err (errors_New "crypto: password cannot be empty"))
  else
    let '(w', res) := GenerateFromPassword password (cost h) w in
    (w', match res with
         | Err err => Err (Errorf_w "crypto: failed to hash password: " err "")
         | Ok bytes => Ok bytes
         end).

Definition CheckPassword (hash password : string) : bool :=
  match CompareHashAndPassword hash password with None => true | Some _ => false end.

Lemma hasher_cost c : (bcrypt_MinCost ≤ cost (NewHasher c) ≤ bcrypt_MaxCost)%Z.
Proof.
  unfold NewHasher, bcrypt_MinCost, bcrypt_MaxCost. cbn.
  destruct (Z.ltb_spec c 4), (Z.ltb_spec 31 c); cbn; lia.
Qed.

(** Whatever cost is configured, HashPassword fails only for the empty password and
    for passwords over 72 bytes, and CheckPassword accepts its hash with that
    password and with no other. *)
Theorem password_roundtrip {BL : BcryptLaws W} c p w :
  match (HashPassword (NewHasher c) p w).2 with
  | Ok hash => p ≠ "" ∧ ∀ q, CheckPassword hash q = true ↔ q = p
  | Err _ => p = "" ∨ (72 < String.length p)%nat
  end.
Proof.
  unfold HashPassword, CheckPassword. destruct (bool_decide (p = "")) eqn:Ep.
  { apply bool_decide_eq_true in Ep. by left. }
  apply bool_decide_eq_false in Ep. destruct (decide (String.length p ≤ 72)%nat) as [Hl|Hl].
  - destruct (generate_ok p (cost (NewHasher c)) w Hl (hasher_cost c)) as (h & Hg & Hc).
    destruct (GenerateFromPassword p (cost (NewHasher c)) w) as [w' res]. cbn in Hg. subst res. cbn.
    split; [done|]. intros q. specialize (Hc q). destruct (CompareHashAndPassword h q); rewrite <- Hc; split; congruence.
  - destruct (generate_too_long p (cost (NewHasher c)) w) as [e Hg]; [lia|].
    destruct (GenerateFromPassword p (cost (NewHasher c)) w) as [w' res]. cbn in Hg. subst res. cbn.
    right. lia.
Qed.

End hash.
