(* ===== verification/Config.v ===== *)
(** [config/loader.go], [app/config.go] and [app/app.go]: loading the
    configuration and running the service. A configuration struct is the map from
    its fields to their values; a field's tags say how envconfig fills it. *)

From S2P Require Import Prelude GoErrors.

Open Scope string_scope.
Open Scope list_scope.

(** The tags of a field: the name of its variable (the [envconfig] tag, or the
    name of the field when it has none), its default, and whether it is required. *)
Record field_tags : Type := mkTags {
  env_name : string; tagged : bool; default_value : option string; required : bool;
}.

(** A default that is the empty string is no default. *)
Definition default_of (t : field_tags) : option string :=
  match default_value t with
  | Some d => if bool_decide (d = "") then None else Some d
  | None => None
  end.

Abbreviation spec := (gmap string field_tags).
Abbreviation values := (gmap string string).

(** ** The libraries *)

(** [os.Stat], [os.Open] and the YAML decoder give the fields the file sets, or
    an error; [envconfig.Process] fills the fields; the validator checks them. *)
Class ConfigLibs : Type := {
  file_exists : string → bool;
  file_open : string → option error;
  yaml_Decode : string → values → result values error;
  os_env : string → option string;
  envconfig_Process : string → spec → values → result values error;
  validate_Struct : values → option error;
}.

(** The variable of a field under a prefix. *)
Definition env_key (prefix name : string) : string :=
  if bool_decide (prefix = "") then name else prefix +:+ "_" +:+ name.

(** The value from the environment: a tagged field falls back to the variable
    without the prefix. *)
Definition env_value `{!ConfigLibs} (prefix : string) (t : field_tags) : option string :=
  match os_env (env_key prefix (env_name t)) with
  | Some v => Some v
  | None => if tagged t then os_env (env_name t) else None
  end.

(** envconfig's documentation: a field takes the value of its variable; if
    the variable is not set, its default; a required field without either is an
    error; any other field keeps its value. *)
Class EnvconfigLaws `{!ConfigLibs} : Prop := {
  process_set prefix sp cfg cfg' f t v :
    envconfig_Process prefix sp cfg = Ok cfg' → sp !! f = Some t →
    env_value prefix t = Some v → cfg' !! f = Some v;
  process_default prefix sp cfg cfg' f t d :
    envconfig_Process prefix sp cfg = Ok cfg' → sp !! f = Some t →
    env_value prefix t = None → default_of t = Some d → cfg' !! f = Some d;
  process_keep prefix sp cfg cfg' f t :
    envconfig_Process prefix sp cfg = Ok cfg' → sp !! f = Some t →
    env_value prefix t = None → default_of t = None → cfg' !! f = cfg !! f;
  process_required prefix sp cfg f t :
    sp !! f = Some t → env_value prefix t = None → default_of t = None → required t = true →
    ∃ e, envconfig_Process prefix sp cfg = Err e;
}.

Section loaders.
Context {CL : ConfigLibs}.

(** ** [config.Loader] *)

Record Loader : Type := mkLoader { envPrefix : string; configPath : string }.

(** The YAML part: a file that is not there is skipped. *)
Definition load_yaml (l : Loader) : result values error :=
  if negb (bool_decide (configPath l = "")) && file_exists (configPath l) then
    match file_open (configPath l) with
    | Some err => Err (Errorf_w "failed to open config file: " err "")
    | None =>
        match yaml_Decode (configPath l) ∅ with
        | Err err => Err (Errorf_w "failed to decode config file: " err "")
        | Ok cfg => Ok cfg
        end
    end
  else Ok ∅.

Definition Load (l : Loader) (sp : spec) : result values error :=
  match load_yaml l with
  | Err err => Err err
  | Ok cfg =>
      match envconfig_Process (envPrefix l) sp cfg with
      | Err err => Err (Errorf_w "failed to process env vars: " err "")
      | Ok cfg => Ok cfg
      end
  end.

(** ** [app.Loader] *)

Definition app_Load (prefix : string) (sp : spec) (cfg : values) : result values error :=
  match envconfig_Process prefix sp cfg with
  | Err err => Err (Errorf_w "config: failed to process env vars: " err "")
  | Ok cfg =>
      match validate_Struct cfg with
      | Some err => Err (Errorf_w "config: validation failed: " err "")
      | None => Ok cfg
      end
  end.

(** Where a loaded field comes from. *)
Definition field_source (l : Loader) (yaml : values) (f : string) (t : field_tags) : option string :=
  match env_value (envPrefix l) t with
  | Some v => Some v
  | None => match default_of t with Some d => Some d | None => yaml !! f end
  end.

(** After a successful Load each field has the value of its environment variable if
    that is set, else its default if it has one, else the value of the YAML file;
    and every required field without a default came from the environment. *)
Theorem loaded_fields {EL : EnvconfigLaws} l sp cfg :
  Load l sp = Ok cfg →
  ∃ yaml, load_yaml l = Ok yaml
    ∧ ∀ f t, sp !! f = Some t →
        cfg !! f = field_source l yaml f t
        ∧ (required t = true → default_of t = None → env_value (envPrefix l) t ≠ None).
Proof.
  unfold Load. destruct (load_yaml l) as [yaml|e]; [|done].
  destruct (envconfig_Process (envPrefix l) sp yaml) as [cfg'|e] eqn:E; [|done].
  intros [= <-]. exists yaml. split; [done|]. intros f t Hf. unfold field_source.
  destruct (env_value (envPrefix l) t) as [v|] eqn:Ee.
  { split; [by eapply process_set|done]. }
  destruct (default_of t) as [d|] eqn:Ed.
  { split; [by eapply process_default|done]. }
  split; [by eapply process_keep|]. intros Hr _ _.
  destruct (process_required (envPrefix l) sp yaml f t Hf Ee Ed Hr) as [e He]. congruence.
Qed.

(** A value of the YAML file is overwritten by the field's default when the variable
    is not set. *)
Theorem yaml_loses_to_defaults {EL : EnvconfigLaws} l sp cfg yaml f t v d :
  Load l sp = Ok cfg → load_yaml l = Ok yaml → sp !! f = Some t →
  yaml !! f = Some v → default_of t = Some d → v ≠ d →
  env_value (envPrefix l) t = None → cfg !! f = Some d.
Proof.
  unfold Load. intros Hl Hy Hf _ Hd _ He. rewrite Hy in Hl.
  destruct (envconfig_Process (envPrefix l) sp yaml) as [cfg'|e] eqn:E; [|done].
  simplify_eq. by eapply process_default.
Qed.

End loaders.

(** ** [app.Runner] *)

Inductive app_event : Type :=
| AppLog (level msg : string)
| AppStopSignals
| AppWaitSignal
| AppExit (code : Z).

Section runner.
Context {W : Type}.

(** [os.Exit] ends the process; deferred calls do not run after it. *)
Definition Run (fn : Go W app_event (option error)) : Go W app_event unit :=
  emit (AppLog "INFO" "Service starting...");;
  err ← fn;
  match err with
  | Some _ =>
      emit (AppLog "ERROR" "Service startup failed");;
      emit AppStopSignals;;
      emit (AppExit 1)
  | None =>
      emit AppWaitSignal;;
      emit (AppLog "INFO" "Shutdown signal received. Cleaning up...");;
      emit (AppLog "INFO" "Service shutdown complete.");;
      emit AppStopSignals
  end.

(** The process exits with 1 exactly when the service returned an error; otherwise
    it waits for the signal. *)
Theorem runner_exit_code fn (w w' : W) tr err :
  fn w = mkRun w' tr (Ret err) → (∀ c, AppExit c ∉ tr) →
  out (Run fn w) = Ret ()
  ∧ (AppExit 1 ∈ trace (Run fn w) ↔ err ≠ None)
  ∧ (err = None → ∃ t1 t2, trace (Run fn w) = t1 ++ AppWaitSignal :: t2 ∧ ∀ c, AppExit c ∉ t1 ++ t2).
Proof.
  intros Hf Hn. unfold Run. rewrite run_emit, (run_bind _ _ _ _ _ _ Hf).
  destruct err as [e|]; rewrite !run_emit; cbn.
  - split_and!; [done| |done]. split; [done|]. intros _. right. apply elem_of_app. right.
    by apply list_elem_of_further, list_elem_of_further, list_elem_of_here.
  - split_and!; [done| |].
    + split; [|done]. rewrite elem_of_cons, elem_of_app, !elem_of_cons.
      intros [[=]|[H|H]]; [by destruct (Hn 1%Z)|].
      by destruct H as [[=]|[[=]|[[=]|[[=]|[]%not_elem_of_nil]]]].
    + intros _. exists (AppLog "INFO" "Service starting..." :: tr). eexists. split; [done|].
      intros c. cbn. rewrite elem_of_cons, elem_of_app, !elem_of_cons.
      intros [[=]|[H|H]]; [by destruct (Hn c)|].
      by destruct H as [[=]|[[=]|[[=]|[]%not_elem_of_nil]]].
Qed.

End runner.
