(* ===== verification/Settings.v ===== *)
(** The configuration structs of the library as envconfig reads them: the tags of
    [log.Config], [database.Config], [cache.Config], [audit.Config],
    [crypto.Config] and [messaging.Config], for the loaders of [Config.v]. *)

From S2P Require Import Prelude GoErrors Config.

Open Scope string_scope.
Open Scope list_scope.

(** ** The structs *)

(** A field without tags, and fields with a variable. *)
Definition plain (name : string) : field_tags := mkTags name false None false.
Definition variable (name default : string) : field_tags := mkTags name true (Some default) false.
Definition needed (name : string) : field_tags := mkTags name true None true.

Definition log_settings : spec :=
  {["Level" := variable "LOG_LEVEL" "info"; "Format" := variable "LOG_FORMAT" "json"]}.

Definition database_settings : spec :=
  {["DBDSN" := needed "DB_DSN";
    "DBMaxConns" := variable "DB_MAX_OPEN_CONNS" "50";
    "DBMinConns" := variable "DB_MIN_IDLE_CONNS" "10";
    "DBMaxConnIdle" := variable "DB_CONN_MAX_LIFETIME" "30m";
    "DBMaxConnLife" := variable "DB_CONN_MAX_IDLE_TIME" "15m";
    "DBConnectTimeout" := variable "DB_CONN_TIMEOUT" "15m";
    "HealthCheckPeriod" := variable "DB_HEALTHCHECK_PERIOD" "1m"]}.

Definition cache_settings : spec :=
  {["Addr" := needed "REDIS_ADDR"; "Password" := variable "REDIS_PASSWORD" "";
    "DB" := variable "REDIS_DB" "0"]}.

Definition audit_settings : spec :=
  {["Enabled" := variable "AUDIT_ENABLED" "true";
    "BufferSize" := variable "AUDIT_BUFFER_SIZE" "1024";
    "BlockOnFull" := variable "AUDIT_BLOCK_ON_FULL" "false";
    "MaxBodySize" := variable "AUDIT_MAX_BODY_SIZE" "32768";
    "ExcludePaths" := variable "AUDIT_EXCLUDE_PATHS" "/health,/metrics,/live,/ready";
    "MaskFields" := plain "MASKFIELDS"]}.

Definition crypto_settings : spec := {["Cost" := variable "BCRYPT_COST" "12"]}.

Definition messaging_settings : spec := {["Brokers" := needed "KAFKA_BROKERS"]}.

Definition all_settings : list spec :=
  [log_settings; database_settings; cache_settings; audit_settings; crypto_settings; messaging_settings].

(** ** Their variables *)

Definition variables (sp : spec) : list string := (λ ft, env_name ft.2) <$> map_to_list sp.

Lemma env_key_inj prefix n n' : env_key prefix n = env_key prefix n' → n = n'.
Proof.
  unfold env_key. destruct (bool_decide (prefix = "")); [done|].
  intros E. apply (inj (String.app prefix)) in E. by injection E.
Qed.

(** Every variable of the library's settings sets one field of one struct: loaded
    with the same prefix, no two fields share a variable. *)
Theorem settings_variables_distinct prefix :
  NoDup (env_key prefix <$> (all_settings ≫= variables)).
Proof.
  apply NoDup_fmap_2; [intros ??; apply env_key_inj|].
  apply (bool_decide_unpack _). vm_compute. exact I.
Qed.

Section settings.
Context {CL : ConfigLibs} {EL : EnvconfigLaws}.

(** A required variable that is not set, under either name, stops the loading,
    whatever the file says. *)
Theorem missing_variable_stops_loading l sp f t :
  sp ∈ all_settings → sp !! f = Some t → required t = true → env_value (envPrefix l) t = None →
  ∃ e, Load l sp = Err e.
Proof.
  intros Hsp Hf Hr He.
  assert (default_of t = None) as Hd.
  { assert (Forall (map_Forall (λ _ t, required t = true → default_of t = None)) all_settings) as Hall
      by (apply (bool_decide_unpack _); vm_compute; exact I).
    rewrite Forall_forall in Hall. by apply (Hall sp Hsp f t Hf). }
  unfold Load. destruct (load_yaml l) as [yaml|e]; [|eauto].
  destruct (process_required (envPrefix l) sp yaml f t Hf He Hd Hr) as [e ->]. eauto.
Qed.

End settings.
