(* ===== verification/DataSim.v ===== *)
(** Libraries to run the data, logging and configuration components with, and
    the instances of their theorems there. *)

From S2P Require Import Prelude GoErrors Contextx GoStrings Json Otel Database RedisCache Logging Hash Config Settings.

Open Scope string_scope.
Open Scope list_scope.

(** ** Spans and pools *)

(** The number of spans made and the pools that are open; every span records. *)
Record data_world : Type := mkData { spans_made : nat; open_pools : list nat; db_up : bool }.

Definition data_span_key : ctx_key := ForeignKey "trace" "span".

#[export] Instance data_spans : Spans data_world := {
  span_of ctx := match Value ctx data_span_key with Some (AInt id) => Some (Z.to_nat id) | _ => None end;
  IsRecording _ ctx := match Value ctx data_span_key with Some (AInt _) => true | _ => false end;
  tracer_start ctx w :=
    (mkData (S (spans_made w)) (open_pools w) (db_up w),
     (WithValue ctx data_span_key (AInt (Z.of_nat (spans_made w))), spans_made w));
}.
#[export] Instance data_spans_laws : SpansLaws data_world.
Proof.
  split; cbn.
  - intros ctx w. rewrite decide_True by done. f_equal. lia.
  - intros ctx w. by destruct (Value ctx data_span_key) as [[]|].
Qed.

Definition traced : context := WithValue Background data_span_key (AInt 0).
Definition data_w : data_world := mkData 1 [] true.

Lemma query_spans_balanced_witness :
  ended (trace ((ctx' ← TraceQueryStart traced "select 1"; TraceQueryEnd ctx' (Ok "SELECT 1")) data_w)) = [1].
Proof.
  destruct (query_spans_balanced traced "select 1" (Ok "SELECT 1") data_w) as [_ [_ H]]. exact H.
Defined.

#[export] Instance data_pool : PgxPool data_world nat := {
  pgxpool_ParseConfig dsn :=
    if bool_decide (dsn = "") then Err (errors_New "cannot parse") else Ok (mkPoolConfig 4 0 0 0 0 0 false);
  pgxpool_NewWithConfig _ w :=
    (mkData (spans_made w) (length (open_pools w) :: open_pools w) (db_up w), Ok (length (open_pools w)));
  pool_Ping _ _ w := (w, if db_up w then None else Some (errors_New "connection refused"));
  pool_Close _ w := mkData (spans_made w) (tl (open_pools w)) (db_up w);
}.
#[export] Instance data_pool_laws : PgxPoolLaws open_pools.
Proof. split; cbn; [by intros pc w p [= <-]|done|done|by intros p w l ->]. Qed.

Definition data_cfg : db_Config := mkDBConfig "postgres://" 50 10 Minute Minute Second Minute.

Lemma postgres_fails_closed_witness :
  out (NewPostgres data_cfg data_w) = Ret (Ok 0) ∧ open_pools (post (NewPostgres data_cfg data_w)) = [0].
Proof.
  split; [reflexivity|]. pose proof (postgres_fails_closed open_pools data_cfg data_w) as H.
  destruct H as [H _]. exact H.
Defined.

(** ** Redis commands *)

Definition set_cmd : Cmder := mkCmd "set" "set k v".
(** A command that misses. *)
Definition missing : context → Cmder → Go data_world span_event (option error) := λ _ _, mret (Some redis_Nil).

Lemma command_hook_transparent_witness :
  out (ProcessHook missing traced set_cmd data_w) = Ret (Some redis_Nil).
Proof.
  apply (command_hook_transparent missing traced set_cmd data_w (mkData 2 [] true) []
           (Ret (Some redis_Nil))); [reflexivity|reflexivity|done].
Defined.

(** ** Logging *)

#[export] Instance data_unicode : Unicode := { unicode_ToLower s := s }.
#[export] Instance data_span_ids : SpanIDs := {
  sc_TraceID _ := Some "4bf92f3577b34da6a3ce929d0e0e4736"; sc_SpanID _ := Some "00f067aa0ba902b7";
}.

Definition login : slog_record :=
  mkRecord LevelInfo "login" [("user", VString "alice"); ("req", VGroup [("Password", VString "hunter2")])].

(** A logger with a component attribute and a group, as the packages make them. *)
Definition derived : OTelHandler :=
  WithGroup (WithAttrs (NewOTelHandler []) [("component", VString "auth"); ("API_KEY", VString "k-123")]) "http".

(** A password that is a string, and one that is a group. *)
Definition secrets : slog_record :=
  mkRecord 0 "login" [("Password", VString "hunter2"); ("secret", VGroup [("value", VString "s3cr3t")])].

Lemma log_output_redacted_witness :
  let attrs := [("Password", redacted); ("secret", VGroup [("value", VString "s3cr3t")])] in
  LogLine 0 "login" attrs ∈ trace (Handle (NewOTelHandler []) Background secrets data_w)
  ∧ redacted = redacted ∧ ("secret", VGroup [("value", VString "s3cr3t")]) ∈ attrs.
Proof.
  assert (LogLine 0 "login" [("Password", redacted); ("secret", VGroup [("value", VString "s3cr3t")])]
    ∈ trace (Handle (NewOTelHandler []) Background secrets data_w)) as H by (vm_compute; left).
  split; [exact H|].
  destruct (log_output_redacted (NewOTelHandler []) Background secrets data_w 0 "login" _ H) as [H1 H2]. split.
  - apply (H1 "Password"); [vm_compute; left|vm_compute; reflexivity].
  - apply (H2 "secret" [("value", VString "s3cr3t")]). vm_compute. right. left.
Defined.

Lemma derived_loggers_witness :
  last (trace (Handle derived Background login data_w))
  = Some (LogLine 0 "login"
      [("component", VString "auth"); ("API_KEY", redacted);
       ("http", VGroup [("user", VString "alice"); ("req", VGroup [("Password", redacted)])])]).
Proof.
  destruct (derived_loggers (WithAttrs (NewOTelHandler []) [("component", VString "auth"); ("API_KEY", VString "k-123")])
    Background login data_w [] "http") as (_ & H & _).
  etrans; [apply H; discriminate|vm_compute; reflexivity].
Defined.

(** ** Passwords *)

#[export] Instance data_bcrypt : Bcrypt data_world := {
  GenerateFromPassword p cost w :=
    (w, if (String.length p <=? 72)%nat then Ok ("$2a$" +:+ p) else Err (errors_New "bcrypt: password length exceeds 72 bytes"));
  CompareHashAndPassword h p :=
    if bool_decide (h = "$2a$" +:+ p) then None else Some (errors_New "hashedPassword is not the hash of the given password");
}.
#[export] Instance data_bcrypt_laws : BcryptLaws data_world.
Proof.
  split; cbn.
  - intros p cost w Hl _. exists ("$2a$" +:+ p). destruct (Nat.leb_spec (String.length p) 72); [|lia].
    split; [done|]. intros q. case_bool_decide as E.
    + split; [intros _; by simplify_eq|done].
    + split; [done|intros ->; by destruct E].
  - intros p cost w Hl. destruct (Nat.leb_spec (String.length p) 72); [lia|]. by eexists.
Qed.

Lemma password_roundtrip_witness :
  CheckPassword (W := data_world) "$2a$secret" "secret" = true
  ∧ CheckPassword (W := data_world) "$2a$secret" "Secret" ≠ true.
Proof.
  pose proof (password_roundtrip 99 "secret" data_w) as [_ H]. split.
  - by apply (proj2 (H "secret")).
  - intros E%(proj1 (H "Secret")). discriminate E.
Defined.

(** ** Configuration *)

Definition port_tags : field_tags := mkTags "PORT" true (Some "8080") false.
Definition name_tags : field_tags := mkTags "NAME" true None false.
Definition sim_spec : spec := {["port" := port_tags; "name" := name_tags]}.

(** envconfig on the two fields, with no variable set. *)
#[export] Instance sim_libs : ConfigLibs := {
  file_exists _ := true;
  file_open _ := None;
  yaml_Decode _ _ := Ok {["port" := "9000"; "name" := "orders"]};
  os_env _ := None;
  envconfig_Process _ sp cfg :=
    if bool_decide (map_Forall (λ _ t, required t = true → default_of t ≠ None) sp)
    then Ok (merge (λ t v, match t with
                           | Some t => match default_of t with Some d => Some d | None => v end
                           | None => v
                           end) sp cfg)
    else Err (errors_New "required key missing value");
  validate_Struct _ := None;
}.
#[export] Instance sim_libs_laws : EnvconfigLaws.
Proof.
  assert (∀ prefix t, env_value prefix t = None) as He by (by intros ? []; unfold env_value; destruct tagged).
  split; [by intros; rewrite He in *|..]; cbn.
  - intros prefix sp cfg cfg' f t d H Hf _ Hd. destruct (bool_decide _); simplify_eq.
    rewrite lookup_merge, Hf. unfold diag_None. rewrite Hd. by destruct (cfg !! f).
  - intros prefix sp cfg cfg' f t H Hf _ Hd. destruct (bool_decide _); simplify_eq.
    rewrite lookup_merge, Hf. unfold diag_None. rewrite Hd. by destruct (cfg !! f).
  - intros prefix sp cfg f t Hf _ Hd Hr. rewrite bool_decide_eq_false_2; [by eexists|].
    intros Hall. by apply (Hall f t Hf Hr).
Qed.

Lemma loaded_fields_witness :
  (∃ cfg, Load (mkLoader "" "/etc/app.yaml") sim_spec = Ok cfg ∧ cfg !! "port" = Some "8080")
  ∧ ∃ yaml : values, load_yaml (mkLoader "" "/etc/app.yaml") = Ok yaml.
Proof.
  set (cfg := {["port" := "8080"; "name" := "orders"]} : values).
  assert (Load (mkLoader "" "/etc/app.yaml") sim_spec = Ok cfg) as E by (vm_compute; reflexivity).
  destruct (loaded_fields (mkLoader "" "/etc/app.yaml") sim_spec cfg E) as (yaml & Hy & Hf).
  split; [exists cfg; split; [exact E|]|by exists yaml].
  destruct (Hf "port" port_tags eq_refl) as [-> _]. reflexivity.
Defined.

Lemma missing_variable_stops_loading_witness :
  ∃ e, Load (mkLoader "ORDERS" "/etc/app.yaml") database_settings = Err e.
Proof.
  apply (missing_variable_stops_loading (mkLoader "ORDERS" "/etc/app.yaml") database_settings "DBDSN" (needed "DB_DSN")).
  - by apply list_elem_of_further, list_elem_of_here.
  - reflexivity.
  - reflexivity.
  - reflexivity.
Defined.
