(* ===== verification/Kafka.v ===== *)
(** What the messaging and audit packages see of the code around them: the
    franz-go client, the OpenTelemetry propagator and tracer, and the Go runtime's
    contexts and timers. None of it is code of the repository, so every
    operation is a field of a class, an argument of the definitions that use
    it; the laws the theorems rely on are classes of their own. *)

From S2P Require Import Prelude GoErrors Contextx.

Open Scope string_scope.
Open Scope list_scope.

(** [kgo.Record]; a byte slice is the string of its bytes. *)
Record kgo_record : Type := mkRecord {
  rec_topic : string;
  rec_key : string;
  rec_value : string;
  rec_headers : list (string * string);
  rec_partition : Z;
  rec_offset : Z;
}.

#[export] Instance kgo_record_eq_dec : EqDecision kgo_record.
Proof. solve_decision. Defined.

(** The client options the constructors pass. *)
Inductive kgo_opt : Type :=
| SeedBrokers (brokers : list string)
| ProducerBatchCompressionSnappy
| AllowAutoTopicCreation
| RetryTimeout (d : Z)
| RecordPartitionerRoundRobin
| ConsumerGroup (group : string)
| ConsumeTopics (topic : string)
| DisableAutoCommit
| BlockRebalanceOnPoll.

(** What the code observes of the result of a poll: [fetches.Err()] and the
    records [fetches.RecordIter()] goes through. *)
Record kgo_fetches : Type := mkFetches {
  fetches_Err : option error;
  fetches_records : list kgo_record;
}.

Class KgoClient (World client : Type) : Type := {
  kgo_NewClient : list kgo_opt → World → World * result client error;
  kgo_Ping : client → World → World * option error;
  kgo_Close : client → World → World;
  kgo_ProduceSync : client → context → kgo_record → World → World * option error;
  kgo_Produce : client → context → kgo_record → World → World;
  kgo_PollFetches : client → context → World → World * kgo_fetches;
  kgo_CommitRecords : client → context → kgo_record → World → World * option error;
}.

(** [kgo.ErrClientClosed]. *)
Definition kgo_ErrClientClosed : error :=
  Sentinel "kgo.ErrClientClosed" "client closed".

(** Contexts and timers: [ctx.Err()], and the two-way [select] on
    [ctx.Done()] and [time.After(d)], which answers [true] when the context's
    channel is the one that fired. *)
Class GoRuntime (World : Type) : Type := {
  ctx_Err : context → World → option error;
  select_done_after : context → Z → World → World * bool;
}.

(** Package context: once [Done] is closed, [Err] is not nil. *)
Class GoRuntimeLaws (World : Type) `{!GoRuntime World} : Prop := {
  done_has_err ctx d (w w' : World) :
    select_done_after ctx d w = (w', true) → is_Some (ctx_Err ctx w');
}.

(** [propagation.MapCarrier]. *)
Abbreviation MapCarrier := (gmap string string).

(** [otel.GetTextMapPropagator()]. *)
Class Propagator : Type := {
  Inject : context → MapCarrier → MapCarrier;
  Extract : context → MapCarrier → context;
  Fields : list string;
}.

(** The OpenTelemetry specification of [Extract]: when the carrier holds none
    of the propagator's fields nothing is stored, and a value already in the
    context stays. *)
Class PropagatorLaws `{!Propagator} : Prop := {
  extract_absent ctx carrier :
    (∀ k, k ∈ Fields → carrier !! k = None) → Extract ctx carrier = ctx;
}.

(** [trace.Tracer.Start]: the context that carries the new span. *)
Class Tracer : Type := {
  tracer_Start : context → string → list (string * any) → context;
}.

(** The order in which a [range] loop visits a map is not specified; every
    entry is visited once. *)
Class MapRange : Type := {
  map_range : gmap string string → list (string * string);
  map_range_perm m : map_range m ≡ₚ map_to_list m;
}.

(** The effects of a messaging component another component or a person
    can observe. *)
Inductive msg_event : Type :=
| EvHandler (key value : string) (r : option error)
| EvSleep (d : Z)
| EvPublish (topic key value : string) (r : option error)
| EvProduce (r : kgo_record)
| EvPoll (fs : kgo_fetches)
| EvCommit (r : kgo_record) (res : option error)
| EvSpanStart (name : string) (parent : context)
| EvSpanError (e : error)
| EvSpanEnd
| EvPing (ok : bool)
| EvClientClose
| EvLog (level msg : string).
