(* ===== verification/Producer.v ===== *)
(** [messaging/producer.go]: the synchronous Kafka producer, and the
    [DLQProducer] interface of [messaging/consumer.go] it implements. *)

From S2P Require Import Prelude GoErrors Contextx Kafka.

Open Scope string_scope.
Open Scope list_scope.

(** The interface through which the consumer publishes to the dead letter
    topic. *)
Record DLQProducer (World : Type) : Type := mkDLQProducer {
  dlq_Publish :
    context → string → string → string → Go World msg_event (option error);
}.
Arguments dlq_Publish {World}.

(** [Config]. *)
Record ProducerConfig : Type := mkProducerConfig { prod_Brokers : list string }.

(** [Producer]; the logger's output is part of the trace. *)
Record Producer (client : Type) : Type := mkProducer { prod_client : client }.
Arguments mkProducer {client}.
Arguments prod_client {client}.

Section producer.
Context {World client : Type} {KC : KgoClient World client}.
Context {PR : Propagator} {MR : MapRange}.

Definition producer_opts (cfg : ProducerConfig) : list kgo_opt :=
  [SeedBrokers (prod_Brokers cfg); ProducerBatchCompressionSnappy;
   AllowAutoTopicCreation; RetryTimeout (10 * Second)].

(** A client that cannot reach the brokers is closed and not returned. *)
Definition NewProducer (cfg : ProducerConfig) :
    Go World msg_event (result (Producer client) error) :=
  r ← lift (kgo_NewClient (producer_opts cfg));
  match r with
  | Err err => mret (Err (Errorf_w "kafka: failed to create franz-go client: " err ""))
  | Ok client =>
      perr ← lift (kgo_Ping client);
      match perr with
      | Some err =>
          emit (EvPing false);;
          modify (kgo_Close client);;
          emit EvClientClose;;
          mret (Err (Errorf_w "kafka: failed to ping brokers: " err ""))
      | None =>
          emit (EvPing true);;
          mret (Ok (mkProducer client))
      end
  end.

(** The record [Publish] sends: the trace context goes into the headers, one
    header per entry of the carrier. *)
Definition publish_record (ctx : context) (topic key payload : string) : kgo_record :=
  mkRecord topic key payload (map_range (Inject ctx ∅)) 0 0.

Definition Publish (p : Producer client) (ctx : context) (topic key payload : string) :
    Go World msg_event (option error) :=
  let record := publish_record ctx topic key payload in
  emit (EvProduce record);;
  res ← lift (kgo_ProduceSync (prod_client p) ctx record);
  match res with
  | Some err =>
      emit (EvLog "ERROR" "Failed to publish message");;
      mret (Some (Errorf_w "kafka publish failed: " err ""))
  | None => mret None
  end.

Definition Producer_Close (p : Producer client) : Go World msg_event (option error) :=
  emit (EvLog "INFO" "Closing Kafka Producer...");;
  modify (kgo_Close (prod_client p));;
  emit EvClientClose;;
  mret None.

(** [*Producer] as a [DLQProducer]. *)
Definition producer_dlq (p : Producer client) : DLQProducer World :=
  {| dlq_Publish := Publish p |}.

End producer.

(** What a [DLQProducer] promises to the consumer: [Publish] returns, and of the
    observable effects it only produces records and writes logs. *)
Definition producer_event (e : msg_event) : Prop :=
  match e with EvProduce _ | EvLog _ _ => True | _ => False end.

Class DLQLawful {World : Type} (d : DLQProducer World) : Prop := {
  dlq_returns ctx topic key payload w :
    ∃ res, out (dlq_Publish d ctx topic key payload w) = Ret res;
  dlq_quiet ctx topic key payload w :
    Forall producer_event (trace (dlq_Publish d ctx topic key payload w));
}.

(** The runs of [Publish]. *)
Lemma Publish_run {World client : Type} `{!KgoClient World client} `{!Propagator} `{!MapRange}
    (p : Producer client) ctx topic key payload (w : World) :
  let record := publish_record ctx topic key payload in
  let '(w', res) := kgo_ProduceSync (prod_client p) ctx record w in
  Publish p ctx topic key payload w =
    match res with
    | None => mkRun w' [EvProduce record] (Ret None)
    | Some err =>
        mkRun w' [EvProduce record; EvLog "ERROR" "Failed to publish message"]
          (Ret (Some (Errorf_w "kafka publish failed: " err "")))
    end.
Proof.
  unfold Publish. go_unfold.
  destruct (kgo_ProduceSync _ _ _ _) as [w' [err|]]; done.
Qed.

#[export] Instance producer_dlq_lawful {World client : Type} `{!KgoClient World client}
    `{!Propagator} `{!MapRange} (p : Producer client) :
  DLQLawful (producer_dlq (World := World) p).
Proof.
  split; intros; cbn;
    pose proof (Publish_run (World := World) p ctx topic key payload w) as Hrun; cbn in Hrun;
    destruct (kgo_ProduceSync _ _ _ _) as [w' [err|]]; rewrite Hrun; cbn; eauto;
    repeat constructor.
Qed.

(** The carrier the consumer rebuilds from a record's headers:
    [carrier[h.Key] = string(h.Value)] for each header in order. *)
Definition carrier_of (headers : list (string * string)) : MapCarrier :=
  foldl (λ carrier h, <[h.1 := h.2]> carrier) ∅ headers.

Lemma carrier_of_lookup_aux headers (m : MapCarrier) k :
  foldl (λ carrier h, <[h.1 := h.2]> carrier) m headers !! k
  = match carrier_of headers !! k with Some v => Some v | None => m !! k end.
Proof.
  unfold carrier_of. revert m.
  induction headers as [|[k' v'] hs IH] using rev_ind; intros m; cbn.
  { by rewrite lookup_empty. }
  rewrite !foldl_snoc; cbn. rewrite !lookup_insert.
  destruct (decide (k' = k)); [done|]. apply IH.
Qed.

Lemma carrier_of_cons k v headers :
  k ∉ headers.*1 → carrier_of ((k, v) :: headers) = <[k := v]> (carrier_of headers).
Proof.
  intros Hk. apply map_eq. intros i.
  change (carrier_of ((k, v) :: headers))
    with (foldl (λ carrier h, <[h.1 := h.2]> carrier) (<[k := v]> ∅ : MapCarrier) headers).
  rewrite carrier_of_lookup_aux, !lookup_insert, lookup_empty.
  destruct (decide (k = i)) as [->|]; [|by destruct (carrier_of headers !! i)].
  destruct (carrier_of headers !! i) as [w|] eqn:E; [|done].
  exfalso. apply Hk. clear Hk. revert E. unfold carrier_of.
  induction headers as [|[k' v'] hs IH] using rev_ind; cbn; [by rewrite lookup_empty|].
  rewrite foldl_snoc, lookup_insert, fmap_app, elem_of_app; cbn.
  case_decide; [set_solver|intros; left; auto].
Qed.

(** Without repeated keys the carrier is the map of the headers. *)
Lemma carrier_of_list_to_map headers :
  NoDup headers.*1 → carrier_of headers = list_to_map headers.
Proof.
  induction headers as [|[k v] hs IH]; [done|].
  rewrite fmap_cons, NoDup_cons. intros [Hk Hnd].
  rewrite carrier_of_cons by done. by rewrite IH.
Qed.

Lemma carrier_of_range `{!MapRange} (m : MapCarrier) :
  carrier_of (map_range m) = m.
Proof.
  pose proof (map_range_perm m) as Hp.
  assert (NoDup (map_range m).*1) as Hnd.
  { rewrite Hp. apply NoDup_fst_map_to_list. }
  rewrite carrier_of_list_to_map by done.
  rewrite <- (list_to_map_to_list m) at 2. by apply list_to_map_proper.
Qed.
