(* ===== verification/Consumer.v ===== *)
(** [messaging/consumer.go]: the Kafka consumer with its retry loop, dead
    letter queue and poll loop. *)

From S2P Require Import Prelude GoErrors Contextx Kafka Producer.

Open Scope string_scope.
Open Scope list_scope.

Record ConsumerConfig : Type := mkConsumerConfig {
  Brokers : list string;
  GroupID : string;
  Topic : string;
  MaxRetries : Z;
  InitialBackoff : Z;
  MaxBackoff : Z;
  DLQTopic : string;
  StrictMode : bool;
}.

(** The user's [HandlerFunc]: any computation over the world, which returns nil or an
    error, panics, or does not return. *)
Definition HandlerFunc (World : Type) : Type :=
  context → string → string → World → World * exit (option error).

Record Consumer (World client : Type) : Type := mkConsumer {
  cons_client : client;
  cons_cfg : ConsumerConfig;
  cons_handler : HandlerFunc World;
  cons_dlqProducer : option (DLQProducer World);
}.
Arguments mkConsumer {World client}.
Arguments cons_client {World client}.
Arguments cons_cfg {World client}.
Arguments cons_handler {World client}.
Arguments cons_dlqProducer {World client}.

(** The defaulting of [NewConsumer]. *)
Definition default_config (cfg : ConsumerConfig) : ConsumerConfig :=
  {| Brokers := Brokers cfg;
     GroupID := GroupID cfg;
     Topic := Topic cfg;
     MaxRetries := MaxRetries cfg;
     InitialBackoff :=
       if (InitialBackoff cfg =? 0)%Z then 100 * Millisecond else InitialBackoff cfg;
     MaxBackoff := if (MaxBackoff cfg =? 0)%Z then 30 * Second else MaxBackoff cfg;
     DLQTopic :=
       if (0 <? MaxRetries cfg)%Z && bool_decide (DLQTopic cfg = "")
       then Topic cfg +:+ ".dlq" else DLQTopic cfg;
     StrictMode := StrictMode cfg |}.

Definition consumer_opts (cfg : ConsumerConfig) : list kgo_opt :=
  [SeedBrokers (Brokers cfg); ConsumerGroup (GroupID cfg); ConsumeTopics (Topic cfg);
   DisableAutoCommit; BlockRebalanceOnPoll].

(** [backoff *= 2; if backoff > c.cfg.MaxBackoff { backoff = c.cfg.MaxBackoff }] *)
Definition next_backoff (cfg : ConsumerConfig) (backoff : Z) : Z :=
  let b := wrap64 (backoff * 2) in
  if (MaxBackoff cfg <? b)%Z then MaxBackoff cfg else b.

Section consumer.
Context {World client : Type} {KC : KgoClient World client} {RT : GoRuntime World}.
Context {PR : Propagator} {TR : Tracer}.

Definition NewConsumer (cfg : ConsumerConfig) (handler : HandlerFunc World)
    (dlq : option (DLQProducer World)) :
    Go World msg_event (result (Consumer World client) error) :=
  let cfg := default_config cfg in
  r ← lift (kgo_NewClient (consumer_opts cfg));
  match r with
  | Err err => mret (Err (Errorf_w "failed to create franz-go client: " err ""))
  | Ok client => mret (Ok (mkConsumer client cfg handler dlq))
  end.

Definition call_handler (c : Consumer World client) (ctx : context) (r : kgo_record) :
    Go World msg_event (option error) :=
  λ w,
    let '(w', o) := cons_handler c ctx (rec_key r) (rec_value r) w in
    match o with
    | Ret err => mkRun w' [EvHandler (rec_key r) (rec_value r) err] (Ret err)
    | Panic v => mkRun w' [] (Panic v)
    | Running => mkRun w' [] Running
    end.

Definition strict_panic_msg : string :=
  "CRITICAL: MaxRetries reached but no DLQ Producer configured. STRICT POLICY: Halting to prevent data loss.".

(** Lines 166-204: the record goes to the dead letter topic, and what happens
    when it cannot. *)
Definition move_to_dlq (c : Consumer World client) (ctx : context) (r : kgo_record)
    (err : error) : Go World msg_event (option error) :=
  let cfg := cons_cfg c in
  emit (EvLog "ERROR" "Max retries exceeded. Attempting move to DLQ.");;
  match cons_dlqProducer c with
  | None =>
      if StrictMode cfg then gopanic strict_panic_msg
      else
        emit (EvLog "ERROR" "CRITICAL: MaxRetries reached but no DLQ Producer configured. PERMISSIVE POLICY: Dropping message.");;
        mret None
  | Some dlq =>
      dlqErr ← dlq_Publish dlq ctx (DLQTopic cfg) (rec_key r) (rec_value r);
      emit (EvPublish (DLQTopic cfg) (rec_key r) (rec_value r) dlqErr);;
      match dlqErr with
      | Some dlqErr =>
          let errMsg := "FATAL: Failed to publish to DLQ: " +:+ error_text dlqErr +:+
                        " (Original: " +:+ error_text err +:+ ")" in
          if StrictMode cfg then mret (Some (errors_New errMsg))
          else
            emit (EvLog "ERROR" (errMsg +:+ " -- PERMISSIVE POLICY: Dropping message to keep queue moving."));;
            mret None
      | None => mret None
      end
  end.

(** One round of the loop of [processWithRetry]; its variables are [attempt]
    and [backoff]. *)
Definition retry_body (c : Consumer World client) (ctx : context) (r : kgo_record)
    (vars : Z * Z) : Go World msg_event (control (Z * Z) (option error)) :=
  let '(attempt, backoff) := vars in
  cerr ← gets (ctx_Err ctx);
  match cerr with
  | Some e => mret (Return (Some e))
  | None =>
      herr ← call_handler c ctx r;
      match herr with
      | None => mret (Return None)
      | Some err =>
          let attempt := wrap64 (attempt + 1) in
          if (0 <? MaxRetries (cons_cfg c))%Z && (MaxRetries (cons_cfg c) <=? attempt)%Z
          then
            res ← move_to_dlq c ctx r err;
            mret (Return res)
          else
            emit (EvLog "WARN" "Transient failure, retrying...");;
            emit (EvSleep backoff);;
            done ← lift (select_done_after ctx backoff);
            if (done : bool) then
              e ← gets (ctx_Err ctx);
              mret (Return e)
            else mret (Continue (attempt, next_backoff (cons_cfg c) backoff))
      end
  end.

Definition processWithRetry (fuel : nat) (c : Consumer World client) (ctx : context)
    (r : kgo_record) : Go World msg_event (option error) :=
  for_loop fuel (retry_body c ctx r) (0%Z, InitialBackoff (cons_cfg c)).

(** The span attributes of [kafka.process]. *)
Definition process_attrs (c : Consumer World client) (r : kgo_record) : list (string * any) :=
  [("messaging.system", AString "kafka");
   ("messaging.destination", AString (rec_topic r));
   ("messaging.kafka.consumer_group", AString (GroupID (cons_cfg c)));
   ("messaging.kafka.partition", AInt (rec_partition r));
   ("messaging.kafka.offset", AInt (rec_offset r));
   ("messaging.kafka.key", AString (rec_key r))].

(** The inner loop of [Start] over the records of one poll. [ctx] is the
    variable of the function: the assignment [ctx = ...Extract(ctx, carrier)]
    changes it for the records that follow, while the [ctx] that [tracer.Start]
    returns is a new variable of the loop's body. *)
Fixpoint process_records (fuel : nat) (c : Consumer World client) (ctx : context)
    (records : list kgo_record) : Go World msg_event (context * option error) :=
  match records with
  | [] => mret (ctx, None)
  | r :: rest =>
      let ctx := Extract ctx (carrier_of (rec_headers r)) in
      let ctx' := tracer_Start ctx "kafka.process" (process_attrs c r) in
      emit (EvSpanStart "kafka.process" ctx);;
      perr ← processWithRetry fuel c ctx' r;
      match perr with
      | Some err =>
          emit (EvSpanError err);;
          emit EvSpanEnd;;
          mret (ctx, Some err)
      | None =>
          emit EvSpanEnd;;
          cerr ← lift (kgo_CommitRecords (cons_client c) ctx' r);
          emit (EvCommit r cerr);;
          match cerr with
          | Some _ => emit (EvLog "ERROR" "Failed to commit offset")
          | None => mret ()
          end;;
          process_records fuel c ctx rest
      end
  end.

(** One round of the poll loop of [Start]; its variable is [ctx]. [rfuel] is
    the fuel of the retry loop of each record. *)
Definition poll_body (rfuel : nat) (c : Consumer World client) (ctx : context) :
    Go World msg_event (control context (option error)) :=
  fs ← lift (kgo_PollFetches (cons_client c) ctx);
  emit (EvPoll fs);;
  match fetches_Err fs with
  | Some err =>
      if errors_Is err "context.Canceled" then mret (Return None)
      else
        emit (EvLog "ERROR" "Poll error");;
        mret (Continue ctx)
  | None =>
      res ← process_records rfuel c ctx (fetches_records fs);
      match res.2 with
      | Some err => mret (Return (Some err))
      | None => mret (Continue res.1)
      end
  end.

Definition Start (rfuel fuel : nat) (c : Consumer World client) (ctx : context) :
    Go World msg_event (option error) :=
  emit (EvLog "INFO" "Starting Franz-go consumer");;
  for_loop fuel (poll_body rfuel c) ctx.

Definition Consumer_Close (c : Consumer World client) : Go World msg_event (option error) :=
  modify (kgo_Close (cons_client c));;
  emit EvClientClose;;
  mret None.

End consumer.
