(* ===== verification/ConsumerFacts.v ===== *)
(** What the consumer of [Consumer.v] guarantees: no acknowledgement without
    processing, the bounds and the schedule of the retries, the order of the
    records, and what happens to the context, to failed polls and to a closed
    client. *)

From S2P Require Import Prelude GoErrors Contextx Kafka Producer Consumer.

Open Scope string_scope.
Open Scope list_scope.

#[local] Arguments move_to_dlq : simpl never.
#[local] Arguments retry_body : simpl never.

(** ** Views of a trace *)

Definition handler_results (t : list msg_event) : list (option error) :=
  omap (λ e, match e with EvHandler _ _ res => Some res | _ => None end) t.

Definition sleeps (t : list msg_event) : list Z :=
  omap (λ e, match e with EvSleep d => Some d | _ => None end) t.

Definition commits (t : list msg_event) : list kgo_record :=
  omap (λ e, match e with EvCommit r _ => Some r | _ => None end) t.

Definition span_parents (t : list msg_event) : list context :=
  omap (λ e, match e with EvSpanStart _ ctx => Some ctx | _ => None end) t.

Lemma handler_results_app t1 t2 :
  handler_results (t1 ++ t2) = handler_results t1 ++ handler_results t2.
Proof. apply omap_app. Qed.
Lemma sleeps_app t1 t2 : sleeps (t1 ++ t2) = sleeps t1 ++ sleeps t2.
Proof. apply omap_app. Qed.
Lemma commits_app t1 t2 : commits (t1 ++ t2) = commits t1 ++ commits t2.
Proof. apply omap_app. Qed.
Lemma span_parents_app t1 t2 : span_parents (t1 ++ t2) = span_parents t1 ++ span_parents t2.
Proof. apply omap_app. Qed.

Create Rewrite HintDb views.
#[export] Hint Rewrite handler_results_app sleeps_app commits_app span_parents_app : views.

(** A producer's own effects are in none of these views. *)
Lemma quiet_views t :
  Forall producer_event t →
  handler_results t = [] ∧ sleeps t = [] ∧ commits t = [] ∧ span_parents t = [].
Proof.
  induction 1 as [|e t He _ (IH1 & IH2 & IH3 & IH4)]; [done|].
  destruct e; try done; cbn; auto.
Qed.

Section facts.
Context {World client : Type} {KC : KgoClient World client} {RT : GoRuntime World}.
Context {PR : Propagator} {TR : Tracer}.
Implicit Types (c : Consumer World client) (ctx : context) (r : kgo_record) (w : World).

(** The dead letter producer of the consumer, if there is one, keeps the
    promises of the interface. *)
Definition dlq_ok c : Prop :=
  match cons_dlqProducer c with None => True | Some d => DLQLawful d end.

(** The consumer's limit is reached by the attempt after [attempt] failures. *)
Definition exhausted c (attempt : Z) : bool :=
  (0 <? MaxRetries (cons_cfg c))%Z && (MaxRetries (cons_cfg c) <=? wrap64 (attempt + 1))%Z.

Abbreviation failure r err := (EvHandler (rec_key r) (rec_value r) (Some err)).
Abbreviation success r := (EvHandler (rec_key r) (rec_value r) None).
Abbreviation transient := (EvLog "WARN" "Transient failure, retrying...").

(** ** One round of the retry loop, branch by branch *)

Inductive retry_round c ctx r (attempt backoff : Z) w :
    run World msg_event (control (Z * Z) (option error)) → Prop :=
| round_cancelled e :
    ctx_Err ctx w = Some e →
    retry_round c ctx r attempt backoff w (mkRun w [] (Ret (Return (Some e))))
| round_panic w1 v :
    cons_handler c ctx (rec_key r) (rec_value r) w = (w1, Panic v) →
    retry_round c ctx r attempt backoff w (mkRun w1 [] (Panic v))
| round_stuck w1 :
    cons_handler c ctx (rec_key r) (rec_value r) w = (w1, Running) →
    retry_round c ctx r attempt backoff w (mkRun w1 [] Running)
| round_success w1 :
    cons_handler c ctx (rec_key r) (rec_value r) w = (w1, Ret None) →
    retry_round c ctx r attempt backoff w (mkRun w1 [success r] (Ret (Return None)))
| round_exhausted w1 err w2 t2 o2 :
    cons_handler c ctx (rec_key r) (rec_value r) w = (w1, Ret (Some err)) →
    exhausted c attempt = true →
    move_to_dlq c ctx r err w1 = mkRun w2 t2 o2 →
    retry_round c ctx r attempt backoff w
      (mkRun w2 (failure r err :: t2)
         match o2 with Ret e => Ret (Return e) | Panic v => Panic v | Running => Running end)
| round_interrupted w1 err w2 :
    cons_handler c ctx (rec_key r) (rec_value r) w = (w1, Ret (Some err)) →
    exhausted c attempt = false →
    select_done_after ctx backoff w1 = (w2, true) →
    retry_round c ctx r attempt backoff w
      (mkRun w2 [failure r err; transient; EvSleep backoff] (Ret (Return (ctx_Err ctx w2))))
| round_again w1 err w2 :
    cons_handler c ctx (rec_key r) (rec_value r) w = (w1, Ret (Some err)) →
    exhausted c attempt = false →
    select_done_after ctx backoff w1 = (w2, false) →
    retry_round c ctx r attempt backoff w
      (mkRun w2 [failure r err; transient; EvSleep backoff]
         (Ret (Continue (wrap64 (attempt + 1), next_backoff (cons_cfg c) backoff)))).

Lemma retry_body_round c ctx r attempt backoff w :
  retry_round c ctx r attempt backoff w (retry_body c ctx r (attempt, backoff) w).
Proof.
  unfold retry_body, call_handler. go_unfold.
  destruct (ctx_Err ctx w) as [e|] eqn:Hc; [by constructor|].
  destruct (cons_handler c ctx (rec_key r) (rec_value r) w) as [w1 [[err|]|v|]] eqn:Hh;
    [|by constructor..].
  fold (exhausted c attempt). destruct (exhausted c attempt) eqn:Hx.
  - destruct (move_to_dlq c ctx r err w1) as [w2 t2 o2] eqn:Hm.
    pose proof (round_exhausted c ctx r attempt backoff w w1 err w2 t2 o2 Hh Hx Hm) as Hr.
    destruct o2; cbn in *; rewrite ?app_nil_r; exact Hr.
  - destruct (select_done_after ctx backoff w1) as [w2 [|]] eqn:Hs; by econstructor.
Qed.

(** ** Sequences of failed attempts *)

Lemma retry_body_continue c ctx r a b w w1 t1 a1 b1 :
  retry_body c ctx r (a, b) w = mkRun w1 t1 (Ret (Continue (a1, b1))) →
  a1 = wrap64 (a + 1) ∧ b1 = next_backoff (cons_cfg c) b ∧ exhausted c a = false
  ∧ ∃ err, t1 = [failure r err; transient; EvSleep b].
Proof.
  intros H. pose proof (retry_body_round c ctx r a b w) as Hr. rewrite H in Hr.
  inversion Hr; subst; eauto.
  match goal with o2 : exit _ |- _ => destruct o2; simplify_eq end.
Qed.

Definition backoff_iter c (n : nat) (b : Z) : Z := Nat.iter n (next_backoff (cons_cfg c)) b.

Lemma wrap64_add a b : wrap64 (wrap64 a + b) = wrap64 (a + b).
Proof.
  unfold wrap64. f_equal.
  replace ((a + 2 ^ 63) mod 2 ^ 64 - 2 ^ 63 + b + 2 ^ 63)%Z
    with ((a + 2 ^ 63) mod 2 ^ 64 + b)%Z by lia.
  rewrite Zplus_mod_idemp_l. f_equal; lia.
Qed.

(** After [n] rounds that went on, the handler has failed [n] times, the loop
    has slept [n] times, and nothing else has happened. *)
Lemma retry_rounds c ctx r n a b w t a' b' w' :
  rounds (retry_body c ctx r) n (a, b) w t (a', b') w' → is_int64 a →
  a' = wrap64 (a + Z.of_nat n) ∧ b' = backoff_iter c n b
  ∧ length (handler_results t) = n ∧ Forall is_Some (handler_results t)
  ∧ sleeps t = (λ i, backoff_iter c i b) <$> seq 0 n
  ∧ commits t = [].
Proof.
  intros H Hi. revert t a' b' w' H. induction n as [|n IH]; intros t a' b' w' H.
  { inversion H; subst. rewrite Z.add_0_r, wrap64_id; done. }
  apply rounds_snoc_inv in H as (t' & t1 & [a1 b1] & w1 & -> & Hr & Hb).
  apply IH in Hr as (Ha & -> & Hl & Hf & Hs & Hc).
  apply retry_body_continue in Hb as (-> & -> & _ & err & ->).
  autorewrite with views. rewrite length_app, Hl, Hs, Hc.
  split; [rewrite Ha, wrap64_add; f_equal; lia|].
  split; [done|]. split; [cbn; lia|]. split; [|split].
  - apply Forall_app; split; [done|]. repeat constructor. eauto.
  - rewrite seq_S, fmap_app. done.
  - done.
Qed.

(** ** The dead letter branch *)

Abbreviation max_retries_log := (EvLog "ERROR" "Max retries exceeded. Attempting move to DLQ.").

Inductive dlq_outcome c ctx r w : run World msg_event (option error) → Prop :=
| dlq_halts :
    cons_dlqProducer c = None → StrictMode (cons_cfg c) = true →
    dlq_outcome c ctx r w (mkRun w [max_retries_log] (Panic strict_panic_msg))
| dlq_drops msg :
    cons_dlqProducer c = None → StrictMode (cons_cfg c) = false →
    dlq_outcome c ctx r w (mkRun w [max_retries_log; EvLog "ERROR" msg] (Ret None))
| dlq_published w' t :
    Forall producer_event t →
    dlq_outcome c ctx r w
      (mkRun w' (max_retries_log :: t ++ [EvPublish (DLQTopic (cons_cfg c)) (rec_key r) (rec_value r) None])
         (Ret None))
| dlq_fatal w' t e msg :
    Forall producer_event t → StrictMode (cons_cfg c) = true →
    dlq_outcome c ctx r w
      (mkRun w' (max_retries_log :: t ++ [EvPublish (DLQTopic (cons_cfg c)) (rec_key r) (rec_value r) (Some e)])
         (Ret (Some (errors_New msg))))
| dlq_gives_up w' t e msg :
    Forall producer_event t → StrictMode (cons_cfg c) = false →
    dlq_outcome c ctx r w
      (mkRun w' (max_retries_log :: t ++
                   [EvPublish (DLQTopic (cons_cfg c)) (rec_key r) (rec_value r) (Some e); EvLog "ERROR" msg])
         (Ret None)).

Lemma move_to_dlq_outcome c ctx r err w :
  dlq_ok c → dlq_outcome c ctx r w (move_to_dlq c ctx r err w).
Proof.
  unfold dlq_ok, move_to_dlq. intros Hok. go_unfold.
  destruct (cons_dlqProducer c) as [d|] eqn:Hd.
  - pose proof (dlq_quiet (DLQLawful := Hok) ctx (DLQTopic (cons_cfg c)) (rec_key r) (rec_value r) w) as Hq.
    destruct (dlq_returns (DLQLawful := Hok) ctx (DLQTopic (cons_cfg c)) (rec_key r) (rec_value r) w)
      as [res Hres].
    destruct (dlq_Publish d ctx _ _ _ w) as [w' t o]; cbn in *; subst.
    destruct res as [e|]; cbn; [|by constructor].
    destruct (StrictMode (cons_cfg c)) eqn:Hs; cbn; by constructor.
  - destruct (StrictMode (cons_cfg c)) eqn:Hs; by constructor.
Qed.

(** ** How [processWithRetry] ends *)

(** A run that ends is some failed attempts followed by a last round. *)
Lemma processWithRetry_inv fuel c ctx r w :
  (∃ t vars w', rounds (retry_body c ctx r) fuel (0%Z, InitialBackoff (cons_cfg c)) w t vars w'
     ∧ processWithRetry fuel c ctx r w = mkRun w' t Running)
  ∨ ∃ n t w1 ρ o,
      (n < fuel)%nat
      ∧ rounds (retry_body c ctx r) n (0%Z, InitialBackoff (cons_cfg c)) w t
          (wrap64 (Z.of_nat n), backoff_iter c n (InitialBackoff (cons_cfg c))) w1
      ∧ retry_round c ctx r (wrap64 (Z.of_nat n))
          (backoff_iter c n (InitialBackoff (cons_cfg c))) w1 ρ
      ∧ leaves (out ρ) = Some o
      ∧ processWithRetry fuel c ctx r w = mkRun (post ρ) (t ++ trace ρ) o.
Proof.
  unfold processWithRetry.
  destruct (for_loop_inv (retry_body c ctx r) fuel (0%Z, InitialBackoff (cons_cfg c)) w)
    as [(t & vars & w' & Hr & Heq)|(n & t & [a b] & w1 & o & Hn & Hr & Ho & Heq)].
  - left. eauto.
  - right. pose proof Hr as Hr'.
    apply retry_rounds in Hr' as (-> & -> & _); [|int64_lia].
    exists n, t, w1, (retry_body c ctx r
      (wrap64 (Z.of_nat n), backoff_iter c n (InitialBackoff (cons_cfg c))) w1), o.
    rewrite Z.add_0_l in *. repeat split; auto using retry_body_round.
Qed.

(** The limit is reached exactly at attempt number [MaxRetries]. *)
Lemma exhausted_spec c n :
  is_int64 (MaxRetries (cons_cfg c)) →
  (n < Z.to_nat (MaxRetries (cons_cfg c)))%nat →
  exhausted c (wrap64 (Z.of_nat n)) = true ↔ S n = Z.to_nat (MaxRetries (cons_cfg c)).
Proof.
  intros Hm Hn. unfold exhausted. rewrite wrap64_add, wrap64_id by int64_lia.
  rewrite andb_true_iff, Z.ltb_lt, Z.leb_le. lia.
Qed.

Lemma exhausted_unlimited c a : (MaxRetries (cons_cfg c) ≤ 0)%Z → exhausted c a = false.
Proof. intros. unfold exhausted. apply andb_false_iff. left. by apply Z.ltb_ge. Qed.

(** No more than [MaxRetries - 1] rounds go on. *)
Lemma rounds_bounded c ctx r n b w t vars w' :
  is_int64 (MaxRetries (cons_cfg c)) → (0 < MaxRetries (cons_cfg c))%Z →
  rounds (retry_body c ctx r) n (0%Z, b) w t vars w' →
  (n < Z.to_nat (MaxRetries (cons_cfg c)))%nat.
Proof.
  intros Hi Hm. revert t vars w'. induction n as [|n IH]; intros t vars w' Hr; [lia|].
  apply rounds_snoc_inv in Hr as (t' & t1 & [a1 b1] & w1 & -> & Hr & Hb).
  destruct vars as [a2 b2]. pose proof (IH _ _ _ Hr) as Hlt.
  apply retry_rounds in Hr as (-> & _); [|int64_lia].
  apply retry_body_continue in Hb as (_ & _ & Hx & _).
  rewrite Z.add_0_l in Hx.
  destruct (decide (S n = Z.to_nat (MaxRetries (cons_cfg c)))) as [He|]; [|lia].
  by rewrite (proj2 (exhausted_spec c n Hi Hlt) He) in Hx.
Qed.

Lemma dlq_outcome_views c ctx r w ρ :
  dlq_outcome c ctx r w ρ →
  handler_results (trace ρ) = [] ∧ sleeps (trace ρ) = [] ∧ commits (trace ρ) = []
  ∧ out ρ ≠ Running.
Proof.
  destruct 1 as [| |w' t Hq|w' t e msg Hq|w' t e msg Hq]; try done; cbn;
    destruct (quiet_views t Hq) as (H1 & H2 & H3 & _);
    unfold handler_results, sleeps, commits in *;
    rewrite !omap_app, ?H1, ?H2, ?H3; done.
Qed.

(** The last round calls the handler at most once and sleeps at most once,
    for the current backoff. *)
Lemma retry_round_views c ctx r a b w ρ :
  dlq_ok c → retry_round c ctx r a b w ρ →
  (length (handler_results (trace ρ)) ≤ 1)%nat
  ∧ sleeps (trace ρ) `prefix_of` [b] ∧ commits (trace ρ) = [].
Proof.
  intros Hok. destruct 1 as [| | | |w1 err w2 t2 o2 Hh Hx Hm| |]; cbn;
    try (split; [lia|]; split; [|done]; first [apply prefix_nil|done]).
  pose proof (move_to_dlq_outcome c ctx r err w1 Hok) as Hd. rewrite Hm in Hd.
  destruct (dlq_outcome_views _ _ _ _ _ Hd) as (H1 & H2 & H3 & _). cbn in H1, H2, H3.
  unfold handler_results, sleeps, commits in *. cbn. rewrite H1, H2, H3. cbn.
  split; [lia|]. split; [apply prefix_nil|done].
Qed.

(** What an acknowledgement ([return nil]) of [processWithRetry] means: the
    handler succeeded on its last call, or it failed [MaxRetries] times and then the
    record was published to the dead letter topic or, in permissive mode
    only, dropped. *)
Definition acked_by_handler r (t : list msg_event) : Prop :=
  ∃ t', t = t' ++ [success r].
Definition acked_by_dlq c r (t : list msg_event) : Prop :=
  ∃ t', t = t' ++ [EvPublish (DLQTopic (cons_cfg c)) (rec_key r) (rec_value r) None].
Definition all_attempts_failed c (t : list msg_event) : Prop :=
  (0 < MaxRetries (cons_cfg c))%Z
  ∧ length (handler_results t) = Z.to_nat (MaxRetries (cons_cfg c))
  ∧ Forall is_Some (handler_results t).

(** The trace of a run that ends in the dead letter branch. *)
Lemma exhausted_trace c ctx r n w t w1 err :
  dlq_ok c → is_int64 (MaxRetries (cons_cfg c)) →
  rounds (retry_body c ctx r) n (0%Z, InitialBackoff (cons_cfg c)) w t
    (wrap64 (Z.of_nat n), backoff_iter c n (InitialBackoff (cons_cfg c))) w1 →
  exhausted c (wrap64 (Z.of_nat n)) = true →
  ∀ w2, all_attempts_failed c (t ++ failure r err :: trace (move_to_dlq c ctx r err w2)).
Proof.
  intros Hok Hi Hr Hx w2.
  assert (0 < MaxRetries (cons_cfg c))%Z as Hm.
  { unfold exhausted in Hx. bool_to_prop. done. }
  pose proof (rounds_bounded _ _ _ _ _ _ _ _ _ Hi Hm Hr) as Hn.
  apply retry_rounds in Hr as (_ & _ & Hl & Hf & _); [|int64_lia].
  destruct (dlq_outcome_views c ctx r w2 _ (move_to_dlq_outcome c ctx r err w2 Hok)) as (Hv & _).
  apply exhausted_spec in Hx; [|done..].
  unfold all_attempts_failed. rewrite handler_results_app, length_app, Hl.
  cbn. unfold handler_results in Hv. rewrite Hv. cbn.
  split; [done|]. split; [lia|].
  apply Forall_app; split; [done|]. repeat constructor. eauto.
Qed.

Lemma ack_inv fuel c ctx r w w' t `{!GoRuntimeLaws World} :
  dlq_ok c → is_int64 (MaxRetries (cons_cfg c)) →
  processWithRetry fuel c ctx r w = mkRun w' t (Ret None) →
  acked_by_handler r t
  ∨ all_attempts_failed c t ∧ (acked_by_dlq c r t ∨ StrictMode (cons_cfg c) = false).
Proof.
  intros Hok Hi Heq.
  destruct (processWithRetry_inv fuel c ctx r w)
    as [(? & ? & ? & _ & E)|(n & t1 & w1 & ρ & o & _ & Hr & Hρ & Ho & E)];
    rewrite E in Heq; simplify_eq.
  destruct Hρ as [| | |w2|w2 err w3 t2 o2 Hh Hx Hm|w2 err w3 Hh Hx Hsel|]; simplify_eq/=.
  - left. by eexists.
  - right. pose proof (move_to_dlq_outcome c ctx r err w2 Hok) as Hd.
    pose proof (exhausted_trace c ctx r _ w t1 w1 err Hok Hi Hr Hx w2) as Ht.
    rewrite Hm in Hd, Ht. split; [done|].
    inversion Hd as [| |w4 t3 Hq| |]; subst; simplify_eq/=; auto.
    left. exists (t1 ++ failure r err :: max_retries_log :: t3). by rewrite <- app_assoc.
  - destruct (done_has_err _ _ _ _ Hsel) as [e He]. by rewrite He in *.
Qed.

(** C2: In strict mode processWithRetry acknowledges a record (returns nil) only
    when the last effect is a successful handler call, or the handler failed exactly
    MaxRetries times and the last effect is a successful publish of the record to
    the dead letter topic. *)
Theorem strict_ack_not_lost fuel c ctx r w w' t `{!GoRuntimeLaws World} :
  dlq_ok c → is_int64 (MaxRetries (cons_cfg c)) →
  StrictMode (cons_cfg c) = true →
  processWithRetry fuel c ctx r w = mkRun w' t (Ret None) →
  acked_by_handler r t ∨ all_attempts_failed c t ∧ acked_by_dlq c r t.
Proof.
  intros Hok Hi Hs Heq. destruct (ack_inv _ _ _ _ _ _ _ Hok Hi Heq) as [|[? [|]]]; auto.
  congruence.
Qed.

(** C20: With a positive MaxRetries, a handler that returns and a dead letter
    producer, if there is one, that returns too, processWithRetry calls the handler
    at most MaxRetries times and returns within MaxRetries rounds; only a strict
    consumer without a dead letter producer panics instead, after MaxRetries failed
    attempts. *)
Theorem retries_terminate fuel c ctx r w :
  dlq_ok c → is_int64 (MaxRetries (cons_cfg c)) → (0 < MaxRetries (cons_cfg c))%Z →
  (∀ ctx k v w, ∃ res, (cons_handler c ctx k v w).2 = Ret res) →
  (Z.to_nat (MaxRetries (cons_cfg c)) ≤ fuel)%nat →
  let ρ := processWithRetry fuel c ctx r w in
  ((∃ res, out ρ = Ret res)
   ∨ (out ρ = Panic strict_panic_msg ∧ cons_dlqProducer c = None ∧ StrictMode (cons_cfg c) = true
      ∧ all_attempts_failed c (trace ρ)))
  ∧ (length (handler_results (trace ρ)) ≤ Z.to_nat (MaxRetries (cons_cfg c)))%nat.
Proof.
  intros Hok Hi Hm Hh Hf. cbn zeta.
  destruct (processWithRetry_inv fuel c ctx r w)
    as [(t & vars & w' & Hr & E)|(n & t1 & w1 & ρ & o & _ & Hr & Hρ & Ho & E)]; rewrite E; cbn [trace out post].
  { pose proof (rounds_bounded _ _ _ _ _ _ _ _ _ Hi Hm Hr). lia. }
  pose proof (rounds_bounded _ _ _ _ _ _ _ _ _ Hi Hm Hr) as Hn.
  pose proof (retry_round_views _ _ _ _ _ _ _ Hok Hρ) as (Hv & _).
  pose proof Hr as Hr'. apply retry_rounds in Hr' as (_ & _ & Hl & _); [|int64_lia].
  rewrite handler_results_app, length_app, Hl. split; [|lia].
  destruct Hρ as [|w2 v Hw|w2 Hw| |w2 err w3 t2 o2 _ Hx Hd| |]; simplify_eq/=; eauto.
  1, 2: destruct (Hh ctx (rec_key r) (rec_value r) w1) as [res Hres]; by rewrite Hw in Hres.
  pose proof (exhausted_trace c ctx r _ w t1 w1 err Hok Hi Hr Hx w2) as Hall. rewrite Hd in Hall. cbn in Hall.
  pose proof (move_to_dlq_outcome c ctx r err w2 Hok) as Hout. rewrite Hd in Hout.
  inversion Hout; subst; simplify_eq/=; eauto.
Qed.

(** ** The backoff schedule *)

(** The [i]-th pause: the initial backoff, then its doublings capped by the
    maximum. *)
Definition backoff_at (cfg : ConsumerConfig) (i : nat) : Z :=
  match i with
  | O => InitialBackoff cfg
  | S _ => Z.min (InitialBackoff cfg * 2 ^ Z.of_nat i) (MaxBackoff cfg)
  end.

Lemma next_backoff_min cfg b :
  (0 ≤ b < 2 ^ 62)%Z → next_backoff cfg b = Z.min (b * 2) (MaxBackoff cfg).
Proof.
  intros Hb. unfold next_backoff. rewrite wrap64_id by int64_lia.
  destruct (Z.ltb_spec (MaxBackoff cfg) (b * 2)); lia.
Qed.

Lemma backoff_iter_closed c n :
  (0 ≤ InitialBackoff (cons_cfg c) < 2 ^ 62)%Z → (0 ≤ MaxBackoff (cons_cfg c) < 2 ^ 62)%Z →
  backoff_iter c n (InitialBackoff (cons_cfg c)) = backoff_at (cons_cfg c) n
  ∧ (0 ≤ backoff_at (cons_cfg c) n < 2 ^ 62)%Z.
Proof.
  intros HI HM. induction n as [|n [IH Hr]]; [done|].
  unfold backoff_iter in *. cbn [Nat.iter nat_rect]. 
  change (nat_rect _ _ _ n) with (Nat.iter n (next_backoff (cons_cfg c)) (InitialBackoff (cons_cfg c))).
  rewrite IH, next_backoff_min by done.
  assert (0 < 2 ^ Z.of_nat n)%Z by (apply Z.pow_pos_nonneg; lia).
  cbn [backoff_at]. rewrite Nat2Z.inj_succ, Z.pow_succ_r by lia.
  destruct n as [|n]; cbn [backoff_at] in *; [change (2 ^ Z.of_nat 0)%Z with 1%Z|]; nia.
Qed.

(** C21: The pauses of processWithRetry are InitialBackoff, then InitialBackoff
    times 2^i capped by MaxBackoff, in this order and without 64-bit overflow, as
    long as both settings are below 2^62 nanoseconds. *)
Theorem backoff_schedule fuel c ctx r w :
  dlq_ok c →
  (0 ≤ InitialBackoff (cons_cfg c) < 2 ^ 62)%Z → (0 ≤ MaxBackoff (cons_cfg c) < 2 ^ 62)%Z →
  let pauses := sleeps (trace (processWithRetry fuel c ctx r w)) in
  pauses = backoff_at (cons_cfg c) <$> seq 0 (length pauses).
Proof.
  intros Hok HI HM.
  assert (∀ n, (λ i, backoff_iter c i (InitialBackoff (cons_cfg c))) <$> seq 0 n
               = backoff_at (cons_cfg c) <$> seq 0 n) as Hall.
  { intros n. apply list_fmap_ext. intros i x _. by apply backoff_iter_closed. }
  destruct (processWithRetry_inv fuel c ctx r w)
    as [(t & [a b] & w' & Hr & E)|(n & t1 & w1 & ρ & o & _ & Hr & Hρ & Ho & E)]; rewrite E; cbn [trace out post].
  - apply retry_rounds in Hr as (_ & _ & _ & _ & -> & _); [|int64_lia].
    by rewrite Hall, length_fmap, length_seq.
  - pose proof (retry_round_views _ _ _ _ _ _ _ Hok Hρ) as (_ & Hp & _).
    apply retry_rounds in Hr as (_ & _ & _ & _ & Hs & _); [|int64_lia].
    rewrite sleeps_app, Hs, Hall.
    destruct (sleeps (trace ρ)) as [|x [|y l]].
    + by rewrite app_nil_r, length_fmap, length_seq.
    + apply prefix_cons_inv_1 in Hp as ->.
      rewrite length_app, length_fmap, length_seq. cbn.
      rewrite Nat.add_1_r, seq_S, fmap_app. cbn. f_equal. f_equal.
      by apply backoff_iter_closed.
    + apply prefix_length in Hp. cbn in Hp. lia.
Qed.

(** Without a retry limit a record whose handler keeps failing is never
    acknowledged. *)
Theorem unlimited_retries_never_ack fuel c ctx r w :
  (MaxRetries (cons_cfg c) ≤ 0)%Z →
  (∀ w, ctx_Err ctx w = None) →
  (∀ d w, (select_done_after ctx d w).2 = false) →
  (∀ w, ∃ w' err, cons_handler c ctx (rec_key r) (rec_value r) w = (w', Ret (Some err))) →
  out (processWithRetry fuel c ctx r w) = Running
  ∧ length (handler_results (trace (processWithRetry fuel c ctx r w))) = fuel.
Proof.
  intros Hm Hc Hsel Hh.
  destruct (processWithRetry_inv fuel c ctx r w)
    as [(t & [a b] & w' & Hr & E)|(n & t1 & w1 & ρ & o & _ & Hr & Hρ & Ho & E)]; rewrite E; cbn [trace out post].
  - apply retry_rounds in Hr as (_ & _ & ? & _); [done|int64_lia].
  - exfalso. destruct (Hh w1) as (w2 & err & Hw).
    pose proof (exhausted_unlimited c (wrap64 (Z.of_nat n)) Hm) as Hx.
    destruct Hρ as [e He| | | | |w3 e w4 Hw' _ Hs|]; simplify_eq/=; try congruence.
    specialize (Hsel (backoff_iter c n (InitialBackoff (cons_cfg c))) w3).
    by rewrite Hs in Hsel.
Qed.

End facts.
