(* ===== verification/ConsumerOrder.v ===== *)
(** The delivery contract of the consumer as an abstract machine, and the
    proof that every run of [Start] follows it: records are handled one at a time
    in the order of the poll, an offset is committed only for the record at the head,
    and in strict mode only after the record was handled or quarantined. *)

From S2P Require Import Prelude GoErrors Contextx Kafka Producer Consumer ConsumerFacts.

Open Scope string_scope.
Open Scope list_scope.

#[local] Arguments move_to_dlq : simpl never.
#[local] Arguments retry_body : simpl never.
#[local] Arguments processWithRetry : simpl never.
#[local] Arguments carrier_of : simpl never.

(** ** The abstract machine *)

(** The records of the last poll that are not committed yet, and whether the
    first of them is settled: handled or quarantined. *)
Record delivery : Type := mkDelivery {
  pending : list kgo_record;
  settled : bool;
}.

Definition is_nil_err (res : option error) : bool :=
  match res with None => true | Some _ => false end.

Definition delivery_step (strict : bool) (d : delivery) (e : msg_event) : option delivery :=
  match e with
  | EvPoll fs =>
      match pending d, fetches_Err fs with
      | [], None => Some (mkDelivery (fetches_records fs) false)
      | [], Some _ => Some d
      | _ :: _, _ => None
      end
  | EvHandler k v res | EvPublish _ k v res =>
      match pending d with
      | r :: _ =>
          if bool_decide (rec_key r = k) && bool_decide (rec_value r = v)
          then Some (mkDelivery (pending d) (is_nil_err res)) else None
      | [] => None
      end
  | EvCommit r _ =>
      match pending d with
      | r' :: q =>
          if bool_decide (r = r') && (settled d || negb strict)
          then Some (mkDelivery q false) else None
      | [] => None
      end
  | _ => Some d
  end.

Fixpoint delivery_run (strict : bool) (d : delivery) (t : list msg_event) : option delivery :=
  match t with
  | [] => Some d
  | e :: t => d' ← delivery_step strict d e; delivery_run strict d' t
  end.

Lemma delivery_run_app strict d t1 t2 :
  delivery_run strict d (t1 ++ t2) = d' ← delivery_run strict d t1; delivery_run strict d' t2.
Proof.
  revert d. induction t1 as [|e t1 IH]; intros d; [done|].
  cbn. destruct (delivery_step strict d e); cbn; auto.
Qed.

(** The composition rule, in the form the proofs use. *)
Lemma delivery_run_trans strict d t1 d1 t2 d2 :
  delivery_run strict d t1 = Some d1 → delivery_run strict d1 t2 = Some d2 →
  delivery_run strict d (t1 ++ t2) = Some d2.
Proof. intros H1 H2. by rewrite delivery_run_app, H1. Qed.

(** ** Events about one record *)

Definition about (r : kgo_record) (e : msg_event) : Prop :=
  match e with
  | EvHandler k v _ | EvPublish _ k v _ => k = rec_key r ∧ v = rec_value r
  | EvPoll _ | EvCommit _ _ | EvSpanStart _ _ => False
  | _ => True
  end.

(** How the events about the head record change [settled]. *)
Definition settle_event (b : bool) (e : msg_event) : bool :=
  match e with
  | EvHandler _ _ res | EvPublish _ _ _ res => is_nil_err res
  | _ => b
  end.

Lemma producer_event_about r e : producer_event e → about r e.
Proof. by destruct e. Qed.

Lemma delivery_run_about strict r q b t :
  Forall (about r) t →
  delivery_run strict (mkDelivery (r :: q) b) t
  = Some (mkDelivery (r :: q) (foldl settle_event b t)).
Proof.
  intros Ht. revert b. induction Ht as [|e t He _ IH]; intros b; [done|].
  destruct e; cbn in *; try done; try (apply IH).
  all: destruct He as [-> ->]; rewrite !bool_decide_true by done; cbn; apply IH.
Qed.

Lemma about_no_spans r t : Forall (about r) t → span_parents t = [].
Proof. induction 1 as [|e t He _ IH]; [done|]. destruct e; try done; exact IH. Qed.

Section order.
Context {World client : Type} {KC : KgoClient World client} {RT : GoRuntime World}.
Context {PR : Propagator} {TR : Tracer}.
Implicit Types (c : Consumer World client) (ctx : context) (r : kgo_record) (w : World).

Lemma dlq_outcome_about c ctx r w ρ :
  dlq_outcome c ctx r w ρ → Forall (about r) (trace ρ).
Proof.
  destruct 1 as [| |w' t Hq|w' t e msg Hq|w' t e msg Hq]; cbn; repeat constructor;
    apply Forall_app; (split; [eapply Forall_impl; [exact Hq|apply producer_event_about]|]);
    repeat constructor.
Qed.

Lemma retry_round_about c ctx r a b w ρ :
  dlq_ok c → retry_round c ctx r a b w ρ → Forall (about r) (trace ρ).
Proof.
  intros Hok. destruct 1 as [| | | |w1 err w2 t2 o2 Hh Hx Hm| |]; cbn; repeat constructor.
  pose proof (move_to_dlq_outcome c ctx r err w1 Hok) as Hd. rewrite Hm in Hd.
  by apply dlq_outcome_about in Hd.
Qed.

Lemma retry_rounds_about c ctx r n vars w t vars' w' :
  dlq_ok c → rounds (retry_body c ctx r) n vars w t vars' w' → Forall (about r) t.
Proof.
  intros Hok. induction 1 as [|n [a b] w vars1 w1 t1 t vars' w' Hb _ IH]; [constructor|].
  apply Forall_app; split; [|done].
  pose proof (retry_round_about c ctx r a b w _ Hok (retry_body_round c ctx r a b w)) as H1.
  by rewrite Hb in H1.
Qed.

(** The whole of [processWithRetry] is about its record. *)
Lemma processWithRetry_about fuel c ctx r w :
  dlq_ok c → Forall (about r) (trace (processWithRetry fuel c ctx r w)).
Proof.
  intros Hok.
  destruct (processWithRetry_inv fuel c ctx r w)
    as [(t & [a b] & w' & Hr & E)|(n & t1 & w1 & ρ & o & _ & Hr & Hρ & _ & E)];
    rewrite E; cbn [trace].
  - by eapply retry_rounds_about.
  - apply Forall_app; split; [by eapply retry_rounds_about|by eapply retry_round_about].
Qed.

(** An acknowledged record is settled, or the mode is permissive. *)
Lemma processWithRetry_settles `{!GoRuntimeLaws World} fuel c ctx r w b :
  dlq_ok c → is_int64 (MaxRetries (cons_cfg c)) →
  out (processWithRetry fuel c ctx r w) = Ret None →
  foldl settle_event b (trace (processWithRetry fuel c ctx r w)) = true
  ∨ StrictMode (cons_cfg c) = false.
Proof.
  intros Hok Hi Ho.
  destruct (processWithRetry fuel c ctx r w) as [w' t o] eqn:E. cbn in Ho; subst.
  destruct (ack_inv _ _ _ _ _ _ _ Hok Hi E) as [[t' ->]|[_ [[t' ->]|?]]]; cbn; auto;
    rewrite foldl_snoc; auto.
Qed.

(** ** The records of a poll *)

Lemma process_records_delivery `{!GoRuntimeLaws World} rfuel c ctx records w b :
  dlq_ok c → is_int64 (MaxRetries (cons_cfg c)) →
  let ρ := process_records rfuel c ctx records w in
  ∃ d, delivery_run (StrictMode (cons_cfg c)) (mkDelivery records b) (trace ρ) = Some d
    ∧ ∀ ctx', out ρ = Ret (ctx', None) → pending d = [].
Proof.
  intros Hok Hi. revert ctx w b. induction records as [|r rest IH]; intros ctx w b; cbn.
  { eexists; split; [done|]. by intros. }
  set (ctx1 := Extract ctx _). set (ctx2 := tracer_Start _ _ _).
  pose proof (processWithRetry_about rfuel c ctx2 r w Hok) as Ha.
  pose proof (λ b, processWithRetry_settles rfuel c ctx2 r w b Hok Hi) as Hs.
  go_unfold. destruct (processWithRetry rfuel c ctx2 r w) as [w1 t1 o1]. cbn in Ha, Hs.
  destruct o1 as [[err|]|v|]; cbn.
  2: destruct (kgo_CommitRecords (cons_client c) ctx2 r w1) as [w2 cerr] eqn:Hc.
  all: try (eexists; split;
    [eapply delivery_run_trans; [by apply delivery_run_about|done]
    |by intros]).
  all: try (eexists; split; [by apply delivery_run_about|by intros]).
  destruct (IH ctx1 w2 false) as (d & Hd & Hp).
  exists d. split; [|by destruct cerr; cbn].
  eapply delivery_run_trans; [by apply delivery_run_about|].
  assert (foldl settle_event b t1 || negb (StrictMode (cons_cfg c)) = true) as Hset.
  { destruct (Hs b eq_refl) as [-> | ->]; [done|apply orb_true_r]. }
  destruct cerr; cbn; rewrite bool_decide_true, Hset by done; cbn; exact Hd.
Qed.

(** ** The poll loop *)

Lemma poll_body_delivery `{!GoRuntimeLaws World} rfuel c ctx w b :
  dlq_ok c → is_int64 (MaxRetries (cons_cfg c)) →
  let ρ := poll_body rfuel c ctx w in
  ∃ d, delivery_run (StrictMode (cons_cfg c)) (mkDelivery [] b) (trace ρ) = Some d
    ∧ ∀ ctx', out ρ = Ret (Continue ctx') → pending d = [].
Proof.
  intros Hok Hi. unfold poll_body. go_unfold.
  destruct (kgo_PollFetches (cons_client c) ctx w) as [w1 fs]; cbn.
  destruct (fetches_Err fs) as [err|] eqn:He.
  { destruct (errors_Is err "context.Canceled"); cbn; rewrite ?He; cbn; eauto. }
  destruct (process_records_delivery rfuel c ctx (fetches_records fs) w1 false Hok Hi)
    as (d & Hd & Hp).
  destruct (process_records rfuel c ctx (fetches_records fs) w1) as [w2 t2 [[ctx' [err|]]|v|]];
    cbn in *; rewrite ?He; cbn; rewrite ?app_nil_r;
    (exists d; split; [exact Hd|naive_solver]).
Qed.

Lemma poll_rounds_delivery `{!GoRuntimeLaws World} rfuel c n ctx w t ctx' w' b :
  dlq_ok c → is_int64 (MaxRetries (cons_cfg c)) →
  rounds (poll_body rfuel c) n ctx w t ctx' w' →
  ∃ b', delivery_run (StrictMode (cons_cfg c)) (mkDelivery [] b) t = Some (mkDelivery [] b').
Proof.
  intros Hok Hi Hr. revert b.
  induction Hr as [|n ctx w ctx1 w1 t1 t ctx' w' Hb _ IH]; intros b; [by eexists|].
  destruct (poll_body_delivery rfuel c ctx w b Hok Hi) as ([q b1] & Hd & Hp).
  rewrite Hb in Hd, Hp. cbn in Hp. rewrite (Hp _ eq_refl) in Hd.
  destruct (IH b1) as [b2 Hb2]. exists b2. by eapply delivery_run_trans.
Qed.

Lemma start_delivery `{!GoRuntimeLaws World} rfuel fuel c ctx w :
  dlq_ok c → is_int64 (MaxRetries (cons_cfg c)) →
  is_Some (delivery_run (StrictMode (cons_cfg c)) (mkDelivery [] false)
             (trace (Start rfuel fuel c ctx w))).
Proof.
  intros Hok Hi. unfold Start. go_unfold.
  destruct (for_loop_inv (poll_body rfuel c) fuel ctx w)
    as [(t & ctx' & w' & Hr & ->)|(n & t & ctx' & w' & o & _ & Hr & _ & ->)];
    destruct (poll_rounds_delivery rfuel c _ _ _ _ _ _ false Hok Hi Hr) as [b Hd]; cbn.
  - rewrite Hd. by eexists.
  - destruct (poll_body_delivery rfuel c ctx' w' b Hok Hi) as (d & Hd' & _).
    rewrite (delivery_run_trans _ _ _ _ _ _ Hd Hd'). by eexists.
Qed.

(** C1: Every run of the consumer's Start, whatever the polls, the handler, the
    cancellations and the commit results, is a run of the abstract delivery machine:
    records are handled one at a time in the order of the poll, an offset is
    committed only for the record at the head of the queue, and in strict mode only
    after its handler succeeded or it was published to the dead letter topic. *)
Theorem consumer_refines_delivery `{!GoRuntimeLaws World} rfuel fuel c ctx w :
  dlq_ok c → is_int64 (MaxRetries (cons_cfg c)) →
  is_Some (delivery_run (StrictMode (cons_cfg c)) (mkDelivery [] false)
             (trace (Start rfuel fuel c ctx w))).
Proof. apply start_delivery. Qed.

(** ** The trace context of each record *)

(** The contexts the spans of [records] start from: the context extracted for
    a record is the parent of the extraction for the next one. *)
Fixpoint ctx_chain ctx (records : list kgo_record) : list context :=
  match records with
  | [] => []
  | r :: rest =>
      let ctx' := Extract ctx (carrier_of (rec_headers r)) in
      ctx' :: ctx_chain ctx' rest
  end.

Lemma process_records_spans rfuel c ctx records w :
  dlq_ok c →
  let ρ := process_records rfuel c ctx records w in
  span_parents (trace ρ) `prefix_of` ctx_chain ctx records
  ∧ ∀ ctx', out ρ = Ret (ctx', None) → span_parents (trace ρ) = ctx_chain ctx records.
Proof.
  intros Hok. revert ctx w. induction records as [|r rest IH]; intros ctx w; cbn.
  { split; [done|]. by intros. }
  set (ctx1 := Extract ctx _). set (ctx2 := tracer_Start _ _ _).
  pose proof (about_no_spans _ _ (processWithRetry_about rfuel c ctx2 r w Hok)) as Ha.
  go_unfold. destruct (processWithRetry rfuel c ctx2 r w) as [w1 t1 o1]. cbn in Ha.
  destruct o1 as [[err|]|v|]; cbn.
  2: destruct (kgo_CommitRecords (cons_client c) ctx2 r w1) as [w2 cerr] eqn:Hc.
  2: destruct (IH ctx1 w2) as [IH1 IH2].
  2: destruct cerr; cbn; unfold span_parents in *; rewrite omap_app, Ha; cbn;
     (split; [by apply prefix_cons|]; intros ctx' Ho; by rewrite (IH2 ctx')).
  all: unfold span_parents in *; rewrite ?omap_app, Ha; cbn;
    (split; [apply prefix_cons, prefix_nil|by intros]).
Qed.

(** A record without trace headers is processed under the trace context of the
    record before it. *)
Theorem trace_context_leaks `{!PropagatorLaws} rfuel c ctx pre r1 r2 suf w ctx' :
  dlq_ok c →
  (∀ k, k ∈ Fields → carrier_of (rec_headers r2) !! k = None) →
  let ρ := process_records rfuel c ctx (pre ++ r1 :: r2 :: suf) w in
  out ρ = Ret (ctx', None) →
  ∃ parent,
    span_parents (trace ρ) !! length pre = Some parent
    ∧ span_parents (trace ρ) !! S (length pre) = Some parent
    ∧ ∃ ctx0, parent = Extract ctx0 (carrier_of (rec_headers r1)).
Proof.
  intros Hok Habs ρ Ho.
  destruct (process_records_spans rfuel c ctx (pre ++ r1 :: r2 :: suf) w Hok) as [_ Hs].
  subst ρ. rewrite (Hs _ Ho). clear Hs Ho. revert ctx.
  induction pre as [|r pre IH]; intros ctx; cbn.
  - exists (Extract ctx (carrier_of (rec_headers r1))).
    split; [done|]. split; [|eauto]. f_equal. by apply extract_absent.
  - apply IH.
Qed.

(** The span of the first record starts from the context of its own headers. *)
Lemma process_records_first_span rfuel c ctx r rest w :
  head (span_parents (trace (process_records rfuel c ctx (r :: rest) w)))
  = Some (Extract ctx (carrier_of (rec_headers r))).
Proof.
  cbn. set (ctx2 := tracer_Start _ _ _).
  go_unfold. destruct (processWithRetry rfuel c ctx2 r w) as [w1 t1 [[err|]|v|]]; done.
Qed.

(** The trace context Publish puts into a record's headers is the one the consumer
    extracts from the record, whatever the order in which the carrier's entries are
    visited. *)
Theorem propagation_roundtrip {MR : MapRange} rfuel c ctx rest w pctx topic key payload partition offset :
  let sent := publish_record pctx topic key payload in
  let received :=
    mkRecord (rec_topic sent) (rec_key sent) (rec_value sent) (rec_headers sent) partition offset in
  head (span_parents (trace (process_records rfuel c ctx (received :: rest) w)))
  = Some (Extract ctx (Inject pctx ∅)).
Proof. cbn zeta. rewrite process_records_first_span. cbn. by rewrite carrier_of_range. Qed.

End order.
