(* ===== verification/GroupDelivery.v ===== *)
(** The consumer of [Consumer.v] in its consumer group: sessions that start from
    the committed offsets of the partitions, end anywhere, and are followed by
    the next one. What is below a committed offset has been handled or quarantined, or
    it came in a poll that reported an error and was skipped. *)

From Stdlib Require Import Sorted.
From S2P Require Import Prelude GoErrors Contextx Kafka Producer Consumer ConsumerFacts ConsumerOrder.

Open Scope string_scope.
Open Scope list_scope.

(** ** Views of a session's trace *)

(** The records that the polls returned, those of the polls without an error, and
    those of the polls with one, in their order. *)
Definition returned (t : list msg_event) : list kgo_record :=
  concat (map (λ e, match e with EvPoll fs => fetches_records fs | _ => [] end) t).
Definition polled (t : list msg_event) : list kgo_record :=
  concat (map (λ e,
    match e with
    | EvPoll fs => match fetches_Err fs with None => fetches_records fs | Some _ => [] end
    | _ => []
    end) t).
Definition skipped (t : list msg_event) : list kgo_record :=
  concat (map (λ e,
    match e with
    | EvPoll fs => match fetches_Err fs with None => [] | Some _ => fetches_records fs end
    | _ => []
    end) t).

Lemma returned_split t : polled t `sublist_of` returned t ∧ ∀ r, r ∈ returned t → r ∈ polled t ∨ r ∈ skipped t.
Proof.
  induction t as [|e t [IH1 IH2]]; [by split; [|intros r ?; left]|].
  unfold returned, polled, skipped. cbn. fold (returned t) (polled t) (skipped t). split.
  - destruct e as [| | | |fs| | | | | | |]; try done. destruct (fetches_Err fs).
    + by apply sublist_inserts_l.
    + by apply sublist_app.
  - intros r. rewrite !elem_of_app. intros [Hr|Hr]; [|destruct (IH2 r Hr); tauto].
    destruct e as [| | | |fs| | | | | | |]; try by apply not_elem_of_nil in Hr. destruct (fetches_Err fs); tauto.
Qed.

Definition commits (t : list msg_event) : list kgo_record :=
  omap (λ e, match e with EvCommit r _ => Some r | _ => None end) t.

(** The records at the head of the queue when a handler succeeded or the dead letter
    topic accepted them. *)
Definition settles_now (d : delivery) (e : msg_event) : list kgo_record :=
  match e, pending d with
  | EvHandler _ _ None, r :: _ | EvPublish _ _ _ None, r :: _ => [r]
  | _, _ => []
  end.

Fixpoint settles (strict : bool) (d : delivery) (t : list msg_event) : list kgo_record :=
  match t with
  | [] => []
  | e :: t =>
      match delivery_step strict d e with
      | Some d' => settles_now d e ++ settles strict d' t
      | None => []
      end
  end.

(** Nothing is lost between the polls and the commits, and the order is kept. *)
Lemma delivery_accounts strict d t d' :
  delivery_run strict d t = Some d' → pending d ++ polled t = commits t ++ pending d'.
Proof.
  revert d. induction t as [|e t IH]; intros d; cbn; [intros [= ->]; by rewrite app_nil_r|].
  destruct (delivery_step strict d e) as [d1|] eqn:E; cbn; [|done]. intros Hr. specialize (IH d1 Hr).
  destruct e as [k v r|n|tp k v r|r|fs|r res|nm par|err| |ok| |lv msg]; cbn in *;
    try (by simplify_eq);
    try (by destruct (pending d) as [|r' q] eqn:Hp; [|destruct (_ && _)]; simplify_eq/=; rewrite <- ?Hp).
  - destruct (pending d) as [|r' q] eqn:Hp; [|done]. unfold polled in *. cbn.
    destruct (fetches_Err fs); simplify_eq/=; [by rewrite Hp in IH|done].
  - destruct (pending d) as [|r' q]; [done|]. destruct (bool_decide (r = r')) eqn:Er; [|done].
    apply bool_decide_eq_true in Er. destruct (_ || _); simplify_eq/=. f_equal. exact IH.
Qed.

(** In strict mode a record is committed after it was settled. *)
Lemma delivery_settles d t d' :
  delivery_run true d t = Some d' →
  ∀ r, r ∈ commits t → r ∈ settles true d t ∨ (settled d = true ∧ head (pending d) = Some r).
Proof.
  revert d. induction t as [|e t IH]; intros d; cbn; [intros _ r Hr; by apply not_elem_of_nil in Hr|].
  destruct (delivery_step true d e) as [d1|] eqn:E; cbn; [|done]. intros Hr r Hin. specialize (IH d1 Hr r).
  rewrite elem_of_app.
  destruct e as [k v res|n|tp k v res|r1|fs|r1 res|nm par|err| |ok| |lv msg]; cbn in *;
    try (simplify_eq; tauto).
  - destruct (pending d) as [|r' q] eqn:Hp; [done|]. destruct (_ && _); simplify_eq/=.
    destruct (IH Hin) as [?|[Hs ?]]; [tauto|]. destruct res; [done|]. simplify_eq/=. left; left. by left.
  - destruct (pending d) as [|r' q] eqn:Hp; [done|]. destruct (_ && _); simplify_eq/=.
    destruct (IH Hin) as [?|[Hs ?]]; [tauto|]. destruct res; [done|]. simplify_eq/=. left; left. by left.
  - destruct (pending d) as [|r' q] eqn:Hp; [|done]. destruct (fetches_Err fs); simplify_eq/=;
      destruct (IH Hin) as [?|[Hset Hhd]]; try tauto; [by rewrite Hp in Hhd|done].
  - destruct (pending d) as [|r' q] eqn:Hp; [done|]. destruct (bool_decide (r1 = r')) eqn:Er; [|done].
    apply bool_decide_eq_true in Er. destruct (settled d) eqn:Es; simplify_eq/=.
    apply elem_of_cons in Hin as [->|Hin]; [by right|]. destruct (IH Hin) as [?|[? _]]; [tauto|done].
Qed.

(** ** The group *)

(** A partition of a topic, and the offset the group has committed for it. *)
Definition part (r : kgo_record) : string * Z := (rec_topic r, rec_partition r).
Abbreviation group := (gmap (string * Z) Z).
Definition position (g : group) (p : string * Z) : Z := default 0%Z (g !! p).

(** A commit of a record that the broker accepted moves its partition behind the
    record. *)
Definition apply_commit (g : group) (e : msg_event) : group :=
  match e with EvCommit r None => <[part r := (rec_offset r + 1)%Z]> g | _ => g end.
Definition group_after (g : group) (t : list msg_event) : group := foldl apply_commit g t.

(** The records of each partition in the order of their offsets, which need not
    be consecutive. *)
Definition broker_log := (string * Z) → list kgo_record.
Definition well_formed (log : broker_log) : Prop :=
  ∀ p, StronglySorted (λ r1 r2, (rec_offset r1 < rec_offset r2)%Z) (log p) ∧ Forall (λ r, part r = p) (log p).

(** The records of partition [p] from offset [o] on. *)
Definition from_offset (o : Z) (l : list kgo_record) : list kgo_record :=
  filter (λ r, (o ≤ rec_offset r)%Z) l.

(** What a consuming client does: its polls, whether they report an error or not,
    return the records of each partition from the committed offset on, in their order,
    as far as it gets. *)
Definition consumes (log : broker_log) (g : group) (t : list msg_event) : Prop :=
  ∀ p, filter (λ r, part r = p) (returned t) `prefix_of` from_offset (position g p) (log p).

Lemma filter_prefix {A} (P : A → Prop) `{!∀ x, Decision (P x)} (l1 l2 : list A) :
  l1 `prefix_of` l2 → filter P l1 `prefix_of` filter P l2.
Proof. intros [k ->]. rewrite filter_app. by apply prefix_app_r. Qed.

Abbreviation by_offset := (StronglySorted (λ r1 r2, (rec_offset r1 < rec_offset r2)%Z)).

Lemma sorted_suffix l1 l2 : by_offset (l1 ++ l2) → by_offset l2.
Proof. induction l1 as [|r l1 IH]; cbn; [done|]. inversion 1. auto. Qed.

(** A prefix of a sorted list has every element below one of its own. *)
Lemma sorted_prefix_below (l c : list kgo_record) r r' :
  by_offset l →
  c `prefix_of` l → r ∈ c → r' ∈ l → (rec_offset r' ≤ rec_offset r)%Z → r' ∈ c.
Proof.
  intros Hs [k ->] Hr Hr' Hle. apply elem_of_app in Hr' as [?|Hk]; [done|]. exfalso.
  apply list_elem_of_split in Hr as (c1 & c2 & ->). rewrite <- app_assoc in Hs. cbn in Hs.
  apply sorted_suffix in Hs. inversion Hs as [|? ? _ Hall]; subst.
  rewrite Forall_forall in Hall. specialize (Hall r'). rewrite elem_of_app in Hall. specialize (Hall (or_intror Hk)). lia.
Qed.

Lemma sorted_filter (P : kgo_record → Prop) `{!∀ x, Decision (P x)} l :
  by_offset l →
  by_offset (filter P l).
Proof.
  induction 1 as [|r l Hs IH Hall]; [constructor|]. rewrite filter_cons. destruct (decide (P r)); [|done].
  constructor; [done|]. rewrite Forall_forall in *. intros r' [_ Hr']%list_elem_of_filter. by apply Hall.
Qed.

(** The position of a partition after a session is the one before or the one
    behind a committed record. *)
Lemma position_after g t p :
  position (group_after g t) p = position g p
  ∨ ∃ r, r ∈ commits t ∧ part r = p ∧ position (group_after g t) p = (rec_offset r + 1)%Z.
Proof.
  revert g. induction t as [|e t IH] using rev_ind; intros g; [by left|].
  unfold group_after, commits. rewrite foldl_app, omap_app. cbn.
  change (foldl apply_commit g t) with (group_after g t).
  assert (∀ r, r ∈ commits t → r ∈ commits t ++ omap (λ e, match e with EvCommit r _ => Some r | _ => None end) [e]) as Hin
    by (intros; rewrite elem_of_app; by left).
  destruct (decide (position (apply_commit (group_after g t) e) p = position (group_after g t) p)) as [->|Hne].
  - destruct (IH g) as [H|(r & Hr & Hp & H)]; [by left|]. right. exists r. split_and!; [by apply Hin|done|done].
  - destruct e as [| | | | |r [err|]| | | | | |]; try done. right. exists r. cbn in *.
    unfold position in *. destruct (decide (part r = p)) as [<-|Hp].
    + rewrite lookup_insert_eq. cbn. rewrite elem_of_app. split_and!; [right; by left|done|done].
    + by rewrite lookup_insert_ne in Hne.
Qed.

Lemma sublist_elem (l1 l2 : list kgo_record) r : l1 `sublist_of` l2 → r ∈ l1 → r ∈ l2.
Proof. induction 1; rewrite ?elem_of_cons; tauto. Qed.

Lemma sublist_sorted (l1 l2 : list kgo_record) : l1 `sublist_of` l2 → by_offset l2 → by_offset l1.
Proof.
  induction 1 as [|r l1 l2 Hsub IH|r l1 l2 Hsub IH]; inversion 1 as [|? ? Hs Hall]; subst; auto; [].
  constructor; [by apply IH|]. rewrite Forall_forall in *. intros r' Hr'. apply Hall. by eapply sublist_elem.
Qed.

Lemma sublist_filter (P : kgo_record → Prop) `{!∀ x, Decision (P x)} (l1 l2 : list kgo_record) :
  l1 `sublist_of` l2 → filter P l1 `sublist_of` filter P l2.
Proof.
  induction 1 as [|r l1 l2 Hsub IH|r l1 l2 Hsub IH]; [done|rewrite !filter_cons..]; destruct (decide (P r));
    try done; by constructor.
Qed.

(** One session of a strict consumer. *)
Lemma session_settles log g t d :
  well_formed log → consumes log g t → delivery_run true (mkDelivery [] false) t = Some d →
  ∀ p, (position g p ≤ position (group_after g t) p)%Z
    ∧ ∀ r, r ∈ log p → (position g p ≤ rec_offset r < position (group_after g t) p)%Z →
        r ∈ settles true (mkDelivery [] false) t ∨ r ∈ skipped t.
Proof.
  intros Hlog Hc Hrun p. destruct (Hlog p) as [Hs Hpart].
  pose proof (delivery_accounts _ _ _ _ Hrun) as Hacc. cbn in Hacc.
  set (L := from_offset (position g p) (log p)) in *. pose proof (Hc p) as Hret. fold L in Hret.
  assert (by_offset L) as HL by by apply sorted_filter.
  destruct (returned_split t) as [Hsub Hsplit].
  assert (filter (λ r, part r = p) (commits t) `prefix_of` filter (λ r, part r = p) (polled t)) as Hpre.
  { apply filter_prefix. rewrite Hacc. by apply prefix_app_r. }
  assert (by_offset (filter (λ r, part r = p) (polled t))) as Hpol.
  { eapply sublist_sorted; [by apply sublist_filter|]. destruct Hret as [k Hk]. rewrite Hk in HL.
    eapply sublist_sorted; [|exact HL]. by apply sublist_inserts_r. }
  destruct (position_after g t p) as [->|(rc & Hrc & Hp & ->)]; [split; [done|intros; lia]|].
  assert (rc ∈ filter (λ r, part r = p) (commits t)) as Hin by (by apply list_elem_of_filter).
  assert (rc ∈ filter (λ r, part r = p) (returned t)) as Hinr.
  { eapply sublist_elem; [by apply sublist_filter|]. destruct Hpre as [k ->]. rewrite elem_of_app. by left. }
  assert (rc ∈ L) as [Hge _]%list_elem_of_filter.
  { destruct Hret as [k Hk]. rewrite Hk, elem_of_app. by left. }
  split; [lia|]. intros r Hr Hb.
  assert (r ∈ filter (λ r, part r = p) (returned t)) as [Hpr Hrr]%list_elem_of_filter.
  { eapply (sorted_prefix_below L); [done|exact Hret|exact Hinr| |lia]. apply list_elem_of_filter. by split; [lia|]. }
  destruct (Hsplit r Hrr) as [Hrp|]; [left|by right].
  assert (r ∈ filter (λ r, part r = p) (commits t)) as [_ Hrt]%list_elem_of_filter.
  { eapply sorted_prefix_below; [exact Hpol|exact Hpre|exact Hin| |lia]. by apply list_elem_of_filter. }
  by destruct (delivery_settles _ _ _ Hrun r Hrt) as [?|[? _]].
Qed.

(** A settled record was handled, or published to the dead letter topic. *)
Definition settling (r : kgo_record) (t : list msg_event) : Prop :=
  EvHandler (rec_key r) (rec_value r) None ∈ t ∨ ∃ tp, EvPublish tp (rec_key r) (rec_value r) None ∈ t.

Lemma settles_settling strict d t r : r ∈ settles strict d t → settling r t.
Proof.
  revert d. induction t as [|e t IH]; intros d; cbn; [by intros ?%not_elem_of_nil|].
  destruct (delivery_step strict d e) as [d1|] eqn:E; [|by intros ?%not_elem_of_nil].
  rewrite elem_of_app. intros [Hn|Ht].
  - unfold settles_now in Hn. destruct e as [k v [|]| |tp k v [|]| | | | | | | | |]; try by apply not_elem_of_nil in Hn.
    all: cbn in E; destruct (pending d) as [|r' q]; [done|]; apply list_elem_of_singleton in Hn as ->;
      destruct (bool_decide (rec_key r' = k)) eqn:Hk, (bool_decide (rec_value r' = v)) eqn:Hv; try done;
      apply bool_decide_eq_true in Hk as <-, Hv as <-.
    + left. by left.
    + right. exists tp. by left.
  - destruct (IH d1 Ht) as [?|[tp ?]]; [left; by right|right; exists tp; by right].
Qed.

(** ** Sessions *)

Section sessions.
Context {World client : Type} {KC : KgoClient World client} {RT : GoRuntime World}.
Context {PR : Propagator} {TR : Tracer}.

(** What a strict consumer has done when it stops or is killed: a part of a run of
    [Start], with a handler, a world and a fuel of its own. *)
Definition session_trace (t : list msg_event) : Prop :=
  ∃ (c : Consumer World client) rfuel fuel ctx w,
    StrictMode (cons_cfg c) = true ∧ dlq_ok c ∧ is_int64 (MaxRetries (cons_cfg c))
    ∧ t `prefix_of` trace (Start rfuel fuel c ctx w).

(** Sessions one after the other: each consumes from the offsets the earlier
    ones have committed. *)
Inductive sessions (log : broker_log) : group → list (list msg_event) → Prop :=
| sessions_nil g : sessions log g []
| sessions_cons g t ts :
    session_trace t → consumes log g t → sessions log (group_after g t) ts → sessions log g (t :: ts).

Lemma session_run `{!GoRuntimeLaws World} t :
  session_trace t → ∃ d, delivery_run true (mkDelivery [] false) t = Some d.
Proof.
  intros (c & rfuel & fuel & ctx & w & Hst & Hok & Hi & [t' Ht]).
  pose proof (start_delivery rfuel fuel c ctx w Hok Hi) as [d Hd]. rewrite Hst, Ht, delivery_run_app in Hd.
  destruct (delivery_run true (mkDelivery [] false) t) as [d1|]; [by exists d1|done].
Qed.

(** C9: Over any sequence of sessions of a consumer group in strict mode (runs of
    Start that are cut off anywhere and resume from the committed offset), every
    record the group's offset has passed was settled in one of the sessions (its
    handler succeeded, or it was published to the dead letter topic), or it came in
    a poll that also reported an error, whose records Start skips. *)
Theorem at_least_once `{!GoRuntimeLaws World} log g ts p r :
  well_formed log → sessions log g ts → r ∈ log p →
  (position g p ≤ rec_offset r < position (foldl group_after g ts) p)%Z →
  ∃ t, t ∈ ts ∧ ((r ∈ settles true (mkDelivery [] false) t ∧ settling r t) ∨ r ∈ skipped t).
Proof.
  intros Hlog Hs Hr. induction Hs as [g|g t ts Ht Hc Hs IH]; cbn; [lia|]. intros Hb.
  destruct (session_run t Ht) as [d Hd]. destruct (session_settles log g t d Hlog Hc Hd p) as [Hle Hset].
  destruct (Z.lt_ge_cases (rec_offset r) (position (group_after g t) p)) as [Hlt|Hge].
  - exists t. split; [by left|]. destruct (Hset r Hr ltac:(lia)) as [Hrt|Hsk]; [left|by right].
    split; [done|by eapply settles_settling].
  - destruct IH as (t' & Hin & H1); [lia|]. exists t'. split; [by right|done].
Qed.

(** Over any sequence of sessions of a consumer group in strict mode the committed
    offset of a partition never goes back. *)
Theorem committed_offsets_advance `{!GoRuntimeLaws World} log g ts p :
  well_formed log → sessions log g ts → (position g p ≤ position (foldl group_after g ts) p)%Z.
Proof.
  intros Hlog. induction 1 as [g|g t ts Ht Hc _ IH]; cbn; [done|].
  destruct (session_run t Ht) as [d Hd]. destruct (session_settles log g t d Hlog Hc Hd p) as [Hle _]. lia.
Qed.

End sessions.
