(* ===== verification/Manager.v ===== *)
(** [messaging/manager.go]: the consumer manager, its goroutines and its wait
    group, as a step relation over interleavings: a step is one statement of a
    manager method, or one round of the poll loop of one consumer goroutine. *)

From S2P Require Import Prelude GoErrors Contextx Kafka Producer Consumer.

Open Scope string_scope.
Open Scope list_scope.

(** A consumer goroutine: in its poll loop with the current [ctx], or returned
    with the result of [Start], its [wg.Done()] executed. *)
Inductive goroutine (World client : Type) : Type :=
| LoopAt (c : Consumer World client) (ctx : context)
| Exited (res : option error).
Arguments LoopAt {World client}.
Arguments Exited {World client}.

(** Where the call of the manager's [Close] is: not called, about to close the
    [i]-th consumer, in [wg.Wait()], or returned. *)
Inductive close_pc : Type :=
| NotClosing
| ClosingAt (i : nat)
| Waiting
| Returned.

Record ConsumerManager (World client : Type) : Type := mkManager {
  mg_world : World;
  mg_consumers : list (Consumer World client);
  mg_goroutines : list (goroutine World client);
  mg_wg : Z;
  mg_close : close_pc;
  mg_crashed : bool;
}.
Arguments mkManager {World client}.
Arguments mg_world {World client}.
Arguments mg_consumers {World client}.
Arguments mg_goroutines {World client}.
Arguments mg_wg {World client}.
Arguments mg_close {World client}.
Arguments mg_crashed {World client}.

Section manager.
Context {World client : Type} {KC : KgoClient World client} {RT : GoRuntime World}.
Context {PR : Propagator} {TR : Tracer}.
Implicit Types (m : ConsumerManager World client) (c : Consumer World client).

Definition NewConsumerManager (w : World) : ConsumerManager World client :=
  mkManager w [] [] 0 NotClosing false.

Definition Register m c : ConsumerManager World client :=
  mkManager (mg_world m) (mg_consumers m ++ [c]) (mg_goroutines m) (mg_wg m)
    (mg_close m) (mg_crashed m).

(** [Start]: [wg.Add(1)] and one goroutine per registered consumer. *)
Definition Manager_Start m (ctx : context) : ConsumerManager World client :=
  foldl
    (λ m c,
       mkManager (mg_world m) (mg_consumers m) (mg_goroutines m ++ [LoopAt c ctx])
         (mg_wg m + 1) (mg_close m) (mg_crashed m))
    m (mg_consumers m).

(** One round of the poll loop of goroutine [i]. A return runs the deferred
    [wg.Done()]; a panic that nobody recovers ends the process. *)
Definition goroutine_round (rfuel : nat) m (i : nat) c (ctx : context) :
    option (ConsumerManager World client) :=
  let ρ := poll_body rfuel c ctx (mg_world m) in
  match out ρ with
  | Ret (Continue ctx') =>
      Some (mkManager (post ρ) (mg_consumers m) (<[i := LoopAt c ctx']> (mg_goroutines m))
              (mg_wg m) (mg_close m) (mg_crashed m))
  | Ret (Return res) =>
      Some (mkManager (post ρ) (mg_consumers m) (<[i := Exited res]> (mg_goroutines m))
              (mg_wg m - 1) (mg_close m) (mg_crashed m))
  | Panic _ =>
      Some (mkManager (post ρ) (mg_consumers m) (mg_goroutines m) (mg_wg m) (mg_close m) true)
  | Running => None
  end.

Definition set_close m (w : World) (pc : close_pc) : ConsumerManager World client :=
  mkManager w (mg_consumers m) (mg_goroutines m) (mg_wg m) pc (mg_crashed m).

(** The next statement of the manager's [Close]: the range loop over the
    consumers, then [wg.Wait()], which returns once the counter is zero. *)
Definition close_step m : option (ConsumerManager World client) :=
  match mg_close m with
  | NotClosing => Some (set_close m (mg_world m) (ClosingAt 0))
  | ClosingAt i =>
      match mg_consumers m !! i with
      | Some c => Some (set_close m (post (Consumer_Close c (mg_world m))) (ClosingAt (S i)))
      | None => Some (set_close m (mg_world m) Waiting)
      end
  | Waiting =>
      if (mg_wg m =? 0)%Z then Some (set_close m (mg_world m) Returned) else None
  | Returned => None
  end.

Inductive manager_step (rfuel : nat) : relation (ConsumerManager World client) :=
| step_register m c :
    mg_crashed m = false → manager_step rfuel m (Register m c)
| step_start m ctx :
    mg_crashed m = false → manager_step rfuel m (Manager_Start m ctx)
| step_goroutine m i c ctx m' :
    mg_crashed m = false → mg_goroutines m !! i = Some (LoopAt c ctx) →
    goroutine_round rfuel m i c ctx = Some m' → manager_step rfuel m m'
| step_close m m' :
    mg_crashed m = false → close_step m = Some m' → manager_step rfuel m m'.

(** ** The wait group counts the running loops *)

Definition is_looping (g : goroutine World client) : bool :=
  match g with LoopAt _ _ => true | Exited _ => false end.

Definition looping (gs : list (goroutine World client)) : nat := countb is_looping gs.

Definition wg_inv m : Prop := mg_wg m = Z.of_nat (looping (mg_goroutines m)).

Lemma looping_app gs1 gs2 : looping (gs1 ++ gs2) = (looping gs1 + looping gs2)%nat.
Proof. apply countb_app. Qed.

Lemma looping_insert gs i g g' :
  gs !! i = Some g →
  (looping (<[i := g']> gs) + (if is_looping g then 1 else 0)
   = looping gs + (if is_looping g' then 1 else 0))%nat.
Proof. apply countb_insert. Qed.

Lemma looping_zero gs i c ctx : looping gs = 0%nat → gs !! i = Some (LoopAt c ctx) → False.
Proof.
  intros H0 Hi. pose proof (looping_insert gs i _ (Exited None) Hi) as H1. cbn in H1. lia.
Qed.

Lemma Manager_Start_shape m ctx :
  Manager_Start m ctx =
    mkManager (mg_world m) (mg_consumers m)
      (mg_goroutines m ++ ((λ c, LoopAt c ctx) <$> mg_consumers m))
      (mg_wg m + Z.of_nat (length (mg_consumers m))) (mg_close m) (mg_crashed m).
Proof.
  unfold Manager_Start. destruct m as [w cs gs wg pc cr]; cbn.
  generalize cs at 1 3 as cs0. intros cs0.
  enough (∀ l gs wg, foldl (λ m c, mkManager (mg_world m) (mg_consumers m)
      (mg_goroutines m ++ [LoopAt c ctx]) (mg_wg m + 1) (mg_close m) (mg_crashed m))
      (mkManager w cs0 gs wg pc cr) l
    = mkManager w cs0 (gs ++ ((λ c, LoopAt c ctx) <$> l)) (wg + Z.of_nat (length l)) pc cr) as H.
  { apply H. }
  induction l as [|c l IH]; intros gs' wg'; cbn -[Z.of_nat].
  - by rewrite app_nil_r, Z.add_0_r.
  - rewrite IH, <- app_assoc. cbn -[Z.of_nat]. f_equal. lia.
Qed.

Lemma looping_started (cs : list (Consumer World client)) ctx :
  looping ((λ c, LoopAt c ctx) <$> cs) = length cs.
Proof. unfold looping. induction cs as [|c cs IH]; [done|]. cbn. by rewrite countb_cons, IH. Qed.

Lemma wg_inv_step rfuel m m' : wg_inv m → manager_step rfuel m m' → wg_inv m'.
Proof.
  unfold wg_inv. intros Hinv Hstep.
  destruct Hstep as [m c|m ctx|m i c ctx m' _ Hi Hr|m m' _ Hc]; cbn; auto.
  - rewrite Manager_Start_shape; cbn. rewrite looping_app, looping_started. lia.
  - unfold goroutine_round in Hr.
    destruct (out _) as [[ctx'|res]|v|]; simplify_eq/=; auto.
    + pose proof (looping_insert _ _ _ (LoopAt c ctx') Hi) as Hl. cbn in Hl. lia.
    + pose proof (looping_insert _ _ _ (Exited res) Hi) as Hl. cbn in Hl. lia.
  - unfold close_step in Hc.
    destruct (mg_close m) as [|i| |]; [|destruct (mg_consumers m !! i)|destruct (_ =? _)%Z|];
      simplify_eq/=; done.
Qed.

Lemma wg_inv_reachable rfuel w m :
  rtc (manager_step rfuel) (NewConsumerManager w) m → wg_inv m.
Proof.
  intros Hr. remember (NewConsumerManager w) as m0 eqn:E.
  assert (wg_inv m0) as H0 by (subst; done). clear E.
  induction Hr; eauto using wg_inv_step.
Qed.

(** C23: In every reachable state of the consumer manager the wait group counts
    exactly the consumer goroutines that have not finished, and a Close that has
    returned has waited for all of them. *)
Theorem close_waits_for_consumers rfuel w m m' :
  rtc (manager_step rfuel) (NewConsumerManager w) m →
  mg_wg m = Z.of_nat (looping (mg_goroutines m))
  ∧ (close_step m = Some m' → mg_close m' = Returned →
     ∀ g, g ∈ mg_goroutines m' → ∃ res, g = Exited res).
Proof.
  intros Hr%wg_inv_reachable. unfold wg_inv in Hr. split; [done|].
  unfold close_step. intros Hc Hret [c ctx|res] Hg; [|eauto]. exfalso.
  destruct (mg_close m) as [|i| |]; [|destruct (mg_consumers m !! i)| |];
    simplify_eq/=.
  destruct (Z.eqb_spec (mg_wg m) 0); simplify_eq/=.
  apply list_elem_of_lookup in Hg as [i Hi]. eapply looping_zero; [|exact Hi]. lia.
Qed.

End manager.

#[global] Arguments looping : simpl never.

(** ** What stops a consumer *)

(** franz-go's documentation of [Close] and [PollFetches]: a closed client
    stays closed whatever the clients do, and polling it gives a fake fetch with
    [ErrClientClosed]. *)
Class KgoCloseLaws {World client : Type} {KC : KgoClient World client} {RT : GoRuntime World}
    (client_closed : client → World → Prop) : Prop := {
  close_closes cl w : client_closed cl (kgo_Close cl w);
  closed_poll cl ctx w :
    client_closed cl w → ctx_Err ctx w = None →
    fetches_Err (kgo_PollFetches cl ctx w).2 = Some kgo_ErrClientClosed;
  closed_after_close cl cl' w : client_closed cl w → client_closed cl (kgo_Close cl' w);
  closed_after_poll cl cl' ctx w :
    client_closed cl w → client_closed cl (kgo_PollFetches cl' ctx w).1;
  closed_after_commit cl cl' ctx r w :
    client_closed cl w → client_closed cl (kgo_CommitRecords cl' ctx r w).1;
  closed_after_select cl ctx d w :
    client_closed cl w → client_closed cl (select_done_after ctx d w).1;
}.

Section stopping.
Context {World client : Type} {KC : KgoClient World client} {RT : GoRuntime World}.
Context {PR : Propagator} {TR : Tracer}.
Implicit Types (m : ConsumerManager World client) (c : Consumer World client).

(** A failed poll that is no cancellation only starts the next round. *)
Lemma poll_body_error rfuel c ctx w err :
  fetches_Err (kgo_PollFetches (cons_client c) ctx w).2 = Some err →
  out (poll_body rfuel c ctx w)
  = Ret (if errors_Is err "context.Canceled" then Return None else Continue ctx)
  ∧ post (poll_body rfuel c ctx w) = (kgo_PollFetches (cons_client c) ctx w).1.
Proof.
  intros He. unfold poll_body. go_unfold.
  destruct (kgo_PollFetches (cons_client c) ctx w) as [w1 fs]; cbn in *. rewrite He.
  by destruct (errors_Is err "context.Canceled").
Qed.

Section closed.
Context (client_closed : client → World → Prop) `{!KgoCloseLaws client_closed}.
Hypothesis never_cancelled : ∀ ctx (w : World), ctx_Err ctx w = None.

(** Neither the handler nor the dead letter producer reopens a closed
    client. *)
Definition keeps_closed c : Prop :=
  ∀ cl, (∀ ctx k v w, client_closed cl w → client_closed cl (cons_handler c ctx k v w).1)
    ∧ (∀ d ctx topic k v, cons_dlqProducer c = Some d →
         preserves (client_closed cl) (dlq_Publish d ctx topic k v)).

Ltac keeps :=
  repeat first
    [ solve [eauto with golib]
    | apply preserves_lift; intros ??;
      solve [by apply closed_after_poll | by apply closed_after_commit | by apply closed_after_select]
    | apply preserves_bind
    | match goal with |- ∀ _, preserves _ _ => intros ? end
    | case_match ].

Lemma call_handler_keeps c cl ctx r :
  keeps_closed c → preserves (client_closed cl) (call_handler c ctx r).
Proof.
  intros Hk w Hw. unfold call_handler.
  pose proof (proj1 (Hk cl) ctx (rec_key r) (rec_value r) w Hw) as H1.
  by destruct (cons_handler c ctx (rec_key r) (rec_value r) w) as [w1 [| |]].
Qed.

Lemma move_to_dlq_keeps c cl ctx r err :
  keeps_closed c → preserves (client_closed cl) (move_to_dlq c ctx r err).
Proof.
  intros Hk. unfold move_to_dlq. destruct (cons_dlqProducer c) as [d|] eqn:Hd.
  - pose proof (proj2 (Hk cl) d ctx (DLQTopic (cons_cfg c)) (rec_key r) (rec_value r) Hd) as H1.
    keeps.
  - destruct (StrictMode (cons_cfg c)); eauto with golib.
Qed.

#[local] Hint Resolve call_handler_keeps move_to_dlq_keeps : golib.

Lemma retry_body_keeps c cl ctx r vars :
  keeps_closed c → preserves (client_closed cl) (retry_body c ctx r vars).
Proof.
  intros Hk. unfold retry_body. destruct vars as [a b].
  keeps.
Qed.

Lemma process_records_keeps rfuel c cl ctx records :
  keeps_closed c → preserves (client_closed cl) (process_records rfuel c ctx records).
Proof.
  intros Hk. revert ctx. induction records as [|r rest IH]; intros ctx; cbn -[Extract].
  { apply preserves_ret. }
  assert (∀ ctx, preserves (client_closed cl) (processWithRetry rfuel c ctx r)).
  { intros ctx'. apply preserves_for_loop. intros. by apply retry_body_keeps. }
  keeps.
Qed.

Lemma poll_body_keeps rfuel c cl ctx :
  keeps_closed c → preserves (client_closed cl) (poll_body rfuel c ctx).
Proof.
  intros Hk. unfold poll_body. pose proof (process_records_keeps rfuel c cl ctx) as Hp.
  keeps.
Qed.

Definition goroutine_keeps (g : goroutine World client) : Prop :=
  match g with LoopAt c _ => keeps_closed c | Exited _ => True end.

(** Goroutine [i] is in the poll loop of [c], whose client is closed, and no
    consumer of the manager reopens clients. *)
Definition looping_closed m (i : nat) c : Prop :=
  (∃ ctx, mg_goroutines m !! i = Some (LoopAt c ctx))
  ∧ client_closed (cons_client c) (mg_world m)
  ∧ Forall keeps_closed (mg_consumers m) ∧ Forall goroutine_keeps (mg_goroutines m).

(** The steps that register no further consumer. *)
Definition quiet_step (rfuel : nat) m m' : Prop :=
  manager_step rfuel m m' ∧ mg_consumers m' = mg_consumers m.

Lemma goroutine_round_closed rfuel m m' i j c c' ctx' :
  looping_closed m i c → mg_goroutines m !! j = Some (LoopAt c' ctx') →
  goroutine_round rfuel m j c' ctx' = Some m' → looping_closed m' i c.
Proof.
  intros ([ctx Hi] & Hcl & Hcs & Hgs) Hj Hr.
  assert (keeps_closed c') as Hk.
  { rewrite Forall_lookup in Hgs. apply (Hgs _ _ Hj). }
  pose proof (poll_body_keeps rfuel c' (cons_client c) ctx' Hk _ Hcl) as Hcl'.
  assert (∀ g, goroutine_keeps g → Forall goroutine_keeps (<[j := g]> (mg_goroutines m))) as Hins.
  { intros g Hg. by apply Forall_insert. }
  unfold goroutine_round in Hr. destruct (decide (j = i)) as [->|Hne].
  - rewrite Hi in Hj; simplify_eq.
    rewrite (proj1 (poll_body_error rfuel c' ctx' (mg_world m) kgo_ErrClientClosed
      (closed_poll _ _ _ Hcl (never_cancelled _ _)))) in Hr.
    simplify_eq/=. split_and!; cbn; [|done|done|by apply Hins].
    exists ctx'. apply list_lookup_insert_eq. by eapply lookup_lt_Some.
  - destruct (out _) as [[ctx1|res]|v|]; simplify_eq/=; split_and!; cbn;
      try done; try by apply Hins.
    all: exists ctx; by rewrite ?list_lookup_insert_ne.
Qed.

Lemma looping_closed_step rfuel m m' i c :
  looping_closed m i c → quiet_step rfuel m m' → looping_closed m' i c.
Proof.
  intros Hlc [Hstep Heq].
  destruct Hstep as [m c'|m ctx'|m j c' ctx' m' _ Hj Hr|m m' _ Hc].
  - exfalso. cbn in Heq. apply (f_equal length) in Heq. rewrite length_app in Heq. cbn in Heq. lia.
  - destruct Hlc as ([ctx Hi] & Hcl & Hcs & Hgs). rewrite Manager_Start_shape.
    split_and!; cbn; [exists ctx; by apply lookup_app_l_Some|done..|].
    apply Forall_app; split; [done|]. by apply Forall_fmap.
  - by eapply goroutine_round_closed.
  - destruct Hlc as ([ctx Hi] & Hcl & Hcs & Hgs). unfold close_step in Hc.
    destruct (mg_close m) as [|k| |]; [|destruct (mg_consumers m !! k)|destruct (_ =? _)%Z|];
      simplify_eq/=; split_and!; cbn; eauto.
    by apply closed_after_close.
Qed.

(** With a loop running, no step makes [Close] return. *)
Lemma close_stays_blocked rfuel m m' i c ctx :
  wg_inv m → mg_close m ≠ Returned → mg_goroutines m !! i = Some (LoopAt c ctx) →
  manager_step rfuel m m' → mg_close m' ≠ Returned.
Proof.
  intros Hwg Hpc Hi Hs.
  destruct Hs as [|m ctx0|m j c' ctx' m1 _ _ Hg|m m1 _ Hc]; cbn; try done.
  - by rewrite Manager_Start_shape.
  - unfold goroutine_round in Hg. destruct (out _) as [[]| |]; by simplify_eq/=.
  - unfold close_step in Hc.
    destruct (mg_close m) as [|k| |]; [|destruct (mg_consumers m !! k)| |]; simplify_eq/=; try done.
    destruct (Z.eqb_spec (mg_wg m) 0) as [H0|]; simplify_eq/=.
    exfalso. eapply looping_zero; [|exact Hi]. unfold wg_inv in Hwg. lia.
Qed.

(** C35: A consumer whose client has been closed and whose context is not cancelled
    goes round its poll loop for ever, so that a Close of the manager that waits for
    it does not return in any continuation. *)
Theorem close_never_returns rfuel m m' i c ctx :
  wg_inv m → mg_close m ≠ Returned →
  mg_goroutines m !! i = Some (LoopAt c ctx) →
  client_closed (cons_client c) (mg_world m) →
  Forall keeps_closed (mg_consumers m) → Forall goroutine_keeps (mg_goroutines m) →
  rtc (quiet_step rfuel) m m' →
  mg_close m' ≠ Returned ∧ ∃ ctx', mg_goroutines m' !! i = Some (LoopAt c ctx').
Proof.
  intros Hwg Hpc Hi Hcl Hcs Hgs Hr.
  assert (looping_closed m i c) as Hlc by (repeat split; eauto). clear Hi Hcl Hcs Hgs.
  induction Hr as [m|m m1 m' Hs Hr IH].
  - by destruct Hlc as (Hl & _).
  - apply IH; [by eapply wg_inv_step, Hs| |by eapply looping_closed_step].
    destruct Hlc as ([ctx0 Hi] & _). destruct Hs as [Hs _]. by eapply close_stays_blocked.
Qed.
End closed.

End stopping.

(** ** Cancelling the context stops every consumer *)

(** A client polled with a cancelled context answers with errors only, until one of
    them is [context.Canceled]. *)
Inductive answers_cancel {World client : Type} {KC : KgoClient World client} (cl : client) (ctx : context) :
    World → Prop :=
| cancel_now w err :
    fetches_Err (kgo_PollFetches cl ctx w).2 = Some err → errors_Is err "context.Canceled" = true →
    answers_cancel cl ctx w
| cancel_later w err :
    fetches_Err (kgo_PollFetches cl ctx w).2 = Some err → errors_Is err "context.Canceled" = false →
    answers_cancel cl ctx (kgo_PollFetches cl ctx w).1 → answers_cancel cl ctx w.

(** [cancelled ctx w]: the context is cancelled in the world. It stays so, and a poll
    waits in a [select] for the client's end and for the context's: with a closed client
    it may answer [ErrClientClosed], but not every time. *)
Class KgoCancelLaws {World client : Type} {KC : KgoClient World client}
    (cancelled : context → World → Prop) : Prop := {
  cancelled_poll cl ctx w : cancelled ctx w → answers_cancel cl ctx w;
  cancelled_after_poll cl ctx ctx' w : cancelled ctx w → cancelled ctx (kgo_PollFetches cl ctx' w).1;
}.

Section cancelling.
Context {World client : Type} {KC : KgoClient World client} {RT : GoRuntime World}.
Context {PR : Propagator} {TR : Tracer}.
Context (cancelled : context → World → Prop) `{!KgoCancelLaws cancelled}.
Implicit Types (m : ConsumerManager World client) (c : Consumer World client).

(** Every consumer that still polls does it with a cancelled context. *)
Definition all_cancelled m : Prop :=
  ∀ i c ctx, mg_goroutines m !! i = Some (LoopAt c ctx) → cancelled ctx (mg_world m).

(** Goroutine [i] leaves its loop, and nothing else happens but polls. *)
Lemma cancelled_goroutine_exits rfuel i c ctx w :
  answers_cancel (cons_client c) ctx w →
  ∀ m, mg_world m = w → mg_crashed m = false → mg_goroutines m !! i = Some (LoopAt c ctx) → all_cancelled m →
  ∃ w', rtc (manager_step rfuel) m
      (mkManager w' (mg_consumers m) (<[i := Exited None]> (mg_goroutines m)) (mg_wg m - 1) (mg_close m) false)
    ∧ ∀ ctx', cancelled ctx' w → cancelled ctx' w'.
Proof.
  induction 1 as [w err He Hc|w err He Hc _ IH]; intros m <- Hcr Hi Hall;
    destruct (poll_body_error rfuel c ctx (mg_world m) err He) as [Ho Hp]; rewrite Hc in Ho.
  - exists (kgo_PollFetches (cons_client c) ctx (mg_world m)).1. split; [|intros ctx'; apply cancelled_after_poll].
    apply rtc_once. eapply step_goroutine; [done|exact Hi|]. unfold goroutine_round. by rewrite Ho, Hp, Hcr.
  - set (w1 := (kgo_PollFetches (cons_client c) ctx (mg_world m)).1) in *.
    pose (m1 := mkManager w1 (mg_consumers m) (mg_goroutines m) (mg_wg m) (mg_close m) (mg_crashed m)).
    destruct (IH m1 eq_refl Hcr Hi) as (w' & Hr & Hk).
    { intros j c' ctx' Hj. by eapply cancelled_after_poll, Hall. }
    exists w'. split; [|intros ctx' H; by apply Hk, cancelled_after_poll].
    eapply rtc_l; [|exact Hr]. eapply step_goroutine; [done|exact Hi|].
    unfold goroutine_round. rewrite Ho, Hp. by rewrite list_insert_id.
Qed.

Lemma looping_none gs : ¬ Exists (λ g : goroutine World client, is_looping g = true) gs → looping gs = 0%nat.
Proof.
  intros Hno. induction gs as [|g gs IH]; [done|].
  rewrite Exists_cons in Hno. unfold looping in *. rewrite countb_cons.
  destruct (is_looping g) eqn:E; [tauto|]. apply IH. tauto.
Qed.

Lemma cancelled_goroutines_exit rfuel n : ∀ m,
  n = looping (mg_goroutines m) → mg_crashed m = false → all_cancelled m →
  ∃ m', rtc (manager_step rfuel) m m' ∧ looping (mg_goroutines m') = 0%nat
    ∧ mg_crashed m' = false ∧ mg_close m' = mg_close m
    ∧ (mg_wg m' = mg_wg m - Z.of_nat n)%Z.
Proof.
  induction n as [|n IH]; intros m En Hcr Hall; [exists m; by rewrite Z.sub_0_r|].
  destruct (decide (Exists (λ g, is_looping g = true) (mg_goroutines m))) as [Hex|Hno];
    [|apply looping_none in Hno; lia].
  apply Exists_exists in Hex as ([c ctx|] & Hin & Hl); [|done].
  apply list_elem_of_lookup in Hin as [i Hi].
  destruct (cancelled_goroutine_exits rfuel i c ctx (mg_world m) (cancelled_poll _ _ _ (Hall _ _ _ Hi))
    m eq_refl Hcr Hi Hall) as (w' & Hr & Hk).
  pose proof (looping_insert _ _ _ (Exited None) Hi) as Hlen. cbn in Hlen.
  destruct (IH (mkManager w' (mg_consumers m) (<[i := Exited None]> (mg_goroutines m)) (mg_wg m - 1) (mg_close m) false))
    as (m' & Hr' & H1 & H2 & H3 & H4); [cbn; lia|done| |].
  - intros j c' ctx' Hj. cbn in *. apply Hk. apply list_lookup_insert_Some in Hj as [(? & ? & ?)|[_ Hj]]; [done|].
    by eapply Hall.
  - exists m'. cbn in *. split_and!; [by etrans|done..|lia].
Qed.

(** C24: A manager whose Close is waiting while the contexts of the consumers still
    polling are cancelled has a continuation in which every consumer goroutine ends
    and Close returns, also when polls of the closed clients answer ErrClientClosed
    some times before they answer context.Canceled. *)
Theorem cancel_lets_close_return rfuel m :
  wg_inv m → mg_crashed m = false → mg_close m = Waiting → all_cancelled m →
  ∃ m', rtc (manager_step rfuel) m m' ∧ mg_close m' = Returned
    ∧ ∀ g, g ∈ mg_goroutines m' → ∃ res, g = Exited res.
Proof.
  intros Hwg Hcr Hpc Hall.
  destruct (cancelled_goroutines_exit rfuel _ m eq_refl Hcr Hall) as (m1 & Hr1 & Hl & Hcr1 & Hpc1 & Hwg1).
  exists (set_close m1 (mg_world m1) Returned). split; [|split; [done|]].
  - eapply rtc_r; [exact Hr1|]. apply step_close; [done|].
    unfold close_step. rewrite Hpc1, Hpc, Hwg1, Hwg. by rewrite Z.sub_diag.
  - intros [c ctx|res] Hg; [|eauto]. exfalso. apply list_elem_of_lookup in Hg as [i Hi].
    eapply looping_zero; [exact Hl|exact Hi].
Qed.

End cancelling.
