(* ===== verification/Sim.v ===== *)
(** A concrete environment for the messaging components: scripted polls and
    handler results, a client that can be closed, a propagator with one header. It
    satisfies every law the messaging theorems assume, and the theorems are
    evaluated on it. *)

From S2P Require Import Prelude GoErrors Contextx Kafka Producer Consumer ConsumerFacts ConsumerOrder GroupDelivery Manager.

Open Scope string_scope.
Open Scope list_scope.

Record sim : Type := mkSim {
  sim_polls : list kgo_fetches;
  sim_results : list (option error);
  sim_closed : bool;
}.

(** A poll of the closed client fails; when the script is used up the context
    is cancelled. *)
Definition sim_poll (w : sim) : sim * kgo_fetches :=
  if sim_closed w then (w, mkFetches (Some kgo_ErrClientClosed) [])
  else match sim_polls w with
  | fs :: rest => (mkSim rest (sim_results w) (sim_closed w), fs)
  | [] => (w, mkFetches (Some context_Canceled) [])
  end.

#[export] Instance sim_kgo : KgoClient sim unit := {
  kgo_NewClient _ w := (w, Ok tt);
  kgo_Ping _ w := (w, None);
  kgo_Close _ w := mkSim (sim_polls w) (sim_results w) true;
  kgo_ProduceSync _ _ _ w := (w, None);
  kgo_Produce _ _ _ w := w;
  kgo_PollFetches _ _ w := sim_poll w;
  kgo_CommitRecords _ _ _ w := (w, None);
}.

#[export] Instance sim_runtime : GoRuntime sim := {
  ctx_Err _ _ := None;
  select_done_after _ _ w := (w, false);
}.

#[export] Instance sim_runtime_laws : GoRuntimeLaws sim.
Proof. split. by intros. Qed.

Definition remote_key : ctx_key := ForeignKey "otel" "remote".

#[export] Instance sim_propagator : Propagator := {
  Inject ctx carrier :=
    match Value ctx remote_key with
    | Some (AString s) => <["traceparent" := s]> carrier
    | _ => carrier
    end;
  Extract ctx carrier :=
    match carrier !! "traceparent" with
    | Some s => WithValue ctx remote_key (AString s)
    | None => ctx
    end;
  Fields := ["traceparent"];
}.

#[export] Instance sim_propagator_laws : PropagatorLaws.
Proof. split. intros ctx carrier H. cbn. rewrite (H "traceparent"); [done|]. cbn. set_solver. Qed.

#[export] Instance sim_tracer : Tracer := {
  tracer_Start ctx name _ := WithValue ctx (ForeignKey "otel" "span") (AString name);
}.

#[export] Instance sim_range : MapRange := {
  map_range m := map_to_list m;
  map_range_perm m := Permutation_refl (map_to_list m);
}.

#[export] Instance sim_close_laws : KgoCloseLaws (λ (_ : unit) w, sim_closed w = true).
Proof.
  split; try done.
  - intros cl ctx w H _. cbn. unfold sim_poll. by rewrite H.
  - intros cl cl' ctx w H. cbn. unfold sim_poll. by rewrite H.
Qed.

(** A handler that answers with the scripted results, then with success. *)
Definition sim_handler : HandlerFunc sim :=
  λ _ _ _ w,
    match sim_results w with
    | res :: rest => (mkSim (sim_polls w) rest (sim_closed w), Ret res)
    | [] => (w, Ret None)
    end.

Definition failing_handler : HandlerFunc sim := λ _ _ _ w, (w, Ret (Some (errors_New "boom"))).

Definition sim_cfg (max_retries : Z) (strict : bool) : ConsumerConfig :=
  default_config (mkConsumerConfig ["localhost:9092"] "group" "orders" max_retries 0 0 "" strict).

Definition sim_producer : Producer unit := mkProducer tt.

Definition sim_consumer (max_retries : Z) (strict : bool) (h : HandlerFunc sim) : Consumer sim unit :=
  mkConsumer tt (sim_cfg max_retries strict) h (Some (producer_dlq sim_producer)).

Lemma sim_dlq_ok max_retries strict h : dlq_ok (sim_consumer max_retries strict h).
Proof. unfold dlq_ok. cbn. apply _. Qed.

Definition sim_record (key : string) (offset : Z) (headers : list (string * string)) : kgo_record :=
  mkRecord "orders" key "payload" headers 0 offset.

Definition boom : option error := Some (errors_New "boom").

(** Two failures, then the dead letter topic: pauses of 100ms and 200ms. *)
Example sim_poison_pill :
  let ρ := processWithRetry 10 (sim_consumer 3 true failing_handler) Background
             (sim_record "k" 7 []) (mkSim [] [] false) in
  out ρ = Ret None
  ∧ sleeps (trace ρ) = [100 * Millisecond; 200 * Millisecond]%Z
  ∧ last (trace ρ) = Some (EvPublish "orders.dlq" "k" "payload" None).
Proof. vm_compute. done. Qed.

(** ** The messaging theorems at concrete inputs *)

Lemma strict_ack_not_lost_witness :
  let c := sim_consumer 2 true sim_handler in
  let r := sim_record "k" 7 [] in
  let ρ := processWithRetry 5 c Background r (mkSim [] [boom] false) in
  out ρ = Ret None
  ∧ (acked_by_handler r (trace ρ) ∨ all_attempts_failed c (trace ρ) ∧ acked_by_dlq c r (trace ρ)).
Proof.
  split; [vm_compute; reflexivity|].
  eapply (strict_ack_not_lost 5 (sim_consumer 2 true sim_handler) Background
            (sim_record "k" 7 []) (mkSim [] [boom] false)).
  - apply sim_runtime_laws.
  - apply sim_dlq_ok.
  - apply (bool_decide_unpack _). vm_compute. exact I.
  - reflexivity.
  - vm_compute. reflexivity.
Defined.

Lemma retries_terminate_witness :
  let c := sim_consumer 3 true failing_handler in
  let ρ := processWithRetry 3 c Background (sim_record "k" 7 []) (mkSim [] [] false) in
  ((∃ res, out ρ = Ret res)
   ∨ (out ρ = Panic strict_panic_msg ∧ cons_dlqProducer c = None ∧ StrictMode (cons_cfg c) = true
      ∧ all_attempts_failed c (trace ρ)))
  ∧ (length (handler_results (trace ρ)) ≤ 3)%nat.
Proof.
  apply (retries_terminate 3 (sim_consumer 3 true failing_handler) Background
           (sim_record "k" 7 []) (mkSim [] [] false)).
  - apply sim_dlq_ok.
  - apply (bool_decide_unpack _). vm_compute. exact I.
  - reflexivity.
  - intros ctx k v w. eexists. reflexivity.
  - vm_compute. lia.
Defined.

Lemma backoff_schedule_witness :
  sleeps (trace (processWithRetry 5 (sim_consumer 0 true failing_handler) Background
                   (sim_record "k" 7 []) (mkSim [] [] false)))
  = backoff_at (sim_cfg 0 true) <$> seq 0 5.
Proof.
  rewrite (backoff_schedule 5 (sim_consumer 0 true failing_handler) Background
             (sim_record "k" 7 []) (mkSim [] [] false) (sim_dlq_ok _ _ _));
    [vm_compute; reflexivity|vm_compute; split; discriminate || reflexivity..].
Defined.

Lemma unlimited_retries_never_ack_witness :
  out (processWithRetry 40 (sim_consumer 0 true failing_handler) Background
         (sim_record "k" 7 []) (mkSim [] [] false)) = Running.
Proof.
  apply (unlimited_retries_never_ack 40 (sim_consumer 0 true failing_handler) Background
           (sim_record "k" 7 []) (mkSim [] [] false)).
  - vm_compute. discriminate.
  - reflexivity.
  - reflexivity.
  - intros w. exists w, (errors_New "boom"). reflexivity.
Defined.

Definition sim_batch : kgo_fetches :=
  mkFetches None [sim_record "a" 1 [("traceparent", "t1")]; sim_record "b" 2 []].

Lemma consumer_refines_delivery_witness :
  is_Some (delivery_run true (mkDelivery [] false)
    (trace (Start 5 5 (sim_consumer 2 true sim_handler) Background
              (mkSim [sim_batch] [None; boom; None] false)))).
Proof.
  apply (consumer_refines_delivery 5 5 (sim_consumer 2 true sim_handler) Background
           (mkSim [sim_batch] [None; boom; None] false)).
  - apply sim_dlq_ok.
  - apply (bool_decide_unpack _). vm_compute. exact I.
Defined.

(** ** Two sessions: the first one is killed after it has handled offset 2 and before
    it commits it; the second one gets it again. *)

Definition orders : string * Z := ("orders", 0%Z).
Definition rec_a : kgo_record := sim_record "a" 1 [].
Definition rec_b : kgo_record := sim_record "b" 2 [].
Definition rec_c : kgo_record := sim_record "c" 5 [].
Definition sim_log : broker_log := λ p, if decide (p = orders) then [rec_a; rec_b; rec_c] else [].
Definition sim_group : GroupDelivery.group := {[orders := 1%Z]}.

Definition session_of (polls : list kgo_fetches) (results : list (option error)) : list msg_event :=
  trace (Start 5 5 (sim_consumer 2 true sim_handler) Background (mkSim polls results false)).
Definition killed_session : list msg_event :=
  take 8 (session_of [mkFetches None [rec_a; rec_b]] [None; None]).
Definition next_session : list msg_event :=
  session_of [mkFetches None [rec_b]; mkFetches None [rec_c]] [None; boom; None].

Lemma consumes_one (log : broker_log) (g : GroupDelivery.group) (t : list msg_event) (p0 : string * Z) :
  Forall (λ r, part r = p0) (returned t) → returned t `prefix_of` from_offset (position g p0) (log p0) →
  consumes log g t.
Proof.
  intros Hall Hp p. destruct (decide (p0 = p)) as [<-|Hne].
  - replace (filter (λ r, part r = p0) (returned t)) with (returned t); [done|].
    clear Hp. induction Hall as [|r l H _ IH]; [done|]. rewrite filter_cons, decide_True by done. by rewrite <- IH.
  - replace (filter (λ r, part r = p) (returned t)) with (@nil kgo_record); [apply prefix_nil|].
    clear Hp. induction Hall as [|r l H _ IH]; [done|]. rewrite filter_cons, decide_False by congruence. done.
Qed.

Lemma sim_log_ok : well_formed sim_log.
Proof.
  intros p. unfold sim_log. destruct (decide (p = orders)) as [->|]; [|by repeat constructor].
  split; repeat constructor.
Qed.

Lemma sim_session polls results n : session_trace (RT := sim_runtime) (take n (session_of polls results)).
Proof.
  exists (sim_consumer 2 true sim_handler), 5%nat, 5%nat, Background, (mkSim polls results false).
  split_and!; [done|apply sim_dlq_ok|by_compute|apply prefix_take].
Qed.

Lemma sim_sessions : sessions (RT := sim_runtime) sim_log sim_group [killed_session; next_session].
Proof.
  constructor; [apply sim_session|apply (consumes_one _ _ _ orders); by_compute|].
  constructor; [|apply (consumes_one _ _ _ orders); by_compute|constructor].
  unfold next_session. rewrite <- (firstn_all (session_of _ _)). apply sim_session.
Qed.

Lemma at_least_once_witness :
  position (foldl group_after sim_group [killed_session; next_session]) orders = 6%Z
  ∧ commits killed_session = [rec_a]
  ∧ ∃ t, t ∈ [killed_session; next_session] ∧ settling rec_b t.
Proof.
  split; [vm_compute; reflexivity|]. split; [vm_compute; reflexivity|].
  destruct (at_least_once (RT := sim_runtime) sim_log sim_group [killed_session; next_session] orders rec_b)
    as (t & Ht & Hs).
  - apply sim_log_ok.
  - apply sim_sessions.
  - vm_compute. right. left.
  - vm_compute. split; [discriminate|reflexivity].
  - exists t. split; [exact Ht|]. destruct Hs as [[_ Hs]|Hs]; [exact Hs|exfalso].
    apply list_elem_of_In in Ht. destruct Ht as [<-|[<-|[]]]; vm_compute in Hs; by apply not_elem_of_nil in Hs.
Defined.

Lemma committed_offsets_advance_witness :
  (position sim_group orders ≤ position (foldl group_after sim_group [killed_session; next_session]) orders)%Z.
Proof.
  apply (committed_offsets_advance (RT := sim_runtime) sim_log); [apply sim_log_ok|apply sim_sessions].
Defined.

Lemma trace_context_leaks_witness :
  let ρ := process_records 5 (sim_consumer 2 true sim_handler) Background
             (fetches_records sim_batch) (mkSim [] [] false) in
  ∃ parent, span_parents (trace ρ) !! 0%nat = Some parent
    ∧ span_parents (trace ρ) !! 1%nat = Some parent
    ∧ ∃ ctx0, parent = Extract ctx0 (carrier_of [("traceparent", "t1")]).
Proof.
  eapply (trace_context_leaks 5 (sim_consumer 2 true sim_handler) Background []
    (sim_record "a" 1 [("traceparent", "t1")]) (sim_record "b" 2 []) [] (mkSim [] [] false)).
  - apply sim_dlq_ok.
  - intros k _. apply lookup_empty.
  - vm_compute. reflexivity.
Defined.

Definition sim_manager : ConsumerManager sim unit :=
  Manager_Start (Register (NewConsumerManager (mkSim [] [] false))
                   (sim_consumer 2 true sim_handler)) Background.

Lemma sim_manager_reachable :
  rtc (manager_step 5) (NewConsumerManager (mkSim [] [] false)) sim_manager.
Proof.
  eapply rtc_l; [by apply (step_register 5 _ (sim_consumer 2 true sim_handler))|].
  eapply rtc_l; [by apply (step_start 5 _ Background)|]. apply rtc_refl.
Qed.

(** The manager in [wg.Wait()], its consumer closed and still polling. *)
Definition sim_manager_waiting : ConsumerManager sim unit :=
  set_close sim_manager (mkSim [] [] true) Waiting.

Lemma sim_keeps_closed :
  keeps_closed (λ _ w, sim_closed w = true) (sim_consumer 2 true sim_handler).
Proof.
  intros cl. split.
  - intros ctx k v w H. unfold sim_consumer, sim_handler; cbn. by destruct (sim_results w).
  - intros d ctx topic k v Hd w Hw. cbn in Hd. by simplify_eq.
Qed.

Lemma close_never_returns_witness :
  mg_close sim_manager_waiting ≠ Returned
  ∧ ∃ ctx', mg_goroutines sim_manager_waiting !! 0%nat
            = Some (LoopAt (sim_consumer 2 true sim_handler) ctx').
Proof.
  apply (close_never_returns (RT := sim_runtime) (λ _ w, sim_closed w = true) (λ _ _, eq_refl) 5
           sim_manager_waiting sim_manager_waiting 0 (sim_consumer 2 true sim_handler) Background).
  - reflexivity.
  - discriminate.
  - reflexivity.
  - reflexivity.
  - constructor; [apply sim_keeps_closed|constructor].
  - constructor; [apply sim_keeps_closed|constructor].
  - eapply rtc_l; [|apply rtc_refl]. split; [|reflexivity].
    eapply (step_goroutine 5 sim_manager_waiting 0); reflexivity.
Defined.

Lemma close_waits_for_consumers_witness : mg_wg sim_manager = Z.of_nat (looping (mg_goroutines sim_manager)).
Proof.
  apply (close_waits_for_consumers 5 (mkSim [] [] false) sim_manager sim_manager).
  exact sim_manager_reachable.
Defined.

(** A world in which the context is cancelled during the first poll, and the poll
    after it answers with the closed client. *)
Record stop_world : Type := mkStop { stop_cancelled : bool; stop_polls : nat }.

Definition stop_poll (w : stop_world) : stop_world * kgo_fetches :=
  match w with
  | mkStop false n => (mkStop true n, mkFetches None [])
  | mkStop true 0 => (mkStop true 1, mkFetches (Some kgo_ErrClientClosed) [])
  | mkStop true _ => (w, mkFetches (Some context_Canceled) [])
  end.

#[export] Instance stop_client : KgoClient stop_world unit := {|
  kgo_NewClient _ w := (w, Ok tt);
  kgo_Ping _ w := (w, None);
  kgo_Close _ w := w;
  kgo_ProduceSync _ _ _ w := (w, None);
  kgo_Produce _ _ _ w := w;
  kgo_PollFetches _ _ w := stop_poll w;
  kgo_CommitRecords _ _ _ w := (w, None);
|}.

#[export] Instance stop_runtime : GoRuntime stop_world := {|
  ctx_Err _ w := if stop_cancelled w then Some context_Canceled else None;
  select_done_after _ _ w := (w, stop_cancelled w);
|}.

Definition stop_done (ctx : context) (w : stop_world) : Prop := stop_cancelled w = true.

#[export] Instance stop_laws : KgoCancelLaws stop_done.
Proof.
  split; [|by intros cl ctx ctx' [[|] [|n]]].
  intros cl ctx [cn n] Hc. unfold stop_done in Hc. cbn in Hc. subst cn.
  assert (∀ n, answers_cancel cl ctx (mkStop true (S n))) as Hs by (intros k; by eapply cancel_now).
  destruct n as [|n]; [|apply Hs]. eapply cancel_later; [reflexivity|reflexivity|apply Hs].
Qed.

Definition stop_consumer : Consumer stop_world unit :=
  mkConsumer tt (sim_cfg 2 true) (λ _ _ _ w, (w, Ret None)) None.

(** Two consumers that have started, one of them past the poll that saw the
    cancellation, and a Close that waits. *)
Definition stop_started : ConsumerManager stop_world unit :=
  Manager_Start (Register (Register (NewConsumerManager (mkStop false 0)) stop_consumer) stop_consumer) Background.
Definition stop_waiting : ConsumerManager stop_world unit := set_close stop_started (mkStop true 0) Waiting.

Lemma stop_reachable : rtc (manager_step 5) (NewConsumerManager (mkStop false 0)) stop_waiting.
Proof.
  do 2 (eapply rtc_l; [by apply (step_register 5 _ stop_consumer)|]).
  eapply rtc_l; [by apply (step_start 5 _ Background)|].
  eapply rtc_l; [by eapply (step_goroutine 5 _ 0)|].
  do 4 (eapply rtc_l; [by eapply step_close|]). apply rtc_refl.
Qed.

Lemma cancel_lets_close_return_witness :
  looping (mg_goroutines stop_waiting) = 2%nat
  ∧ ∃ m', rtc (manager_step 5) stop_waiting m' ∧ mg_close m' = Returned
      ∧ ∀ g, g ∈ mg_goroutines m' → ∃ res, g = Exited res.
Proof.
  split; [reflexivity|].
  apply (cancel_lets_close_return stop_done 5 stop_waiting);
    [exact (wg_inv_reachable _ _ _ stop_reachable)|reflexivity|reflexivity|].
  intros i c ctx _. reflexivity.
Defined.

Definition handled (t : list msg_event) : list (string * string) :=
  omap (λ e, match e with EvHandler k v _ => Some (k, v) | _ => None end) t.

(** When a poll returns records together with an error and the next poll returns one
    record, Start handles and commits the later record alone: the records of the
    first poll are never handled. *)
Theorem failed_poll_loses_records ctx lost r msg :
  let ρ := Start 5 5 (sim_consumer 2 true sim_handler) ctx
             (mkSim [mkFetches (Some (errors_New msg)) lost; mkFetches None [r]] [] false) in
  out ρ = Ret None ∧ commits (trace ρ) = [r] ∧ handled (trace ρ) = [(rec_key r, rec_value r)].
Proof. done. Qed.
