(* ===== verification/AsyncAudit.v ===== *)
(** [audit/audit.go], [audit/async_writer.go] and [audit/kafka_logger.go]: the
    audit loggers. The asynchronous logger is a step relation over the
    interleavings of its callers, its worker goroutine and [Close]; every step
    is one channel or atomic operation. *)

From S2P Require Import Prelude GoErrors Contextx Json Kafka.

Open Scope string_scope.
Open Scope list_scope.

(** ** Events *)

Record Event : Type := mkEvent {
  ActorID : string;
  Action : string;
  Resource : string;
  OldValue : gval;
  NewValue : gval;
  Timestamp : Z;
  Metadata : list (string * string);
  TraceID : string;
}.

(** The zero [time.Time], 1 January of year 1, in nanoseconds from 1970. *)
Definition zero_time : Z := (-62135596800 * Second)%Z.
Definition IsZero (t : Z) : bool := (t =? zero_time)%Z.

(** [if event.Timestamp.IsZero() { event.Timestamp = time.Now() }] *)
Definition stamp (now : Z) (e : Event) : Event :=
  if IsZero (Timestamp e)
  then mkEvent (ActorID e) (Action e) (Resource e) (OldValue e) (NewValue e) now (Metadata e) (TraceID e)
  else e.

(** The JSON form of an event by its struct tags; [time_json] is the text
    [time.Time.MarshalJSON] gives. *)
Definition event_gval (time_json : Z → result string error) (e : Event) : gval :=
  GStruct
    [("actor_id", Keep, GStr (ActorID e));
     ("action", Keep, GStr (Action e));
     ("resource", Keep, GStr (Resource e));
     ("old_value", OmitNil, OldValue e);
     ("new_value", OmitNil, NewValue e);
     ("timestamp", Keep, GOpaque (time_json (Timestamp e)));
     ("metadata", OmitEmpty, GMap (prod_map id GStr <$> Metadata e));
     ("trace_id", OmitEmpty, GStr (TraceID e))].

Definition ErrAuditBufferFull : error :=
  Sentinel "audit.ErrAuditBufferFull" "audit: buffer full, log dropped".

(** ** The asynchronous logger *)

(** A call of [Log] in progress. The [Drop] points are those of [handleDrop]:
    before the atomic add, before the test of the time, before the store of
    the time, and before the swap and the warning; [ret] is what [Log] returns
    after it. *)
Inductive log_pc : Type :=
| LogStart (e : Event)
| LogSelect (e : Event)
| DropAdd (e : Event) (ret : error)
| DropCheck (e : Event) (ret : error)
| DropStore (e : Event) (ret : error) (now : Z)
| DropSwap (e : Event) (ret : error)
| LogReturned (e : Event) (ret : option error)
| LogPanicked (e : Event).

(** A caller: where its [Log] is, and the error of its context once that is
    done. *)
Record caller : Type := mkCaller { pc : log_pc; ctx_done : option error }.

(** A call of [Close]: not begun, in [wg.Wait()], returned. *)
Inductive closer : Type := CloseStart | CloseWait | CloseReturned.

(** [AsyncLogger]: the channel [events] with its capacity, the worker, the
    drop statistics; with the clock, the calls in progress, the history of what
    was accepted, processed, dropped and reported, and the error kept by the
    worker's JSON encoder. *)
Record AsyncLogger : Type := mkAsyncLogger {
  blockOnFull : bool;
  capacity : nat;
  events : list Event;
  chan_closed : bool;
  worker_done : bool;
  dropCount : Z;
  lastLogTime : Z;
  clock : Z;
  callers : list caller;
  closers : list closer;
  accepted : list Event;
  processed : list Event;
  write_errors : list error;
  output : list string;
  drops : Z;
  warnings : list (Z * Z);
  enc_err : option error;
}.

Definition NewAsyncLogger (bufferSize : Z) (block : bool) (now : Z) : AsyncLogger :=
  mkAsyncLogger block
    (Z.to_nat (if (bufferSize <=? 0)%Z then 1024 else bufferSize))
    [] false false 0 0 now [] [] [] [] [] [] 0 [] None.

Definition set_pc (c : caller) (p : log_pc) : caller := mkCaller p (ctx_done c).

Definition set_caller (l : AsyncLogger) (i : nat) (c : caller) : AsyncLogger :=
  mkAsyncLogger (blockOnFull l) (capacity l) (events l) (chan_closed l) (worker_done l)
    (dropCount l) (lastLogTime l) (clock l) (<[i := c]> (callers l)) (closers l)
    (accepted l) (processed l) (write_errors l) (output l) (drops l) (warnings l) (enc_err l).

(** [l.events <- event] with room in the buffer. *)
Definition send (l : AsyncLogger) (e : Event) : AsyncLogger :=
  mkAsyncLogger (blockOnFull l) (capacity l) (events l ++ [e]) (chan_closed l) (worker_done l)
    (dropCount l) (lastLogTime l) (clock l) (callers l) (closers l)
    (accepted l ++ [e]) (processed l) (write_errors l) (output l) (drops l) (warnings l) (enc_err l).

(** [atomic.AddUint64(&l.dropCount, 1)] *)
Definition add_drop (l : AsyncLogger) : AsyncLogger :=
  mkAsyncLogger (blockOnFull l) (capacity l) (events l) (chan_closed l) (worker_done l)
    (wrapu64 (dropCount l + 1)) (lastLogTime l) (clock l) (callers l) (closers l)
    (accepted l) (processed l) (write_errors l) (output l) (drops l + 1)%Z (warnings l) (enc_err l).

(** [l.lastLogTime.Store(now)] *)
Definition store_time (l : AsyncLogger) (now : Z) : AsyncLogger :=
  mkAsyncLogger (blockOnFull l) (capacity l) (events l) (chan_closed l) (worker_done l)
    (dropCount l) now (clock l) (callers l) (closers l)
    (accepted l) (processed l) (write_errors l) (output l) (drops l) (warnings l) (enc_err l).

(** [atomic.SwapUint64(&l.dropCount, 0)] and the warning with the old value. *)
Definition swap_report (l : AsyncLogger) : AsyncLogger :=
  mkAsyncLogger (blockOnFull l) (capacity l) (events l) (chan_closed l) (worker_done l)
    0 (lastLogTime l) (clock l) (callers l) (closers l)
    (accepted l) (processed l) (write_errors l) (output l) (drops l)
    (warnings l ++ [(clock l, dropCount l)]) (enc_err l).

(** The warning is due: [now.Sub(lastLog) > 1*time.Minute]. *)
Definition warning_due (l : AsyncLogger) : bool :=
  (Minute <? sat64 (clock l - lastLogTime l))%Z.

(** One statement of [Log] and [handleDrop] that does not depend on a choice
    of the scheduler. *)
Definition drop_step (l : AsyncLogger) (p : log_pc) : option (AsyncLogger * log_pc) :=
  match p with
  | LogStart e => Some (l, LogSelect (stamp (clock l) e))
  | DropAdd e ret => Some (add_drop l, DropCheck e ret)
  | DropCheck e ret =>
      Some (l, if warning_due l then DropStore e ret (clock l) else LogReturned e (Some ret))
  | DropStore e ret now => Some (store_time l now, DropSwap e ret)
  | DropSwap e ret => Some (swap_report l, LogReturned e (Some ret))
  | LogSelect _ | LogReturned _ _ | LogPanicked _ => None
  end.

(** The cases of the [select] of [Log] that are ready; with more than one the
    choice is the runtime's. Sending on a closed channel panics. *)
Inductive select_step (l : AsyncLogger) (c : caller) (e : Event) : AsyncLogger → log_pc → Prop :=
| select_closed :
    chan_closed l = true → select_step l c e l (LogPanicked e)
| select_send :
    chan_closed l = false → (length (events l) < capacity l)%nat →
    select_step l c e (send l e) (LogReturned e None)
| select_ctx_done err :
    blockOnFull l = true → ctx_done c = Some err →
    select_step l c e l (DropAdd e err)
| select_default :
    blockOnFull l = false → chan_closed l = false → (capacity l ≤ length (events l))%nat →
    select_step l c e l (DropAdd e ErrAuditBufferFull).

Section async.
(** How [time.Time] renders itself is given. *)
Variable time_json : Z → result string error.

(** [json.Encoder.Encode]: an error of the writer stays in the encoder, and every
    later call gives it back without writing. [werr] is what the writer answers
    when a line reaches it. The encoder's new error, and the line or the error. *)
Definition Encode (enc : option error) (v : gval) (werr : option error) :
    option error * result string error :=
  match enc with
  | Some err => (Some err, Err err)
  | None =>
      match json_line v with
      | Err err => (None, Err err)
      | Ok line => (werr, match werr with None => Ok line | Some err => Err err end)
      end
  end.

(** [for event := range l.events { encoder.Encode(event) ... }]: one event, with
    the one encoder of the worker. *)
Definition worker_event (l : AsyncLogger) (e : Event) (rest : list Event)
    (werr : option error) : AsyncLogger :=
  let '(enc, res) := Encode (enc_err l) (event_gval time_json e) werr in
  mkAsyncLogger (blockOnFull l) (capacity l) rest (chan_closed l) (worker_done l)
    (dropCount l) (lastLogTime l) (clock l) (callers l) (closers l)
    (accepted l) (processed l ++ [e])
    (match res with Err err => write_errors l ++ [err] | Ok _ => write_errors l end)
    (match res with Ok line => output l ++ [line] | Err _ => output l end)
    (drops l) (warnings l) enc.

(** The closed, empty channel ends the range loop; [wg.Done()]. *)
Definition worker_exit (l : AsyncLogger) : AsyncLogger :=
  mkAsyncLogger (blockOnFull l) (capacity l) (events l) (chan_closed l) true
    (dropCount l) (lastLogTime l) (clock l) (callers l) (closers l)
    (accepted l) (processed l) (write_errors l) (output l) (drops l) (warnings l) (enc_err l).

Definition set_closer (l : AsyncLogger) (i : nat) (k : closer) (closed : bool) : AsyncLogger :=
  mkAsyncLogger (blockOnFull l) (capacity l) (events l) closed (worker_done l)
    (dropCount l) (lastLogTime l) (clock l) (callers l) (<[i := k]> (closers l))
    (accepted l) (processed l) (write_errors l) (output l) (drops l) (warnings l) (enc_err l).

(** The environment: a new call of [Log] or [Close], a context that is done,
    time that passes. *)
Definition environment (l : AsyncLogger) (now : Z) (cs : list caller) (ks : list closer) : AsyncLogger :=
  mkAsyncLogger (blockOnFull l) (capacity l) (events l) (chan_closed l) (worker_done l)
    (dropCount l) (lastLogTime l) now cs ks
    (accepted l) (processed l) (write_errors l) (output l) (drops l) (warnings l) (enc_err l).

Inductive audit_step : relation AsyncLogger :=
| step_call l e :
    audit_step l (environment l (clock l) (callers l ++ [mkCaller (LogStart e) None]) (closers l))
| step_close_call l :
    audit_step l (environment l (clock l) (callers l) (closers l ++ [CloseStart]))
| step_tick l now :
    (clock l ≤ now)%Z → audit_step l (environment l now (callers l) (closers l))
| step_ctx_done l i c err :
    callers l !! i = Some c → ctx_done c = None →
    audit_step l (environment l (clock l) (<[i := mkCaller (pc c) (Some err)]> (callers l)) (closers l))
| step_log l i c l' p' :
    callers l !! i = Some c → drop_step l (pc c) = Some (l', p') →
    audit_step l (set_caller l' i (set_pc c p'))
| step_select l i c e l' p' :
    callers l !! i = Some c → pc c = LogSelect e → select_step l c e l' p' →
    audit_step l (set_caller l' i (set_pc c p'))
| step_worker l e rest werr :
    worker_done l = false → events l = e :: rest → audit_step l (worker_event l e rest werr)
| step_worker_exit l :
    worker_done l = false → events l = [] → chan_closed l = true → audit_step l (worker_exit l)
| step_close l i :
    closers l !! i = Some CloseStart → audit_step l (set_closer l i CloseWait true)
| step_close_return l i :
    closers l !! i = Some CloseWait → worker_done l = true →
    audit_step l (set_closer l i CloseReturned (chan_closed l)).

End async.
