(* ===== verification/AuditFacts.v ===== *)
(** What the asynchronous audit logger of [AsyncAudit.v] guarantees, for every
    interleaving of its callers, its worker and [Close]. *)

From S2P Require Import Prelude GoErrors Contextx Json Kafka AsyncAudit.

Open Scope string_scope.
Open Scope list_scope.

(** ** Views of the callers *)

(** The event of a call that returned nil. *)
Definition returned_ok (c : caller) : option Event :=
  match pc c with LogReturned e None => Some e | _ => None end.

(** The call has been counted as dropped. *)
Definition counted (c : caller) : bool :=
  match pc c with
  | DropCheck _ _ | DropStore _ _ _ | DropSwap _ _ | LogReturned _ (Some _) => true
  | _ => false
  end.

(** The error a call that gives up returns, known from the select on. *)
Definition drop_reason (p : log_pc) : option error :=
  match p with
  | DropAdd _ ret | DropCheck _ ret | DropStore _ ret _ | DropSwap _ ret => Some ret
  | LogReturned _ ret => ret
  | _ => None
  end.

Definition reason_ok (block : bool) (c : caller) : Prop :=
  ∀ err, drop_reason (pc c) = Some err →
    if block then ctx_done c = Some err else err = ErrAuditBufferFull.

Abbreviation count_drops := (countb counted).
#[local] Arguments set_pc : simpl never.

Lemma omap_insert_same {A B} (f : A → option B) (l : list A) i x y :
  l !! i = Some x → f y = f x → omap f (<[i := y]> l) = omap f l.
Proof.
  revert i. induction l as [|z l IH]; intros [|i] Hi Hf; simplify_eq/=; [by rewrite Hf|].
  by rewrite IH.
Qed.

Lemma omap_insert_new {A B} (f : A → option B) (l : list A) i x y b :
  l !! i = Some x → f x = None → f y = Some b → omap f (<[i := y]> l) ≡ₚ b :: omap f l.
Proof.
  revert i. induction l as [|z l IH]; intros [|i] Hi Hx Hy; simplify_eq/=.
  - by rewrite Hx, Hy.
  - destruct (f z) as [b'|]; [rewrite (IH _ Hi Hx Hy); constructor|by apply IH].
Qed.

Lemma counted_set_pc c p : counted (set_pc c p) = counted (mkCaller p None).
Proof. done. Qed.

Definition reported (l : AsyncLogger) : Z := foldr (λ w acc, w.2 + acc)%Z 0%Z (warnings l).

Lemma reported_snoc (ws : list (Z * Z)) w :
  foldr (λ w acc, w.2 + acc)%Z 0%Z (ws ++ [w]) = (foldr (λ w acc, w.2 + acc)%Z 0%Z ws + w.2)%Z.
Proof. induction ws as [|w' ws IH]; cbn; lia. Qed.

(** ** The invariant *)

Record audit_inv (l : AsyncLogger) : Prop := mkInv {
  inv_fifo : accepted l = processed l ++ events l;
  inv_cap : (length (events l) ≤ capacity l)%nat;
  inv_room : (0 < capacity l)%nat;
  inv_callers : accepted l ≡ₚ omap returned_ok (callers l);
  inv_drops : drops l = Z.of_nat (count_drops (callers l));
  inv_count : (0 ≤ dropCount l)%Z ∧ (0 ≤ reported l)%Z ∧ (dropCount l + reported l ≤ drops l)%Z
    ∧ wrapu64 (drops l) = wrapu64 (dropCount l + reported l);
  inv_reasons : Forall (reason_ok (blockOnFull l)) (callers l);
  inv_output : (length (output l) + length (write_errors l) = length (processed l))%nat;
  inv_worker : worker_done l = true → chan_closed l = true ∧ events l = [];
  inv_waiting : CloseWait ∈ closers l ∨ CloseReturned ∈ closers l → chan_closed l = true;
  inv_closed : CloseReturned ∈ closers l → worker_done l = true;
}.

Lemma elem_insert {A} (l : list A) i x y : x ∈ <[i := y]> l → x = y ∨ x ∈ l.
Proof.
  revert i. induction l as [|z l IH]; intros [|i]; cbn; rewrite ?elem_of_cons; [tauto..|].
  intros [?|?%IH]; tauto.
Qed.

Lemma inv_init bufferSize block now : audit_inv (NewAsyncLogger bufferSize block now).
Proof.
  split; cbn; try done; rewrite ?elem_of_nil; try tauto; [lia|].
  - destruct (Z.leb_spec bufferSize 0); lia.
Qed.

(** The caller [i] goes on without touching what the invariant counts. *)
Lemma inv_set_pc l i c p :
  audit_inv l → callers l !! i = Some c →
  returned_ok (set_pc c p) = returned_ok c → counted (set_pc c p) = counted c →
  reason_ok (blockOnFull l) (set_pc c p) →
  audit_inv (set_caller l i (set_pc c p)).
Proof.
  intros [] Hi Hr Hc Hre. split; cbn; try done.
  - by rewrite (omap_insert_same _ _ _ c).
  - pose proof (countb_insert counted (callers l) i c (set_pc c p) Hi) as Hn.
    rewrite Hc in Hn. destruct (counted c); lia.
  - by apply Forall_insert.
Qed.

Lemma caller_reason l i c :
  audit_inv l → callers l !! i = Some c → reason_ok (blockOnFull l) c.
Proof. intros [] Hi. eapply Forall_lookup_1; eauto. Qed.

Lemma wrapu64_add a b c : wrapu64 a = wrapu64 b → wrapu64 (a + c) = wrapu64 (b + c).
Proof.
  unfold wrapu64. intros H. by rewrite <- (Zplus_mod_idemp_l a), <- (Zplus_mod_idemp_l b), H.
Qed.

Lemma wrapu64_le a : (0 ≤ a)%Z → (wrapu64 a ≤ a)%Z.
Proof. intros. unfold wrapu64. apply Z.mod_le; lia. Qed.

Lemma wrapu64_idemp_l a b : wrapu64 (wrapu64 a + b) = wrapu64 (a + b).
Proof. unfold wrapu64. by rewrite Zplus_mod_idemp_l. Qed.

(** [atomic.AddUint64] counts the caller's drop. *)
Lemma inv_add_drop l i c e ret :
  audit_inv l → callers l !! i = Some c → pc c = DropAdd e ret →
  audit_inv (set_caller (add_drop l) i (set_pc c (DropCheck e ret))).
Proof.
  intros Hinv Hi Hpc. pose proof (caller_reason l i c Hinv Hi) as Hre.
  destruct Hinv. split; cbn; try done.
  - rewrite (omap_insert_same _ _ _ c); [done..|]. unfold returned_ok. by rewrite Hpc.
  - assert (counted c = _) as Hc by (unfold counted; rewrite Hpc; reflexivity).
    pose proof (countb_insert counted (callers l) i c (set_pc c (DropCheck e ret)) Hi) as Hn.
    rewrite Hc, counted_set_pc in Hn. cbn in Hn. lia.
  - destruct inv_count0 as (Hd & Hr & Hle & Heq). unfold reported in *. cbn.
    pose proof (wrapu64_le (dropCount l + 1)) as Hw.
    split_and!; [apply wrapu64_range|done|lia|].
    rewrite wrapu64_idemp_l, (wrapu64_add _ _ 1 Heq). f_equal. lia.
  - apply Forall_insert; [done|]. intros err. unfold reason_ok in Hre. rewrite Hpc in Hre. apply Hre.
Qed.

(** The swap moves the counter into a warning. *)
Lemma inv_swap l i c e ret :
  audit_inv l → callers l !! i = Some c → pc c = DropSwap e ret →
  audit_inv (set_caller (swap_report l) i (set_pc c (LogReturned e (Some ret)))).
Proof.
  intros Hinv Hi Hpc. pose proof (caller_reason l i c Hinv Hi) as Hre.
  destruct Hinv. split; cbn; try done.
  - rewrite (omap_insert_same _ _ _ c); [done..|]. unfold returned_ok. by rewrite Hpc.
  - assert (counted c = _) as Hc by (unfold counted; rewrite Hpc; reflexivity).
    pose proof (countb_insert counted (callers l) i c (set_pc c (LogReturned e (Some ret))) Hi) as Hn.
    rewrite Hc, counted_set_pc in Hn. cbn in Hn. lia.
  - destruct inv_count0 as (Hd & Hr & Hle & Heq). unfold reported in *. cbn.
    rewrite reported_snoc, Heq. cbn. split_and!; [done|lia..|]. f_equal. lia.
  - apply Forall_insert; [done|]. intros err. unfold reason_ok in Hre. rewrite Hpc in Hre. apply Hre.
Qed.

Lemma inv_drop_step l i c l' p' :
  audit_inv l → callers l !! i = Some c → drop_step l (pc c) = Some (l', p') →
  audit_inv (set_caller l' i (set_pc c p')).
Proof.
  intros Hinv Hi Hs. pose proof (caller_reason l i c Hinv Hi) as Hre.
  destruct (pc c) as [e|e|e ret|e ret|e ret now|e ret|e ret|e] eqn:Hpc; simplify_eq/=.
  - apply inv_set_pc; unfold returned_ok, counted, reason_ok; cbn; rewrite ?Hpc; done.
  - by apply inv_add_drop.
  - unfold reason_ok in Hre. rewrite Hpc in Hre.
    apply inv_set_pc; unfold returned_ok, counted, reason_ok; cbn; rewrite ?Hpc;
      destruct (warning_due l'); done.
  - unfold reason_ok in Hre. rewrite Hpc in Hre.
    enough (audit_inv (set_caller l i (set_pc c (DropSwap e ret)))) as [] by (split; done).
    apply inv_set_pc; unfold returned_ok, counted, reason_ok; cbn; rewrite ?Hpc; done.
  - by apply inv_swap.
Qed.

(** A send that finds room. *)
Lemma inv_send l i c e :
  audit_inv l → callers l !! i = Some c → pc c = LogSelect e → chan_closed l = false →
  (length (events l) < capacity l)%nat →
  audit_inv (set_caller (send l e) i (set_pc c (LogReturned e None))).
Proof.
  intros [] Hi Hpc Hcl Hlt. split; cbn; try done.
  - by rewrite inv_fifo0, app_assoc.
  - rewrite length_app. cbn. lia.
  - rewrite (omap_insert_new _ _ i c _ e); [|done|by unfold returned_ok; rewrite Hpc|done].
    rewrite <- inv_callers0. by rewrite Permutation_app_comm.
  - assert (counted c = _) as Hc by (unfold counted; rewrite Hpc; reflexivity).
    pose proof (countb_insert counted (callers l) i c (set_pc c (LogReturned e None)) Hi) as Hn.
    rewrite Hc, counted_set_pc in Hn. cbn in Hn. lia.
  - by apply Forall_insert.
  - intros Hw. destruct (inv_worker0 Hw). congruence.
Qed.

Lemma inv_select l i c e l' p' :
  audit_inv l → callers l !! i = Some c → pc c = LogSelect e → select_step l c e l' p' →
  audit_inv (set_caller l' i (set_pc c p')).
Proof.
  intros Hinv Hi Hpc Hs.
  destruct Hs as [Hcl|Hcl Hlt|err Hb Hd|Hb Hcl Hle]; [| |apply inv_set_pc..].
  all: try by apply inv_send.
  1: apply inv_set_pc.
  all: unfold returned_ok, counted, reason_ok; cbn; rewrite ?Hpc; try done; rewrite Hb; naive_solver.
Qed.

Lemma inv_step time_json l l' :
  audit_inv l → audit_step time_json l l' → audit_inv l'.
Proof.
  intros Hinv Hstep.
  destruct Hstep as [l e|l|l now Hnow|l i c err Hi Hd|l i c l' p' Hi Hs|l i c e l' p' Hi Hpc Hs
    |l e rest werr Hw He|l Hw He Hcl|l i Hi|l i Hi Hw].
  - destruct Hinv. split; cbn; try done.
    + by rewrite omap_app, app_nil_r.
    + rewrite (countb_snoc counted). cbn. lia.
    + apply Forall_app; split; [done|]. repeat constructor. by intros err.
  - destruct Hinv. split; cbn; try done; rewrite !elem_of_app, !list_elem_of_singleton; intuition congruence.
  - destruct Hinv. by split.
  - pose proof (caller_reason l i c Hinv Hi) as Hre. destruct Hinv. split; cbn; try done.
    + rewrite (omap_insert_same _ _ _ c); done.
    + pose proof (countb_insert counted (callers l) i c (mkCaller (pc c) (Some err)) Hi) as Hn.
      change (counted (mkCaller (pc c) (Some err))) with (counted c) in Hn. lia.
    + apply Forall_insert; [done|]. intros err' Hr. cbn in Hr. specialize (Hre err' Hr).
      destruct (blockOnFull l); cbn; congruence.
  - by eapply inv_drop_step.
  - by eapply inv_select.
  - destruct Hinv. unfold worker_event. destruct (Encode _ _ _) as [enc res]. split; cbn; try done.
    + by rewrite inv_fifo0, He, <- app_assoc.
    + rewrite He in inv_cap0. cbn in inv_cap0. lia.
    + destruct res; rewrite !length_app; cbn; lia.
    + intros. congruence.
  - destruct Hinv. by split.
  - destruct Hinv. split; cbn; try done.
    + intros Hw. by destruct (inv_worker0 Hw).
    + intros [Hr|Hr]%elem_insert; [done|]. by apply inv_closed0.
  - destruct Hinv. split; cbn; try done.
    + intros [Hr%elem_insert|Hr%elem_insert]; apply inv_worker0; done.
Qed.

Lemma inv_reachable time_json bufferSize block now l :
  rtc (audit_step time_json) (NewAsyncLogger bufferSize block now) l → audit_inv l.
Proof.
  intros Hr. remember (NewAsyncLogger bufferSize block now) as l0 eqn:E.
  assert (audit_inv l0) as H0 by (subst; apply inv_init). clear E.
  induction Hr; eauto using inv_step.
Qed.

(** ** Theorems *)

Section theorems.
Context (time_json : Z → result string error).

(** C3: In every reachable state of the asynchronous audit logger the accepted
    events are the processed ones followed by the buffered ones in the order of
    acceptance, they are exactly the events of the Log calls that returned nil (each
    once), the buffer is within its capacity, and every processed event was either
    written or reported as a write error. *)
Theorem audit_accepts_exactly_once bufferSize block now l :
  rtc (audit_step time_json) (NewAsyncLogger bufferSize block now) l →
  accepted l = processed l ++ events l
  ∧ accepted l ≡ₚ omap returned_ok (callers l)
  ∧ (length (events l) ≤ capacity l)%nat
  ∧ (length (output l) + length (write_errors l) = length (processed l))%nat.
Proof. intros []%inv_reachable. done. Qed.

(** C12: Once a Close of the asynchronous audit logger has returned, the buffer is
    empty and the events the worker has processed are exactly those of the Log calls
    that returned nil, each once. *)
Theorem audit_close_drains bufferSize block now l :
  rtc (audit_step time_json) (NewAsyncLogger bufferSize block now) l →
  CloseReturned ∈ closers l →
  events l = [] ∧ processed l ≡ₚ omap returned_ok (callers l).
Proof.
  intros [] %inv_reachable Hc. destruct (inv_worker0 (inv_closed0 Hc)) as [_ He].
  split; [done|]. by rewrite <- inv_callers0, inv_fifo0, He, app_nil_r.
Qed.

(** C29: In every reachable state of the asynchronous audit logger with fewer than
    2^64 dropped events, the drop counter and the numbers reported in the warnings
    add up to the number of calls that have counted their event as dropped: no drop
    is lost or reported twice by racing callers. *)
Theorem audit_drops_accounted bufferSize block now l :
  rtc (audit_step time_json) (NewAsyncLogger bufferSize block now) l →
  (Z.of_nat (count_drops (callers l)) < 2 ^ 64)%Z →
  (dropCount l + reported l = Z.of_nat (count_drops (callers l)))%Z.
Proof.
  intros [] %inv_reachable Hlt. destruct inv_count0 as (Hd & Hr & Hle & Heq).
  rewrite <- inv_drops0 in *. unfold wrapu64 in Heq. rewrite !Z.mod_small in Heq; lia.
Qed.

(** A call of Log that returns an error returns the reason its event was dropped. *)
Theorem audit_drop_reasons bufferSize block now l i c e err :
  rtc (audit_step time_json) (NewAsyncLogger bufferSize block now) l →
  callers l !! i = Some c → pc c = LogReturned e (Some err) →
  if blockOnFull l then ctx_done c = Some err else err = ErrAuditBufferFull.
Proof.
  intros Hr%inv_reachable Hi Hpc. apply (caller_reason l i c Hr Hi). by rewrite Hpc.
Qed.

(** The statements a call still has to execute, at most. *)
Definition rank (p : log_pc) : nat :=
  match p with
  | LogStart _ => 6
  | LogSelect _ => 5
  | DropAdd _ _ => 4
  | DropCheck _ _ => 3
  | DropStore _ _ _ => 2
  | DropSwap _ _ => 1
  | LogReturned _ _ | LogPanicked _ => 0
  end.

Lemma set_caller_lookup l l' i c c' :
  callers l !! i = Some c → callers l' = callers l →
  callers (set_caller l' i c') !! i = Some c'.
Proof. intros Hi He. cbn. rewrite He. apply list_lookup_insert_eq. by eapply lookup_lt_Some. Qed.

(** A step of a call takes it forward. *)
Lemma drop_step_rank l p l' p' : drop_step l p = Some (l', p') → (rank p' < rank p)%nat.
Proof. destruct p; cbn; intros H; simplify_eq/=; repeat case_match; cbn; lia. Qed.

Lemma select_step_rank l c e l' p' : select_step l c e l' p' → (rank p' < 5)%nat.
Proof. destruct 1; cbn; lia. Qed.

(** Its next step, while the channel is open. *)
Lemma open_call_step l i c :
  blockOnFull l = false → chan_closed l = false → callers l !! i = Some c → rank (pc c) ≠ 0%nat →
  ∃ l' c', audit_step time_json l l' ∧ callers l' !! i = Some c'
    ∧ (rank (pc c') < rank (pc c))%nat ∧ (∀ e, pc c' ≠ LogPanicked e)
    ∧ blockOnFull l' = false ∧ chan_closed l' = false.
Proof.
  intros Hb Hcl Hi Hr.
  destruct (drop_step l (pc c)) as [[l' p']|] eqn:Hs.
  - exists (set_caller l' i (set_pc c p')), (set_pc c p').
    split; [by eapply step_log|]. pose proof (drop_step_rank _ _ _ _ Hs).
    destruct (pc c); simplify_eq/=; (split; [by eapply set_caller_lookup|]);
      unfold set_pc; cbn; repeat case_match; by split_and!.
  - destruct (pc c) as [|e| | | | | |] eqn:Hpc; simplify_eq/=; [|done..].
    assert (∃ l' p', select_step l c e l' p' ∧ callers l' = callers l ∧ (∀ e, p' ≠ LogPanicked e)
              ∧ blockOnFull l' = false ∧ chan_closed l' = false) as (l' & p' & Hsel & Hc & Hp & Hb' & Hcl').
    { destruct (decide (length (events l) < capacity l)%nat).
      - do 2 eexists. split; [by apply select_send|]. by split_and!.
      - do 2 eexists. split; [apply select_default; [done..|lia]|]. by split_and!. }
    exists (set_caller l' i (set_pc c p')), (set_pc c p').
    split; [by eapply step_select|]. split; [by eapply set_caller_lookup|].
    split_and!; [by eapply select_step_rank|done..].
Qed.

(** No step of anybody takes a call back. *)
Lemma call_advances l l' i c :
  audit_step time_json l l' → callers l !! i = Some c →
  ∃ c', callers l' !! i = Some c' ∧ (pc c' = pc c ∨ (rank (pc c') < rank (pc c))%nat).
Proof.
  intros Hs Hi.
  assert (∀ (l1 : AsyncLogger) j cj (p : log_pc), callers l1 = callers l → callers l !! j = Some cj →
    (rank p < rank (pc cj))%nat →
    ∃ c', callers (set_caller l1 j (set_pc cj p)) !! i = Some c' ∧ (pc c' = pc c ∨ (rank (pc c') < rank (pc c))%nat)) as Hset.
  { intros l1 j cj p He Hj Hlt. cbn. rewrite He. destruct (decide (j = i)) as [->|Hne].
    - simplify_eq. eexists. split; [apply list_lookup_insert_eq; by eapply lookup_lt_Some|by right].
    - exists c. by rewrite list_lookup_insert_ne; [split; [|left]|]. }
  destruct Hs as [l e|l|l now Hn|l j cj err Hj Hd|l j cj l1 p Hj Hstep|l j cj e l1 p Hj Hpc Hsel|l e rest werr Hw He|l Hw He Hc|l j Hj|l j Hj Hw];
    cbn; try (exists c; split; [done|by left]).
  - exists c. split; [by apply lookup_app_l_Some|by left].
  - destruct (decide (j = i)) as [->|Hne].
    + simplify_eq. eexists. split; [apply list_lookup_insert_eq; by eapply lookup_lt_Some|by left].
    + exists c. by rewrite list_lookup_insert_ne; [split; [|left]|].
  - apply (Hset l1 j cj p); [|done|by eapply drop_step_rank].
    destruct (pc cj); by simplify_eq/=.
  - apply (Hset l1 j cj p); [by destruct Hsel|done|]. rewrite Hpc. by eapply select_step_rank.
  - unfold worker_event. destruct (Encode _ _ _). exists c. split; [done|by left].
Qed.

(** C30: Without blockOnFull and while Close has not closed the channel, a call of
    Log that has not returned has a step of its own, of at most six, that brings it
    closer to returning and does not panic, whatever state the worker, the buffer
    and the other callers are in; and no step of anybody takes it back. *)
Theorem audit_nonblocking_log_wait_free l i c :
  blockOnFull l = false → chan_closed l = false → callers l !! i = Some c → rank (pc c) ≠ 0%nat →
  (rank (pc c) ≤ 6)%nat
  ∧ (∃ l' c', audit_step time_json l l' ∧ callers l' !! i = Some c'
      ∧ (rank (pc c') < rank (pc c))%nat ∧ (∀ e, pc c' ≠ LogPanicked e)
      ∧ blockOnFull l' = false ∧ chan_closed l' = false)
  ∧ ∀ l', audit_step time_json l l' →
      ∃ c', callers l' !! i = Some c' ∧ (pc c' = pc c ∨ (rank (pc c') < rank (pc c))%nat).
Proof.
  intros Hb Hcl Hi Hr. split_and!; [destruct (pc c); cbn; lia|by apply open_call_step|].
  intros l' Hs. by eapply call_advances.
Qed.

(** A call of Log that selects after Close sends on a closed channel and panics. *)
Theorem audit_log_after_close_panics bufferSize block now l c e l' p' :
  rtc (audit_step time_json) (NewAsyncLogger bufferSize block now) l →
  CloseWait ∈ closers l ∨ CloseReturned ∈ closers l →
  pc c = LogSelect e → select_step l c e l' p' →
  p' = LogPanicked e ∨ blockOnFull l = true ∧ ∃ err, ctx_done c = Some err ∧ p' = DropAdd e err.
Proof.
  intros [] %inv_reachable Hc Hpc Hs. pose proof (inv_waiting0 Hc) as Hcl.
  destruct Hs; [auto|congruence|eauto|congruence].
Qed.

End theorems.
