(* ===== verification/AuditLines.v ===== *)
(** What the worker of the asynchronous audit logger writes: one line of JSON per
    event, which reads back as the event, up to the first error of the writer. *)

From S2P Require Import Prelude GoErrors Contextx Json JsonRead JsonTrip Kafka AsyncAudit AuditFacts.

Open Scope string_scope.
Open Scope list_scope.

Lemma sublist_Forall {A} (P : A → Prop) l k : l `sublist_of` k → Forall P k → Forall P l.
Proof. induction 1; rewrite ?Forall_cons; tauto. Qed.

Lemma sublist_full {A} (l k : list A) : l `sublist_of` k → (length k ≤ length l)%nat → l = k.
Proof.
  induction 1 as [|x l k _ IH|x l k H%sublist_length _]; cbn; intros; [done|f_equal; apply IH; lia|lia].
Qed.

(** [time.Time.MarshalJSON] gives a value on one line (a quoted RFC 3339 time). *)
Class TimeLaws (time_json : Z → result string error) : Prop :=
  time_well_formed : ∀ t s, time_json t = Ok s → well_formed s.

Section lines.
Context (time_json : Z → result string error).

(** The line is the encoding of the event. *)
Definition line_of (line : string) (e : Event) : Prop := json_line (event_gval time_json e) = Ok line.

Record lines_inv (l : AsyncLogger) : Prop := mkLines {
  lines_events : ∃ es, es `sublist_of` processed l ∧ Forall2 line_of (output l) es;
  lines_error : is_Some (enc_err l) → write_errors l ≠ [];
}.

Lemma Encode_line enc e werr enc' line :
  Encode enc (event_gval time_json e) werr = (enc', Ok line) → line_of line e ∧ enc = None ∧ enc' = None.
Proof.
  unfold Encode, line_of. destruct enc as [err|]; [done|].
  destruct (json_line _) as [line'|]; [|done]. destruct werr; [done|]. by intros [= <- <-].
Qed.

Lemma Encode_err enc v werr enc' err :
  Encode enc v werr = (enc', Err err) → is_Some enc → enc = Some err ∧ enc' = Some err.
Proof. intros H [e ->]. by injection H as <- <-. Qed.

(** Every step but the worker's leaves what the worker has done as it is. *)
Definition worker_view (l : AsyncLogger) : list Event * list string * list error * option error :=
  (processed l, output l, write_errors l, enc_err l).

Lemma step_worker_view l l' :
  audit_step time_json l l' →
  worker_view l' = worker_view l
  ∨ ∃ e rest werr, events l = e :: rest ∧ l' = worker_event time_json l e rest werr.
Proof.
  destruct 1 as [| | | |l i c l' p' Hi Hs|l i c e l' p' Hi Hpc Hs|l e rest werr Hw He| | |]; try by left.
  - left. destruct (pc c); simplify_eq/=; done.
  - left. by destruct Hs.
  - right. eauto.
Qed.

Lemma lines_step l l' : lines_inv l → audit_step time_json l l' → lines_inv l'.
Proof.
  intros [(es & Hsub & Hes) Herr] [[= Hp Ho Hw He]|(e & rest & werr & _ & ->)]%step_worker_view.
  { split; [rewrite Hp, Ho; eauto|by rewrite He, Hw]. }
  unfold worker_event. destruct (Encode _ _ _) as [enc [line|err]] eqn:E; split; cbn.
  - apply Encode_line in E as (Hl & _ & _). exists (es ++ [e]). split.
    + by apply sublist_app.
    + apply Forall2_app; [done|]. by repeat constructor.
  - apply Encode_line in E as (_ & _ & ->). by intros [].
  - exists es. split; [by apply sublist_inserts_r|done].
  - intros _. by destruct (write_errors l).
Qed.

Lemma lines_reachable bufferSize block now l :
  rtc (audit_step time_json) (NewAsyncLogger bufferSize block now) l → lines_inv l.
Proof.
  intros Hr. remember (NewAsyncLogger bufferSize block now) as l0 eqn:E.
  assert (lines_inv l0) as H0.
  { subst. split; [|by intros []]. exists []. split; constructor. }
  clear E. induction Hr; eauto using lines_step.
Qed.

(** An event whose values are readable is. *)
Lemma event_readable `{!TimeLaws time_json} e :
  readable (OldValue e) → readable (NewValue e) → readable (event_gval time_json e).
Proof.
  intros Ho Hn. cbn. split_and!; try done.
  - destruct (time_json (Timestamp e)) as [s|] eqn:Et; [by eapply time_well_formed|done].
  - apply (foldr_Forall (λ kv, readable kv.2)), Forall_fmap, Forall_forall. by intros [].
Qed.

(** The event as a reader of the audit log sees it: its member names, the values left
    out when they are nil or empty, the metadata in the order of the keys. *)
Definition optional (absent : bool) (k : string) (v : jval) : list (list ascii * jval) :=
  if absent then [] else [(chars k, v)].
Definition is_nil (v : gval) : bool := match v with GNil => true | _ => false end.

Definition event_view (e : Event) : jval :=
  JObj ([(chars "actor_id", JStr (valid_text (ActorID e)));
         (chars "action", JStr (valid_text (Action e)));
         (chars "resource", JStr (valid_text (Resource e)))]
        ++ optional (is_nil (OldValue e)) "old_value" (view (OldValue e))
        ++ optional (is_nil (NewValue e)) "new_value" (view (NewValue e))
        ++ [(chars "timestamp", match time_json (Timestamp e) with Ok s => parsed s | Err _ => JNull end)]
        ++ optional (bool_decide (Metadata e = [])) "metadata"
             (JObj (map (λ kv, (valid_text kv.1, JStr (valid_text kv.2))) (sort_keys (Metadata e))))
        ++ optional (bool_decide (TraceID e = "")) "trace_id" (JStr (valid_text (TraceID e)))).

Lemma metadata_view m :
  view (GMap (prod_map id GStr <$> m)) = JObj (map (λ kv, (valid_text kv.1, JStr (valid_text kv.2))) (sort_keys m)).
Proof.
  rewrite view_map. f_equal. unfold view_members.
  assert (prod_map id GStr <$> m = map (λ kv, (kv.1, GStr kv.2)) m) as -> by (by apply list_fmap_ext; intros ? []).
  by rewrite sort_keys_map, map_map.
Qed.

Lemma event_gval_view e : view (event_gval time_json e) = event_view e.
Proof.
  unfold event_gval, event_view. rewrite view_struct. f_equal.
  assert (omitted OmitNil (OldValue e) = is_nil (OldValue e)) as Ho by done.
  assert (omitted OmitNil (NewValue e) = is_nil (NewValue e)) as Hn by done.
  assert (omitted OmitEmpty (GMap (prod_map id GStr <$> Metadata e)) = bool_decide (Metadata e = [])) as Hm.
  { cbn. destruct (Metadata e) as [|kv m]; by case_bool_decide. }
  assert (omitted OmitEmpty (GStr (TraceID e)) = bool_decide (TraceID e = "")) as Ht by done.
  cbn [kept]. rewrite Ho, Hn, Hm, Ht. cbn [omitted].
  destruct (is_nil (OldValue e)), (is_nil (NewValue e)), (bool_decide (Metadata e = [])), (bool_decide (TraceID e = ""));
    cbn [view_members map fst snd optional app]; rewrite ?metadata_view; by destruct (time_json (Timestamp e)).
Qed.

Lemma line_reads_back `{!TimeLaws time_json} line e :
  line_of line e → readable (OldValue e) → readable (NewValue e) → reads_as line (event_view e).
Proof.
  intros Hl Ho Hn. rewrite <- event_gval_view.
  apply (json_line_reads_back (event_gval time_json e)); [by apply event_readable|done].
Qed.

(** C13: In every reachable state of the asynchronous audit logger the lines written
    are, in order, one per event for some of the processed events (all of them if no
    error was reported). Each is a single line without control characters whatever
    the event's strings contain, and a JSON parser reads it back as an object with
    actor_id, action and resource, old_value and new_value unless they are nil,
    timestamp, metadata in the order of its keys and trace_id unless they are empty
    (bytes that are not UTF-8 as U+FFFD). It holds for old and new values whose
    integers fit a machine word and whose parts with an encoding of their own
    (floats, marshalers) write one JSON value on one line. *)
Theorem audit_lines_read_back {HT : TimeLaws time_json} bufferSize block now l :
  rtc (audit_step time_json) (NewAsyncLogger bufferSize block now) l →
  Forall (λ e, readable (OldValue e) ∧ readable (NewValue e)) (accepted l) →
  ∃ es, es `sublist_of` processed l
    ∧ Forall2 (λ line e, reads_as line (event_view e)) (output l) es
    ∧ (write_errors l = [] → es = processed l).
Proof.
  intros Hr Hacc. destruct (lines_reachable _ _ _ _ Hr) as [(es & Hsub & Hes) _].
  destruct (inv_reachable _ _ _ _ _ Hr) as [Hfifo _ _ _ _ _ _ Hlen _ _ _].
  exists es. split_and!; [done| |].
  - rewrite Hfifo in Hacc. apply Forall_app in Hacc as [Hp _].
    apply (sublist_Forall _ _ _ Hsub) in Hp. clear -Hes Hp HT.
    induction Hes as [|line e lines es Hl _ IH]; [constructor|].
    apply Forall_cons in Hp as [[Ho Hn] Hp]. constructor; [by apply line_reads_back|by apply IH].
  - intros Hw. apply Forall2_length in Hes. rewrite Hw in Hlen. cbn in Hlen.
    apply sublist_full; [done|]. lia.
Qed.

(** C38: After one error of the writer the worker of the asynchronous audit logger
    never writes again: whatever happens, the output stays the same, and every later
    event is processed with the same error reported and then lost. *)
Theorem audit_write_error_is_final l l' err :
  enc_err l = Some err → rtc (audit_step time_json) l l' →
  output l' = output l
  ∧ ∃ n, length (processed l') = (length (processed l) + n)%nat
         ∧ write_errors l' = write_errors l ++ replicate n err.
Proof.
  intros He Hr.
  cut (enc_err l' = Some err ∧ output l' = output l
    ∧ ∃ n, length (processed l') = (length (processed l) + n)%nat
           ∧ write_errors l' = write_errors l ++ replicate n err); [by intros (_ & ? & ?)|].
  induction Hr as [l|l l1 l' Hstep _ IH]; [split_and!; [done..|exists 0%nat; cbn; rewrite app_nil_r; auto]|].
  assert (worker_view l1 = worker_view l ∨ ∃ e, worker_view l1
            = (processed l ++ [e], output l, write_errors l ++ [err], Some err)) as Hl1.
  { apply step_worker_view in Hstep as [?|(e & rest & werr & _ & ->)]; [by left|right].
    exists e. unfold worker_view, worker_event, Encode. by rewrite He. }
  destruct Hl1 as [[= Hp Ho Hw He1]|[e [= Hp Ho Hw He1]]].
  - rewrite <- Ho, <- Hp, <- Hw. apply IH. congruence.
  - destruct (IH He1) as (? & ? & n & Hn & ->). rewrite Hw, <- Ho. split_and!; [done..|].
    exists (S n). rewrite Hp, length_app in Hn. cbn in *. rewrite <- app_assoc. split; [lia|done].
Qed.

End lines.
