(* ===== verification/AuditSim.v ===== *)
(** An executable scheduler for the audit logger, sound for its step relation,
    and the audit theorems on concrete schedules. *)

From S2P Require Import Prelude GoErrors Contextx Json JsonRead JsonTrip Kafka AsyncAudit AuditFacts AuditLines.

Open Scope string_scope.
Open Scope list_scope.

(** The choices of a scheduler: which goroutine runs, and which ready case a
    select takes. *)
Inductive action : Type :=
| ACall (e : Event)
| ACloseCall
| ATick (now : Z)
| ACtxDone (i : nat) (err : error)
| ALog (i : nat)
| ASelect (i : nat) (prefer_ctx : bool)
| AWorker (werr : option error)
| AWorkerExit
| AClose (i : nat)
| ACloseReturn (i : nat).

Section exec.
Context (time_json : Z → result string error).

(** The select of caller [c] with the given preference. *)
Definition exec_select (l : AsyncLogger) (c : caller) (e : Event) (prefer_ctx : bool) :
    option (AsyncLogger * log_pc) :=
  match blockOnFull l, ctx_done c, prefer_ctx with
  | true, Some err, true => Some (l, DropAdd e err)
  | _, _, _ =>
      if chan_closed l then Some (l, LogPanicked e)
      else if decide (length (events l) < capacity l)%nat
      then Some (send l e, LogReturned e None)
      else if blockOnFull l then None
      else Some (l, DropAdd e ErrAuditBufferFull)
  end.

Definition exec1 (l : AsyncLogger) (a : action) : option AsyncLogger :=
  match a with
  | ACall e =>
      Some (environment l (clock l) (callers l ++ [mkCaller (LogStart e) None]) (closers l))
  | ACloseCall => Some (environment l (clock l) (callers l) (closers l ++ [CloseStart]))
  | ATick now => if (clock l <=? now)%Z then Some (environment l now (callers l) (closers l)) else None
  | ACtxDone i err =>
      c ← callers l !! i;
      match ctx_done c with
      | None => Some (environment l (clock l) (<[i := mkCaller (pc c) (Some err)]> (callers l)) (closers l))
      | Some _ => None
      end
  | ALog i =>
      c ← callers l !! i;
      '(l', p') ← drop_step l (pc c);
      Some (set_caller l' i (set_pc c p'))
  | ASelect i prefer_ctx =>
      c ← callers l !! i;
      match pc c with
      | LogSelect e =>
          '(l', p') ← exec_select l c e prefer_ctx;
          Some (set_caller l' i (set_pc c p'))
      | _ => None
      end
  | AWorker werr =>
      match worker_done l, events l with
      | false, e :: rest => Some (worker_event time_json l e rest werr)
      | _, _ => None
      end
  | AWorkerExit =>
      match worker_done l, events l, chan_closed l with
      | false, [], true => Some (worker_exit l)
      | _, _, _ => None
      end
  | AClose i =>
      match closers l !! i with
      | Some CloseStart => Some (set_closer l i CloseWait true)
      | _ => None
      end
  | ACloseReturn i =>
      match closers l !! i, worker_done l with
      | Some CloseWait, true => Some (set_closer l i CloseReturned (chan_closed l))
      | _, _ => None
      end
  end.

Fixpoint exec (l : AsyncLogger) (acts : list action) : option AsyncLogger :=
  match acts with
  | [] => Some l
  | a :: acts => l' ← exec1 l a; exec l' acts
  end.

Lemma exec_select_sound l c e b l' p' :
  exec_select l c e b = Some (l', p') → select_step l c e l' p'.
Proof.
  unfold exec_select. intros H.
  destruct (blockOnFull l) eqn:Hb, (ctx_done c) eqn:Hd, b, (chan_closed l) eqn:Hcl;
    try case_decide; simplify_eq; eauto using select_step;
    apply select_default; auto; lia.
Qed.

Lemma exec1_sound l a l' : exec1 l a = Some l' → audit_step time_json l l'.
Proof.
  destruct a; cbn; intros H;
    repeat (case_match || simplify_option_eq); simplify_eq;
    eauto using audit_step, exec_select_sound.
  constructor. by apply Z.leb_le.
Qed.

Lemma exec_sound l acts l' : exec l acts = Some l' → rtc (audit_step time_json) l l'.
Proof.
  revert l. induction acts as [|a acts IH]; cbn; intros l H; simplify_eq; [done|].
  destruct (exec1 l a) as [l1|] eqn:E; simplify_eq/=.
  eapply rtc_l; [by eapply exec1_sound|auto].
Qed.

End exec.

(** ** Schedules *)

Definition no_time (_ : Z) : result string error := Ok "0".

Definition ev (action : string) : Event :=
  mkEvent "user-1" action "Order:1" GNil GNil zero_time [] "".

(** A logger with one slot, one minute and a second after 1970. *)
Definition small_logger (block : bool) : AsyncLogger := NewAsyncLogger 1 block (61 * Second).

(** Two calls, then [Close]: the first is accepted, the second dropped. *)
Definition schedule : list action :=
  [ACall (ev "A"); ALog 0; ASelect 0 false; ACall (ev "B"); ALog 1; ASelect 1 false;
   ALog 1; ALog 1; ALog 1; ALog 1; ACloseCall; AClose 0; AWorker None; AWorkerExit; ACloseReturn 0].

Definition after_schedule : AsyncLogger :=
  default (small_logger false) (exec no_time (small_logger false) schedule).

Lemma after_schedule_reachable :
  rtc (audit_step no_time) (NewAsyncLogger 1 false (61 * Second)) after_schedule.
Proof. apply (exec_sound no_time _ schedule). vm_compute. reflexivity. Qed.

Lemma audit_accepts_exactly_once_witness :
  accepted after_schedule = processed after_schedule ++ events after_schedule
  ∧ length (accepted after_schedule) = 1%nat.
Proof.
  split; [|vm_compute; reflexivity].
  apply (audit_accepts_exactly_once no_time 1 false (61 * Second) after_schedule).
  exact after_schedule_reachable.
Defined.

Lemma audit_close_drains_witness :
  events after_schedule = []
  ∧ processed after_schedule ≡ₚ omap returned_ok (callers after_schedule).
Proof.
  apply (audit_close_drains no_time 1 false (61 * Second) after_schedule).
  - exact after_schedule_reachable.
  - vm_compute. left.
Defined.

Lemma audit_drops_accounted_witness :
  (dropCount after_schedule + reported after_schedule = 1)%Z.
Proof.
  rewrite (audit_drops_accounted no_time 1 false (61 * Second) after_schedule).
  - vm_compute. reflexivity.
  - exact after_schedule_reachable.
  - vm_compute. reflexivity.
Defined.

Lemma audit_drop_reasons_witness : ErrAuditBufferFull = ErrAuditBufferFull.
Proof.
  apply (audit_drop_reasons no_time 1 false (61 * Second) after_schedule 1
    (mkCaller (LogReturned (stamp (61 * Second) (ev "B")) (Some ErrAuditBufferFull)) None)
    (stamp (61 * Second) (ev "B")) ErrAuditBufferFull).
  - exact after_schedule_reachable.
  - vm_compute. reflexivity.
  - reflexivity.
Defined.

Lemma audit_nonblocking_log_wait_free_witness :
  let l := default (small_logger false) (exec no_time (small_logger false) [ACall (ev "A")]) in
  ∃ l' c', audit_step no_time l l' ∧ callers l' !! 0%nat = Some c'
    ∧ (rank (pc c') < 6)%nat ∧ (∀ e, pc c' ≠ LogPanicked e) ∧ blockOnFull l' = false ∧ chan_closed l' = false.
Proof.
  destruct (audit_nonblocking_log_wait_free no_time
    (default (small_logger false) (exec no_time (small_logger false) [ACall (ev "A")])) 0
    (mkCaller (LogStart (ev "A")) None)) as (_ & H & _); [vm_compute; reflexivity..|discriminate|exact H].
Defined.

(** A call after [Close]. *)
Definition after_close : AsyncLogger :=
  default (small_logger false) (exec no_time after_schedule [ACall (ev "C"); ALog 2]).

Lemma after_close_reachable :
  rtc (audit_step no_time) (NewAsyncLogger 1 false (61 * Second)) after_close.
Proof.
  etrans; [exact after_schedule_reachable|].
  apply (exec_sound no_time _ [ACall (ev "C"); ALog 2]). vm_compute. reflexivity.
Qed.

Lemma audit_log_after_close_panics_witness :
  let e := stamp (61 * Second) (ev "C") in
  let c := mkCaller (LogSelect e) None in
  LogPanicked e = LogPanicked e
  ∨ blockOnFull after_close = true ∧ ∃ err, ctx_done c = Some err ∧ LogPanicked e = DropAdd e err.
Proof.
  apply (audit_log_after_close_panics no_time 1 false (61 * Second) after_close
    (mkCaller (LogSelect (stamp (61 * Second) (ev "C"))) None)
    (stamp (61 * Second) (ev "C")) after_close).
  - exact after_close_reachable.
  - right. vm_compute. left.
  - reflexivity.
  - apply select_closed. vm_compute. reflexivity.
Defined.

(** Two callers that both pass the time test before either stores the time:
    two warnings within the same minute. *)
Definition racing_schedule : list action :=
  [ACall (ev "A"); ALog 0; ASelect 0 false;
   ACall (ev "B"); ACall (ev "C"); ALog 1; ALog 2; ASelect 1 false; ASelect 2 false;
   ALog 1; ALog 2; ALog 1; ALog 2; ALog 1; ALog 1; ALog 2; ALog 2].

(** Two callers that drop at the same time can both pass the test of the warning's
    time. *)
Theorem audit_warning_rate_limit_races :
  ∃ l, rtc (audit_step no_time) (small_logger false) l
    ∧ warnings l = [(61 * Second, 2); (61 * Second, 0)]%Z.
Proof.
  exists (default (small_logger false) (exec no_time (small_logger false) racing_schedule)).
  split; [|vm_compute; reflexivity].
  apply (exec_sound no_time _ racing_schedule). vm_compute. reflexivity.
Qed.

(** ** The lines *)

#[export] Instance no_time_laws : TimeLaws no_time.
Proof.
  intros t s [= <-]. split; [|by repeat constructor].
  exists (JInt 0). by apply (reads_Itoa 0).
Qed.

(** An actor whose name tries to forge a line of its own; the old value has a float. *)
Definition forger : Event :=
  mkEvent (String "010"%char "{}") "login" "Order:1"
    (GMap [("b", GInt 2); ("a", GBool true); ("c", GOpaque (Ok "-0.25e+3"))]) GNil
    zero_time [("ip", "10.0.0.1")] "".

Definition after_forger : AsyncLogger :=
  default (small_logger true)
    (exec no_time (small_logger true) [ACall forger; ALog 0; ASelect 0 false; AWorker None]).

Lemma float_readable : readable (GOpaque (Ok "-0.25e+3")).
Proof.
  apply number_well_formed. exists ["-"%char], ["0"%char], (chars ".25"), (chars "e+3").
  split_and!; [done|by right|by split; [|repeat constructor]| |].
  - right. exists (chars "25"). split; [done|]. by split; [|repeat constructor].
  - right. exists "e"%char, ["+"%char], ["3"%char]. split_and!; [done|by left|right; by left|]. by split; [|repeat constructor].
Qed.

Lemma audit_lines_read_back_witness :
  Forall2 (λ line e, reads_as line (event_view no_time e)) (output after_forger) (processed after_forger)
  ∧ length (output after_forger) = 1%nat.
Proof.
  destruct (audit_lines_read_back no_time 1 true (61 * Second) after_forger) as (es & _ & H & He).
  - apply (exec_sound no_time _ [ACall forger; ALog 0; ASelect 0 false; AWorker None]). vm_compute. reflexivity.
  - constructor; [|constructor]. split; [|done]. split; [done|]. split; [done|]. split; [|done]. exact float_readable.
  - split; [|vm_compute; reflexivity]. rewrite He in H; [exact H|vm_compute; reflexivity].
Defined.

(** The disk is full for one line. *)
Definition disk_full : error := Sentinel "syscall.ENOSPC" "no space left on device".

Definition after_failure : AsyncLogger :=
  default (NewAsyncLogger 2 true (61 * Second))
    (exec no_time (NewAsyncLogger 2 true (61 * Second))
       [ACall (ev "A"); ALog 0; ASelect 0 false; ACall (ev "B"); ALog 1; ASelect 1 false; AWorker (Some disk_full)]).

Lemma audit_write_error_is_final_witness :
  let l' := default after_failure (exec no_time after_failure [AWorker None]) in
  output l' = output after_failure
  ∧ ∃ n, length (processed l') = (length (processed after_failure) + n)%nat
         ∧ write_errors l' = write_errors after_failure ++ replicate n disk_full.
Proof.
  apply (audit_write_error_is_final no_time after_failure _ disk_full).
  - vm_compute. reflexivity.
  - apply (exec_sound no_time _ [AWorker None]). vm_compute. reflexivity.
Defined.
