(* ===== verification/KafkaLog.v ===== *)
(** [audit/kafka_logger.go] and the [NoopLogger] of [audit/audit.go]: the
    audit loggers that are not buffered here. *)

From S2P Require Import Prelude GoErrors Contextx Json Kafka AsyncAudit.

Open Scope string_scope.
Open Scope list_scope.

Record KafkaLogger (client : Type) : Type := mkKafkaLogger { kl_client : client; kl_topic : string }.
Arguments mkKafkaLogger {client}.
Arguments kl_client {client}.
Arguments kl_topic {client}.

Section kafka_logger.
Context {World client : Type} {KC : KgoClient World client}.
Context (time_json : Z → result string error).

Definition audit_opts (brokers : list string) : list kgo_opt :=
  [SeedBrokers brokers; ProducerBatchCompressionSnappy; AllowAutoTopicCreation; RecordPartitionerRoundRobin].

Definition NewKafkaLogger (brokers : list string) (topic : string) :
    Go World msg_event (result (KafkaLogger client) error) :=
  let topic := if bool_decide (topic = "") then "system.audit.events" else topic in
  r ← lift (kgo_NewClient (audit_opts brokers));
  match r with
  | Err err => mret (Err (Errorf_w "audit: failed to create franz-go client: " err ""))
  | Ok client =>
      perr ← lift (kgo_Ping client);
      match perr with
      | Some err =>
          emit (EvPing false);;
          modify (kgo_Close client);;
          emit EvClientClose;;
          mret (Err (Errorf_w "audit: failed to connect to brokers: " err ""))
      | None =>
          emit (EvPing true);;
          mret (Ok (mkKafkaLogger client topic))
      end
  end.

(** The record is handed to the client; what becomes of it is reported to a
    callback that only writes a log line. *)
Definition KafkaLogger_Log (k : KafkaLogger client) (ctx : context) (event : Event) :
    Go World msg_event (option error) :=
  match json_Marshal (event_gval time_json event) with
  | Err err => mret (Some (Errorf_w "audit: marshal failed: " err ""))
  | Ok payload =>
      let record := mkRecord (kl_topic k) "" payload [] 0 0 in
      emit (EvProduce record);;
      modify (kgo_Produce (kl_client k) ctx record);;
      mret None
  end.

Definition KafkaLogger_Close (k : KafkaLogger client) : Go World msg_event (option error) :=
  modify (kgo_Close (kl_client k));;
  emit EvClientClose;;
  mret None.

(** [NoopLogger.Log] *)
Definition NoopLogger_Log (ctx : context) (event : Event) : Go World msg_event (option error) := mret None.

(** Log fails only when the event has no encoding; the record goes to the client. *)
Theorem kafka_log_outcomes k ctx event w :
  let ρ := KafkaLogger_Log k ctx event w in
  match json_Marshal (event_gval time_json event) with
  | Ok payload =>
      ρ = mkRun (kgo_Produce (kl_client k) ctx (mkRecord (kl_topic k) "" payload [] 0 0) w)
            [EvProduce (mkRecord (kl_topic k) "" payload [] 0 0)] (Ret None)
  | Err e => ρ = mkRun w [] (Ret (Some (Errorf_w "audit: marshal failed: " e "")))
  end.
Proof.
  cbn zeta. unfold KafkaLogger_Log. destruct (json_Marshal _) as [payload|e]; [|done]. cbn zeta.
  rewrite run_emit, run_modify. done.
Qed.

(** A client that cannot be pinged is closed and not returned. *)
Theorem kafka_logger_fails_closed brokers topic w :
  let ρ := NewKafkaLogger brokers topic w in
  let '(w1, res) := kgo_NewClient (audit_opts brokers) w in
  match out ρ with
  | Ret (Ok k) => kl_topic k ≠ "" ∧ res = Ok (kl_client k) ∧ (kgo_Ping (kl_client k) w1).2 = None
                  ∧ EvClientClose ∉ trace ρ
  | Ret (Err _) => match res with
                   | Ok c => (kgo_Ping c w1).2 ≠ None ∧ post ρ = kgo_Close c (kgo_Ping c w1).1
                   | Err _ => post ρ = w1
                   end
  | _ => False
  end.
Proof.
  cbn zeta. unfold NewKafkaLogger. cbn zeta.
  destruct (kgo_NewClient (audit_opts brokers) w) as [w1 [c|e]] eqn:E;
    rewrite (run_lift _ _ _ _ _ E); [|done].
  destruct (kgo_Ping c w1) as [w2 [e|]] eqn:Ep; rewrite (run_lift _ _ _ _ _ Ep), run_emit.
  - rewrite run_modify, run_emit. done.
  - cbn -[kgo_Ping]. rewrite ?Ep. split_and!; [|done..|].
    + destruct (bool_decide (topic = "")) eqn:Et; [done|by apply bool_decide_eq_false in Et].
    + by intros [[=]|[]%not_elem_of_nil]%elem_of_cons.
Qed.

End kafka_logger.
